(* ===== verification/_CoqProject ===== *)
-Q . S2P
Prelude.v
Pb.v
Fs.v
Persistence.v
SnapshotFile.v
Codecs.v
Storage.v
SnapStorage.v
RaftNode.v
RaftElection.v
RaftReplication.v
RaftLog.v
RaftCommit.v
KV.v
RaftSnapshot.v
RaftReadIndex.v
KVServer.v
SnapshotService.v
RaftVotes.v
RaftCompaction.v
RaftCluster.v
RaftSafety.v
RaftSpec.v
RaftViews.v
RaftHealthy.v
RaftCatchUp.v
RaftAnchors.v
RaftImplements.v
RaftRefine.v
RaftCompacting.v
Backup.v
RaftReads.v
RaftStays.v
RaftAcks.v
RaftTickers.v
Harness.v
RaftExamples.v
Examples.v
HarnessExamples.v
RaftRun.v
CompactingRun.v
BackupRun.v
Findings.v
GrpcClients.v
CircuitBreaker.v
Proxy.v
ProxyHttp.v
Discovery.v
EndToEnd.v
EndToEndRun.v
Config.v
Loadgen.v
LoadgenPool.v
Commands.v
Shutdown.v
