(* ===== verification/Prelude.v ===== *)
(** * b5-kvstore: a Raft-lite replicated key-value store, verified

    ** The program

    b5-kvstore (under src/b5-kvstore/) is a replicated string map.  Its parts:

    - consensus nodes (internal/raft): elections, log replication, commit,
      Read-Index reads, log compaction and catch-up from snapshots, on top of
      two files per node, state.json and log.dat (internal/raft/persistence),
      and a snapshot file (internal/snapshotfile);
    - the map every node applies its committed entries to, and the KV service
      it offers (internal/statemachine, cmd/consensus-node);
    - the Snapshot & Backup service (internal/snapshot), which downloads the
      leader's log, keeps a replica, publishes snapshots and asks the leader
      to compact;
    - Service Discovery (internal/discovery), which polls the nodes for who
      leads;
    - the client proxy (internal/proxy), which routes HTTP requests to the
      nodes through one circuit breaker per node (internal/circuitbreaker);
    - a load generator, a test harness with an in-memory network, and the main
      functions (cmd/, internal/raft/harness).

    A write goes proxy -> KV service of the leader -> ProposeSync -> log.dat
    -> AppendEntries to the peers -> commit -> apply -> waiter released.  A
    read goes proxy -> a follower -> Read-Index handshake with the leader ->
    wait until applied -> local map.

    ** Files

    - Prelude: machine integers, the state-and-error monad [GoM], tactics,
      lemmas on lists and integers.
    - Pb: the messages of pkg/pb as records; the interface [Codec] with its
      laws for encoding/json, encoding/gob and protobuf.
    - Fs: the file system, with a list of faults still to come; every system
      call of the source is one operation.
    - Persistence, SnapshotFile: persistence.go and snapshotfile.go down to
      the bytes and the file names.
    - Codecs: one concrete instance per codec, so that everything runs.
    - Storage: the interface [Storage] of the calls internal/raft makes, its
      laws [VoteLaws] and [LogLaws], and the proof that the files of
      Persistence and SnapshotFile satisfy them.  SnapStorage: the same for
      the snapshot files a process finds when it starts ([SnapLaws]).
    - RaftNode (node.go, role.go), RaftElection (election.go),
      RaftReplication (replication.go), RaftSnapshot (compaction.go,
      snapshottransfer.go, snapshotcatchup.go), RaftReadIndex (readindex.go):
      the operations of a node.  The record [Node] has the fields of the Go
      struct; an operation is a step of the monad [NodeM] over the node and
      its storage, polymorphic in both the storage and the state machine.
      Code that gives up the mutex in the middle takes what other goroutines
      do meanwhile as an argument, or is split into one step per critical
      section.
    - RaftLog, RaftCommit, RaftCompaction: the invariant that memory and
      log.dat agree ([synced]) and the behaviour of each operation on a
      healthy disk.
    - RaftVotes, RaftCluster, RaftSafety: a cluster of nodes with an
      unreliable network, failing storage, crashes and restarts as a step
      relation, and election safety.
    - RaftSpec: an abstract Raft without messages, roles or files, with its
      invariant and safety theorems.  RaftViews: a compacted log as a view of
      a whole one.  RaftHealthy: what each handler does to a node that holds a
      whole log from its compaction point on and whose disk works.
      RaftAnchors: what the handlers leave of compaction point, directory and
      snapshot file.  RaftImplements: the relation between nodes and RaftSpec,
      and that each step of running nodes keeps it.
    - RaftRefine: the simulation of RaftSpec by nodes that restart, and what
      follows for their logs.  RaftCompacting: the simulation by nodes that
      also compact and restart from snapshots, which need not be the state after
      exactly the entries they cover ([sound]).  Backup: the same together with
      the Snapshot & Backup service, whose catalog serves its replica at every
      moment, during a cycle and after an aborted one too.
      RaftReads: RaftRefine's runs for the Read-Index handshake.  RaftAcks: the
      same for the callers of ProposeSync, whose channels are followed from the
      proposal to the answer.  RaftStays: the
      tactic that walks through an operation.  RaftCatchUp: the leader's
      backing off for one follower, as a loop of the two handlers.
    - RaftTickers: Start, Stop and the three background loops of a node, with
      the clock; each critical section of a loop is an event, and handlers and
      clients act in between.
    - RaftRun: a run of three nodes (election, proposal, commit, change of
      leader) at which the theorems of RaftRefine, RaftReads, RaftAcks and
      RaftCatchUp are applied.  CompactingRun, BackupRun: it goes on with an
      aborted and a completed cycle of the backup service, compaction and
      restarts, for the theorems of Backup.
    - Harness, HarnessExamples: internal/raft/harness (the in-memory network
      with its filters, the cluster and its catalog) on top of RaftCluster.
    - KV, KVServer: statemachine.go, server.go and the ApplyFn of
      cmd/consensus-node.
    - SnapshotService: store.go, catalog_server.go, compaction.go and
      snapshotcatalogclient.
    - GrpcClients: every client of a gRPC service (raft/grpctransport,
      discovery/prober.go, proxy/client.go, snapshot/transferclient.go and the
      rest): connection caches, dial options, streams.
    - CircuitBreaker, Proxy, ProxyHttp: circuitbreaker.go, proxy.go,
      errors.go, http.go with its routes.
    - Discovery: registry.go, server.go with the change reports.  Config: all
      loaders of environment variables and the PEERS parsing of
      cmd/consensus-node.
    - EndToEnd, EndToEndRun: nodes, discovery and proxy put together, with
      the polling loops of the latter two; a client's write from the proxy to
      the log.
    - Commands: the start-up of the main functions.  Shutdown: what they serve
      and how they end; snapshotdump.
    - Loadgen, LoadgenPool: cmd/loadgen; the worker, the percentiles, the pool
      of workers, the CSV file and the printed summary.
    - RaftExamples, Examples: concrete runs, one per theorem with hypotheses.
    - Findings: runs and theorems about behaviour the code does not intend.

    ** What the theorems show

    - Safety of the replicated log: [election_safety] and [vote_durable],
      under storage faults, message loss, delay and repetition, and restarts
      after crashes that keep state.json; [nodes_refine_spec], [log_matching], [leader_completeness],
      [state_machine_safety] and [nodes_stay_wellformed], for nodes whose
      disks work, under message loss, delay, repetition and reordering,
      elections and restarts at any time and proposals at any leader, without
      compaction, snapshots and catch-up; [backed_up_cluster_refines_spec] and
      [compaction_keeps_committed] for the same with compaction, restarts from
      snapshots and the backup service.
    - Acknowledged writes: [acked_write_survives] for a node's clients and
      [client_write_survives] for those of the proxy, in the same runs.
    - Each handler on every branch: [RequestVote_correct],
      [AppendEntries_accept], [AppendEntries_refuse], [ProposeSync_correct],
      [applyCommitted_correct], [commit_rule], [ConfirmCompaction_correct]; also
      [broadcast_total] and [StreamLogRange_exact].
    - Progress: [lagging_follower_catches_up].
    - Failure detection: [heard_leader_not_challenged] and
      [silent_leader_challenged], over runs of a node's loops with the clock;
      also [Stop_safe] and [pollLoop_once].
    - Durability: [append_crash_safe], [rewrites_atomic],
      [consensus_main_recovers]; also [restart_recovers] and
      [Latest_highest].
    - Reads and writes end to end: [linearizable_read], for a leader that has
      committed an entry of its own term; [follower_get],
      [KV_last_writer_wins], [snapshot_replay]; also [write_ack] and
      [read_index_quorum].
    - The snapshot service: [service_snapshots_exact], [fetch_roundtrip]; also
      [transfer_range_exact].
    - Processes: [processes_close_what_they_open]; also
      [connections_cached_and_closed] and [dial_targets].
    - Proxy and discovery: [proxy_finds_leader], [write_at_most_once],
      [get_authoritative], [http_surface], [breakers_shield]; also
      [poll_leader], [change_reports_exact] and [round_robin_fair].
    - Tools: [harness_is_cluster_network]; also [peers_partition],
      [NewCluster_initial], [applied_sequences_agree],
      [worker_reads_own_writes], [percentile_nearest_rank],
      [pool_serves_every_job] and [results_file_complete].
    - Where the code falls short: [catchUp_forgets],
      [power_loss_double_vote], [uncommitted_entry_published], [backoff_livelock],
      [new_leader_stale_read_index], [guard_blocks_forever],
      [single_node_never_commits], [anchor_applied_as_put],
      [leftover_tmp_blocks_start], [zero_heartbeat_accepted],
      [wait_for_leader_ignores_terms].

    ** Bounds

    uint64 arithmetic wraps at 2^64 as in Go.  The theorems on cluster runs
    are for runs of at most 2^64 - 1 steps, since a step may raise a term or
    lengthen a log by one.  Fuel is always a count the loop itself cannot
    exceed: [read_loop] gets the length of the file plus one, [apply_loop] the
    distance from lastApplied to commitIndex, [chunks] the number of bytes,
    [find_commit] and [collect_entries] the number of indices, the redirect
    loops maxHops.  [percentile_nearest_rank] is checked for up to 1000
    samples, by evaluation of the floating-point product.

    ** Parameters and what is left out

    Parameters: the codecs, gobreaker, the gRPC library with its stubs, the
    clock and the random source, the answers of remote nodes, JSON bodies.
    Left out: log output, goroutine scheduling below the critical sections,
    the servers and signal handling behind the main functions, the HTTP client
    and the time zone of the load generator, and the generated code of pkg/pb
    beyond its messages.

    The disk: in the file model a write stays once its call has returned, so
    crashes are crashes of the process; of the files only log.dat is synced, and
    a power failure may also undo the last writes of the others.  For state.json
    the comment of SaveState (persistence.go:63-69) accepts that a crash may
    bring back the file from before a vote.  [election_safety] and
    [vote_durable] are for crashes that keep state.json, whatever else they take
    from the disk ([crash]); [power_loss_double_vote] shows what the others
    allow.  Restarts in the other theorems find the files as they were written.

    The simulations leave two things out because the code does not implement
    RaftSpec there: catch-up, which replaces a log by a snapshot and drops the
    entries above it ([catchUp_forgets]), and ranges streamed to the service
    that are not committed at the node that streams them
    ([uncommitted_entry_published]).  The catalog serves the replica under the
    boundary of the last committed cycle, so a file may hold a newer map than
    its boundary says; a node restarted from it has a map newer than its
    lastApplied, and is right again once it has applied all the service had.
    [backed_up_cluster_refines_spec] and [compaction_keeps_committed] say so
    ([sy_top], [settled]); [service_snapshots_exact], about the service alone,
    has the exact maps, for leaders that stream one history and never know less
    of it than those before.  [acked_write_survives], [client_write_survives],
    [linearizable_read] and the theorems of RaftRefine are for runs without
    compaction, snapshots and catch-up. *)

From Stdlib Require Export ZArith Lia.
From Stdlib Require Import Strings.Byte.
From stdpp Require Export base numbers option strings fin_maps gmap list.

#[global] Open Scope Z_scope.

(** ** Machine integers

    Go's [uint64] is a [Z] kept in [0, 2^64); every arithmetic operation the
    source does on it wraps.  [uint32] is used once, for the length prefix of
    a log record. *)

Definition u64_max : Z := 18446744073709551615.

Definition wrap64 (z : Z) : Z := z `mod` 18446744073709551616.

(** Go's [int] (64 bits, two's complement). *)
Definition wrap_int (z : Z) : Z :=
  (z + 9223372036854775808) `mod` 18446744073709551616 - 9223372036854775808.

Definition is_u64 (z : Z) : Prop := 0 ≤ z ≤ u64_max.

Declare Scope go_scope.
Delimit Scope go_scope with go.
Notation "a +u b" := (wrap64 (a + b)) (at level 50, left associativity) : go_scope.
Notation "a -u b" := (wrap64 (a - b)) (at level 50, left associativity) : go_scope.
Notation "a *u b" := (wrap64 (a * b)) (at level 40, left associativity) : go_scope.
#[global] Open Scope go_scope.

(** Go's [uint64(len(s))]. *)
Definition zlen {A} (l : list A) : Z := Z.of_nat (length l).

(** ** Go errors and the error monad

    A Go function that mutates a state [St] and returns [(A, error)] is a
    [GoM St A]: the state reached is kept on the error path too, exactly as
    an early [return nil, err] leaves the receiver as it is. *)

Inductive goerr : Type :=
| ErrNotExist
| ErrIO
| ErrDecode
| ErrEncode
| ErrNotLeader
| ErrLeadershipLost
| ErrReadIndexUnavailable
| ErrCtxDone
| ErrTransport
| ErrOpenState
| ErrTooManyRequests
| ErrMsg (s : string).

Inductive result (A : Type) : Type :=
| Ok (a : A)
| Err (e : goerr).
Arguments Ok {A} a.
Arguments Err {A} e.

Definition GoM (St A : Type) : Type := St → result A * St.

#[global] Instance GoM_ret St : MRet (GoM St) := λ A a s, (Ok a, s).
#[global] Instance GoM_bind St : MBind (GoM St) := λ A B f m s,
  match m s with
  | (Ok a, s') => f a s'
  | (Err e, s') => (Err e, s')
  end.

Definition gfail {St A} (e : goerr) : GoM St A := λ s, (Err e, s).
Definition gget {St} : GoM St St := λ s, (Ok s, s).
Definition gput {St} (s : St) : GoM St unit := λ _, (Ok tt, s).
Definition gmodify {St} (f : St → St) : GoM St unit := λ s, (Ok tt, f s).

(** [err]-as-a-value: run [m] and hand its error to the caller, as
    [x, err := m()] does before the [if err != nil]. *)
Definition gtry {St A} (m : GoM St A) : GoM St (result A) := λ s,
  let '(r, s') := m s in (Ok r, s').

Definition is_ok {A} (r : result A) : bool :=
  match r with Ok _ => true | Err _ => false end.

(** The value of a result that is known to be [Ok] by computation. *)
Definition get_ok {A : Type} (r : result A) :
    match r return Type with Ok _ => A | Err _ => unit end :=
  match r with Ok a => a | Err _ => tt end.

#[global] Instance goerr_eq_dec : EqDecision goerr.
Proof. solve_decision. Defined.
#[global] Instance result_eq_dec A `{EqDecision A} : EqDecision (result A).
Proof. solve_decision. Defined.
#[global] Instance byte_eq_dec : EqDecision byte := Byte.byte_eq_dec.

(** ** Tactics *)

(** Unfold the monad down to matches on concrete results. *)
Ltac unfold_go :=
  unfold mbind, mret, GoM_bind, GoM_ret, gget, gput, gmodify, gfail, gtry in *;
  cbv beta match in *.

Ltac zbool :=
  repeat match goal with
  | H : (_ <? _)%Z = true |- _ => apply Z.ltb_lt in H
  | H : (_ <? _)%Z = false |- _ => apply Z.ltb_ge in H
  | H : (_ <=? _)%Z = true |- _ => apply Z.leb_le in H
  | H : (_ <=? _)%Z = false |- _ => apply Z.leb_gt in H
  | H : (_ >? _)%Z = _ |- _ => rewrite Z.gtb_ltb in H
  | H : (_ >=? _)%Z = _ |- _ => rewrite Z.geb_leb in H
  | H : (_ =? _)%Z = true |- _ => apply Z.eqb_eq in H
  | H : (_ =? _)%Z = false |- _ => apply Z.eqb_neq in H
  | H : bool_decide _ = true |- _ => apply bool_decide_eq_true in H
  | H : bool_decide _ = false |- _ => apply bool_decide_eq_false in H
  | H : (_ && _)%bool = true |- _ => apply andb_true_iff in H; destruct H
  | H : (_ || _)%bool = false |- _ => apply orb_false_iff in H; destruct H
  | H : negb _ = true |- _ => apply negb_true_iff in H
  | H : negb _ = false |- _ => apply negb_false_iff in H
  end.

(** Split on the first boolean test of the goal, naming it, and turn it into
    arithmetic. *)
Ltac ztest E :=
  match goal with
  | |- context [if ?b then _ else _] => destruct b eqn:E
  end; zbool.

Lemma bind_Ok {St A B} (m : GoM St A) (f : A → GoM St B) s a s' :
  m s = (Ok a, s') → (m ≫= f) s = f a s'.
Proof. unfold mbind, GoM_bind. by intros ->. Qed.

Lemma bind_Err {St A B} (m : GoM St A) (f : A → GoM St B) s e s' :
  m s = (Err e, s') → (m ≫= f) s = (Err e, s').
Proof. unfold mbind, GoM_bind. by intros ->. Qed.

(** Every way a bind can go. *)
Lemma bind_inv {St A B} (m : GoM St A) (f : A → GoM St B) s r s'' :
  (m ≫= f) s = (r, s'') →
  (∃ a s', m s = (Ok a, s') ∧ f a s' = (r, s'')) ∨ (∃ e, m s = (Err e, s'') ∧ r = Err e).
Proof.
  unfold mbind, GoM_bind. destruct (m s) as [[a|e] s'] eqn:E; intros H.
  - left. by exists a, s'.
  - right. simplify_eq. by exists e.
Qed.

(** Step over a call whose outcome is known. *)
Tactic Notation "go_step" open_constr(H) := first [rewrite (bind_Ok _ _ _ _ _ H) | rewrite (bind_Err _ _ _ _ _ H)].

(** ** Arithmetic of the wrap *)

Lemma wrap64_small (z : Z) : is_u64 z → wrap64 z = z.
Proof. unfold is_u64, u64_max, wrap64. intros ?. apply Z.mod_small. lia. Qed.

Lemma wrap64_is_u64 (z : Z) : is_u64 (wrap64 z).
Proof.
  unfold is_u64, u64_max, wrap64.
  pose proof (Z.mod_pos_bound z 18446744073709551616). lia.
Qed.

Lemma wrap_int_small (z : Z) :
  -9223372036854775808 ≤ z < 9223372036854775808 → wrap_int z = z.
Proof. intros ?. unfold wrap_int. rewrite Z.mod_small; lia. Qed.

Ltac u64 := unfold is_u64, u64_max in *; lia.

Create HintDb u64db.
#[export] Hint Resolve wrap64_is_u64 : u64db.
#[export] Hint Extern 1 (is_u64 _) => unfold is_u64, u64_max in *; lia : u64db.

(** Remove every wrap whose argument [lia] can show to be in range. *)
Ltac unwrap :=
  repeat match goal with
  | |- context [wrap64 ?z] => rewrite (wrap64_small z) by u64
  | H : context [wrap64 ?z] |- _ => rewrite (wrap64_small z) in H by u64
  end.

(** ** Lists *)

Lemma zlen_nonneg {A} (l : list A) : 0 ≤ zlen l.
Proof. unfold zlen. lia. Qed.
#[export] Hint Resolve zlen_nonneg : u64db.

Lemma zlen_app {A} (l k : list A) : zlen (l ++ k) = zlen l + zlen k.
Proof. unfold zlen. rewrite length_app. lia. Qed.

Lemma zlen_cons {A} (x : A) (l : list A) : zlen (x :: l) = zlen l + 1.
Proof. unfold zlen. simpl. lia. Qed.

Lemma zlen_nil {A} : zlen (@nil A) = 0.
Proof. reflexivity. Qed.

Lemma zlen_take {A} (k : nat) (l : list A) :
  (k ≤ length l)%nat → zlen (take k l) = Z.of_nat k.
Proof. intros ?. unfold zlen. rewrite length_take. lia. Qed.

Lemma zlen_drop {A} (k : nat) (l : list A) :
  (k ≤ length l)%nat → zlen (drop k l) = zlen l - Z.of_nat k.
Proof. intros ?. unfold zlen. rewrite length_drop. lia. Qed.

#[export] Hint Rewrite @zlen_app @zlen_cons @zlen_nil : zlen.

Lemma Forall_filter {A} (P Q : A → Prop) `{∀ x, Decision (Q x)} (l : list A) :
  Forall P l → Forall P (filter Q l).
Proof.
  rewrite !Forall_forall. intros Hl x. rewrite list_elem_of_filter. naive_solver.
Qed.

Lemma filter_all {A} (P : A → Prop) `{∀ x, Decision (P x)} (l : list A) :
  Forall P l → filter P l = l.
Proof. induction 1 as [|x l Hx _ IH]; [done|]. by rewrite filter_cons_True, IH. Qed.

(** Two lists that share more than half of a duplicate-free universe meet:
    the counting fact behind every quorum argument. *)
Lemma quorum_intersection (U Q1 Q2 : list string) :
  NoDup U → NoDup Q1 → NoDup Q2 → Q1 ⊆ U → Q2 ⊆ U →
  (length U < length Q1 + length Q2)%nat →
  ∃ x, x ∈ Q1 ∧ x ∈ Q2.
Proof.
  intros HU H1 H2 HS1 HS2 Hlen.
  destruct (decide (Exists (λ x, x ∈ Q2) Q1)) as [E|E].
  - apply Exists_exists in E as (x & ? & ?). by exists x.
  - exfalso.
    assert (HD : NoDup (Q1 ++ Q2)).
    { apply NoDup_app. split; [done|]. split; [|done].
      intros x Hx1 Hx2. apply E. apply Exists_exists. by exists x. }
    assert (HS : Q1 ++ Q2 ⊆ U).
    { intros x [?|?]%elem_of_app; auto. }
    pose proof (submseteq_length _ _ (NoDup_submseteq _ _ HD HS)) as Hle.
    rewrite length_app in Hle. lia.
Qed.

(** ** Strings *)

Lemma string_length_app (s t : string) :
  String.length (s +:+ t) = (String.length s + String.length t)%nat.
Proof. induction s as [|c s IH]; simpl; [done|]. by rewrite IH. Qed.

Lemma string_app_assoc (s t u : string) : s +:+ (t +:+ u) = (s +:+ t) +:+ u.
Proof. induction s as [|c s IH]; [done|].
  change (String c (s +:+ (t +:+ u)) = String c ((s +:+ t) +:+ u)). by rewrite IH.
 Qed.
