(* ===== verification/Pb.v ===== *)
(** * Protocol messages (pkg/pb, generated from api/proto) and log entries

    The generated Go structs are records here; their [GetX] accessors are the
    projections (a nil message reads as the zero value, which is what the
    [zero_*] constants are for).  [uint64] fields are [Z], [bytes] are lists
    of bytes, [repeated] fields are lists. *)

From Stdlib Require Import Strings.Byte.
From S2P Require Import Prelude.

(** persistence.LogEntry and pb.LogEntry have the same three fields; the
    source copies one into the other field by field. *)
Record LogEntry : Type := MkLogEntry {
  e_Term : Z;
  e_Index : Z;
  e_Command : list byte
}.

Inductive PbRole : Type := Role_FOLLOWER | Role_CANDIDATE | Role_LEADER.

Record RequestVoteRequest : Type := MkRequestVoteRequest {
  rv_Term : Z;
  rv_CandidateId : string;
  rv_LastLogIndex : Z;
  rv_LastLogTerm : Z
}.

Record RequestVoteReply : Type := MkRequestVoteReply {
  rvr_Term : Z;
  rvr_VoteGranted : bool
}.

Record AppendEntriesRequest : Type := MkAppendEntriesRequest {
  ae_Term : Z;
  ae_LeaderId : string;
  ae_PrevLogIndex : Z;
  ae_PrevLogTerm : Z;
  ae_Entries : list LogEntry;
  ae_LeaderCommit : Z
}.

Record AppendEntriesReply : Type := MkAppendEntriesReply {
  aer_Term : Z;
  aer_Success : bool;
  aer_ConflictIndex : Z;
  aer_ConflictTerm : Z
}.

Record GetStatusReply : Type := MkGetStatusReply {
  gs_Role : PbRole;
  gs_Term : Z;
  gs_Address : string;
  gs_NodeId : string
}.

Record ReadIndexRequest : Type := MkReadIndexRequest {
  ri_FollowerId : string
}.

Record ReadIndexReply : Type := MkReadIndexReply {
  rir_Ok : bool;
  rir_ReadIndex : Z;
  rir_RedirectLeader : string
}.

(** kv.proto *)

Record GetReply : Type := MkGetReply {
  gr_Found : bool;
  gr_Value : string;
  gr_RedirectLeader : string;
  gr_Ok : bool
}.

Record WriteReply : Type := MkWriteReply {
  wr_Success : bool;
  wr_RedirectLeader : string;
  wr_CommitIndex : Z
}.

(** An open enum in proto3: a value outside the three named ones can arrive
    on the wire and is kept as it is. *)
Inductive KVCommand_Op : Type :=
| KVCommand_PUT
| KVCommand_DELETE
| KVCommand_UPDATE
| KVCommand_Unknown (n : Z).

Record KVCommand : Type := MkKVCommand {
  c_Op : KVCommand_Op;
  c_Key : string;
  c_Value : string
}.

(** snapshot.proto *)

Record LogStatusReply : Type := MkLogStatusReply {
  ls_TotalEntries : Z;
  ls_OccupancyPercent : Z;
  ls_FirstIndex : Z;
  ls_LastIndex : Z
}.

Record CompactionAck : Type := MkCompactionAck {
  ca_TruncatedUpToIndex : Z;
  ca_StateMachineSnapshot : list byte
}.

Record SnapshotInfo : Type := MkSnapshotInfo {
  si_LastIncludedIndex : Z;
  si_LastIncludedTerm : Z;
  si_Available : bool
}.

Record SnapshotChunk : Type := MkSnapshotChunk {
  ch_Data : list byte;
  ch_IsLast : bool
}.

(** discovery.proto *)

Record NodeInfo : Type := MkNodeInfo {
  ni_NodeId : string;
  ni_Address : string;
  ni_Role : PbRole;
  ni_Term : Z
}.

Record ClusterView : Type := MkClusterView {
  cv_LeaderAddress : string;
  cv_Followers : list NodeInfo;
  cv_AllNodes : list NodeInfo
}.

Definition zero_ClusterView : ClusterView := MkClusterView "" [] [].

#[global] Instance LogEntry_eq_dec : EqDecision LogEntry.
Proof. solve_decision. Defined.
#[global] Instance PbRole_eq_dec : EqDecision PbRole.
Proof. solve_decision. Defined.
#[global] Instance KVCommand_Op_eq_dec : EqDecision KVCommand_Op.
Proof. solve_decision. Defined.
#[global] Instance KVCommand_eq_dec : EqDecision KVCommand.
Proof. solve_decision. Defined.
#[global] Instance NodeInfo_eq_dec : EqDecision NodeInfo.
Proof. solve_decision. Defined.
#[global] Instance ClusterView_eq_dec : EqDecision ClusterView.
Proof. solve_decision. Defined.

(** ** Codecs outside the repository

    encoding/gob, encoding/json and protobuf are libraries the program only
    calls.  A [Codec] is their interface; [CodecLaws] is the one documented
    fact the program relies on: what was encoded decodes back to the value.
    Values whose integers are not in range for their Go type do not exist in
    the program, hence the [wf] predicate. *)
Class Codec (T : Type) : Type := {
  codec_enc : T → option (list byte);
  codec_dec : list byte → option T
}.

Class CodecLaws (T : Type) `{Codec T} (wf : T → Prop) : Prop := {
  codec_roundtrip : ∀ x b, wf x → codec_enc x = Some b → codec_dec b = Some x
}.

(** A log entry whose integers are [uint64]s. *)
Definition entry_wf (e : LogEntry) : Prop := is_u64 (e_Term e) ∧ is_u64 (e_Index e).
