(* ===== verification/Fs.v ===== *)
(** * The file-system calls the program makes, with faults

    A node's data directory is a set of named files.  [filepath.Join(dir,
    name)] is the pair [(dir, name)]: every name the program joins is a
    single path element.  A [World] also holds the faults still to come: each
    system call consumes one, and an empty list means that every further call
    succeeds.  A failing write may leave a prefix of the data behind, which
    is how a torn append or a full disk looks. *)

From Stdlib Require Import Strings.Byte.
From stdpp Require Import sorting.
From S2P Require Import Prelude.

Definition Path : Type := string * string.

Inductive Fault : Type :=
| NoFault
| FailBefore
| FailPartial (written : nat).

Record World : Type := MkWorld {
  w_files : gmap Path (list byte);
  w_dirs : gset string;
  w_faults : list Fault
}.

Definition set_files (f : gmap Path (list byte)) (w : World) : World :=
  MkWorld f (w_dirs w) (w_faults w).

Definition arm (fs : list Fault) (w : World) : World :=
  MkWorld (w_files w) (w_dirs w) fs.

(** The next system call's fate. *)
Definition next_fault : GoM World Fault := λ w,
  match w_faults w with
  | [] => (Ok NoFault, w)
  | f :: fs => (Ok f, arm fs w)
  end.

Definition path_tmp (p : Path) : Path := (p.1, p.2 +:+ ".tmp").

Definition os_MkdirAll (dir : string) : GoM World unit :=
  f ← next_fault;
  match f with
  | NoFault => gmodify (λ w, MkWorld (w_files w) ({[dir]} ∪ w_dirs w) (w_faults w))
  | _ => gfail ErrIO
  end.

Definition os_ReadFile (p : Path) : GoM World (list byte) :=
  f ← next_fault;
  match f with
  | NoFault =>
      w ← gget;
      match w_files w !! p with
      | None => gfail ErrNotExist
      | Some data => mret data
      end
  | _ => gfail ErrIO
  end.

(** Creates or truncates [p], then writes [data]. *)
Definition os_WriteFile (p : Path) (data : list byte) : GoM World unit :=
  f ← next_fault;
  match f with
  | NoFault => gmodify (λ w, set_files (<[p := data]> (w_files w)) w)
  | FailBefore => gfail ErrIO
  | FailPartial n =>
      gmodify (λ w, set_files (<[p := take n data]> (w_files w)) w);;
      gfail ErrIO
  end.

(** Atomic: either [b] names what [a] named, or nothing changed. *)
Definition os_Rename (a b : Path) : GoM World unit :=
  f ← next_fault;
  match f with
  | NoFault =>
      w ← gget;
      match w_files w !! a with
      | None => gfail ErrNotExist
      | Some data => gput (set_files (<[b := data]> (delete a (w_files w))) w)
      end
  | _ => gfail ErrIO
  end.

(** [_ = os.Remove(p)]: the error is dropped by every caller. *)
Definition os_Remove (p : Path) : GoM World unit :=
  f ← next_fault;
  match f with
  | NoFault => gmodify (λ w, set_files (delete p (w_files w)) w)
  | _ => mret tt
  end.

(** [os.OpenFile] with [O_CREATE]: an absent file becomes an empty one. *)
Definition os_OpenCreate (p : Path) : GoM World unit :=
  f ← next_fault;
  match f with
  | NoFault =>
      w ← gget;
      gput (set_files (<[p := default [] (w_files w !! p)]> (w_files w)) w)
  | _ => gfail ErrIO
  end.

(** [os.OpenFile] with [O_CREATE|O_TRUNC]. *)
Definition os_OpenTrunc (p : Path) : GoM World unit :=
  f ← next_fault;
  match f with
  | NoFault => gmodify (λ w, set_files (<[p := []]> (w_files w)) w)
  | _ => gfail ErrIO
  end.

(** [f.Write(data)] at the end of [p]. *)
Definition f_Append (p : Path) (data : list byte) : GoM World unit :=
  f ← next_fault;
  w ← gget;
  let old := default [] (w_files w !! p) in
  match f with
  | NoFault => gput (set_files (<[p := old ++ data]> (w_files w)) w)
  | FailBefore => gfail ErrIO
  | FailPartial n =>
      gput (set_files (<[p := old ++ take n data]> (w_files w)) w);;
      gfail ErrIO
  end.

Definition f_Sync : GoM World unit :=
  f ← next_fault;
  match f with NoFault => mret tt | _ => gfail ErrIO end.

Definition f_Close : GoM World unit :=
  f ← next_fault;
  match f with NoFault => mret tt | _ => gfail ErrIO end.

Definition f_Truncate (p : Path) (n : nat) : GoM World unit :=
  f ← next_fault;
  match f with
  | NoFault =>
      gmodify (λ w, set_files (<[p := take n (default [] (w_files w !! p))]> (w_files w)) w)
  | _ => gfail ErrIO
  end.

(** [io.ReadFull] of [n] bytes from the unread rest of a file. *)
Inductive ReadRes : Type :=
| RFull (chunk rest : list byte)
| REOF
| RUnexpectedEOF
| RError.

(** The outcome of a read that meets no fault. *)
Definition read_full (n : Z) (rest : list byte) : ReadRes :=
  if n <=? zlen rest then RFull (take (Z.to_nat n) rest) (drop (Z.to_nat n) rest)
  else if decide (rest = []) then REOF else RUnexpectedEOF.

Definition io_ReadFull (n : Z) (rest : list byte) : GoM World ReadRes :=
  if n =? 0 then mret (RFull [] rest) else
  f ← next_fault;
  match f with
  | NoFault => mret (read_full n rest)
  | _ => mret RError
  end.

(** The file names of a directory, sorted, as [os.ReadDir] returns them. *)
Definition dir_names (dir : string) (w : World) : list string :=
  merge_sort (λ a b, Is_true (String.leb a b))
    (map (snd ∘ fst) (filter (λ kv, kv.1.1 = dir) (map_to_list (w_files w)))).

Definition os_ReadDir (dir : string) : GoM World (list string) :=
  f ← next_fault;
  match f with
  | NoFault =>
      w ← gget;
      if decide (dir ∈ w_dirs w) then mret (dir_names dir w) else gfail ErrNotExist
  | _ => gfail ErrIO
  end.

(** ** Facts *)

Lemma path_tmp_ne (p : Path) : path_tmp p ≠ p.
Proof.
  destruct p as [d b]. unfold path_tmp. simpl. intros [=H].
  assert (String.length (b +:+ ".tmp") = String.length b) as HL by (by rewrite H).
  rewrite string_length_app in HL. simpl in HL. lia.
Qed.

Lemma next_fault_files (w w' : World) (r : result Fault) :
  next_fault w = (r, w') → w_files w' = w_files w ∧ ∃ f, r = Ok f.
Proof. unfold next_fault. destruct (w_faults w); intros [= <- <-]; eauto. Qed.

(** A call run in a world without faults. *)
Definition no_faults (w : World) : Prop := w_faults w = [].

Lemma next_fault_none (w : World) : no_faults w → next_fault w = (Ok NoFault, w).
Proof. unfold no_faults, next_fault. by intros ->. Qed.

Lemma io_ReadFull_quiet (n : Z) (rest : list byte) (w : World) :
  no_faults w → 0 ≤ n → io_ReadFull n rest w = (Ok (read_full n rest), w).
Proof.
  intros Hw Hn. unfold io_ReadFull, read_full. destruct (n =? 0) eqn:E; zbool.
  - subst n. rewrite (proj2 (Z.leb_le 0 _) (zlen_nonneg rest)). done.
  - by go_step (next_fault_none w Hw).
Qed.

Lemma f_Truncate_quiet (p : Path) (n : nat) (w : World) :
  no_faults w →
  f_Truncate p n w =
    (Ok tt, set_files (<[p := take n (default [] (w_files w !! p))]> (w_files w)) w).
Proof. intros Hw. unfold f_Truncate. by go_step (next_fault_none w Hw). Qed.

Definition with_dir (dir : string) (w : World) : World :=
  MkWorld (w_files w) ({[dir]} ∪ w_dirs w) (w_faults w).

Lemma os_MkdirAll_quiet (dir : string) (w : World) :
  no_faults w → os_MkdirAll dir w = (Ok tt, with_dir dir w).
Proof. intros Hw. unfold os_MkdirAll. by go_step (next_fault_none w Hw). Qed.

Lemma os_OpenCreate_quiet (p : Path) (w : World) :
  no_faults w →
  os_OpenCreate p w = (Ok tt, set_files (<[p := default [] (w_files w !! p)]> (w_files w)) w).
Proof. intros Hw. unfold os_OpenCreate. by go_step (next_fault_none w Hw). Qed.

Lemma os_OpenTrunc_quiet (p : Path) (w : World) :
  no_faults w → os_OpenTrunc p w = (Ok tt, set_files (<[p := []]> (w_files w)) w).
Proof. intros Hw. unfold os_OpenTrunc. by go_step (next_fault_none w Hw). Qed.

Lemma os_WriteFile_quiet (p : Path) (data : list byte) (w : World) :
  no_faults w → os_WriteFile p data w = (Ok tt, set_files (<[p := data]> (w_files w)) w).
Proof. intros Hw. unfold os_WriteFile. by go_step (next_fault_none w Hw). Qed.

Lemma os_ReadFile_quiet (p : Path) (data : list byte) (w : World) :
  no_faults w → w_files w !! p = Some data → os_ReadFile p w = (Ok data, w).
Proof.
  intros Hw Hp. unfold os_ReadFile. go_step (next_fault_none w Hw).
  unfold_go. by rewrite Hp.
Qed.

Lemma os_Rename_quiet (a b : Path) (data : list byte) (w : World) :
  no_faults w → w_files w !! a = Some data →
  os_Rename a b w = (Ok tt, set_files (<[b := data]> (delete a (w_files w))) w).
Proof.
  intros Hw Ha. unfold os_Rename. go_step (next_fault_none w Hw).
  unfold_go. by rewrite Ha.
Qed.

Lemma f_Append_quiet (p : Path) (data old : list byte) (w : World) :
  no_faults w → w_files w !! p = Some old →
  f_Append p data w = (Ok tt, set_files (<[p := old ++ data]> (w_files w)) w).
Proof.
  intros Hw Hp. unfold f_Append. go_step (next_fault_none w Hw).
  unfold_go. by rewrite Hp.
Qed.

Lemma f_Sync_quiet (w : World) : no_faults w → f_Sync w = (Ok tt, w).
Proof. intros Hw. unfold f_Sync. by go_step (next_fault_none w Hw). Qed.

Lemma f_Close_quiet (w : World) : no_faults w → f_Close w = (Ok tt, w).
Proof. intros Hw. unfold f_Close. by go_step (next_fault_none w Hw). Qed.

Lemma no_faults_set_files (f : gmap Path (list byte)) (w : World) :
  no_faults w → no_faults (set_files f w).
Proof. done. Qed.

Lemma no_faults_with_dir (dir : string) (w : World) : no_faults w → no_faults (with_dir dir w).
Proof. done. Qed.
#[export] Hint Resolve no_faults_set_files no_faults_with_dir : u64db.

(** [frame ps m]: whatever happens, [m] leaves every file outside [ps]
    alone. *)
Definition frame {A} (ps : Path → Prop) (m : GoM World A) : Prop :=
  ∀ w p, ¬ ps p → w_files (m w).2 !! p = w_files w !! p.

Lemma frame_mret {A} ps (a : A) : frame ps (mret a).
Proof. by intros w p. Qed.
Lemma frame_gfail {A} ps e : frame ps (@gfail World A e).
Proof. by intros w p. Qed.
Lemma frame_gget ps : frame ps gget.
Proof. by intros w p. Qed.
Lemma frame_bind {A B} ps (m : GoM World A) (f : A → GoM World B) :
  frame ps m → (∀ a, frame ps (f a)) → frame ps (m ≫= f).
Proof.
  intros Hm Hf w p Hp. specialize (Hm w p Hp). unfold mbind, GoM_bind.
  destruct (m w) as [[a|e] w'] eqn:E; simpl in *; [|done].
  by rewrite (Hf a w' p Hp).
Qed.
Lemma frame_gtry {A} ps (m : GoM World A) : frame ps m → frame ps (gtry m).
Proof. intros Hm w p Hp. specialize (Hm w p Hp). unfold gtry. by destruct (m w). Qed.
Lemma frame_next_fault ps : frame ps next_fault.
Proof. intros w p _. unfold next_fault. by destruct (w_faults w). Qed.
Lemma frame_os_MkdirAll ps dir : frame ps (os_MkdirAll dir).
Proof. apply frame_bind; [apply frame_next_fault|]. intros []; by intros w p. Qed.
Lemma frame_os_ReadFile ps p : frame ps (os_ReadFile p).
Proof.
  apply frame_bind; [apply frame_next_fault|]. intros []; try by intros w q.
  intros w q _. unfold_go. by destruct (w_files w !! p).
Qed.
Lemma frame_os_WriteFile (ps : Path → Prop) p data : ps p → frame ps (os_WriteFile p data).
Proof.
  intros Hp. apply frame_bind; [apply frame_next_fault|].
  intros []; intros w q Hq; simpl; rewrite ?lookup_insert_ne; naive_solver.
Qed.
Lemma frame_os_Rename (ps : Path → Prop) a b : ps a → ps b → frame ps (os_Rename a b).
Proof.
  intros Ha Hb. apply frame_bind; [apply frame_next_fault|]. intros []; try by intros w q.
  intros w q Hq. unfold_go. destruct (w_files w !! a); simpl; [|done].
  rewrite lookup_insert_ne, lookup_delete_ne; naive_solver.
Qed.
Lemma frame_os_Remove (ps : Path → Prop) p : ps p → frame ps (os_Remove p).
Proof.
  intros Hp. apply frame_bind; [apply frame_next_fault|].
  intros []; intros w q Hq; simpl; rewrite ?lookup_delete_ne; naive_solver.
Qed.
Lemma frame_os_OpenCreate (ps : Path → Prop) p : ps p → frame ps (os_OpenCreate p).
Proof.
  intros Hp. apply frame_bind; [apply frame_next_fault|].
  intros []; intros w q Hq; simpl; rewrite ?lookup_insert_ne; naive_solver.
Qed.
Lemma frame_os_OpenTrunc (ps : Path → Prop) p : ps p → frame ps (os_OpenTrunc p).
Proof.
  intros Hp. apply frame_bind; [apply frame_next_fault|].
  intros []; intros w q Hq; simpl; rewrite ?lookup_insert_ne; naive_solver.
Qed.
Lemma frame_f_Append (ps : Path → Prop) p data : ps p → frame ps (f_Append p data).
Proof.
  intros Hp. apply frame_bind; [apply frame_next_fault|].
  intros []; intros w q Hq; simpl; rewrite ?lookup_insert_ne; naive_solver.
Qed.
Lemma frame_f_Sync ps : frame ps f_Sync.
Proof. apply frame_bind; [apply frame_next_fault|]. intros []; by intros w p. Qed.
Lemma frame_f_Close ps : frame ps f_Close.
Proof. apply frame_bind; [apply frame_next_fault|]. intros []; by intros w p. Qed.
Lemma frame_f_Truncate (ps : Path → Prop) p n : ps p → frame ps (f_Truncate p n).
Proof.
  intros Hp. apply frame_bind; [apply frame_next_fault|].
  intros []; intros w q Hq; simpl; rewrite ?lookup_insert_ne; naive_solver.
Qed.
Lemma frame_io_ReadFull ps n rest : frame ps (io_ReadFull n rest).
Proof.
  unfold io_ReadFull. destruct (n =? 0); [apply frame_mret|].
  apply frame_bind; [apply frame_next_fault|]. intros []; by intros w p.
Qed.
Lemma frame_os_ReadDir ps dir : frame ps (os_ReadDir dir).
Proof.
  apply frame_bind; [apply frame_next_fault|]. intros []; try by intros w q.
  intros w q _. unfold_go. by case_decide.
Qed.

Create HintDb framedb.
#[export] Hint Resolve frame_mret frame_gfail frame_gget frame_gtry frame_next_fault
  frame_os_MkdirAll frame_os_ReadFile frame_os_WriteFile frame_os_Rename frame_os_Remove
  frame_os_OpenCreate frame_os_OpenTrunc frame_f_Append frame_f_Sync frame_f_Close
  frame_f_Truncate frame_io_ReadFull frame_os_ReadDir : framedb.

#[export] Hint Extern 3 => cbv beta; naive_solver : framedb.

(** Frame a straight-line program: split the binds, close the calls. *)
Ltac frame_tac :=
  repeat first
    [ progress intros
    | solve [eauto with framedb]
    | apply frame_bind
    | match goal with
      | |- frame _ (match ?x with _ => _ end) => destruct x
      | |- frame _ (if ?x then _ else _) => destruct x
      end ].
