(* ===== verification/Persistence.v ===== *)
(** * internal/raft/persistence: state.json and log.dat

    The durability layer of one node, down to the bytes of its files:
    currentTerm/votedFor in state.json (write to a temporary file, then
    rename) and the length-prefixed records of log.dat. *)

From Stdlib Require Import Strings.Byte Strings.Ascii.
From S2P Require Import Prelude Pb Fs.

Module Persistence.

Definition logPath (dir : string) : Path := (dir, "log.dat").
Definition statePath (dir : string) : Path := (dir, "state.json").

Record diskState : Type := MkDiskState {
  ds_CurrentTerm : Z;
  ds_VotedFor : string
}.

(** binary.BigEndian.PutUint32 / Uint32 *)
Definition byte_of (z : Z) : byte := default x00 (Byte.of_N (Z.to_N (z `mod` 256))).
Definition of_byte (b : byte) : Z := Z.of_N (Byte.to_N b).

Definition PutUint32 (z : Z) : list byte :=
  [byte_of (Z.shiftr z 24); byte_of (Z.shiftr z 16); byte_of (Z.shiftr z 8); byte_of z].

Definition Uint32 (b : list byte) : Z :=
  match b with
  | [b0; b1; b2; b3] =>
      Z.lor (of_byte b3) (Z.lor (Z.shiftl (of_byte b2) 8)
        (Z.lor (Z.shiftl (of_byte b1) 16) (Z.shiftl (of_byte b0) 24)))
  | _ => 0
  end.

Section ops.
Context `{JS : Codec diskState} `{GE : Codec LogEntry}.

Definition LoadState (dir : string) : GoM World (Z * string) :=
  r ← gtry (os_ReadFile (statePath dir));
  match r with
  | Err ErrNotExist => mret (0, "")
  | Err e => gfail e
  | Ok data =>
      match codec_dec data with
      | None => gfail ErrDecode
      | Some s => mret (ds_CurrentTerm s, ds_VotedFor s)
      end
  end.

Definition SaveState (dir : string) (currentTerm : Z) (votedFor : string) : GoM World unit :=
  os_MkdirAll dir;;
  match codec_enc (MkDiskState currentTerm votedFor) with
  | None => gfail ErrEncode
  | Some data =>
      let path := statePath dir in
      let tmp := path_tmp path in
      os_WriteFile tmp data;;
      os_Rename tmp path
  end.

Definition encodeRecord (e : LogEntry) : option (list byte) :=
  match codec_enc e with
  | None => None
  | Some buf => Some (PutUint32 (zlen buf `mod` 4294967296) ++ buf)
  end.

(** The [for _, e := range entries] loop shared by AppendLogEntries and
    RewriteLog: encode, write, stop at the first error. *)
Fixpoint write_records (p : Path) (entries : list LogEntry) : GoM World unit :=
  match entries with
  | [] => mret tt
  | e :: es =>
      match encodeRecord e with
      | None => gfail ErrEncode
      | Some record => f_Append p record;; write_records p es
      end
  end.

Definition AppendLogEntries (dir : string) (entries : list LogEntry) : GoM World unit :=
  match entries with
  | [] => mret tt
  | _ =>
      os_MkdirAll dir;;
      os_OpenCreate (logPath dir);;
      write_records (logPath dir) entries;;
      f_Sync
  end.

(** The read loop of ReadAllLogEntries.  Each round consumes at least the
    four bytes of a length prefix, so the file's length (plus one for the
    final end-of-file) is enough fuel. *)
Fixpoint read_loop (fuel : nat) (p : Path) (rest : list byte) (offset : nat)
    (entries : list LogEntry) : GoM World (list LogEntry) :=
  match fuel with
  | O => mret entries
  | S fuel' =>
      r ← io_ReadFull 4 rest;
      match r with
      | REOF => mret entries
      | RUnexpectedEOF => f_Truncate p offset;; mret entries
      | RError => gfail ErrIO
      | RFull lenPrefix rest1 =>
          let length := Uint32 lenPrefix in
          r2 ← io_ReadFull length rest1;
          match r2 with
          | RFull payload rest2 =>
              match codec_dec payload with
              | None => f_Truncate p offset;; mret entries
              | Some e =>
                  read_loop fuel' p rest2 (offset + 4 + Z.to_nat length) (entries ++ [e])
              end
          | _ => f_Truncate p offset;; mret entries
          end
      end
  end.

Definition ReadAllLogEntries (dir : string) : GoM World (list LogEntry) :=
  os_MkdirAll dir;;
  let path := logPath dir in
  os_OpenCreate path;;
  w ← gget;
  let data := default [] (w_files w !! path) in
  read_loop (S (length data)) path data 0 [].

Definition RewriteLog (dir : string) (entries : list LogEntry) : GoM World unit :=
  os_MkdirAll dir;;
  let path := logPath dir in
  let tmp := path_tmp path in
  os_OpenTrunc tmp;;
  write_records tmp entries;;
  f_Sync;;
  f_Close;;
  os_Rename tmp path.

Definition TruncateLogFrom (dir : string) (index : Z) : GoM World unit :=
  entries ← ReadAllLogEntries dir;
  RewriteLog dir (filter (λ e, e_Index e < index) entries).

End ops.

(** ** The length prefix *)

Lemma of_byte_of (z : Z) : of_byte (byte_of z) = z `mod` 256.
Proof.
  unfold of_byte, byte_of.
  pose proof (Z.mod_pos_bound z 256).
  destruct (Byte.of_N (Z.to_N (z `mod` 256))) as [b|] eqn:E; simpl.
  - apply Byte.to_of_N in E. rewrite E, Z2N.id; lia.
  - apply Byte.of_N_None_iff in E. lia.
Qed.

Lemma lor_shift_add (a b k : Z) :
  0 ≤ k → 0 ≤ a < 2 ^ k → Z.lor a (Z.shiftl b k) = a + b * 2 ^ k.
Proof.
  intros Hk Ha.
  assert (Z.land a (Z.shiftl b k) = 0) as Hl.
  { apply Z.bits_inj'. intros i Hi. rewrite Z.land_spec, Z.bits_0.
    destruct (decide (i < k)) as [Hlt|Hge].
    - rewrite Z.shiftl_spec_low by lia. apply andb_false_r.
    - destruct (decide (a = 0)) as [->|]; [by rewrite Z.bits_0|].
      rewrite (Z.bits_above_log2 a i); [done|lia|].
      apply Z.log2_lt_pow2; [lia|].
      apply Z.lt_le_trans with (2 ^ k); [lia|]. apply Z.pow_le_mono_r; lia. }
  rewrite <- Z.lxor_lor by done. rewrite <- Z.add_nocarry_lxor by done.
  by rewrite Z.shiftl_mul_pow2 by lia.
Qed.

Lemma Uint32_PutUint32 (z : Z) :
  0 ≤ z < 4294967296 → Uint32 (PutUint32 z) = z.
Proof.
  intros Hz. unfold Uint32, PutUint32. rewrite !of_byte_of.
  rewrite !Z.shiftr_div_pow2 by lia.
  set (b0 := (z `div` 2 ^ 24) `mod` 256). set (b1 := (z `div` 2 ^ 16) `mod` 256).
  set (b2 := (z `div` 2 ^ 8) `mod` 256). set (b3 := z `mod` 256).
  assert (0 ≤ b0 < 256 ∧ 0 ≤ b1 < 256 ∧ 0 ≤ b2 < 256 ∧ 0 ≤ b3 < 256) as (?&?&?&?)
    by (repeat split; apply Z.mod_pos_bound; lia).
  assert (Z.lor (Z.shiftl b1 16) (Z.shiftl b0 24) = Z.shiftl (b1 + b0 * 256) 16) as ->.
  { rewrite lor_shift_add; rewrite ?Z.shiftl_mul_pow2 by lia; lia. }
  assert (Z.lor (Z.shiftl b2 8) (Z.shiftl (b1 + b0 * 256) 16)
          = Z.shiftl (b2 + b1 * 256 + b0 * 65536) 8) as ->.
  { rewrite lor_shift_add; rewrite ?Z.shiftl_mul_pow2 by lia; lia. }
  rewrite lor_shift_add by lia.
  unfold b0, b1, b2, b3. change (2 ^ 24) with 16777216. change (2 ^ 16) with 65536.
  change (2 ^ 8) with 256. Z.to_euclidean_division_equations. lia.
Qed.

Lemma length_PutUint32 (z : Z) : length (PutUint32 z) = 4%nat.
Proof. done. Qed.

(** ** The record format *)

(** utf8.ValidString, on the bytes of the string. *)
Definition in_range (lo hi : N) (c : ascii) : bool := ((lo <=? N_of_ascii c) && (N_of_ascii c <=? hi))%N.
Definition cont (c : ascii) : bool := in_range 128 191 c.

Fixpoint utf8_valid (s : string) : bool :=
  match s with
  | EmptyString => true
  | String c s1 =>
      if in_range 0 127 c then utf8_valid s1 else
      match s1 with
      | EmptyString => false
      | String c1 s2 =>
          if in_range 194 223 c then cont c1 && utf8_valid s2 else
          match s2 with
          | EmptyString => false
          | String c2 s3 =>
              if in_range 224 239 c then
                in_range (if in_range 224 224 c then 160 else 128) (if in_range 237 237 c then 159 else 191) c1 &&
                cont c2 && utf8_valid s3
              else
              match s3 with
              | EmptyString => false
              | String c3 s4 =>
                  in_range 240 244 c &&
                  in_range (if in_range 240 240 c then 144 else 128) (if in_range 244 244 c then 143 else 191) c1 &&
                  cont c2 && cont c3 && utf8_valid s4
              end
          end
      end
  end.

(** What state.json can hold exactly: encoding/json replaces invalid UTF-8. *)
Definition ds_wf (s : diskState) : Prop :=
  is_u64 (ds_CurrentTerm s) ∧ utf8_valid (ds_VotedFor s) = true.

(** And what it reads is valid. *)
Class DecodesUtf8 `{Codec diskState} : Prop :=
  decodes_utf8 : ∀ b s, codec_dec b = Some s → utf8_valid (ds_VotedFor s) = true.

Section spec.
Context `{JS : Codec diskState} `{GE : Codec LogEntry}.
Context `{!CodecLaws diskState ds_wf} `{!CodecLaws LogEntry entry_wf}.
Implicit Types (e : LogEntry) (es : list LogEntry) (w : World).

(** An entry log.dat can hold: gob encodes it, in fewer than 2^32 bytes (the
    length prefix is a [uint32]). *)
Definition storable e : Prop :=
  entry_wf e ∧ ∃ b, codec_enc e = Some b ∧ zlen b < 4294967296.

(** The reference format: the file is the concatenation of the records. *)
Fixpoint log_bytes es : option (list byte) :=
  match es with
  | [] => Some []
  | e :: es' =>
      match encodeRecord e, log_bytes es' with
      | Some r, Some b => Some (r ++ b)
      | _, _ => None
      end
  end.

Lemma storable_record e :
  storable e → ∃ b, encodeRecord e = Some (PutUint32 (zlen b) ++ b)
    ∧ codec_dec b = Some e ∧ 0 ≤ zlen b < 4294967296.
Proof.
  intros (Hwf & b & He & Hl). exists b. unfold encodeRecord. rewrite He.
  pose proof (zlen_nonneg b).
  rewrite Z.mod_small by lia. split_and!; [done| |lia|lia].
  by eapply codec_roundtrip.
Qed.

Lemma log_bytes_app es es' b b' :
  log_bytes es = Some b → log_bytes es' = Some b' → log_bytes (es ++ es') = Some (b ++ b').
Proof.
  revert b. induction es as [|e es IH]; intros b; simpl.
  - by intros [= <-].
  - destruct (encodeRecord e) as [r|]; [|done].
    destruct (log_bytes es) as [c|]; [|done].
    intros [= <-] Hb'. rewrite (IH c) by done. by rewrite app_assoc.
Qed.

Lemma log_bytes_total es : Forall storable es → ∃ b, log_bytes es = Some b.
Proof.
  induction 1 as [|e es He _ [b IH]]; simpl; [eauto|].
  destruct (storable_record e He) as (c & -> & _). rewrite IH. eauto.
Qed.

(** One full record at the head of the unread bytes is consumed. *)
Lemma read_loop_record fuel p e b tail off acc w :
  no_faults w → codec_dec b = Some e → 0 ≤ zlen b < 4294967296 →
  read_loop (S fuel) p (PutUint32 (zlen b) ++ b ++ tail) off acc w =
  read_loop fuel p tail (off + 4 + length b) (acc ++ [e]) w.
Proof.
  intros Hw Hd Hb.
  assert (H4 : read_full 4 (PutUint32 (zlen b) ++ b ++ tail)
               = RFull (PutUint32 (zlen b)) (b ++ tail)).
  { unfold read_full. replace (4 <=? _) with true; [done|]. symmetry. apply Z.leb_le.
    rewrite zlen_app. pose proof (zlen_nonneg (b ++ tail)).
    unfold PutUint32. rewrite !zlen_cons, zlen_nil. lia. }
  assert (Hn : Z.to_nat (zlen b) = length b) by (unfold zlen; lia).
  assert (Hp : read_full (zlen b) (b ++ tail) = RFull b tail).
  { unfold read_full. replace (zlen b <=? _) with true
      by (symmetry; apply Z.leb_le; rewrite zlen_app; pose proof (zlen_nonneg tail); lia).
    by rewrite Hn, take_app_length, drop_app_length. }
  cbn [read_loop]. go_step (io_ReadFull_quiet 4 _ w Hw ltac:(lia)). rewrite H4.
  rewrite Uint32_PutUint32 by lia.
  go_step (io_ReadFull_quiet (zlen b) (b ++ tail) w Hw ltac:(lia)).
  by rewrite Hp, Hd, Hn.
Qed.

Lemma read_loop_records es b p tail fuel off acc w :
  no_faults w → Forall storable es → log_bytes es = Some b →
  (length (b ++ tail) < fuel)%nat →
  ∃ fuel', (length tail < fuel')%nat ∧
    read_loop fuel p (b ++ tail) off acc w =
    read_loop fuel' p tail (off + length b) (acc ++ es) w.
Proof.
  intros Hw Hes. revert b fuel off acc.
  induction Hes as [|e es He Hes IH]; intros b fuel off acc Hb Hfuel; simpl in Hb.
  - simplify_eq. exists fuel. rewrite app_nil_r, Nat.add_0_r. done.
  - destruct (storable_record e He) as (c & Hr & Hd & Hc). rewrite Hr in Hb.
    destruct (log_bytes es) as [b'|] eqn:Eb; simplify_eq.
    destruct fuel as [|fuel]; [lia|].
    rewrite !length_app, length_PutUint32 in Hfuel.
    destruct (IH b' fuel (off + 4 + length c)%nat (acc ++ [e])) as (fuel' & ? & Heq);
      [done|rewrite length_app; lia|].
    exists fuel'. split; [done|].
    rewrite <- !app_assoc.
    rewrite (read_loop_record fuel p e c (b' ++ tail) off acc w) by done.
    rewrite Heq, !length_app, length_PutUint32, <- app_assoc.
    simpl. f_equal. lia.
Qed.

(** What is left after the last full record: nothing, or a record cut short. *)
Definition torn (tail : list byte) : Prop :=
  ∃ e r m, storable e ∧ encodeRecord e = Some r ∧ (m < length r)%nat ∧ tail = take m r.

Definition truncated (p : Path) (n : nat) (w : World) : World :=
  set_files (<[p := take n (default [] (w_files w !! p))]> (w_files w)) w.

Lemma read_loop_torn tail fuel p off acc w :
  no_faults w → torn tail → tail ≠ [] →
  read_loop (S fuel) p tail off acc w = (Ok acc, truncated p off w).
Proof.
  intros Hw (e & r & m & He & Hr & Hm & ->) Hne.
  destruct (storable_record e He) as (b & Hr' & Hd & Hb). simplify_eq.
  rewrite length_app, length_PutUint32 in Hm.
  cbn [read_loop]. go_step (io_ReadFull_quiet 4 (take m (PutUint32 (zlen b) ++ b)) w Hw ltac:(lia)).
  unfold read_full at 1.
  destruct (decide (m < 4)%nat) as [Hlt|Hge].
  - replace (4 <=? zlen (take m (PutUint32 (zlen b) ++ b))) with false
      by (symmetry; apply Z.leb_gt; unfold zlen; rewrite length_take, length_app; lia).
    rewrite decide_False by done. by go_step (f_Truncate_quiet p off w Hw).
  - replace (4 <=? zlen (take m (PutUint32 (zlen b) ++ b))) with true
      by (symmetry; apply Z.leb_le; unfold zlen; rewrite length_take, length_app, length_PutUint32; lia).
    rewrite take_app_ge by (rewrite length_PutUint32; lia).
    rewrite length_PutUint32.
    change (take (Z.to_nat 4) (PutUint32 (zlen b) ++ take (m - 4) b))
      with (PutUint32 (zlen b)).
    change (drop (Z.to_nat 4) (PutUint32 (zlen b) ++ take (m - 4) b))
      with (take (m - 4) b).
    rewrite Uint32_PutUint32 by lia.
    go_step (io_ReadFull_quiet (zlen b) (take (m - 4) b) w Hw ltac:(lia)).
    unfold read_full.
    replace (zlen b <=? zlen (take (m - 4) b)) with false
      by (symmetry; apply Z.leb_gt; unfold zlen in *; rewrite length_take; lia).
    destruct (decide (take (m - 4) b = [])); by go_step (f_Truncate_quiet p off w Hw).
Qed.

(** ** Whole-file behaviour, in a world without faults *)

(** log.dat holds exactly [es] (an absent file holds the empty log). *)
Definition log_holds w (dir : string) es : Prop :=
  Forall storable es ∧ log_bytes es = Some (default [] (w_files w !! logPath dir)).

Lemma ReadAll_bytes es b tail dir w :
  no_faults w → Forall storable es → log_bytes es = Some b → tail = [] ∨ torn tail →
  default [] (w_files w !! logPath dir) = b ++ tail →
  ∃ w', ReadAllLogEntries dir w = (Ok es, w') ∧
    w_files w' = <[logPath dir := b]> (w_files w) ∧ no_faults w'.
Proof.
  intros Hw Hes Hb Htail Hf. unfold ReadAllLogEntries.
  go_step (os_MkdirAll_quiet dir w Hw).
  go_step (os_OpenCreate_quiet (logPath dir) (with_dir dir w) Hw). cbn [w_files with_dir].
  rewrite Hf. set (w1 := set_files (<[logPath dir := b ++ tail]> (w_files w)) (with_dir dir w)).
  assert (H1 : no_faults w1) by done.
  rewrite (bind_Ok gget _ w1 w1 w1 eq_refl).
  assert (Hl : w_files w1 !! logPath dir = Some (b ++ tail)) by apply lookup_insert_eq.
  cbv zeta. rewrite Hl. change (default [] (Some (b ++ tail))) with (b ++ tail).
  destruct (read_loop_records es b (logPath dir) tail (S (length (b ++ tail))) 0 [] w1)
    as (fuel' & Hfuel & ->); [done..|lia|].
  destruct fuel' as [|fuel']; [lia|].
  destruct (decide (tail = [])) as [->|Hne].
  - exists w1. split_and!; [|unfold w1; by rewrite app_nil_r|done].
    cbn [read_loop]. go_step (io_ReadFull_quiet 4 [] w1 H1 ltac:(lia)). done.
  - destruct Htail as [|Htail]; [done|].
    rewrite (read_loop_torn tail) by done.
    eexists. split; [done|]. split; [|done].
    unfold truncated. rewrite Hl. change (default [] (Some (b ++ tail))) with (b ++ tail).
    rewrite Nat.add_0_l, take_app_length. unfold w1. cbn. by rewrite insert_insert_eq.
Qed.

(** A byte prefix of a log is some of its records and a torn rest. *)
Lemma log_bytes_prefix es b m :
  Forall storable es → log_bytes es = Some b →
  ∃ k b' tail, log_bytes (take k es) = Some b' ∧ take m b = b' ++ tail ∧
    (tail = [] ∨ torn tail).
Proof.
  intros Hes. revert b m. induction Hes as [|e es He Hes IH]; intros b m Hb; simpl in Hb.
  - simplify_eq. exists 0%nat, [], []. rewrite !take_nil. split_and!; [done|done|by left].
  - destruct (encodeRecord e) as [r|] eqn:Er; [|done].
    destruct (log_bytes es) as [c|] eqn:Ec; simplify_eq.
    destruct (decide (m < length r)%nat) as [Hlt|Hge].
    + exists 0%nat, [], (take m r). split; [done|].
      rewrite take_app_le by lia. split; [done|]. right. by exists e, r, m.
    + destruct (IH c (m - length r)%nat eq_refl) as (k & b' & tail & Hk & Ht & Hor).
      exists (S k), (r ++ b'), tail. simpl. rewrite Er, Hk.
      rewrite take_app_ge, Ht by lia. by rewrite app_assoc.
Qed.

Lemma write_records_quiet es b p old w :
  no_faults w → log_bytes es = Some b → w_files w !! p = Some old →
  write_records p es w = (Ok tt, set_files (<[p := old ++ b]> (w_files w)) w).
Proof.
  revert b old w. induction es as [|e es IH]; intros b old w Hw Hb Hp; simpl in Hb.
  - simplify_eq. simpl. unfold_go. rewrite app_nil_r, insert_id by done. by destruct w.
  - destruct (encodeRecord e) as [r|] eqn:Er; [|done].
    destruct (log_bytes es) as [c|] eqn:Ec; simplify_eq.
    cbn [write_records]. rewrite Er. go_step (f_Append_quiet p r old w Hw Hp).
    rewrite (IH c (old ++ r)); [|done..|apply lookup_insert_eq].
    by rewrite app_assoc; cbn; rewrite insert_insert_eq.
Qed.

Lemma AppendLogEntries_quiet dir es es' w :
  no_faults w → log_holds w dir es → Forall storable es' →
  ∃ w', AppendLogEntries dir es' w = (Ok tt, w') ∧ log_holds w' dir (es ++ es') ∧
    no_faults w' ∧ ∀ q, q ≠ logPath dir → w_files w' !! q = w_files w !! q.
Proof.
  intros Hw [Hes Hb] Hes'. destruct (log_bytes_total es' Hes') as [b' Hb'].
  destruct (decide (es' = [])) as [->|Hne].
  { exists w. rewrite app_nil_r. done. }
  replace (AppendLogEntries dir es') with (os_MkdirAll dir;; os_OpenCreate (logPath dir);;
    write_records (logPath dir) es';; f_Sync) by (by destruct es').
  go_step (os_MkdirAll_quiet dir w Hw).
  go_step (os_OpenCreate_quiet (logPath dir) (with_dir dir w) Hw).
  set (w1 := set_files _ _). assert (H1 : no_faults w1) by done.
  go_step (write_records_quiet es' b' (logPath dir)
    (default [] (w_files w !! logPath dir)) w1 H1 Hb' (lookup_insert_eq _ _ _)).
  rewrite f_Sync_quiet by done. eexists. split; [done|].
  split; [split|split]; [by apply Forall_app|cbn|done|].
  - rewrite lookup_insert_eq. cbn. by apply log_bytes_app.
  - intros q Hq. cbn. by rewrite !lookup_insert_ne.
Qed.

Lemma RewriteLog_quiet dir es w :
  no_faults w → Forall storable es →
  ∃ w', RewriteLog dir es w = (Ok tt, w') ∧ log_holds w' dir es ∧ no_faults w' ∧
    ∀ q, q ≠ logPath dir → q ≠ path_tmp (logPath dir) → w_files w' !! q = w_files w !! q.
Proof.
  intros Hw Hes. destruct (log_bytes_total es Hes) as [b Hb]. unfold RewriteLog.
  go_step (os_MkdirAll_quiet dir w Hw). cbv zeta.
  go_step (os_OpenTrunc_quiet (path_tmp (logPath dir)) (with_dir dir w) Hw).
  set (w1 := set_files _ _). assert (H1 : no_faults w1) by done.
  go_step (write_records_quiet es b (path_tmp (logPath dir)) [] w1 H1 Hb (lookup_insert_eq _ _ _)).
  set (w2 := set_files _ w1). assert (H2 : no_faults w2) by done.
  go_step (f_Sync_quiet w2 H2). go_step (f_Close_quiet w2 H2).
  rewrite (os_Rename_quiet _ _ b) by (done || apply lookup_insert_eq).
  eexists. split; [done|]. split; [split; [done|]|split; [done|]].
  - cbn. by rewrite lookup_insert_eq.
  - intros q Hq1 Hq2. cbn. rewrite lookup_insert_ne, lookup_delete_ne by done.
    by rewrite !lookup_insert_ne.
Qed.

(** ** state.json *)

(** What a reload finds in state.json: term 0 and no vote for an absent
    file, nothing for an unreadable one. *)
Definition vote_view w (dir : string) : option (Z * string) :=
  match w_files w !! statePath dir with
  | None => Some (0, "")
  | Some data => (λ s, (ds_CurrentTerm s, ds_VotedFor s)) <$> codec_dec data
  end.

Lemma vote_view_files w w' dir :
  w_files w' !! statePath dir = w_files w !! statePath dir → vote_view w' dir = vote_view w dir.
Proof. unfold vote_view. by intros ->. Qed.

Lemma vote_view_frame {A} ps (m : GoM World A) w r w' dir :
  frame ps m → ¬ ps (statePath dir) → m w = (r, w') → vote_view w' dir = vote_view w dir.
Proof. intros Hm Hp E. apply vote_view_files. specialize (Hm w _ Hp). by rewrite E in Hm. Qed.

Lemma LoadState_spec dir w w' t v :
  LoadState dir w = (Ok (t, v), w') → vote_view w dir = Some (t, v) ∧ w_files w' = w_files w.
Proof.
  unfold LoadState, os_ReadFile, vote_view. unfold_go.
  destruct (next_fault w) as [r w1] eqn:En.
  destruct (next_fault_files _ _ _ En) as [Hf [f ->]].
  destruct f; [|naive_solver..]. rewrite Hf.
  destruct (w_files w !! statePath dir) as [data|]; [|naive_solver].
  destruct (codec_dec data); naive_solver.
Qed.

Lemma LoadState_name `{!DecodesUtf8} dir w w' t v :
  LoadState dir w = (Ok (t, v), w') → utf8_valid v = true.
Proof.
  intros [Hv _]%LoadState_spec. unfold vote_view in Hv.
  destruct (w_files w !! statePath dir) as [data|]; [|by injection Hv as _ <-].
  apply fmap_Some in Hv as (s & Hs & [= _ ->]). by eapply decodes_utf8.
Qed.

Lemma SaveState_frame dir t v :
  frame (λ q, q = statePath dir ∨ q = path_tmp (statePath dir)) (SaveState dir t v).
Proof. unfold SaveState. frame_tac. Qed.

(** Whatever faults strike, a reload after SaveState finds the new pair if it
    returned nil and the old one if it returned an error. *)
Lemma SaveState_spec dir t v w w' r :
  is_u64 t → utf8_valid v = true → SaveState dir t v w = (r, w') →
  vote_view w' dir = match r with Ok _ => Some (t, v) | Err _ => vote_view w dir end.
Proof.
  intros Ht Hv HS. pose proof (path_tmp_ne (statePath dir)) as Hne.
  unfold SaveState in HS. apply bind_inv in HS as [(u & w1 & Hm & HS)|(e & Hm & ->)].
  2: exact (vote_view_frame (λ _, False) _ _ _ _ _ (frame_os_MkdirAll _ dir) (λ x, x) Hm).
  assert (Hv1 : vote_view w1 dir = vote_view w dir).
  { exact (vote_view_frame (λ _, False) _ _ _ _ _ (frame_os_MkdirAll _ dir) (λ x, x) Hm). }
  rewrite <- Hv1. clear Hm Hv1.
  destruct (codec_enc (MkDiskState t v)) as [data|] eqn:Ed; [|unfold_go; by simplify_eq].
  cbv zeta in HS. apply bind_inv in HS as [(u' & w2 & Hm & HS)|(e & Hm & ->)].
  2: { eapply (vote_view_frame (λ q, q = path_tmp (statePath dir))) in Hm; [done| |by intros ?].
       by apply frame_os_WriteFile. }
  assert (Hw2 : w_files w2 = <[path_tmp (statePath dir) := data]> (w_files w1)).
  { unfold os_WriteFile in Hm. unfold_go. destruct (next_fault w1) as [r0 w0] eqn:En.
    destruct (next_fault_files _ _ _ En) as [Hf [[] ->]]; simplify_eq/=. by rewrite Hf. }
  unfold os_Rename in HS. unfold_go. destruct (next_fault w2) as [r0 w0] eqn:En.
  destruct (next_fault_files _ _ _ En) as [Hf [[] ->]]; simplify_eq/=.
  - rewrite Hf, Hw2, lookup_insert_eq in HS. simplify_eq/=.
    unfold vote_view. simpl. rewrite lookup_insert_eq.
    rewrite (codec_roundtrip _ _ (conj Ht Hv : ds_wf (MkDiskState t v)) Ed). done.
  - apply vote_view_files. rewrite Hf, Hw2. by apply lookup_insert_ne.
  - apply vote_view_files. rewrite Hf, Hw2. by apply lookup_insert_ne.
Qed.

(** The log operations never touch state.json, faults or not. *)
Definition log_files (dir : string) (q : Path) : Prop :=
  q = logPath dir ∨ q = path_tmp (logPath dir).

Lemma log_files_state dir : ¬ log_files dir (statePath dir).
Proof. intros [?|?]; done. Qed.

Lemma write_records_frame (ps : Path → Prop) p es : ps p → frame ps (write_records p es).
Proof. intros Hp. induction es; cbn [write_records]; frame_tac. Qed.

Lemma read_loop_frame (ps : Path → Prop) fuel p rest off acc :
  ps p → frame ps (read_loop fuel p rest off acc).
Proof.
  intros Hp. revert rest off acc. induction fuel; intros rest off acc; cbn [read_loop]; frame_tac.
Qed.

#[local] Hint Extern 1 (log_files _ _) => (by left) || (by right) : framedb.
#[local] Hint Resolve write_records_frame read_loop_frame : framedb.

Lemma AppendLogEntries_frame dir es : frame (log_files dir) (AppendLogEntries dir es).
Proof. unfold AppendLogEntries. destruct es; frame_tac. Qed.

Lemma ReadAllLogEntries_frame dir : frame (log_files dir) (ReadAllLogEntries dir).
Proof. unfold ReadAllLogEntries. frame_tac. Qed.

Lemma RewriteLog_frame dir es : frame (log_files dir) (RewriteLog dir es).
Proof. unfold RewriteLog. cbv zeta. frame_tac. Qed.

Lemma TruncateLogFrom_frame dir i : frame (log_files dir) (TruncateLogFrom dir i).
Proof.
  unfold TruncateLogFrom. apply frame_bind; [apply ReadAllLogEntries_frame|].
  intros a. apply RewriteLog_frame.
Qed.

Lemma TruncateLogFrom_quiet dir i es w :
  no_faults w → log_holds w dir es →
  ∃ w', TruncateLogFrom dir i w = (Ok tt, w') ∧
    log_holds w' dir (filter (λ e, e_Index e < i) es) ∧ no_faults w'.
Proof.
  intros Hw [Hes Hb]. unfold TruncateLogFrom.
  destruct (ReadAll_bytes es (default [] (w_files w !! logPath dir)) [] dir w)
    as (w1 & Hr & _ & H1); [done..|by left|by rewrite app_nil_r|].
  go_step Hr.
  destruct (RewriteLog_quiet dir (filter (λ e, e_Index e < i) es) w1 H1) as (w2 & ? & ? & ? & _);
    [by apply Forall_filter|eauto].
Qed.

(** ** Crashes

    Whatever storage calls fail, a run of writes leaves a prefix of the bytes
    it meant to write. *)

Lemma write_records_any es b p old w r w' :
  log_bytes es = Some b → w_files w !! p = Some old →
  write_records p es w = (r, w') →
  ∃ m, w_files w' !! p = Some (old ++ take m b) ∧ (r = Ok tt → (length b ≤ m)%nat).
Proof.
  revert b old w. induction es as [|e es IH]; intros b old w Hb Hp; simpl in Hb.
  - simplify_eq. intros [= <- <-]. exists 0%nat. by rewrite take_nil, app_nil_r.
  - destruct (encodeRecord e) as [rc|] eqn:Er; [|done].
    destruct (log_bytes es) as [c|] eqn:Ec; simplify_eq.
    cbn [write_records]. rewrite Er. unfold f_Append.
    intros [([] & w1 & Ha & HR)|(er & Ha & ->)]%bind_inv;
      apply bind_inv in Ha as [(f & w0 & Hf & Ha)|(? & Hf & Hx)];
      try (by apply next_fault_files in Hf as (_ & ? & ?)).
    + apply next_fault_files in Hf as [Hw0 _]. rewrite (bind_Ok gget _ w0 w0 w0 eq_refl) in Ha.
      rewrite Hw0, Hp in Ha. cbn [default] in Ha. destruct f; try done. injection Ha as <-.
      destruct (IH c (old ++ rc) _ eq_refl (lookup_insert_eq _ _ _) HR) as (m & Hm & Hok).
      exists (length rc + m)%nat. rewrite Hm, <- app_assoc, (take_app_add' rc) by done.
      split; [done|]. intros Hr. rewrite length_app. specialize (Hok Hr). lia.
    + apply next_fault_files in Hf as [Hw0 _]. rewrite (bind_Ok gget _ w0 w0 w0 eq_refl) in Ha.
      rewrite Hw0, Hp in Ha. cbn [default] in Ha. destruct f as [| |n]; try done.
      * injection Ha as _ <-. exists 0%nat. rewrite take_0, app_nil_r, Hw0. done.
      * unfold_go. injection Ha as _ <-. exists (n `min` length rc)%nat. split; [|done]. cbn.
        rewrite lookup_insert_eq. do 2 f_equal. rewrite take_app_le by lia.
        by rewrite <- take_take, (take_ge rc (length rc)).
Qed.

Lemma OpenCreate_any p w r w' :
  os_OpenCreate p w = (r, w') →
  match r with
  | Ok _ => w_files w' !! p = Some (default [] (w_files w !! p))
  | Err _ => w_files w' = w_files w
  end.
Proof.
  unfold os_OpenCreate. intros [(f & w0 & Hf & HR)|(e & Hf & ->)]%bind_inv;
    apply next_fault_files in Hf as [Hw0 ?]; [|naive_solver].
  destruct f; unfold_go; injection HR as <- <-; try done. cbn. by rewrite lookup_insert_eq, Hw0.
Qed.

Lemma MkdirAll_any dir w r w' : os_MkdirAll dir w = (r, w') → w_files w' = w_files w.
Proof.
  unfold os_MkdirAll. intros [(f & w0 & Hf & HR)|(e & Hf & ->)]%bind_inv;
    apply next_fault_files in Hf as [Hw0 _]; [|done].
  destruct f; unfold_go; by injection HR as <- <-.
Qed.

Lemma Sync_any w r w' : f_Sync w = (r, w') → w_files w' = w_files w.
Proof.
  unfold f_Sync. intros [(f & w0 & Hf & HR)|(e & Hf & ->)]%bind_inv;
    apply next_fault_files in Hf as [Hw0 _]; [|done].
  destruct f; unfold_go; by injection HR as <- <-.
Qed.

Lemma Append_any dir es b w r w' :
  log_bytes es = Some b → AppendLogEntries dir es w = (r, w') →
  ∃ m, default [] (w_files w' !! logPath dir) = default [] (w_files w !! logPath dir) ++ take m b ∧
    (r = Ok tt → (length b ≤ m)%nat).
Proof.
  intros Hb. destruct es as [|e es].
  { intros [= <- <-]. simpl in Hb. simplify_eq. exists 0%nat. by rewrite take_nil, app_nil_r. }
  unfold AppendLogEntries. generalize dependent (e :: es). clear e es. intros es Hb.
  assert (Hnone : ∀ w2 (er : goerr), w_files w2 = w_files w → ∃ m,
    default [] (w_files w2 !! logPath dir) = default [] (w_files w !! logPath dir) ++ take m b ∧
    (Err er = Ok tt → (length b ≤ m)%nat)).
  { intros w2 er ->. exists 0%nat. by rewrite take_0, app_nil_r. }
  intros [([] & w1 & E1 & HR)|(er & E1 & ->)]%bind_inv; apply MkdirAll_any in E1; [|by apply Hnone].
  apply bind_inv in HR as [([] & w2 & E2 & HR)|(er & E2 & ->)]; apply OpenCreate_any in E2;
    [|apply Hnone; congruence].
  rewrite E1 in E2.
  apply bind_inv in HR as [([] & w3 & E3 & HR)|(er & E3 & ->)];
    destruct (write_records_any es b _ _ _ _ _ Hb E2 E3) as (m & Hm & Hok).
  - apply Sync_any in HR. rewrite HR, Hm. exists m. auto.
  - rewrite Hm. by exists m.
Qed.

(** C25.  A crash in the middle of an append loses nothing older: if log.dat
    holds [es] and appending [es'] is cut short anywhere, even in the middle
    of a record, the next start reads back [es] and some first entries of
    [es'], and cuts the torn record off the file; if the append had returned
    without error, all of [es'] is there. *)
Theorem append_crash_safe dir es es' w r w' :
  log_holds w dir es → Forall storable es' → AppendLogEntries dir es' w = (r, w') →
  ∃ k w'', ReadAllLogEntries dir (arm [] w') = (Ok (es ++ take k es'), w'') ∧
    log_holds w'' dir (es ++ take k es') ∧ (r = Ok tt → take k es' = es').
Proof.
  intros [Hs Hb] Hs' HA. destruct (log_bytes_total es' Hs') as [b' Hb'].
  destruct (Append_any dir es' b' w r w' Hb' HA) as (m & Hf & Hok).
  assert (∃ k bk tail, log_bytes (take k es') = Some bk ∧ take m b' = bk ++ tail ∧
    (tail = [] ∨ torn tail) ∧ (r = Ok tt → take k es' = es')) as (k & bk & tail & Hk & Ht & Hor & Hr).
  { destruct (decide (length b' ≤ m)%nat) as [Hge|Hlt].
    - exists (length es'), b', []. rewrite take_ge, (take_ge b'), app_nil_r by done.
      split_and!; auto.
    - destruct (log_bytes_prefix es' b' m Hs' Hb') as (k & bk & tail & ? & ? & ?).
      exists k, bk, tail. split_and!; auto. intros Hr. specialize (Hok Hr). lia. }
  assert (Hsk : Forall storable (es ++ take k es')) by (apply Forall_app; split; [done|by apply Forall_take]).
  pose proof (log_bytes_app _ _ _ _ Hb Hk) as Hbk.
  destruct (ReadAll_bytes (es ++ take k es') (default [] (w_files w !! logPath dir) ++ bk) tail dir (arm [] w')) as (w'' & E & Hf'' & Hq);
    [done|done|exact Hbk|done|cbn; by rewrite Hf, Ht, app_assoc|].
  exists k, w''. split_and!; [done| |done]. split; [done|]. by rewrite Hf'', lookup_insert_eq.
Qed.

Lemma Rename_any a b w r w' :
  os_Rename a b w = (r, w') →
  match r with
  | Ok _ => ∃ data, w_files w !! a = Some data ∧ w_files w' !! b = Some data
  | Err _ => w_files w' = w_files w
  end.
Proof.
  unfold os_Rename. intros [(f & w0 & Hf & HR)|(e & Hf & ->)]%bind_inv;
    apply next_fault_files in Hf as [Hw0 ?]; [|naive_solver].
  destruct f; unfold_go; try (by injection HR as <- <-). rewrite Hw0 in HR.
  destruct (w_files w !! a) as [data|]; injection HR as <- <-; [|done].
  exists data. split; [done|]. apply lookup_insert_eq.
Qed.

(** C26.  RewriteLog is atomic: whatever storage calls fail, log.dat afterwards
    holds either exactly what it held before (and the call reported an error)
    or exactly the new entries (and it did not); the same goes for
    state.json and SaveState, for a vote that is valid UTF-8. *)
Theorem rewrites_atomic dir es es' t v w :
  log_holds w dir es → Forall storable es' → is_u64 t → utf8_valid v = true →
  (let '(r, w') := RewriteLog dir es' w in
   log_holds w' dir (if is_ok r then es' else es)) ∧
  (let '(r, w') := SaveState dir t v w in
   vote_view w' dir = if is_ok r then Some (t, v) else vote_view w dir).
Proof.
  intros Hh Hs' Ht Hv. split.
  2: { destruct (SaveState dir t v w) as [r w'] eqn:E. apply SaveState_spec in E; [|done..]. by destruct r. }
  destruct (RewriteLog dir es' w) as [r w'] eqn:HR. destruct (log_bytes_total es' Hs') as [b Hb].
  set (path := logPath dir). set (tmp := path_tmp path).
  assert (Hne : path ≠ tmp) by (symmetry; apply path_tmp_ne).
  assert (Hkeep : ∀ w2, w_files w2 !! path = w_files w !! path → log_holds w2 dir es).
  { intros w2 E. destruct Hh as [? Hl]. split; [done|]. fold path. by rewrite E. }
  unfold RewriteLog in HR. cbv zeta in HR. fold path tmp in HR.
  apply bind_inv in HR as [([] & w1 & E1 & HR)|(e & E1 & ->)]; apply MkdirAll_any in E1;
    [|apply Hkeep; congruence].
  assert (Hopen : ∀ r2 w2, os_OpenTrunc tmp w1 = (r2, w2) →
    w_files w2 !! path = w_files w !! path ∧ (is_ok r2 = true → w_files w2 !! tmp = Some [])).
  { intros r2 w2. unfold os_OpenTrunc. intros [(f & w0 & Hf & Hx)|(e & Hf & ->)]%bind_inv;
      apply next_fault_files in Hf as [Hw0 ?]; [|naive_solver].
    destruct f; unfold_go; injection Hx as <- <-; cbn; rewrite ?lookup_insert_eq, ?Hw0, ?E1;
      (split; [by rewrite ?lookup_insert_ne|done]). }
  apply bind_inv in HR as [([] & w2 & E2 & HR)|(e & E2 & ->)]; apply Hopen in E2 as [Hp2 Ht2];
    [|by apply Hkeep].
  assert (Hwf : ∀ r3 w3, write_records tmp es' w2 = (r3, w3) → w_files w3 !! path = w_files w !! path).
  { intros r3 w3 E3. rewrite <- Hp2. pose proof (write_records_frame (λ q, q = tmp) tmp es' eq_refl w2 path Hne) as Hfr.
    by rewrite E3 in Hfr. }
  apply bind_inv in HR as [([] & w3 & E3 & HR)|(e & E3 & ->)]; pose proof (Hwf _ _ E3) as Hp3;
    [|by apply Hkeep].
  destruct (write_records_any es' b tmp [] _ _ _ Hb (Ht2 eq_refl) E3) as (m & Hm & Hok).
  rewrite take_ge in Hm by auto. simpl in Hm.
  apply bind_inv in HR as [([] & w4 & E4 & HR)|(e & E4 & ->)]; apply Sync_any in E4;
    [|apply Hkeep; congruence].
  assert (Hclose : ∀ r5 w5, f_Close w4 = (r5, w5) → w_files w5 = w_files w4).
  { intros r5 w5 E5. by apply (Sync_any w4 r5). }
  apply bind_inv in HR as [([] & w5 & E5 & HR)|(e & E5 & ->)]; apply Hclose in E5;
    [|apply Hkeep; congruence].
  apply Rename_any in HR. destruct r as [[]|e]; simpl.
  - destruct HR as (data & Hd & Hd'). split; [done|]. fold path. rewrite Hd'. simpl.
    rewrite Hb. f_equal. congruence.
  - apply Hkeep. congruence.
Qed.

End spec.

End Persistence.
