(* ===== verification/SnapshotFile.v ===== *)
(** * internal/snapshotfile: the snapshot-<index>.dat checkpoint

    The checkpoint's contents, its file name, its crash-safe writer and the
    search for the newest one in a directory.  [Sscanf] is modelled for the
    one format the source uses. *)

From Stdlib Require Import Strings.Byte Strings.Ascii Numbers.DecimalString Numbers.DecimalN.
From stdpp Require Import sorting.
From S2P Require Import Prelude Pb Fs.

Module SnapshotFile.

Record File : Type := MkFile {
  f_State : gmap string string;
  f_LastIncludedIndex : Z;
  f_LastIncludedTerm : Z
}.

Definition zero_File : File := MkFile ∅ 0 0.

(** [%d] of a [uint64]. *)
Definition format_uint (z : Z) : string := NilEmpty.string_of_uint (N.to_uint (Z.to_N z)).

Definition FileName (lastIncludedIndex : Z) : string :=
  "snapshot-" +:+ format_uint lastIncludedIndex +:+ ".dat".

(** The literal text of a Sscanf format. *)
Fixpoint strip_prefix (pre s : string) : option string :=
  match pre, s with
  | EmptyString, _ => Some s
  | String a pre', String b s' => if ascii_dec a b then strip_prefix pre' s' else None
  | String _ _, EmptyString => None
  end.

(** Blanks before [%d] are skipped; a newline is a scan error. *)
Fixpoint skip_space (s : string) : option string :=
  match s with
  | String c s' =>
      if decide (c ∈ [" "; "009"; "011"; "012"; "013"]%char) then skip_space s'
      else if ascii_dec c "010"%char then None
      else Some s
  | EmptyString => Some s
  end.

Definition digit_of (c : ascii) : option (Decimal.uint → Decimal.uint) :=
  match c with
  | "0" => Some Decimal.D0 | "1" => Some Decimal.D1 | "2" => Some Decimal.D2
  | "3" => Some Decimal.D3 | "4" => Some Decimal.D4 | "5" => Some Decimal.D5
  | "6" => Some Decimal.D6 | "7" => Some Decimal.D7 | "8" => Some Decimal.D8
  | "9" => Some Decimal.D9 | _ => None
  end%char.

Fixpoint scan_uint (s : string) : Decimal.uint * string :=
  match s with
  | String c s' =>
      match digit_of c with
      | Some d => let '(u, rest) := scan_uint s' in (d u, rest)
      | None => (Decimal.Nil, s)
      end
  | EmptyString => (Decimal.Nil, EmptyString)
  end.

(** fmt.Sscanf(name, "snapshot-%d.dat", &idx): Sscanf stops once the format
    is matched, so text after ".dat" is accepted. *)
Definition sscanf_snapshot (name : string) : option Z :=
  match strip_prefix "snapshot-" name ≫= skip_space with
  | None => None
  | Some s =>
      match scan_uint s with
      | (Decimal.Nil, _) => None
      | (u, rest) =>
          let idx := Z.of_N (N.of_uint u) in
          if idx <=? u64_max then
            match strip_prefix ".dat" rest with
            | Some _ => Some idx
            | None => None
            end
          else None
      end
  end.

Section ops.
Context `{GF : Codec File}.

Definition Encode (f : File) : option (list byte) := codec_enc f.
Definition Decode (b : list byte) : option File := codec_dec b.

Definition WriteFile (dir : string) (f : File) : GoM World Path :=
  os_MkdirAll dir;;
  let path : Path := (dir, FileName (f_LastIncludedIndex f)) in
  match Encode f with
  | None => gfail ErrEncode
  | Some buf =>
      let tmp := path_tmp path in
      os_WriteFile tmp buf;;
      os_Rename tmp path;;
      mret path
  end.

Definition ReadFile (p : Path) : GoM World File :=
  data ← os_ReadFile p;
  match Decode data with
  | None => gfail ErrDecode
  | Some f => mret f
  end.

(** The scan of the directory entries: the first name with the highest
    index. *)
Fixpoint best_snapshot (names : list string) (best : option (Z * string)) : option (Z * string) :=
  match names with
  | [] => best
  | n :: ns =>
      match sscanf_snapshot n with
      | None => best_snapshot ns best
      | Some idx =>
          match best with
          | None => best_snapshot ns (Some (idx, n))
          | Some (bi, bn) =>
              if bi <? idx then best_snapshot ns (Some (idx, n)) else best_snapshot ns best
          end
      end
  end.

Definition Latest (dir : string) : GoM World (option (File * Path)) :=
  r ← gtry (os_ReadDir dir);
  match r with
  | Err ErrNotExist => mret None
  | Err e => gfail e
  | Ok entries =>
      match best_snapshot entries None with
      | None => mret None
      | Some (_, bestName) =>
          let path : Path := (dir, bestName) in
          file ← ReadFile path;
          mret (Some (file, path))
      end
  end.

End ops.

(** ** File names *)

Lemma strip_prefix_app (p s : string) : strip_prefix p (p +:+ s) = Some s.
Proof.
  induction p as [|c p IH]; simpl; [done|]. by destruct (ascii_dec c c).
Qed.

Lemma scan_uint_string (u : Decimal.uint) (rest : string) :
  match rest with String c _ => digit_of c = None | EmptyString => True end →
  scan_uint (NilEmpty.string_of_uint u +:+ rest) = (u, rest).
Proof.
  intros Hr. induction u; simpl; try (by rewrite IHu).
  destruct rest as [|c rest]; simpl; [done|]. by rewrite Hr.
Qed.

Lemma skip_space_digit (u : Decimal.uint) (rest : string) :
  u ≠ Decimal.Nil →
  skip_space (NilEmpty.string_of_uint u +:+ rest) = Some (NilEmpty.string_of_uint u +:+ rest).
Proof. destruct u; intros; done. Qed.

Lemma to_uint_not_nil (n : N) : N.to_uint n ≠ Decimal.Nil.
Proof.
  destruct n as [|p]; [done|]. simpl. intros H.
  apply (f_equal N.of_uint) in H. 
  change (Pos.to_uint p) with (N.to_uint (N.pos p)) in H.
  rewrite DecimalN.Unsigned.of_to in H. done.
Qed.

(** The search reads back the index that FileName printed, whatever follows
    the name. *)
Lemma sscanf_FileName (z : Z) (rest : string) :
  is_u64 z → sscanf_snapshot (FileName z +:+ rest) = Some z.
Proof.
  intros Hz. unfold sscanf_snapshot, FileName.
  replace (("snapshot-" +:+ format_uint z +:+ ".dat") +:+ rest)
    with ("snapshot-" +:+ (format_uint z +:+ (".dat" +:+ rest)))
    by (by rewrite !string_app_assoc).
  rewrite strip_prefix_app. cbn [mbind option_bind].
  unfold format_uint. pose proof (to_uint_not_nil (Z.to_N z)) as Hn.
  rewrite skip_space_digit by done. rewrite scan_uint_string by done.
  destruct (N.to_uint (Z.to_N z)) as [|u|u|u|u|u|u|u|u|u|u] eqn:E; [done|..];
    rewrite <- E, DecimalN.Unsigned.of_to, Z2N.id by u64;
    rewrite (proj2 (Z.leb_le _ _)) by u64; by rewrite strip_prefix_app.
Qed.

(** Writing on a healthy disk: the file is there under its final name, and
    only it and its temporary name are touched. *)
Lemma WriteFile_quiet `{GF : Codec File} dir f buf (w : World) :
  no_faults w → Encode f = Some buf →
  let path : Path := (dir, FileName (f_LastIncludedIndex f)) in
  ∃ w', WriteFile dir f w = (Ok path, w') ∧ no_faults w' ∧ w_files w' !! path = Some buf ∧
    ∀ q, q ≠ path → q ≠ path_tmp path → w_files w' !! q = w_files w !! q.
Proof.
  intros Hw He path. unfold WriteFile. go_step (os_MkdirAll_quiet dir w Hw). cbv zeta. rewrite He.
  fold path. go_step (os_WriteFile_quiet (path_tmp path) buf (with_dir dir w) Hw).
  set (w1 := set_files _ _). assert (Hw1 : no_faults w1) by done.
  go_step (os_Rename_quiet (path_tmp path) path buf w1 Hw1 (lookup_insert_eq _ _ _)).
  eexists. split; [done|]. split; [done|]. split.
  - apply lookup_insert_eq.
  - intros q Hq1 Hq2. cbn. by rewrite lookup_insert_ne, lookup_delete_ne, lookup_insert_ne.
Qed.

Lemma os_Remove_quiet p (w : World) :
  no_faults w → os_Remove p w = (Ok tt, set_files (delete p (w_files w)) w).
Proof. intros Hw. unfold os_Remove, next_fault. unfold_go. by rewrite Hw. Qed.

(** ** The search for the newest snapshot *)

Lemma elem_of_dir_names dir (w : World) name :
  name ∈ dir_names dir w ↔ is_Some (w_files w !! ((dir, name) : Path)).
Proof.
  unfold dir_names. rewrite merge_sort_Permutation, list_elem_of_fmap. split.
  - intros ([[d n] b] & -> & [Hd Hin]%list_elem_of_filter). simpl in *. subst d.
    apply elem_of_map_to_list in Hin. by eexists.
  - intros [b Hb]. exists ((dir, name), b). split; [done|]. apply list_elem_of_filter.
    split; [done|]. by apply elem_of_map_to_list.
Qed.

(** [b] is the best of [seen]. *)
Definition is_best (seen : list string) (b : option (Z * string)) : Prop :=
  match b with
  | None => ∀ n, n ∈ seen → sscanf_snapshot n = None
  | Some (i, n) => n ∈ seen ∧ sscanf_snapshot n = Some i ∧
      ∀ n' i', n' ∈ seen → sscanf_snapshot n' = Some i' → i' ≤ i
  end.

Lemma best_snapshot_spec names seen b :
  is_best seen b → is_best (seen ++ names) (best_snapshot names b).
Proof.
  revert seen b. induction names as [|n names IH]; intros seen b Hb; cbn [best_snapshot].
  { by rewrite app_nil_r. }
  replace (seen ++ n :: names) with ((seen ++ [n]) ++ names) by (by rewrite <- app_assoc).
  assert (Hin : ∀ x, x ∈ seen ++ [n] ↔ x ∈ seen ∨ x = n).
  { intros x. by rewrite elem_of_app, list_elem_of_singleton. }
  destruct (sscanf_snapshot n) as [idx|] eqn:En.
  - destruct b as [[bi bn]|]; [destruct Hb as (B1 & B2 & B3); destruct (bi <? idx) eqn:El; zbool|];
      apply IH; simpl; setoid_rewrite Hin.
    + split_and!; [by right|done|]. intros n' i' [Hn'| ->] Hi'; [specialize (B3 _ _ Hn' Hi'); lia|].
      rewrite En in Hi'. injection Hi' as <-. lia.
    + split_and!; [by left|done|]. intros n' i' [Hn'| ->] Hi'; [by eapply B3|].
      rewrite En in Hi'. injection Hi' as <-. lia.
    + split_and!; [by right|done|]. intros n' i' [Hn'| ->] Hi'; [by rewrite (Hb n' Hn') in Hi'|].
      rewrite En in Hi'. injection Hi' as <-. lia.
  - apply IH. destruct b as [[bi bn]|]; simpl; setoid_rewrite Hin.
    + destruct Hb as (B1 & B2 & B3). split_and!; [by left|done|].
      intros n' i' [Hn'| ->] Hi'; [by eapply B3|congruence].
    + intros x [Hx| ->]; [by apply Hb|done].
Qed.

(** Latest, on a healthy disk, reads the file whose name carries the
    highest index of all files in the directory whose names scan as
    snapshots, and returns its contents; if no name scans it reports that
    there is no snapshot, and if that one file does not decode it fails, even
    when an older one would do. *)
Theorem Latest_highest `{GF : Codec File} dir (w : World) :
  no_faults w → dir ∈ w_dirs w →
  match Latest dir w with
  | (Ok None, w') => w' = w ∧ ∀ n, is_Some (w_files w !! ((dir, n) : Path)) → sscanf_snapshot n = None
  | (Ok (Some (file, path)), w') => w' = w ∧
      ∃ n i data, path = (dir, n) ∧ w_files w !! path = Some data ∧ Decode data = Some file ∧
        sscanf_snapshot n = Some i ∧
        ∀ n' i', is_Some (w_files w !! ((dir, n') : Path)) → sscanf_snapshot n' = Some i' → i' ≤ i
  | (Err e, w') => w' = w ∧ e = ErrDecode ∧
      ∃ n i data, w_files w !! ((dir, n) : Path) = Some data ∧ Decode data = None ∧
        sscanf_snapshot n = Some i ∧
        ∀ n' i', is_Some (w_files w !! ((dir, n') : Path)) → sscanf_snapshot n' = Some i' → i' ≤ i
  end.
Proof.
  intros Hw Hd. unfold Latest.
  assert (Er : gtry (os_ReadDir dir) w = (Ok (Ok (dir_names dir w)), w)).
  { unfold gtry, os_ReadDir. rewrite (bind_Ok _ _ _ _ _ (next_fault_none w Hw)).
    unfold_go. by rewrite decide_True. }
  rewrite (bind_Ok _ _ _ _ _ Er).
  assert (Hb : is_best (dir_names dir w) (best_snapshot (dir_names dir w) None)).
  { apply (best_snapshot_spec _ [] None). intros n Hn. by apply elem_of_nil in Hn. }
  destruct (best_snapshot (dir_names dir w) None) as [[i n]|]; simpl in Hb.
  - destruct Hb as (B1 & B2 & B3). apply elem_of_dir_names in B1 as [data Hdata]. cbv zeta.
    assert (Hrd : ReadFile (dir, n) w =
      (match Decode data with None => Err ErrDecode | Some f => Ok f end, w)).
    { unfold ReadFile. rewrite (bind_Ok _ _ _ _ _ (os_ReadFile_quiet _ _ _ Hw Hdata)).
      by destruct (Decode data). }
    assert (B3' : ∀ n' i', is_Some (w_files w !! ((dir, n') : Path)) → sscanf_snapshot n' = Some i' → i' ≤ i).
    { intros n' i' Hn'%elem_of_dir_names. by apply B3. }
    destruct (Decode data) as [file|] eqn:Ed.
    + rewrite (bind_Ok _ _ _ _ _ Hrd). unfold_go. split; [done|]. exists n, i, data. done.
    + rewrite (bind_Err _ _ _ _ _ Hrd). split_and!; [done|done|]. exists n, i, data. done.
  - unfold_go. split; [done|]. intros n Hn%elem_of_dir_names. by apply Hb.
Qed.

End SnapshotFile.
