(* ===== verification/Codecs.v ===== *)
(** * Concrete codecs

    encoding/json, encoding/gob and protobuf are parameters of the
    development.  Here each is given one concrete instance, so that the
    definitions can be run on concrete inputs and the hypotheses about codecs
    are seen to be satisfiable.  The byte format is not the libraries'; only
    what the program relies on is the same. *)

From Stdlib Require Import Strings.Byte.
From S2P Require Import Prelude Pb Fs Persistence SnapshotFile.
Import Persistence SnapshotFile.

#[global] Instance byte_countable : Countable byte :=
  inj_countable' Byte.to_N (λ n, default x00 (Byte.of_N n)) ltac:(by intros []).

(** A positive as bytes, one bit each. *)
Fixpoint pos_bytes (p : positive) : list byte :=
  match p with
  | xH => [x01]
  | xO q => x02 :: pos_bytes q
  | xI q => x03 :: pos_bytes q
  end.

Fixpoint bytes_pos (b : list byte) : option positive :=
  match b with
  | [x01] => Some xH
  | x02 :: b' => xO <$> bytes_pos b'
  | x03 :: b' => xI <$> bytes_pos b'
  | _ => None
  end.

Lemma bytes_pos_bytes p : bytes_pos (pos_bytes p) = Some p.
Proof. induction p as [q IH|q IH|]; cbn [pos_bytes bytes_pos]; [|rewrite IH..|]; try done. by rewrite IH. Qed.

Definition countable_codec (T : Type) `{Countable T} : Codec T := {|
  codec_enc x := Some (pos_bytes (encode x));
  codec_dec b := bytes_pos b ≫= decode
|}.

Lemma countable_codec_laws (T : Type) `{Countable T} wf : @CodecLaws T (countable_codec T) wf.
Proof.
  constructor. intros x b _ [= <-]. simpl. rewrite bytes_pos_bytes. simpl. apply decode_encode.
Qed.

#[global] Instance diskState_eq_dec : EqDecision diskState.
Proof. solve_decision. Defined.
#[global] Instance diskState_countable : Countable diskState :=
  inj_countable' (λ s, (ds_CurrentTerm s, ds_VotedFor s)) (λ p, MkDiskState p.1 p.2)
    ltac:(by intros []).

#[global] Instance LogEntry_countable : Countable LogEntry :=
  inj_countable' (λ e, (e_Term e, e_Index e, e_Command e)) (λ p, MkLogEntry p.1.1 p.1.2 p.2)
    ltac:(by intros []).

#[global] Instance File_eq_dec : EqDecision File.
Proof. solve_decision. Defined.
#[global] Instance File_countable : Countable File :=
  inj_countable' (λ f, (f_State f, f_LastIncludedIndex f, f_LastIncludedTerm f))
    (λ p, MkFile p.1.1 p.1.2 p.2) ltac:(by intros []).

#[global] Instance KVCommand_Op_countable : Countable KVCommand_Op :=
  inj_countable' (λ o, match o with
    | KVCommand_PUT => inl 0%nat
    | KVCommand_DELETE => inl 1%nat
    | KVCommand_UPDATE => inl 2%nat
    | KVCommand_Unknown n => inr n
    end)
    (λ x, match x with
    | inl 0%nat => KVCommand_PUT
    | inl 1%nat => KVCommand_DELETE
    | inl _ => KVCommand_UPDATE
    | inr n => KVCommand_Unknown n
    end) ltac:(by intros []).

#[global] Instance KVCommand_countable : Countable KVCommand :=
  inj_countable' (λ c, (c_Op c, c_Key c, c_Value c)) (λ p, MkKVCommand p.1.1 p.1.2 p.2)
    ltac:(by intros []).

Module Concrete.

#[export] Instance state_codec : Codec diskState := {|
  codec_enc s := Some (pos_bytes (encode s));
  codec_dec b := s ← bytes_pos b ≫= decode; if utf8_valid (ds_VotedFor s) then Some s else None
|}.
#[export] Instance entry_codec : Codec LogEntry := countable_codec LogEntry.
#[export] Instance file_codec : Codec File := countable_codec File.

(** Protobuf writes nothing for a message of zero values, and reads nothing
    as one. *)
#[export] Instance command_codec : Codec KVCommand := {|
  codec_enc c := if decide (c = MkKVCommand KVCommand_PUT "" "") then Some []
    else Some (pos_bytes (encode c));
  codec_dec b := match b with
    | [] => Some (MkKVCommand KVCommand_PUT "" "")
    | _ => bytes_pos b ≫= decode
    end
|}.

#[export] Instance state_codec_laws : CodecLaws diskState ds_wf.
Proof.
  constructor. intros x b [_ Hx] [= <-]. simpl. rewrite bytes_pos_bytes. simpl. rewrite decode_encode.
  simpl. by rewrite Hx.
Qed.
#[export] Instance state_codec_utf8 : DecodesUtf8.
Proof.
  intros b s. simpl. destruct (bytes_pos b ≫= decode) as [x|]; [|done]. simpl.
  destruct (utf8_valid (ds_VotedFor x)) eqn:E; [|done]. by intros [= <-].
Qed.
#[export] Instance entry_codec_laws wf : CodecLaws LogEntry wf := countable_codec_laws _ wf.
#[export] Instance file_codec_laws wf : CodecLaws File wf := countable_codec_laws _ wf.
#[export] Instance command_codec_laws wf : CodecLaws KVCommand wf.
Proof.
  constructor. intros c b _. simpl. destruct (decide _) as [->|]; intros [= <-]; [done|].
  assert (pos_bytes (encode c) ≠ []) as Hn by (destruct (encode c) as [[]|[]|]; done).
  pose proof (bytes_pos_bytes (encode c)) as Hb.
  destruct (pos_bytes (encode c)); [done|]. rewrite Hb. simpl. apply decode_encode.
Qed.

Lemma state_codec_total : ∀ s : diskState, is_Some (codec_enc s).
Proof. by eexists. Qed.

End Concrete.
