(* ===== verification/Storage.v ===== *)
(** * What the consensus core relies on from its storage

    [Storage] lists the persistence and snapshotfile calls internal/raft
    makes.  [VoteLaws] and [LogLaws] are what it may assume of them: votes
    survive every fault, the log survives fault-free calls.  The file-backed
    implementation discharges both. *)

From Stdlib Require Import Strings.Byte.
From S2P Require Import Prelude Pb Fs Persistence SnapshotFile.
Import Persistence.
Import SnapshotFile.

Class Storage (D : Type) : Type := {
  st_LoadState : string → GoM D (Z * string);
  st_SaveState : string → Z → string → GoM D unit;
  st_AppendLogEntries : string → list LogEntry → GoM D unit;
  st_ReadAllLogEntries : string → GoM D (list LogEntry);
  st_TruncateLogFrom : string → Z → GoM D unit;
  st_RewriteLog : string → list LogEntry → GoM D unit;
  st_WriteFile : string → File → GoM D Path;
  st_Remove : Path → GoM D unit;
  st_Latest : string → GoM D (option (File * Path));
  (** the environment decides which of the next calls fail *)
  st_env : D → D → Prop
}.

(** [m] leaves the vote [vote] of [dir] as it is. *)
Definition keeps {D A V} (vote : D → V) (m : GoM D A) : Prop := ∀ d, vote (m d).2 = vote d.

Class VoteLaws (D : Type) `{Storage D} : Type := {
  vl_vote : string → D → option (Z * string);
  (** the names state.json can hold *)
  vl_name : string → Prop;
  vl_name_nil : vl_name "";
  vl_load : ∀ dir d d' t v,
    st_LoadState dir d = (Ok (t, v), d') → vl_vote dir d = Some (t, v) ∧ vl_name v;
  vl_load_keeps : ∀ dir, keeps (vl_vote dir) (st_LoadState dir);
  vl_save : ∀ dir t v d d' r, is_u64 t → vl_name v → st_SaveState dir t v d = (r, d') →
    vl_vote dir d' = match r with Ok _ => Some (t, v) | Err _ => vl_vote dir d end;
  vl_append : ∀ dir es, keeps (vl_vote dir) (st_AppendLogEntries dir es);
  vl_read : ∀ dir, keeps (vl_vote dir) (st_ReadAllLogEntries dir);
  vl_truncate : ∀ dir i, keeps (vl_vote dir) (st_TruncateLogFrom dir i);
  vl_rewrite : ∀ dir es, keeps (vl_vote dir) (st_RewriteLog dir es);
  vl_write : ∀ dir f, keeps (vl_vote dir) (st_WriteFile dir f);
  vl_write_path : ∀ dir f d p d', st_WriteFile dir f d = (Ok p, d') →
    p = (dir, FileName (f_LastIncludedIndex f));
  vl_remove : ∀ dir i, keeps (vl_vote dir) (st_Remove (dir, FileName i));
  vl_latest : ∀ dir, keeps (vl_vote dir) (st_Latest dir);
  vl_env : ∀ dir d d', st_env d d' → vl_vote dir d' = vl_vote dir d
}.

Class LogLaws (D : Type) `{Storage D} : Type := {
  ll_quiet : D → Prop;
  ll_storable : LogEntry → Prop;
  ll_log : string → D → list LogEntry → Prop;
  ll_log_storable : ∀ dir d es, ll_log dir d es → Forall ll_storable es;
  ll_load : ∀ dir d es r d', ll_quiet d → ll_log dir d es → st_LoadState dir d = (r, d') →
    ll_quiet d' ∧ ll_log dir d' es;
  ll_save : ∀ dir t v d es, ll_quiet d → ll_log dir d es → is_u64 t →
    ∃ d', st_SaveState dir t v d = (Ok tt, d') ∧ ll_quiet d' ∧ ll_log dir d' es;
  ll_append : ∀ dir es es' d, ll_quiet d → ll_log dir d es → Forall ll_storable es' →
    ∃ d', st_AppendLogEntries dir es' d = (Ok tt, d') ∧ ll_quiet d' ∧ ll_log dir d' (es ++ es');
  ll_read : ∀ dir es d, ll_quiet d → ll_log dir d es →
    ∃ d', st_ReadAllLogEntries dir d = (Ok es, d') ∧ ll_quiet d' ∧ ll_log dir d' es;
  ll_truncate : ∀ dir es i d, ll_quiet d → ll_log dir d es →
    ∃ d', st_TruncateLogFrom dir i d = (Ok tt, d') ∧ ll_quiet d' ∧
      ll_log dir d' (filter (λ e, e_Index e < i) es);
  ll_rewrite : ∀ dir es d, ll_quiet d → Forall ll_storable es →
    ∃ d', st_RewriteLog dir es d = (Ok tt, d') ∧ ll_quiet d' ∧ ll_log dir d' es;
  (** snapshot files that can be encoded *)
  ll_file : File → Prop;
  ll_write : ∀ dir f es d, ll_quiet d → ll_log dir d es → ll_file f →
    ∃ d', st_WriteFile dir f d = (Ok (dir, FileName (f_LastIncludedIndex f)), d') ∧
      ll_quiet d' ∧ ll_log dir d' es;
  ll_remove : ∀ dir i es d, ll_quiet d → ll_log dir d es →
    ∃ d', st_Remove (dir, FileName i) d = (Ok tt, d') ∧ ll_quiet d' ∧ ll_log dir d' es
}.

(** ** The file-backed storage *)

Section file_storage.
Context `{JS : Codec diskState} `{GE : Codec LogEntry} `{GF : Codec File}.

#[global] Instance FileStorage : Storage World := {|
  st_LoadState := LoadState;
  st_SaveState := SaveState;
  st_AppendLogEntries := AppendLogEntries;
  st_ReadAllLogEntries := ReadAllLogEntries;
  st_TruncateLogFrom := TruncateLogFrom;
  st_RewriteLog := RewriteLog;
  st_WriteFile := WriteFile;
  st_Remove := os_Remove;
  st_Latest := Latest;
  st_env := λ w w', ∃ fs, w' = arm fs w
|}.

Lemma keeps_frame {A} ps (m : GoM World A) dir :
  frame ps m → ¬ ps (statePath dir) → keeps (λ w, vote_view w dir) m.
Proof. intros Hm Hp w. apply vote_view_files. by apply Hm. Qed.

Lemma FileName_not_state z : FileName z ≠ "state.json".
Proof. done. Qed.

Lemma FileName_tmp_not_state z : FileName z +:+ ".tmp" ≠ "state.json".
Proof. done. Qed.

Definition snap_files (dir : string) (z : Z) (q : Path) : Prop :=
  q = (dir, FileName z) ∨ q = path_tmp (dir, FileName z).

Lemma snap_files_state dir z : ¬ snap_files dir z (statePath dir).
Proof. intros [H|H]; done. Qed.

#[local] Hint Extern 1 (snap_files _ _ _) => (by left) || (by right) : framedb.

Lemma WriteFile_frame dir f : frame (snap_files dir (f_LastIncludedIndex f)) (WriteFile dir f).
Proof. unfold WriteFile. cbv zeta. frame_tac. Qed.

Lemma Latest_frame dir : frame (λ _, False) (Latest dir).
Proof. unfold Latest, ReadFile. frame_tac. Qed.

Lemma LoadState_frame dir : frame (λ _, False) (LoadState dir).
Proof. unfold LoadState. frame_tac. Qed.

Context `{!CodecLaws diskState ds_wf} `{!DecodesUtf8}.

#[global] Instance FileVoteLaws : VoteLaws World.
Proof.
  refine {| vl_vote dir w := vote_view w dir; vl_name v := utf8_valid v = true |}; cbn [FileStorage st_LoadState st_SaveState
    st_AppendLogEntries st_ReadAllLogEntries st_TruncateLogFrom st_RewriteLog st_WriteFile
    st_Remove st_Latest st_env]; intros.
  - done.
  - split; [by eapply LoadState_spec|by eapply LoadState_name].
  - eapply keeps_frame; [apply LoadState_frame|naive_solver].
  - by eapply SaveState_spec.
  - eapply keeps_frame; [apply AppendLogEntries_frame|apply log_files_state].
  - eapply keeps_frame; [apply ReadAllLogEntries_frame|apply log_files_state].
  - eapply keeps_frame; [apply TruncateLogFrom_frame|apply log_files_state].
  - eapply keeps_frame; [apply RewriteLog_frame|apply log_files_state].
  - eapply keeps_frame; [apply WriteFile_frame|apply snap_files_state].
  - match goal with E : WriteFile _ _ _ = _ |- _ => revert E end.
    unfold WriteFile. cbv zeta. intros [(?&?&_&E)|(?&_&?)]%bind_inv; [|done].
    destruct (Encode f); [|done].
    apply bind_inv in E as [(?&?&_&E)|(?&_&?)]; [|done].
    apply bind_inv in E as [(?&?&_&E)|(?&_&?)]; [|done]. unfold_go. by simplify_eq.
  - eapply (keeps_frame (snap_files dir i)); [|apply snap_files_state].
    apply frame_os_Remove. by left.
  - eapply keeps_frame; [apply Latest_frame|naive_solver].
  - match goal with E : ∃ _, _ |- _ => destruct E as [fs ->] end. by apply vote_view_files.
Defined.

Context `{!CodecLaws LogEntry entry_wf}.
(** json.Marshal does not fail on strings and numbers. *)
Context (json_total : ∀ s : diskState, is_Some (codec_enc s)).

Lemma log_holds_files dir w w' es :
  w_files w' !! logPath dir = w_files w !! logPath dir → log_holds w dir es → log_holds w' dir es.
Proof. unfold log_holds. by intros ->. Qed.

Lemma SaveState_quiet dir t v w :
  no_faults w → is_u64 t →
  ∃ w', SaveState dir t v w = (Ok tt, w') ∧ no_faults w' ∧
    w_files w' !! logPath dir = w_files w !! logPath dir.
Proof.
  intros Hw Ht. unfold SaveState. go_step (os_MkdirAll_quiet dir w Hw).
  destruct (json_total (MkDiskState t v)) as [b ->]. cbv zeta.
  go_step (os_WriteFile_quiet (path_tmp (statePath dir)) b (with_dir dir w) Hw).
  set (w1 := set_files _ _). assert (H1 : no_faults w1) by done.
  rewrite (os_Rename_quiet _ _ b) by (done || apply lookup_insert_eq).
  eexists. split; [done|]. split; [done|]. unfold w1. cbn.
  rewrite lookup_insert_ne, lookup_delete_ne, lookup_insert_ne; done.
Qed.

Lemma LoadState_faults dir w r w' : no_faults w → LoadState dir w = (r, w') → no_faults w'.
Proof.
  intros Hw. assert (Hr : (gtry (os_ReadFile (statePath dir)) w).2 = w).
  { unfold gtry, os_ReadFile. rewrite (bind_Ok _ _ _ _ _ (next_fault_none w Hw)).
    unfold_go. by destruct (w_files w !! statePath dir). }
  unfold LoadState. intros [(x & w1 & E & HR)|(e & E & _)]%bind_inv; rewrite E in Hr; simpl in Hr; subst.
  - revert HR. repeat case_match; by intros [= _ <-].
  - done.
Qed.

Lemma logPath_not_snap dir z : logPath dir ≠ (dir, FileName z).
Proof. done. Qed.

Lemma logPath_not_tmp dir z : logPath dir ≠ path_tmp (dir, FileName z).
Proof. done. Qed.

Definition FileLogLaws : LogLaws World.
Proof.
  refine {| ll_quiet := no_faults; ll_storable := storable; ll_log dir w es := log_holds w dir es;
      ll_file f := is_Some (Encode f) |};
    cbn [FileStorage st_LoadState st_SaveState st_AppendLogEntries st_ReadAllLogEntries
      st_TruncateLogFrom st_RewriteLog st_WriteFile st_Remove].
  - by intros dir d es [? _].
  - intros dir d es r d' Hq Hl Hr. cbn [FileStorage st_LoadState] in Hr. pose proof (LoadState_frame dir d (logPath dir) (λ x, x)) as Hf.
    rewrite Hr in Hf. split; [by eapply LoadState_faults|].
    by eapply log_holds_files.
  - intros dir t v d es Hq Hl Ht. destruct (SaveState_quiet dir t v d Hq Ht) as (w' & ? & ? & Hf).
    exists w'. split_and!; [done..|]. by eapply log_holds_files.
  - intros dir es es' d Hq Hl Hs.
    destruct (AppendLogEntries_quiet dir es es' d Hq Hl Hs) as (w' & ? & ? & ? & _). eauto.
  - intros dir es d Hq [Hs Hb].
    destruct (ReadAll_bytes es (default [] (w_files d !! logPath dir)) [] dir d)
      as (w' & ? & Hf & ?); [done..|by left|by rewrite app_nil_r|].
    exists w'. split_and!; [done..|]. split; [done|]. by rewrite Hf, lookup_insert_eq.
  - intros dir es i d Hq Hl. destruct (TruncateLogFrom_quiet dir i es d Hq Hl) as (w' & ? & ? & ?).
    eauto.
  - intros dir es d Hq Hs. destruct (RewriteLog_quiet dir es d Hq Hs) as (w' & ? & ? & ? & _). eauto.
  - intros dir f es d Hq Hl [buf Hf].
    destruct (WriteFile_quiet dir f buf d Hq Hf) as (w' & ? & ? & _ & Hk).
    exists w'. split_and!; [done..|]. eapply log_holds_files; [|done].
    apply Hk; [apply logPath_not_snap|apply logPath_not_tmp].
  - intros dir i es d Hq Hl. eexists. split; [by apply os_Remove_quiet|]. split; [done|].
    eapply log_holds_files; [|done]. simpl. apply lookup_delete_ne. symmetry. apply logPath_not_snap.
Defined.

End file_storage.
