(* ===== verification/SnapStorage.v ===== *)
(** * The snapshot files a node finds when it starts

    [SnapLaws] is what restart relies on: the persistence calls leave the
    snapshot files of a directory alone, writing and removing do what they
    say, and Latest returns the one file that is there.  The file-backed
    storage discharges it. *)

From Stdlib Require Import Strings.Byte.
From S2P Require Import Prelude Pb Fs Persistence SnapshotFile Storage.
Import Persistence.
Import SnapshotFile.

(** What a disk has, it still has after [m]. *)
Definition keeps_true {D A} (P : D → Prop) (m : GoM D A) : Prop := ∀ d, P d → P (m d).2.

(** The snapshots with another index than [i]. *)
Definition drop_index (i : Z) (fs : list File) : list File :=
  filter (λ f, f_LastIncludedIndex f ≠ i) fs.

Class SnapLaws (D : Type) `{LogLaws D} : Type := {
  sl_files : string → D → list File → Prop;
  sl_load : ∀ dir dir' fs, keeps_true (λ d, sl_files dir d fs) (st_LoadState dir');
  sl_save : ∀ dir dir' fs t v, keeps_true (λ d, sl_files dir d fs) (st_SaveState dir' t v);
  sl_append : ∀ dir dir' fs es, keeps_true (λ d, sl_files dir d fs) (st_AppendLogEntries dir' es);
  sl_read : ∀ dir dir' fs, keeps_true (λ d, sl_files dir d fs) (st_ReadAllLogEntries dir');
  sl_truncate : ∀ dir dir' fs i, keeps_true (λ d, sl_files dir d fs) (st_TruncateLogFrom dir' i);
  sl_rewrite : ∀ dir dir' fs es, keeps_true (λ d, sl_files dir d fs) (st_RewriteLog dir' es);
  sl_write : ∀ dir fs f d d' p, ll_quiet d → ll_file f → is_u64 (f_LastIncludedIndex f) →
    sl_files dir d fs → st_WriteFile dir f d = (Ok p, d') →
    sl_files dir d' (f :: drop_index (f_LastIncludedIndex f) fs);
  sl_remove : ∀ dir fs i d, ll_quiet d → is_u64 i → sl_files dir d fs →
    sl_files dir (st_Remove (dir, FileName i) d).2 (drop_index i fs);
  sl_latest : ∀ dir d f, ll_quiet d → sl_files dir d [f] →
    st_Latest dir d = (Ok (Some (f, (dir, FileName (f_LastIncludedIndex f)))), d);
  sl_latest_none : ∀ dir d, ll_quiet d → sl_files dir d [] → st_Latest dir d = (Ok None, d)
}.

(** ** Directories do not go away *)

Definition dirs_grow {A} (m : GoM World A) : Prop := ∀ w, w_dirs w ⊆ w_dirs (m w).2.

Lemma dirs_bind {A B} (m : GoM World A) (f : A → GoM World B) :
  dirs_grow m → (∀ a, dirs_grow (f a)) → dirs_grow (m ≫= f).
Proof.
  intros Hm Hf w. specialize (Hm w). unfold mbind, GoM_bind.
  destruct (m w) as [[a|e] w']; simpl in *; [|done]. etrans; [done|apply Hf].
Qed.

Lemma dirs_gtry {A} (m : GoM World A) : dirs_grow m → dirs_grow (gtry m).
Proof. intros Hm w. specialize (Hm w). unfold gtry. by destruct (m w). Qed.

(** A single call: look at what it does to the world. *)
Ltac dirs_call :=
  intros w; unfold next_fault; unfold_go; repeat case_match; simplify_eq/=; set_solver.

Lemma dirs_calls :
  (∀ A (a : A), dirs_grow (mret a)) ∧ (∀ A e, dirs_grow (@gfail World A e)) ∧
  (∀ dir, dirs_grow (os_MkdirAll dir)) ∧ (∀ p, dirs_grow (os_ReadFile p)) ∧
  (∀ p b, dirs_grow (os_WriteFile p b)) ∧ (∀ a b, dirs_grow (os_Rename a b)) ∧
  (∀ p, dirs_grow (os_OpenCreate p)) ∧ (∀ p, dirs_grow (os_OpenTrunc p)) ∧
  (∀ p b, dirs_grow (f_Append p b)) ∧ dirs_grow f_Sync ∧ dirs_grow f_Close ∧
  (∀ p n, dirs_grow (f_Truncate p n)) ∧ (∀ n r, dirs_grow (io_ReadFull n r)) ∧
  (∀ p, dirs_grow (os_Remove p)) ∧ dirs_grow gget.
Proof.
  split_and!; intros;
    unfold os_MkdirAll, os_ReadFile, os_WriteFile, os_Rename, os_OpenCreate, os_OpenTrunc, f_Append,
      f_Sync, f_Close, f_Truncate, io_ReadFull, os_Remove; dirs_call.
Qed.

Create HintDb dirsdb.

Ltac dirs_tac :=
  pose proof dirs_calls as (? & ? & ? & ? & ? & ? & ? & ? & ? & ? & ? & ? & ? & ? & ?);
  repeat first
    [ progress intros
    | solve [eauto with dirsdb]
    | apply dirs_bind
    | apply dirs_gtry
    | match goal with
      | |- dirs_grow (match ?x with _ => _ end) => destruct x
      | |- dirs_grow (if ?x then _ else _) => destruct x
      end ].

Section file_snaps.
Context `{JS : Codec diskState} `{GE : Codec LogEntry} `{GF : Codec File}.

Lemma write_records_dirs p es : dirs_grow (write_records p es).
Proof. induction es; cbn [write_records]; dirs_tac. Qed.

Lemma read_loop_dirs fuel p rest off acc : dirs_grow (read_loop fuel p rest off acc).
Proof. revert rest off acc. induction fuel; intros rest off acc; cbn [read_loop]; dirs_tac. Qed.

#[local] Hint Resolve write_records_dirs read_loop_dirs : dirsdb.

Lemma LoadState_dirs dir : dirs_grow (LoadState dir).
Proof. unfold LoadState. dirs_tac. Qed.
Lemma SaveState_dirs dir t v : dirs_grow (SaveState dir t v).
Proof. unfold SaveState. cbv zeta. dirs_tac. Qed.
Lemma AppendLogEntries_dirs dir es : dirs_grow (AppendLogEntries dir es).
Proof. unfold AppendLogEntries. cbv zeta. dirs_tac. Qed.
Lemma ReadAllLogEntries_dirs dir : dirs_grow (ReadAllLogEntries dir).
Proof. unfold ReadAllLogEntries. cbv zeta. dirs_tac. Qed.
Lemma RewriteLog_dirs dir es : dirs_grow (RewriteLog dir es).
Proof. unfold RewriteLog. cbv zeta. dirs_tac. Qed.
Lemma TruncateLogFrom_dirs dir i : dirs_grow (TruncateLogFrom dir i).
Proof. unfold TruncateLogFrom. apply dirs_bind; [apply ReadAllLogEntries_dirs|]. intros; apply RewriteLog_dirs. Qed.

Lemma string_app_nil_r (s : string) : s +:+ "" = s.
Proof. induction s as [|c s IH]; [done|]. change (String c (s +:+ "") = String c s). by rewrite IH. Qed.

Lemma sscanf_name (z : Z) : is_u64 z → sscanf_snapshot (FileName z) = Some z.
Proof. intros Hz. rewrite <- (string_app_nil_r (FileName z)). by apply sscanf_FileName. Qed.

(** The snapshot files of [dir], each under the name of its index. *)
Definition snaps_hold (w : World) (dir : string) (fs : list File) : Prop :=
  (fs ≠ [] → dir ∈ w_dirs w) ∧
  (∀ f, f ∈ fs → is_u64 (f_LastIncludedIndex f) ∧
     ∃ data, w_files w !! ((dir, FileName (f_LastIncludedIndex f)) : Path) = Some data ∧ Decode data = Some f) ∧
  (∀ n i, is_Some (w_files w !! ((dir, n) : Path)) → sscanf_snapshot n = Some i →
     ∃ f, f ∈ fs ∧ n = FileName (f_LastIncludedIndex f)).

(** Calls that touch no name that scans as a snapshot. *)
Lemma snaps_frame {A} ps (m : GoM World A) dir fs :
  frame ps m → dirs_grow m → (∀ q, ps q → sscanf_snapshot q.2 = None) →
  keeps_true (λ w, snaps_hold w dir fs) m.
Proof.
  intros Hf Hd Hq w (H1 & H2 & H3).
  assert (Hk : ∀ n i, sscanf_snapshot n = Some i → w_files (m w).2 !! ((dir, n) : Path) = w_files w !! ((dir, n) : Path)).
  { intros n i Hn. apply Hf. intros Hp%Hq. simpl in Hp. congruence. }
  split_and!.
  - intros Hne. apply Hd. by apply H1.
  - intros f Hin. destruct (H2 f Hin) as (Hu & data & Hdata & Hdec). split; [done|]. exists data.
    split; [|done]. rewrite (Hk _ (f_LastIncludedIndex f)); [done|].
    by apply sscanf_name.
  - intros n i Hn Hi. rewrite (Hk n i Hi) in Hn. eauto.
Qed.

Lemma log_files_scan dir q : log_files dir q → sscanf_snapshot q.2 = None.
Proof. by intros [->| ->]. Qed.

Lemma state_files_scan dir q : q = statePath dir ∨ q = path_tmp (statePath dir) → sscanf_snapshot q.2 = None.
Proof. by intros [->| ->]. Qed.

Lemma FileName_inj i j : is_u64 i → is_u64 j → FileName i = FileName j → i = j.
Proof.
  intros Hi Hj E. pose proof (sscanf_name i Hi) as E1. rewrite E, sscanf_name in E1 by done.
  by injection E1.
Qed.

Context `{!CodecLaws File (λ _, True)}.

Lemma WriteFile_snaps dir fs f w w' p :
  no_faults w → is_Some (Encode f) → is_u64 (f_LastIncludedIndex f) → snaps_hold w dir fs →
  WriteFile dir f w = (Ok p, w') → snaps_hold w' dir (f :: drop_index (f_LastIncludedIndex f) fs).
Proof.
  intros Hw [buf Hb] Hu (H1 & H2 & H3) E. pose proof Hb as Hdec. apply (codec_roundtrip (T := File)) in Hdec; [|done].
  set (path := ((dir, FileName (f_LastIncludedIndex f)) : Path)).
  assert (Ew : w' = set_files (<[path := buf]> (delete (path_tmp path)
    (<[path_tmp path := buf]> (w_files w)))) (with_dir dir w)).
  { revert E. unfold WriteFile. go_step (os_MkdirAll_quiet dir w Hw). cbv zeta. rewrite Hb. fold path.
    go_step (os_WriteFile_quiet (path_tmp path) buf (with_dir dir w) Hw). set (w1 := set_files _ _).
    assert (Hw1 : no_faults w1) by done.
    go_step (os_Rename_quiet (path_tmp path) path buf w1 Hw1 (lookup_insert_eq _ _ _)). by intros [= _ <-]. }
  assert (Ef : ∀ q, q ≠ path → w_files w' !! q = if decide (q = path_tmp path) then None else w_files w !! q).
  { intros q Hq. rewrite Ew. simpl. rewrite lookup_insert_ne by done. case_decide as Hd.
    - subst q. apply lookup_delete_eq.
    - by rewrite lookup_delete_ne, lookup_insert_ne. }
  assert (Ep : w_files w' !! path = Some buf) by (rewrite Ew; apply lookup_insert_eq).
  split_and!.
  - intros _. rewrite Ew. simpl. set_solver.
  - intros g [->|[Hne Hin]%list_elem_of_filter]%elem_of_cons; [split; [done|]; by exists buf|].
    destruct (H2 g Hin) as (Hug & data & Hdata & Hdg). split; [done|]. exists data. split; [|done].
    rewrite Ef by (intros Hn%(f_equal snd); by apply FileName_inj in Hn). rewrite decide_False; [done|].
    intros Hn%(f_equal snd).
    change (FileName (f_LastIncludedIndex g) = FileName (f_LastIncludedIndex f) +:+ ".tmp") in Hn. pose proof (sscanf_FileName (f_LastIncludedIndex f) ".tmp" Hu) as E2.
    rewrite <- Hn, sscanf_name in E2 by done. by injection E2.
  - intros n i Hn Hi. destruct (decide ((dir, n) = path)) as [Hd|Hd].
    { injection Hd as ->. exists f. split; [by left|done]. }
    rewrite Ef in Hn by done. case_decide as Ht; [by destruct Hn|]. destruct (H3 n i Hn Hi) as (g & Hg & ->).
    exists g. split; [|done]. right. apply list_elem_of_filter. split; [|done]. intros Hx. apply Hd.
    unfold path. by rewrite Hx.
Qed.

Lemma Remove_snaps dir fs i w :
  no_faults w → is_u64 i → snaps_hold w dir fs →
  snaps_hold (os_Remove (dir, FileName i) w).2 dir (drop_index i fs).
Proof.
  intros Hw Hu (H1 & H2 & H3). rewrite os_Remove_quiet by done. cbn [snd]. split_and!.
  - intros Hne. apply H1. intros ->. done.
  - intros f [Hne Hin]%list_elem_of_filter. destruct (H2 f Hin) as (Hf & data & Hdata & Hdec).
    split; [done|]. exists data. split; [|done]. simpl. rewrite lookup_delete_ne; [done|].
    intros Hx%(f_equal snd). by apply FileName_inj in Hx.
  - intros n j Hn Hj. simpl in Hn. apply lookup_delete_is_Some in Hn as [Hne Hn].
    destruct (H3 n j Hn Hj) as (f & Hf & ->). exists f. split; [|done]. apply list_elem_of_filter.
    split; [|done]. intros Hx. apply Hne. by rewrite Hx.
Qed.

Lemma Latest_snaps dir f w :
  no_faults w → snaps_hold w dir [f] →
  Latest dir w = (Ok (Some (f, (dir, FileName (f_LastIncludedIndex f)))), w).
Proof.
  intros Hw (H1 & H2 & H3). destruct (H2 f) as (Hu & data & Hdata & Hdec); [by left|].
  assert (Hone : ∀ n i, is_Some (w_files w !! ((dir, n) : Path)) → sscanf_snapshot n = Some i →
    n = FileName (f_LastIncludedIndex f)).
  { intros n i Hn Hi. by destruct (H3 n i Hn Hi) as (g & ->%list_elem_of_singleton & ->). }
  pose proof (Latest_highest dir w Hw (H1 ltac:(done))) as HL.
  destruct (Latest dir w) as [[[[g p]|]|e] w'].
  - destruct HL as (-> & n & i & data' & -> & Hn & Hg & Hi & _). assert (n = FileName (f_LastIncludedIndex f)) as -> by eauto.
    rewrite Hdata in Hn. injection Hn as <-. by rewrite Hdec in Hg; injection Hg as <-.
  - destruct HL as (_ & Hno). specialize (Hno (FileName (f_LastIncludedIndex f)) ltac:(eauto)).
    by rewrite sscanf_name in Hno.
  - destruct HL as (_ & _ & n & i & data' & Hn & Hg & Hi & _). assert (n = FileName (f_LastIncludedIndex f)) as -> by eauto.
    rewrite Hdata in Hn. injection Hn as <-. by rewrite Hdec in Hg.
Qed.

Lemma Latest_no_snaps dir w : no_faults w → snaps_hold w dir [] → Latest dir w = (Ok None, w).
Proof.
  intros Hw (_ & _ & H3).
  assert (Hno : ∀ n i, is_Some (w_files w !! ((dir, n) : Path)) → sscanf_snapshot n = Some i → False).
  { intros n i Hn Hi. destruct (H3 n i Hn Hi) as (g & []%elem_of_nil & _). }
  destruct (decide (dir ∈ w_dirs w)) as [Hd|Hd].
  - pose proof (Latest_highest dir w Hw Hd) as HL. destruct (Latest dir w) as [[[[g p]|]|e] w'].
    + destruct HL as (_ & n & i & data & -> & Hn & _ & Hi & _). by destruct (Hno n i); eauto.
    + by destruct HL as [-> _].
    + destruct HL as (_ & _ & n & i & data & Hn & _ & Hi & _). by destruct (Hno n i); eauto.
  - unfold Latest. assert (Er : gtry (os_ReadDir dir) w = (Ok (Err ErrNotExist), w)).
    { unfold gtry, os_ReadDir. rewrite (bind_Ok _ _ _ _ _ (next_fault_none w Hw)).
      unfold_go. by rewrite decide_False. }
    by rewrite (bind_Ok _ _ _ _ _ Er).
Qed.

Context `{!CodecLaws LogEntry entry_wf} (json_total : ∀ s : diskState, is_Some (codec_enc s)).

Definition FileSnapLaws : @SnapLaws World FileStorage (FileLogLaws json_total).
Proof.
  refine {| sl_files dir w fs := snaps_hold w dir fs |};
    cbn [FileStorage st_LoadState st_SaveState st_AppendLogEntries st_ReadAllLogEntries
      st_TruncateLogFrom st_RewriteLog st_WriteFile st_Remove st_Latest FileLogLaws ll_quiet ll_file]; intros.
  - eapply snaps_frame; [apply LoadState_frame|apply LoadState_dirs|done].
  - eapply snaps_frame; [apply SaveState_frame|apply SaveState_dirs|apply state_files_scan].
  - eapply snaps_frame; [apply AppendLogEntries_frame|apply AppendLogEntries_dirs|apply log_files_scan].
  - eapply snaps_frame; [apply ReadAllLogEntries_frame|apply ReadAllLogEntries_dirs|apply log_files_scan].
  - eapply snaps_frame; [apply TruncateLogFrom_frame|apply TruncateLogFrom_dirs|apply log_files_scan].
  - eapply snaps_frame; [apply RewriteLog_frame|apply RewriteLog_dirs|apply log_files_scan].
  - by eapply WriteFile_snaps.
  - by apply Remove_snaps.
  - by apply Latest_snaps.
  - by apply Latest_no_snaps.
Defined.

End file_snaps.
