(* ===== verification/RaftNode.v ===== *)
(** * internal/raft: the node, its construction and its shared helpers

    [Node] carries every field of the Go struct that its operations read or
    write.  A field [n.x] is the projection [n_x], an assignment [n.x = v] is
    [set_x v].  Go channels are explicit: [waiters] maps a log index to a
    channel number, [chans] holds what has been sent on each channel and not
    yet received, [applyWake] counts how often the wake-up channel has been
    closed and replaced.  The state machine behind ApplyFn and StateMachine is
    the field [stateMachine] of a type with the two operations raft uses.

    Operations run under the node's mutex: each is one atomic step of type
    [NodeM], a state-and-error monad over the node and its storage.  Log
    output is omitted. *)

From Stdlib Require Import Strings.Byte.
From S2P Require Import Prelude Pb Fs Persistence SnapshotFile Storage.
Import SnapshotFile.

(** role.go *)
Inductive Role : Type := Follower | Candidate | Leader.

#[global] Instance Role_eq_dec : EqDecision Role.
Proof. solve_decision. Defined.

Definition Role_String (r : Role) : string :=
  match r with
  | Follower => "Follower"
  | Candidate => "Candidate"
  | Leader => "Leader"
  end.

Definition Role_toProto (r : Role) : PbRole :=
  match r with
  | Candidate => Role_CANDIDATE
  | Leader => Role_LEADER
  | Follower => Role_FOLLOWER
  end.

(** Durations are nanoseconds. *)
Definition millisecond : Z := 1000000.
Definition second : Z := 1000000000.

Definition defaultTick : Z := 10 * millisecond.
Definition defaultRPCTimeout : Z := 2 * second.

Record TimingConfig : Type := MkTimingConfig {
  ElectionTimeoutMin : Z;
  ElectionTimeoutMax : Z;
  HeartbeatInterval : Z
}.

(** snapshotconfig.go *)
Record SnapshotConfig : Type := MkSnapshotConfig {
  LogCapacityEntries : Z;
  PollInterval : Z
}.

Definition defaultLogCapacityEntries : Z := 1000.
Definition defaultSnapshotPollInterval : Z := 5 * second.

Definition quorumSize (n : Z) : Z := Z.quot n 2 + 1.

Definition min64 (a b : Z) : Z := if a <? b then a else b.

Record ApplyMsg : Type := MkApplyMsg {
  am_Index : Z;
  am_Term : Z;
  am_Command : list byte
}.

(** What raft asks of the state machine it drives: Config.ApplyFn and
    StateMachineSnapshotter.Restore. *)
Class StateMachine (SM : Type) : Type := {
  sm_ApplyFn : ApplyMsg → SM → SM;
  sm_Restore : gmap string string → SM → SM
}.

(** The clock and the random source an operation reads. *)
Record Env : Type := MkEnv {
  env_now : Z;
  env_Int63n : Z → Z
}.

Section node.
Context {SM : Type} `{StateMachine SM}.

Record Node : Type := MkNode {
  n_id : string;
  n_address : string;
  n_dataDir : string;
  n_peers : list string;
  n_timing : TimingConfig;
  n_tick : Z;
  n_rpcTimeout : Z;
  n_snapshotCfg : SnapshotConfig;
  n_stateMachine : SM;
  n_currentTerm : Z;
  n_votedFor : string;
  n_log : list LogEntry;
  n_logOffset : Z;
  n_currentSnapshotPath : option Path;
  n_role : Role;
  n_commitIndex : Z;
  n_lastApplied : Z;
  n_nextIndex : gmap string Z;
  n_matchIndex : gmap string Z;
  n_currentLeader : string;
  n_lastHeartbeat : Z;
  n_electionTimeout : Z;
  n_lastAppendEntriesAt : option Z;
  n_applyWake : nat;
  n_waiters : gmap Z nat;
  n_chans : gmap nat (list (option goerr));
  n_nextChan : nat
}.

Definition set_stateMachine (x : SM) (n : Node) : Node :=
  MkNode (n_id n) (n_address n) (n_dataDir n) (n_peers n) (n_timing n) (n_tick n)
    (n_rpcTimeout n) (n_snapshotCfg n) x (n_currentTerm n) (n_votedFor n) (n_log n)
    (n_logOffset n) (n_currentSnapshotPath n) (n_role n) (n_commitIndex n) (n_lastApplied n)
    (n_nextIndex n) (n_matchIndex n) (n_currentLeader n) (n_lastHeartbeat n)
    (n_electionTimeout n) (n_lastAppendEntriesAt n) (n_applyWake n) (n_waiters n) (n_chans n)
    (n_nextChan n).
Definition set_currentTerm (x : Z) (n : Node) : Node :=
  MkNode (n_id n) (n_address n) (n_dataDir n) (n_peers n) (n_timing n) (n_tick n)
    (n_rpcTimeout n) (n_snapshotCfg n) (n_stateMachine n) x (n_votedFor n) (n_log n)
    (n_logOffset n) (n_currentSnapshotPath n) (n_role n) (n_commitIndex n) (n_lastApplied n)
    (n_nextIndex n) (n_matchIndex n) (n_currentLeader n) (n_lastHeartbeat n)
    (n_electionTimeout n) (n_lastAppendEntriesAt n) (n_applyWake n) (n_waiters n) (n_chans n)
    (n_nextChan n).
Definition set_votedFor (x : string) (n : Node) : Node :=
  MkNode (n_id n) (n_address n) (n_dataDir n) (n_peers n) (n_timing n) (n_tick n)
    (n_rpcTimeout n) (n_snapshotCfg n) (n_stateMachine n) (n_currentTerm n) x (n_log n)
    (n_logOffset n) (n_currentSnapshotPath n) (n_role n) (n_commitIndex n) (n_lastApplied n)
    (n_nextIndex n) (n_matchIndex n) (n_currentLeader n) (n_lastHeartbeat n)
    (n_electionTimeout n) (n_lastAppendEntriesAt n) (n_applyWake n) (n_waiters n) (n_chans n)
    (n_nextChan n).
Definition set_log (x : list LogEntry) (n : Node) : Node :=
  MkNode (n_id n) (n_address n) (n_dataDir n) (n_peers n) (n_timing n) (n_tick n)
    (n_rpcTimeout n) (n_snapshotCfg n) (n_stateMachine n) (n_currentTerm n) (n_votedFor n) x
    (n_logOffset n) (n_currentSnapshotPath n) (n_role n) (n_commitIndex n) (n_lastApplied n)
    (n_nextIndex n) (n_matchIndex n) (n_currentLeader n) (n_lastHeartbeat n)
    (n_electionTimeout n) (n_lastAppendEntriesAt n) (n_applyWake n) (n_waiters n) (n_chans n)
    (n_nextChan n).
Definition set_logOffset (x : Z) (n : Node) : Node :=
  MkNode (n_id n) (n_address n) (n_dataDir n) (n_peers n) (n_timing n) (n_tick n)
    (n_rpcTimeout n) (n_snapshotCfg n) (n_stateMachine n) (n_currentTerm n) (n_votedFor n)
    (n_log n) x (n_currentSnapshotPath n) (n_role n) (n_commitIndex n) (n_lastApplied n)
    (n_nextIndex n) (n_matchIndex n) (n_currentLeader n) (n_lastHeartbeat n)
    (n_electionTimeout n) (n_lastAppendEntriesAt n) (n_applyWake n) (n_waiters n) (n_chans n)
    (n_nextChan n).
Definition set_currentSnapshotPath (x : option Path) (n : Node) : Node :=
  MkNode (n_id n) (n_address n) (n_dataDir n) (n_peers n) (n_timing n) (n_tick n)
    (n_rpcTimeout n) (n_snapshotCfg n) (n_stateMachine n) (n_currentTerm n) (n_votedFor n)
    (n_log n) (n_logOffset n) x (n_role n) (n_commitIndex n) (n_lastApplied n) (n_nextIndex n)
    (n_matchIndex n) (n_currentLeader n) (n_lastHeartbeat n) (n_electionTimeout n)
    (n_lastAppendEntriesAt n) (n_applyWake n) (n_waiters n) (n_chans n) (n_nextChan n).
Definition set_role (x : Role) (n : Node) : Node :=
  MkNode (n_id n) (n_address n) (n_dataDir n) (n_peers n) (n_timing n) (n_tick n)
    (n_rpcTimeout n) (n_snapshotCfg n) (n_stateMachine n) (n_currentTerm n) (n_votedFor n)
    (n_log n) (n_logOffset n) (n_currentSnapshotPath n) x (n_commitIndex n) (n_lastApplied n)
    (n_nextIndex n) (n_matchIndex n) (n_currentLeader n) (n_lastHeartbeat n)
    (n_electionTimeout n) (n_lastAppendEntriesAt n) (n_applyWake n) (n_waiters n) (n_chans n)
    (n_nextChan n).
Definition set_commitIndex (x : Z) (n : Node) : Node :=
  MkNode (n_id n) (n_address n) (n_dataDir n) (n_peers n) (n_timing n) (n_tick n)
    (n_rpcTimeout n) (n_snapshotCfg n) (n_stateMachine n) (n_currentTerm n) (n_votedFor n)
    (n_log n) (n_logOffset n) (n_currentSnapshotPath n) (n_role n) x (n_lastApplied n)
    (n_nextIndex n) (n_matchIndex n) (n_currentLeader n) (n_lastHeartbeat n)
    (n_electionTimeout n) (n_lastAppendEntriesAt n) (n_applyWake n) (n_waiters n) (n_chans n)
    (n_nextChan n).
Definition set_lastApplied (x : Z) (n : Node) : Node :=
  MkNode (n_id n) (n_address n) (n_dataDir n) (n_peers n) (n_timing n) (n_tick n)
    (n_rpcTimeout n) (n_snapshotCfg n) (n_stateMachine n) (n_currentTerm n) (n_votedFor n)
    (n_log n) (n_logOffset n) (n_currentSnapshotPath n) (n_role n) (n_commitIndex n) x
    (n_nextIndex n) (n_matchIndex n) (n_currentLeader n) (n_lastHeartbeat n)
    (n_electionTimeout n) (n_lastAppendEntriesAt n) (n_applyWake n) (n_waiters n) (n_chans n)
    (n_nextChan n).
Definition set_nextIndex (x : gmap string Z) (n : Node) : Node :=
  MkNode (n_id n) (n_address n) (n_dataDir n) (n_peers n) (n_timing n) (n_tick n)
    (n_rpcTimeout n) (n_snapshotCfg n) (n_stateMachine n) (n_currentTerm n) (n_votedFor n)
    (n_log n) (n_logOffset n) (n_currentSnapshotPath n) (n_role n) (n_commitIndex n)
    (n_lastApplied n) x (n_matchIndex n) (n_currentLeader n) (n_lastHeartbeat n)
    (n_electionTimeout n) (n_lastAppendEntriesAt n) (n_applyWake n) (n_waiters n) (n_chans n)
    (n_nextChan n).
Definition set_matchIndex (x : gmap string Z) (n : Node) : Node :=
  MkNode (n_id n) (n_address n) (n_dataDir n) (n_peers n) (n_timing n) (n_tick n)
    (n_rpcTimeout n) (n_snapshotCfg n) (n_stateMachine n) (n_currentTerm n) (n_votedFor n)
    (n_log n) (n_logOffset n) (n_currentSnapshotPath n) (n_role n) (n_commitIndex n)
    (n_lastApplied n) (n_nextIndex n) x (n_currentLeader n) (n_lastHeartbeat n)
    (n_electionTimeout n) (n_lastAppendEntriesAt n) (n_applyWake n) (n_waiters n) (n_chans n)
    (n_nextChan n).
Definition set_currentLeader (x : string) (n : Node) : Node :=
  MkNode (n_id n) (n_address n) (n_dataDir n) (n_peers n) (n_timing n) (n_tick n)
    (n_rpcTimeout n) (n_snapshotCfg n) (n_stateMachine n) (n_currentTerm n) (n_votedFor n)
    (n_log n) (n_logOffset n) (n_currentSnapshotPath n) (n_role n) (n_commitIndex n)
    (n_lastApplied n) (n_nextIndex n) (n_matchIndex n) x (n_lastHeartbeat n)
    (n_electionTimeout n) (n_lastAppendEntriesAt n) (n_applyWake n) (n_waiters n) (n_chans n)
    (n_nextChan n).
Definition set_lastHeartbeat (x : Z) (n : Node) : Node :=
  MkNode (n_id n) (n_address n) (n_dataDir n) (n_peers n) (n_timing n) (n_tick n)
    (n_rpcTimeout n) (n_snapshotCfg n) (n_stateMachine n) (n_currentTerm n) (n_votedFor n)
    (n_log n) (n_logOffset n) (n_currentSnapshotPath n) (n_role n) (n_commitIndex n)
    (n_lastApplied n) (n_nextIndex n) (n_matchIndex n) (n_currentLeader n) x
    (n_electionTimeout n) (n_lastAppendEntriesAt n) (n_applyWake n) (n_waiters n) (n_chans n)
    (n_nextChan n).
Definition set_electionTimeout (x : Z) (n : Node) : Node :=
  MkNode (n_id n) (n_address n) (n_dataDir n) (n_peers n) (n_timing n) (n_tick n)
    (n_rpcTimeout n) (n_snapshotCfg n) (n_stateMachine n) (n_currentTerm n) (n_votedFor n)
    (n_log n) (n_logOffset n) (n_currentSnapshotPath n) (n_role n) (n_commitIndex n)
    (n_lastApplied n) (n_nextIndex n) (n_matchIndex n) (n_currentLeader n) (n_lastHeartbeat n)
    x (n_lastAppendEntriesAt n) (n_applyWake n) (n_waiters n) (n_chans n) (n_nextChan n).
Definition set_lastAppendEntriesAt (x : option Z) (n : Node) : Node :=
  MkNode (n_id n) (n_address n) (n_dataDir n) (n_peers n) (n_timing n) (n_tick n)
    (n_rpcTimeout n) (n_snapshotCfg n) (n_stateMachine n) (n_currentTerm n) (n_votedFor n)
    (n_log n) (n_logOffset n) (n_currentSnapshotPath n) (n_role n) (n_commitIndex n)
    (n_lastApplied n) (n_nextIndex n) (n_matchIndex n) (n_currentLeader n) (n_lastHeartbeat n)
    (n_electionTimeout n) x (n_applyWake n) (n_waiters n) (n_chans n) (n_nextChan n).
Definition set_applyWake (x : nat) (n : Node) : Node :=
  MkNode (n_id n) (n_address n) (n_dataDir n) (n_peers n) (n_timing n) (n_tick n)
    (n_rpcTimeout n) (n_snapshotCfg n) (n_stateMachine n) (n_currentTerm n) (n_votedFor n)
    (n_log n) (n_logOffset n) (n_currentSnapshotPath n) (n_role n) (n_commitIndex n)
    (n_lastApplied n) (n_nextIndex n) (n_matchIndex n) (n_currentLeader n) (n_lastHeartbeat n)
    (n_electionTimeout n) (n_lastAppendEntriesAt n) x (n_waiters n) (n_chans n) (n_nextChan n).
Definition set_waiters (x : gmap Z nat) (n : Node) : Node :=
  MkNode (n_id n) (n_address n) (n_dataDir n) (n_peers n) (n_timing n) (n_tick n)
    (n_rpcTimeout n) (n_snapshotCfg n) (n_stateMachine n) (n_currentTerm n) (n_votedFor n)
    (n_log n) (n_logOffset n) (n_currentSnapshotPath n) (n_role n) (n_commitIndex n)
    (n_lastApplied n) (n_nextIndex n) (n_matchIndex n) (n_currentLeader n) (n_lastHeartbeat n)
    (n_electionTimeout n) (n_lastAppendEntriesAt n) (n_applyWake n) x (n_chans n)
    (n_nextChan n).
Definition set_chans (x : gmap nat (list (option goerr))) (n : Node) : Node :=
  MkNode (n_id n) (n_address n) (n_dataDir n) (n_peers n) (n_timing n) (n_tick n)
    (n_rpcTimeout n) (n_snapshotCfg n) (n_stateMachine n) (n_currentTerm n) (n_votedFor n)
    (n_log n) (n_logOffset n) (n_currentSnapshotPath n) (n_role n) (n_commitIndex n)
    (n_lastApplied n) (n_nextIndex n) (n_matchIndex n) (n_currentLeader n) (n_lastHeartbeat n)
    (n_electionTimeout n) (n_lastAppendEntriesAt n) (n_applyWake n) (n_waiters n) x
    (n_nextChan n).
Definition set_nextChan (x : nat) (n : Node) : Node :=
  MkNode (n_id n) (n_address n) (n_dataDir n) (n_peers n) (n_timing n) (n_tick n)
    (n_rpcTimeout n) (n_snapshotCfg n) (n_stateMachine n) (n_currentTerm n) (n_votedFor n)
    (n_log n) (n_logOffset n) (n_currentSnapshotPath n) (n_role n) (n_commitIndex n)
    (n_lastApplied n) (n_nextIndex n) (n_matchIndex n) (n_currentLeader n) (n_lastHeartbeat n)
    (n_electionTimeout n) (n_lastAppendEntriesAt n) (n_applyWake n) (n_waiters n) (n_chans n) x.

(** Config; ApplyFn and StateMachine are the [StateMachine] instance with its
    initial value, Transport and SnapshotCatalog are reached by the steps
    that use them. *)
Record Config : Type := MkConfig {
  cfg_ID : string;
  cfg_Address : string;
  cfg_DataDir : string;
  cfg_Peers : list string;
  cfg_Timing : TimingConfig;
  cfg_Tick : Z;
  cfg_RPCTimeout : Z;
  cfg_Snapshot : SnapshotConfig;
  cfg_LocalSnapshot : option File;
  cfg_StateMachine : SM
}.

(** ** Election deadline *)

Definition resetElectionDeadlineLocked (env : Env) (n : Node) : Node :=
  let n := set_lastHeartbeat (env_now env) n in
  let span := ElectionTimeoutMax (n_timing n) - ElectionTimeoutMin (n_timing n) in
  let jitter := if 0 <? span then env_Int63n env span else 0 in
  set_electionTimeout (ElectionTimeoutMin (n_timing n) + jitter) n.

(** The test of electionTicker: start an election now? *)
Definition electionDue (now : Z) (n : Node) : bool :=
  negb (bool_decide (n_role n = Leader)) && (n_electionTimeout n <=? now - n_lastHeartbeat n).

(** The test of heartbeatTicker: broadcast now? *)
Definition heartbeatDue (n : Node) : bool := bool_decide (n_role n = Leader).

(** ** Shared helpers *)

Definition lastLogIndexLocked (n : Node) : Z := n_logOffset n +u zlen (n_log n).

Definition lastLogTermLocked (n : Node) : Z :=
  match last (n_log n) with
  | None => 0
  | Some e => e_Term e
  end.

Definition entryAtLocked (n : Node) (index : Z) : option LogEntry :=
  if (index <=? n_logOffset n) || (n_logOffset n +u zlen (n_log n) <? index) then None
  else n_log n !! Z.to_nat (index -u n_logOffset n -u 1).

(** [ch <- v] on a channel nobody has received from yet. *)
Definition chan_send (c : nat) (v : option goerr) (n : Node) : Node :=
  set_chans (<[c := default [] (n_chans n !! c) ++ [v]]> (n_chans n)) n.

(** The range over [n.waiters] delivers [err] to every channel and empties
    the map; the channels are distinct, so the order does not matter. *)
Definition abortPendingWaitersLocked (err : goerr) (n : Node) : Node :=
  set_waiters ∅
    (map_fold (λ _ ch acc, chan_send ch (Some err) acc) n (n_waiters n)).

Definition setRoleLocked (r : Role) (n : Node) : Node :=
  let n :=
    if bool_decide (n_role n = Leader) && negb (bool_decide (r = Leader))
    then abortPendingWaitersLocked ErrLeadershipLost n else n in
  set_role r n.

(** Status, LeaderAddress, LastApplied, GetStatus *)
Definition Status (n : Node) : Role * Z := (n_role n, n_currentTerm n).
Definition LeaderAddress (n : Node) : string := n_currentLeader n.
Definition LastApplied (n : Node) : Z := n_lastApplied n.
Definition GetStatus (n : Node) : GetStatusReply :=
  MkGetStatusReply (Role_toProto (n_role n)) (n_currentTerm n) (n_address n) (n_id n).

(** ** Operations on the node and its storage *)

Context {D : Type} `{Storage D}.

#[local] Notation NodeM := (GoM (Node * D)).

Definition getN : NodeM Node := λ s, (Ok s.1, s).
Definition modifyN (f : Node → Node) : NodeM unit := λ s, (Ok tt, (f s.1, s.2)).

(** A storage call made by the node. *)
Definition liftD {A} (m : GoM D A) : NodeM A := λ s,
  let '(r, d') := m s.2 in (r, (s.1, d')).

Definition persistStateLocked : NodeM unit :=
  n ← getN;
  liftD (st_SaveState (n_dataDir n) (n_currentTerm n) (n_votedFor n)).

Definition observeTermLocked (term : Z) : NodeM bool :=
  n ← getN;
  if term <=? n_currentTerm n then mret false else
  modifyN (λ n, setRoleLocked Follower (set_votedFor "" (set_currentTerm term n)));;
  persistStateLocked;;
  mret true.

(** ** NewNode *)

(** The log and offsets a starting node derives from log.dat and the local
    snapshot: (log, logOffset, initialApplied, snapshotPath). *)
Definition initial_log (cfg : Config) (log : list LogEntry) :
    list LogEntry * Z * Z * option Path :=
  let fallback :=
    match log with
    | [] => ([], 0, 0, None)
    | e :: _ =>
        let logOffset := e_Index e -u 1 in
        (log, logOffset, (if 0 <? logOffset then logOffset +u 1 else 0), None)
    end in
  match cfg_LocalSnapshot cfg with
  | Some snap =>
      if 0 <? f_LastIncludedIndex snap then
        let anchor := MkLogEntry (f_LastIncludedTerm snap) (f_LastIncludedIndex snap) [] in
        let suffix := filter (λ e, e_Index anchor < e_Index e) log in
        (anchor :: suffix, e_Index anchor -u 1, e_Index anchor,
         Some (cfg_DataDir cfg, FileName (e_Index anchor)))
      else fallback
  | None => fallback
  end.

Definition NewNode (env : Env) (cfg : Config) : GoM D Node :=
  let tick := if cfg_Tick cfg =? 0 then defaultTick else cfg_Tick cfg in
  let rpcTimeout := if cfg_RPCTimeout cfg =? 0 then defaultRPCTimeout else cfg_RPCTimeout cfg in
  let snapCfg := MkSnapshotConfig
    (if LogCapacityEntries (cfg_Snapshot cfg) =? 0 then defaultLogCapacityEntries
     else LogCapacityEntries (cfg_Snapshot cfg))
    (if PollInterval (cfg_Snapshot cfg) =? 0 then defaultSnapshotPollInterval
     else PollInterval (cfg_Snapshot cfg)) in
  '(currentTerm, votedFor) ← st_LoadState (cfg_DataDir cfg);
  log ← st_ReadAllLogEntries (cfg_DataDir cfg);
  let '(log, logOffset, initialApplied, snapshotPath) := initial_log cfg log in
  mret (resetElectionDeadlineLocked env
    (MkNode (cfg_ID cfg) (cfg_Address cfg) (cfg_DataDir cfg) (cfg_Peers cfg) (cfg_Timing cfg)
      tick rpcTimeout snapCfg (cfg_StateMachine cfg) currentTerm votedFor log logOffset snapshotPath
      Follower initialApplied initialApplied ∅ ∅ "" 0 0 None 0 ∅ ∅ 0)).

End node.

Arguments Node : clear implicits.
Arguments Config : clear implicits.

Notation NodeM SM D := (GoM (Node SM * D)).

Section node_monad.
Context {SM : Type} {D : Type}.

Lemma nbind_getN {A} (f : Node SM → NodeM SM D A) s : (getN ≫= f) s = f s.1 s.
Proof. done. Qed.

Lemma nbind_modifyN {A} (g : Node SM → Node SM) (f : unit → NodeM SM D A) s :
  (modifyN g ≫= f) s = f tt (g s.1, s.2).
Proof. done. Qed.

Lemma nbind_ret {A B} (a : A) (f : A → NodeM SM D B) s : (mret a ≫= f) s = f a s.
Proof. done. Qed.

Lemma nbind_inv {A B} (m : NodeM SM D A) (f : A → NodeM SM D B) s r s'' :
  (m ≫= f) s = (r, s'') →
  (∃ a s', m s = (Ok a, s') ∧ f a s' = (r, s'')) ∨ (∃ e, m s = (Err e, s'') ∧ r = Err e).
Proof. apply bind_inv. Qed.

Lemma nbind_Ok {A B} (m : NodeM SM D A) (f : A → NodeM SM D B) s a s' :
  m s = (Ok a, s') → (m ≫= f) s = f a s'.
Proof. apply bind_Ok. Qed.

Lemma nbind_Err {A B} (m : NodeM SM D A) (f : A → NodeM SM D B) s e s' :
  m s = (Err e, s') → (m ≫= f) s = (Err e, s').
Proof. apply bind_Err. Qed.

End node_monad.

(** Step over a call of a node operation whose outcome is known. *)
Tactic Notation "node_step" open_constr(H) :=
  first [rewrite (nbind_Ok _ _ _ _ _ H) | rewrite (nbind_Err _ _ _ _ _ H)].

(** The monad of a node step, unfolded with its storage calls. *)
Ltac unfold_node :=
  unfold getN, modifyN, liftD, mbind, mret, GoM_bind, GoM_ret in *;
  cbv beta match in *; simpl fst in *; simpl snd in *.
