(* ===== verification/RaftElection.v ===== *)
(** * internal/raft/election.go: voting and running for election

    startElection is three pieces of code that take the mutex separately: the
    section that starts the campaign, the short cut of a cluster of one, and
    the goroutine that handles one peer's reply.  Each is a step here; the
    variables its closures capture (term, quorum, votes) are the record
    [Campaign]. *)

From Stdlib Require Import Strings.Byte.
From S2P Require Import Prelude Pb Fs Persistence SnapshotFile Storage RaftNode.

Section election.
Context {SM : Type} `{StateMachine SM} {D : Type} `{Storage D}.

Definition isLogAtLeastAsUpToDate (candTerm candIndex voterTerm voterIndex : Z) : bool :=
  if negb (candTerm =? voterTerm) then voterTerm <? candTerm
  else voterIndex <=? candIndex.

(** Condition 1: not already voted for a different candidate this term. *)
Definition notAlreadyVoted (n : Node SM) (req : RequestVoteRequest) : bool :=
  bool_decide (n_votedFor n = "") || bool_decide (n_votedFor n = rv_CandidateId req).

(** Condition 2: the candidate's log is at least as up to date as ours. *)
Definition candLogUpToDate (n : Node SM) (req : RequestVoteRequest) : bool :=
  isLogAtLeastAsUpToDate (rv_LastLogTerm req) (rv_LastLogIndex req)
    (lastLogTermLocked n) (lastLogIndexLocked n).

Definition RequestVote (env : Env) (req : RequestVoteRequest) : NodeM SM D RequestVoteReply :=
  n0 ← getN;
  (if n_currentTerm n0 <? rv_Term req then observeTermLocked (rv_Term req) else mret false);;
  n ← getN;
  if rv_Term req <? n_currentTerm n then mret (MkRequestVoteReply (n_currentTerm n) false) else
  if negb (notAlreadyVoted n req) || negb (candLogUpToDate n req)
  then mret (MkRequestVoteReply (n_currentTerm n) false) else
  modifyN (set_votedFor (rv_CandidateId req));;
  persistStateLocked;;
  modifyN (resetElectionDeadlineLocked env);;
  mret (MkRequestVoteReply (n_currentTerm n) true).

(** The nextIndex/matchIndex maps of a new leader. *)
Definition init_index (peers : list string) (v : Z) : gmap string Z :=
  foldl (λ m p, <[p := v]> m) ∅ peers.

Definition becomeLeaderLocked (n : Node SM) : Node SM :=
  if negb (bool_decide (n_role n = Candidate)) then n else
  let n := set_currentLeader (n_address n) (set_role Leader n) in
  let lastIdx := lastLogIndexLocked n in
  set_matchIndex (init_index (n_peers n) 0)
    (set_nextIndex (init_index (n_peers n) (lastIdx +u 1)) n).

(** What startElection's goroutines capture, and the votes they share. *)
Record Campaign : Type := MkCampaign {
  ca_term : Z;
  ca_quorum : Z;
  ca_votes : Z;
  ca_pending : list string
}.

(** The first section: [None] when this node is Leader or the new term could
    not be persisted, and nothing is sent. *)
Definition startElection (env : Env) :
    NodeM SM D (option (Campaign * RequestVoteRequest)) :=
  n ← getN;
  if bool_decide (n_role n = Leader) then mret None else
  modifyN (λ n, set_votedFor (n_id n)
    (set_currentTerm (n_currentTerm n +u 1) (setRoleLocked Candidate n)));;
  r ← gtry persistStateLocked;
  match r with
  | Err _ => mret None
  | Ok _ =>
      modifyN (resetElectionDeadlineLocked env);;
      n ← getN;
      let totalNodes := zlen (n_peers n) + 1 in
      mret (Some
        (MkCampaign (n_currentTerm n) (quorumSize totalNodes) 1 (n_peers n),
         MkRequestVoteRequest (n_currentTerm n) (n_id n)
           (lastLogIndexLocked n) (lastLogTermLocked n)))
  end.

(** The short cut when the self-vote is already a quorum. *)
Definition electionSelfQuorum (ca : Campaign) (n : Node SM) : Node SM :=
  if (ca_quorum ca <=? ca_votes ca) && bool_decide (n_role n = Candidate)
     && (n_currentTerm n =? ca_term ca)
  then becomeLeaderLocked n else n.

(** The goroutine's second half, once [peer]'s reply is in. *)
Definition handleVoteReply (ca : Campaign) (reply : RequestVoteReply) : NodeM SM D Campaign :=
  n ← getN;
  if n_currentTerm n <? rvr_Term reply then
    gtry (observeTermLocked (rvr_Term reply));; mret ca
  else
  if negb (bool_decide (n_role n = Candidate)) || negb (n_currentTerm n =? ca_term ca)
  then mret ca else
  let ca := if rvr_VoteGranted reply
            then MkCampaign (ca_term ca) (ca_quorum ca) (ca_votes ca + 1) (ca_pending ca)
            else ca in
  (if rvr_VoteGranted reply && (ca_quorum ca <=? ca_votes ca)
   then modifyN becomeLeaderLocked else mret tt);;
  mret ca.

End election.
