(* ===== verification/RaftReplication.v ===== *)
(** * internal/raft/replication.go: AppendEntries, proposals and commit

    The follower's AppendEntries handler with log merging, the leader's
    request building, reply handling with fast back-off, and the commit
    rule. *)

From Stdlib Require Import Strings.Byte.
From S2P Require Import Prelude Pb Fs Persistence SnapshotFile Storage RaftNode.

Section replication.
Context {SM : Type} `{StateMachine SM} {D : Type} `{Storage D}.

(** ** Follower side *)

(** firstIndexOfTermLocked: [idx] walks back from the end of the log while
    the entry before it has the given term. *)
Fixpoint first_of_term (term : Z) (log : list LogEntry) (idx : nat) : nat :=
  match idx with
  | O => O
  | S i =>
      match log !! i with
      | Some e => if e_Term e =? term then first_of_term term log i else idx
      | None => idx
      end
  end.

Definition firstIndexOfTermLocked (n : Node SM) (term : Z) : Z :=
  n_logOffset n +u Z.of_nat (first_of_term term (n_log n) (length (n_log n))) +u 1.

(** lastIndexOfTermLocked: scan back for the term, stopping below it. *)
Fixpoint last_of_term (off term : Z) (log : list LogEntry) (i : nat) : Z :=
  match i with
  | O => 0
  | S k =>
      match log !! k with
      | Some e =>
          if e_Term e =? term then off +u Z.of_nat k +u 1
          else if e_Term e <? term then 0
          else last_of_term off term log k
      | None => 0
      end
  end.

Definition lastIndexOfTermLocked (n : Node SM) (term : Z) : Z :=
  last_of_term (n_logOffset n) term (n_log n) (length (n_log n)).

(** The first loop of mergeEntriesLocked: entries at or below logOffset are
    skipped.  [idx] is [insertAt + uint64(i)], the result is the index of the
    first entry kept and the entries from there on. *)
Fixpoint merge_skip (off idx : Z) (newEntries : list LogEntry) : Z * list LogEntry :=
  match newEntries with
  | [] => (idx, [])
  | _ :: es => if idx <=? off then merge_skip off (idx +u 1) es else (idx, newEntries)
  end.

(** The second loop: entries we already have with the same term are skipped;
    the first conflict gives the index to truncate from. *)
Fixpoint merge_scan (n : Node SM) (idx : Z) (newEntries : list LogEntry) :
    option Z * list LogEntry :=
  match newEntries with
  | [] => (None, [])
  | e :: es =>
      match entryAtLocked n idx with
      | None => (None, newEntries)
      | Some existing =>
          if negb (e_Term existing =? e_Term e) then (Some idx, newEntries)
          else merge_scan n (idx +u 1) es
      end
  end.

Definition mergeEntriesLocked (prevLogIndex : Z) (newEntries : list LogEntry) : NodeM SM D unit :=
  n ← getN;
  let insertAt := prevLogIndex +u 1 in
  let '(idx, rest) := merge_skip (n_logOffset n) insertAt newEntries in
  let '(conflict, toAppend) := merge_scan n idx rest in
  match conflict with
  | Some idx =>
      liftD (st_TruncateLogFrom (n_dataDir n) idx);;
      modifyN (λ n, set_log (take (Z.to_nat (idx -u n_logOffset n -u 1)) (n_log n)) n)
  | None => mret tt
  end;;
  match toAppend with
  | [] => mret tt
  | _ =>
      liftD (st_AppendLogEntries (n_dataDir n) toAppend);;
      modifyN (λ n, set_log (n_log n ++ toAppend) n)
  end.

(** The loop of applyCommittedLocked; [commitIndex - lastApplied] rounds are
    enough. *)
Fixpoint apply_loop (fuel : nat) (n : Node SM) : Node SM :=
  match fuel with
  | O => n
  | S fuel' =>
      if n_lastApplied n <? n_commitIndex n then
        let n := set_lastApplied (n_lastApplied n +u 1) n in
        match entryAtLocked n (n_lastApplied n) with
        | None => n
        | Some entry =>
            let n := set_stateMachine
              (sm_ApplyFn (MkApplyMsg (e_Index entry) (e_Term entry) (e_Command entry))
                 (n_stateMachine n)) n in
            let n :=
              match n_waiters n !! e_Index entry with
              | Some ch => set_waiters (delete (e_Index entry) (n_waiters n)) (chan_send ch None n)
              | None => n
              end in
            apply_loop fuel' n
        end
      else n
  end.

Definition applyCommittedLocked (n : Node SM) : Node SM :=
  let n' := apply_loop (Z.to_nat (n_commitIndex n - n_lastApplied n)) n in
  if n_lastApplied n <? n_commitIndex n then set_applyWake (S (n_applyWake n')) n' else n'.

Definition reject (n : Node SM) (conflictIndex conflictTerm : Z) : AppendEntriesReply :=
  MkAppendEntriesReply (n_currentTerm n) false conflictIndex conflictTerm.

(** The log consistency check: [None] when prevLogIndex/prevLogTerm agree
    with our log (or lie below the compaction point), else the rejection. *)
Definition consistencyCheck (n : Node SM) (req : AppendEntriesRequest) : option AppendEntriesReply :=
  if n_logOffset n <? ae_PrevLogIndex req then
    match entryAtLocked n (ae_PrevLogIndex req) with
    | None => Some (reject n (lastLogIndexLocked n +u 1) 0)
    | Some entry =>
        if negb (e_Term entry =? ae_PrevLogTerm req)
        then Some (reject n (firstIndexOfTermLocked n (e_Term entry)) (e_Term entry))
        else None
    end
  else None.

Definition AppendEntries (env : Env) (req : AppendEntriesRequest) : NodeM SM D AppendEntriesReply :=
  n0 ← getN;
  (if n_currentTerm n0 <? ae_Term req then observeTermLocked (ae_Term req) else mret false);;
  n ← getN;
  if ae_Term req <? n_currentTerm n
  then mret (MkAppendEntriesReply (n_currentTerm n) false 0 0) else
  modifyN (λ n, resetElectionDeadlineLocked env
    (set_currentLeader (ae_LeaderId req) (setRoleLocked Follower n)));;
  n ← getN;
  match consistencyCheck n req with
  | Some rejection => mret rejection
  | None =>
      modifyN (set_lastAppendEntriesAt (Some (env_now env)));;
      (if 0 <? zlen (ae_Entries req)
       then mergeEntriesLocked (ae_PrevLogIndex req) (ae_Entries req) else mret tt);;
      n ← getN;
      (if n_commitIndex n <? ae_LeaderCommit req
       then modifyN (λ n, applyCommittedLocked
              (set_commitIndex (min64 (ae_LeaderCommit req) (lastLogIndexLocked n)) n))
       else mret tt);;
      n ← getN;
      mret (MkAppendEntriesReply (n_currentTerm n) true 0 0)
  end.

(** ** Proposals *)

Definition appendLocalLocked (command : list byte) : NodeM SM D (Z * Z) :=
  n ← getN;
  let index := lastLogIndexLocked n +u 1 in
  let term := n_currentTerm n in
  let entry := MkLogEntry term index command in
  liftD (st_AppendLogEntries (n_dataDir n) [entry]);;
  modifyN (λ n, set_log (n_log n ++ [entry]) n);;
  mret (index, term).

(** Propose up to the broadcast: (index, term, isLeader). *)
Definition Propose (command : list byte) : NodeM SM D (Z * Z * bool) :=
  n ← getN;
  if negb (bool_decide (n_role n = Leader)) then mret (0, n_currentTerm n, false) else
  r ← gtry (appendLocalLocked command);
  match r with
  | Err _ => mret (0, n_currentTerm n, false)
  | Ok (index, term) => mret (index, term, true)
  end.

(** ProposeSync's first section: append and register a waiter.  The result is
    (index, term, channel). *)
Definition ProposeSync_begin (command : list byte) : NodeM SM D (Z * Z * nat) :=
  n ← getN;
  if negb (bool_decide (n_role n = Leader)) then gfail ErrNotLeader else
  '(index, term) ← appendLocalLocked command;
  n ← getN;
  let done := n_nextChan n in
  modifyN (λ n, set_waiters (<[index := done]> (n_waiters n)) (set_nextChan (S done) n));;
  mret (index, term, done).

(** The select of ProposeSync: what is on the channel, if anything. *)
Definition ProposeSync_poll (ch : nat) (n : Node SM) : option (option goerr) :=
  head (default [] (n_chans n !! ch)).

(** Its [ctx.Done()] branch. *)
Definition ProposeSync_cancel (index : Z) (n : Node SM) : Node SM :=
  set_waiters (delete index (n_waiters n)) n.

(** The whole call.  [others] is what the rest of the node does between the
    two critical sections; [ctxFirst] says which ready branch select takes
    when the context is done. *)
Definition ProposeSync (command : list byte) (others : NodeM SM D unit) (ctxFirst : bool) :
    NodeM SM D (Z * Z) :=
  '(index, term, ch) ← ProposeSync_begin command;
  others;;
  n ← getN;
  match ProposeSync_poll ch n, ctxFirst with
  | Some None, false => mret (index, term)
  | Some (Some e), false => gfail e
  | _, _ => modifyN (ProposeSync_cancel index);; gfail ErrCtxDone
  end.

(** ** Leader side *)

Record outgoingAppendEntries : Type := MkOutgoing {
  o_peer : string;
  o_req : AppendEntriesRequest;
  o_prevIndex : Z;
  o_numEntries : Z
}.

(** [for idx := next; idx <= lastLogIndex; idx++]: a missing entry would be a
    nil dereference, which [None] stands for. *)
Fixpoint collect_entries (n : Node SM) (idx : Z) (count : nat) : option (list LogEntry) :=
  match count with
  | O => Some []
  | S c =>
      match entryAtLocked n idx, collect_entries n (idx +u 1) c with
      | Some e, Some es => Some (e :: es)
      | _, _ => None
      end
  end.

Definition peerNext (n : Node SM) (p : string) : Z :=
  let next := default 0 (n_nextIndex n !! p) in
  if next <=? n_logOffset n then n_logOffset n +u 1 else next.

Definition buildRequest (n : Node SM) (p : string) : option outgoingAppendEntries :=
  let next := peerNext n p in
  let prevIndex := next -u 1 in
  let prevTerm :=
    if 0 <? prevIndex then
      match entryAtLocked n prevIndex with Some e => e_Term e | None => 0 end
    else 0 in
  match collect_entries n next (Z.to_nat (lastLogIndexLocked n - next + 1)) with
  | None => None
  | Some entries =>
      Some (MkOutgoing p
        (MkAppendEntriesRequest (n_currentTerm n) (n_address n) prevIndex prevTerm entries
           (n_commitIndex n))
        prevIndex (zlen entries))
  end.

(** [None]: the goroutine would panic. *)
Definition buildAppendEntriesRequestsLocked (n : Node SM) :
    option (Z * list outgoingAppendEntries) :=
  reqs ← mapM (buildRequest n) (n_peers n);
  Some (n_currentTerm n, reqs).

Definition broadcastAppendEntries (n : Node SM) : option (Z * list outgoingAppendEntries) :=
  if negb (bool_decide (n_role n = Leader)) then Some (n_currentTerm n, [])
  else buildAppendEntriesRequestsLocked n.

(** The followers whose matchIndex has reached [N]. *)
Definition match_count (n : Node SM) (N : Z) : Z :=
  Z.of_nat (size (filter (λ kv, N ≤ kv.2) (n_matchIndex n))).

Definition committable (n : Node SM) (N : Z) : bool :=
  match entryAtLocked n N with
  | None => false
  | Some entry =>
      (e_Term entry =? n_currentTerm n) &&
      (quorumSize (zlen (n_peers n) + 1) <=? 1 + match_count n N)
  end.

(** [for N := last; N > commitIndex; N--]: the first committable index. *)
Fixpoint find_commit (n : Node SM) (N : Z) (count : nat) : option Z :=
  match count with
  | O => None
  | S c => if committable n N then Some N else find_commit n (N -u 1) c
  end.

Definition maybeAdvanceCommitIndexLocked (n : Node SM) : Node SM :=
  let last := lastLogIndexLocked n in
  match find_commit n last (Z.to_nat (last - n_commitIndex n)) with
  | None => n
  | Some N => applyCommittedLocked (set_commitIndex N n)
  end.

(** The back-off of a rejected request: the next index to try. *)
Definition backoffNext (n : Node SM) (reply : AppendEntriesReply) : Z :=
  let next :=
    if negb (aer_ConflictTerm reply =? 0) then
      let lastIdx := lastIndexOfTermLocked n (aer_ConflictTerm reply) in
      if 0 <? lastIdx then lastIdx +u 1 else aer_ConflictIndex reply
    else aer_ConflictIndex reply in
  if next <? 1 then 1 else next.

Definition handleAppendEntriesReplyLocked (peer : string) (sentPrevLogIndex numEntriesSent : Z)
    (reply : AppendEntriesReply) : NodeM SM D unit :=
  n ← getN;
  if n_currentTerm n <? aer_Term reply then
    gtry (observeTermLocked (aer_Term reply));; mret tt
  else if aer_Success reply then
    let newMatch := sentPrevLogIndex +u numEntriesSent in
    modifyN (λ n,
      if default 0 (n_matchIndex n !! peer) <? newMatch
      then set_matchIndex (<[peer := newMatch]> (n_matchIndex n)) n else n);;
    modifyN (λ n,
      if default 0 (n_nextIndex n !! peer) <? newMatch +u 1
      then set_nextIndex (<[peer := newMatch +u 1]> (n_nextIndex n)) n else n);;
    modifyN maybeAdvanceCommitIndexLocked
  else modifyN (λ n, set_nextIndex (<[peer := backoffNext n reply]> (n_nextIndex n)) n).

(** sendAppendEntriesAndHandle once the reply is in: was it acknowledged by a
    follower of a leader that is still current? *)
Definition sendAppendEntriesAndHandle (term : Z) (r : outgoingAppendEntries)
    (reply : AppendEntriesReply) : NodeM SM D bool :=
  n ← getN;
  if negb (bool_decide (n_role n = Leader)) || negb (n_currentTerm n =? term) then mret false else
  handleAppendEntriesReplyLocked (o_peer r) (o_prevIndex r) (o_numEntries r) reply;;
  mret ((aer_Term reply =? term) && aer_Success reply).

End replication.
