(* ===== verification/RaftLog.v ===== *)
(** * The in-memory log of a node and its copy on disk

    [log_wf] is the index invariant every accessor relies on: entry number k
    of the slice has index logOffset + k + 1.  [synced] adds that log.dat
    holds the same entries.  mergeEntriesLocked is shown equal to the merge
    the Raft paper describes, on memory and disk at once. *)

From Stdlib Require Import Strings.Byte.
From S2P Require Import Prelude Pb Fs Persistence SnapshotFile Storage RaftNode RaftElection.
From S2P Require Import RaftReplication.
Import SnapshotFile.

(** Consecutive indices after [off]. *)
Definition consecutive (off : Z) (log : list LogEntry) : Prop :=
  ∀ k e, log !! k = Some e → e_Index e = off + Z.of_nat k + 1.

(** The room left below 2^64 - 1 keeps [index + 1] from wrapping. *)
Definition wf_log (off : Z) (log : list LogEntry) : Prop :=
  0 ≤ off ∧ off + zlen log < u64_max ∧ consecutive off log.

Lemma consecutive_nil off : consecutive off [].
Proof. intros k e. by rewrite lookup_nil. Qed.

Lemma consecutive_cons off e log :
  consecutive off (e :: log) ↔ e_Index e = off + 1 ∧ consecutive (off + 1) log.
Proof.
  split.
  - intros Hc. split; [rewrite (Hc 0%nat e eq_refl); lia|].
    intros k x Hk. rewrite (Hc (S k) x Hk). lia.
  - intros [He Hc] [|k] x; simpl; [intros [= ->]; lia|]. intros Hk. rewrite (Hc k x Hk). lia.
Qed.

Lemma consecutive_app off l k :
  consecutive off (l ++ k) ↔ consecutive off l ∧ consecutive (off + zlen l) k.
Proof.
  revert off. induction l as [|e l IH]; intros off.
  - rewrite zlen_nil, Z.add_0_r. simpl. split; [|naive_solver]. split; [apply consecutive_nil|done].
  - simpl. rewrite !consecutive_cons, IH, zlen_cons.
    replace (off + 1 + zlen l) with (off + (zlen l + 1)) by lia. tauto.
Qed.

Lemma consecutive_take off l k : consecutive off l → consecutive off (take k l).
Proof.
  intros Hc i e Hi. apply Hc. by apply lookup_take_Some in Hi as [? _].
Qed.

Lemma consecutive_drop off l k :
  consecutive off l → consecutive (off + Z.of_nat k) (drop k l).
Proof. intros Hc i e. rewrite lookup_drop. intros Hi. rewrite (Hc _ _ Hi). lia. Qed.

(** The entries below an index are a prefix. *)
Lemma consecutive_filter_lt off l i :
  consecutive off l → off < i →
  filter (λ e, e_Index e < i) l = take (Z.to_nat (i - off - 1)) l.
Proof.
  revert off. induction l as [|e l IH]; intros off; [by rewrite take_nil|].
  rewrite consecutive_cons. intros [He Hc] Hi. rewrite filter_cons.
  destruct (decide (e_Index e < i)) as [Hlt|Hge].
  - destruct (Z.to_nat (i - off - 1)) as [|m] eqn:Em; [lia|]. simpl. f_equal.
    rewrite (IH (off + 1)) by (done || lia). f_equal. lia.
  - replace (Z.to_nat (i - off - 1)) with 0%nat by lia. simpl.
    assert (Hnone : ∀ x, x ∈ l → ¬ e_Index x < i).
    { intros x (k & Hk)%list_elem_of_lookup. rewrite (Hc _ _ Hk). lia. }
    clear -Hnone. induction l as [|x l IH]; [done|]. rewrite filter_cons_False.
    + apply IH. intros y Hy. apply Hnone. by right.
    + apply Hnone. by left.
Qed.

(** ** The reference merge

    [l] is the follower's log from the first new index on, [es] the new
    entries: agree as long as terms agree, and from the first disagreement on
    take the leader's.  Nothing is dropped when there is no disagreement. *)
Fixpoint merge_ref (l es : list LogEntry) : list LogEntry :=
  match es, l with
  | [], _ => l
  | _, [] => es
  | e :: es', x :: l' => if e_Term x =? e_Term e then x :: merge_ref l' es' else es
  end.

(** The whole log, for entries that start right after [prev]: those at or
    below the compaction point [off] are ignored. *)
Definition merged (off prev : Z) (log es : list LogEntry) : list LogEntry :=
  let es' := drop (Z.to_nat (off - prev)) es in
  let p := Z.to_nat (prev - off) in
  take p log ++ merge_ref (drop p log) es'.

Lemma merge_ref_consecutive off l es :
  consecutive off l → consecutive off es → consecutive off (merge_ref l es).
Proof.
  revert off es. induction l as [|x l IH]; intros off [|e es]; simpl; try done.
  rewrite !consecutive_cons. intros [Hx Hl] [He Hes]. destruct (_ =? _).
  - apply consecutive_cons. auto.
  - by apply consecutive_cons.
Qed.

Lemma merge_ref_length l es : zlen (merge_ref l es) ≤ Z.max (zlen l) (zlen es).
Proof.
  revert es. induction l as [|x l IH]; intros [|e es]; simpl; try lia.
  destruct (_ =? _); rewrite !zlen_cons; [specialize (IH es)|]; lia.
Qed.

(** After the merge the new entries are in the log, up to entries that were
    there already with the same term. *)
Lemma merge_ref_terms l es k e :
  es !! k = Some e → ∃ x, merge_ref l es !! k = Some x ∧ e_Term x = e_Term e.
Proof.
  revert es k. induction l as [|x l IH]; intros [|e0 es] k; simpl; try done; [by eexists|].
  destruct (_ =? _) eqn:E; zbool; [|by eexists].
  destruct k as [|k]; simpl; [intros [= ->]; by eexists|apply IH].
Qed.

(** A log that already has the entries is left alone. *)
Lemma merge_ref_keeps l es :
  (∀ k e, es !! k = Some e → ∃ x, l !! k = Some x ∧ e_Term x = e_Term e) → merge_ref l es = l.
Proof.
  revert es. induction l as [|x l IH]; intros [|e es] Hk; simpl; try done.
  - by destruct (Hk 0%nat e eq_refl) as (? & ? & _).
  - destruct (Hk 0%nat e eq_refl) as (? & [= <-] & Ht). rewrite Ht, Z.eqb_refl. f_equal.
    apply IH. intros k e' He'. apply (Hk (S k) e' He').
Qed.

(** ** The accessors *)

Section log.
Context {SM : Type} `{StateMachine SM}.
Implicit Types n : Node SM.

Definition log_wf n : Prop := wf_log (n_logOffset n) (n_log n).

Lemma lastLogIndex_spec n : log_wf n → lastLogIndexLocked n = n_logOffset n + zlen (n_log n).
Proof.
  intros (? & ? & _). unfold lastLogIndexLocked. pose proof (zlen_nonneg (n_log n)).
  by unwrap.
Qed.

Lemma entryAt_spec n i :
  log_wf n →
  entryAtLocked n i =
    if decide (n_logOffset n < i ≤ n_logOffset n + zlen (n_log n))
    then n_log n !! Z.to_nat (i - n_logOffset n - 1) else None.
Proof.
  intros (? & Hr & _). unfold entryAtLocked. pose proof (zlen_nonneg (n_log n)). unwrap.
  destruct (decide _) as [[? ?]|Hn].
  - rewrite (proj2 (orb_false_iff _ _)) by (split; [apply Z.leb_gt|apply Z.ltb_ge]; lia).
    by unwrap.
  - destruct (_ || _) eqn:E; [done|]. apply orb_false_iff in E as [E1 E2]. zbool. lia.
Qed.

Lemma entryAt_Some n i e :
  log_wf n → entryAtLocked n i = Some e ↔
  n_logOffset n < i ∧ n_log n !! Z.to_nat (i - n_logOffset n - 1) = Some e.
Proof.
  intros Hw. rewrite entryAt_spec by done. destruct (decide _) as [[? ?]|Hn]; [naive_solver|].
  split; [done|]. intros [? Hl%lookup_lt_Some]. unfold zlen in Hn. lia.
Qed.

Lemma entryAt_index n i e : log_wf n → entryAtLocked n i = Some e → e_Index e = i.
Proof.
  intros Hw [? Hl]%entryAt_Some; [|done]. destruct Hw as (? & ? & Hc).
  rewrite (Hc _ _ Hl). lia.
Qed.

Lemma entryAt_is_Some n i :
  log_wf n → is_Some (entryAtLocked n i) ↔
  n_logOffset n < i ≤ n_logOffset n + zlen (n_log n).
Proof.
  intros Hw. rewrite entryAt_spec by done. destruct (decide _) as [Hd|Hn].
  - split; [done|]. intros _. apply lookup_lt_is_Some. unfold zlen in Hd. lia.
  - split; [by intros [? ?]|done].
Qed.

(** ** The two loops of mergeEntriesLocked against the reference *)

Lemma merge_skip_spec off idx es :
  0 ≤ off → 0 ≤ idx → idx + zlen es < u64_max →
  merge_skip off idx es =
    (let j := Z.min (Z.max 0 (off - idx + 1)) (zlen es) in (idx + j, drop (Z.to_nat j) es)).
Proof.
  intros Ho. revert idx. induction es as [|e es IH]; intros idx Hi Hr.
  - simpl. unfold zlen. simpl. rewrite Z.min_r by lia. by rewrite Z.add_0_r.
  - rewrite zlen_cons in *. pose proof (zlen_nonneg es). cbn [merge_skip].
    destruct (idx <=? off) eqn:E; zbool; cbv zeta.
    + unwrap. rewrite IH by lia. cbv zeta.
      destruct (decide (off - idx + 1 <= zlen es + 1)).
      * rewrite (Z.min_l (Z.max 0 (off - (idx + 1) + 1))) by lia.
        rewrite (Z.min_l (Z.max 0 (off - idx + 1))) by lia.
        f_equal; [lia|]. replace (Z.to_nat (Z.max 0 (off - idx + 1)))
          with (S (Z.to_nat (Z.max 0 (off - (idx + 1) + 1)))) by lia. done.
      * rewrite !Z.min_r by lia. f_equal; [lia|].
        replace (Z.to_nat (zlen es + 1)) with (S (Z.to_nat (zlen es))) by lia. done.
    + rewrite Z.min_l by lia. replace (Z.max 0 (off - idx + 1)) with 0 by lia.
      by rewrite Z.add_0_r.
Qed.

(** What the scan leaves to do, given the log from [idx] on. *)
Lemma merge_scan_spec n idx es cf ta :
  log_wf n → n_logOffset n < idx → idx + zlen es < u64_max →
  merge_scan n idx es = (cf, ta) →
  let p := Z.to_nat (idx - n_logOffset n - 1) in
  ∃ q : nat, ta = drop q es ∧ (q ≤ length es)%nat ∧
    match cf with
    | None => ta = [] ∨ drop (p + q) (n_log n) = []
    | Some i => i = idx + Z.of_nat q ∧ (p + q < length (n_log n))%nat
    end ∧
    merge_ref (drop p (n_log n)) es =
      match cf with
      | None => drop p (n_log n) ++ ta
      | Some _ => take q (drop p (n_log n)) ++ ta
      end.
Proof.
  intros Hw. revert idx. induction es as [|e es IH]; intros idx Hi Hr; cbn [merge_scan].
  - intros [= <- <-]. simpl. exists 0%nat. rewrite app_nil_r.
    split_and!; auto. by destruct (drop _ _).
  - rewrite zlen_cons in *. pose proof (zlen_nonneg es). pose proof Hw as (W1 & W2 & W3).
    set (p := Z.to_nat (idx - n_logOffset n - 1)).
    destruct (entryAtLocked n idx) as [x|] eqn:Ex.
    + apply entryAt_Some in Ex as [_ Ex]; [|done]. fold p in Ex.
      assert (Hdrop : drop p (n_log n) = x :: drop (S p) (n_log n)) by (by apply drop_S).
      rewrite Hdrop. cbn [merge_ref].
      destruct (e_Term x =? e_Term e) eqn:Et; cbn [negb].
      * unwrap. intros Hs. specialize (IH (idx + 1) ltac:(lia) ltac:(lia) Hs). cbv zeta in IH.
        replace (Z.to_nat (idx + 1 - n_logOffset n - 1)) with (S p) in IH by (unfold p; lia).
        destruct IH as (q & -> & Hq & Hcf & Hm). exists (S q). cbn [drop].
        split; [done|]. split; [simpl; lia|]. rewrite Hm. split.
        { destruct cf as [i|].
          - destruct Hcf as [-> ?]. split; lia.
          - by rewrite Nat.add_succ_r. }
        by destruct cf.
      * intros [= <- <-]. exists 0%nat. split; [done|]. split; [lia|]. split; [|done].
        apply lookup_lt_Some in Ex. split; [lia|]. unfold p in *. lia.
    + intros [= <- <-]. exists 0%nat. split; [done|]. split; [simpl; lia|].
      assert (Hnil : drop p (n_log n) = []).
      { apply drop_ge. apply (eq_None_not_Some) in Ex. rewrite entryAt_is_Some in Ex by done.
        unfold p, zlen in *. lia. }
      rewrite Nat.add_0_r, Hnil. split; [by right|]. done.
Qed.

End log.

(** ** Memory and disk together *)

Section synced.
Context {SM : Type} `{StateMachine SM} {D : Type} `{Storage D} `{!LogLaws D}.
Implicit Types (n : Node SM) (d : D) (s : Node SM * D).

Definition synced s : Prop :=
  log_wf s.1 ∧ ll_quiet s.2 ∧ ll_log (n_dataDir s.1) s.2 (n_log s.1).

Lemma set_log_id n : set_log (n_log n) n = n.
Proof. by destruct n. Qed.

Lemma merged_wf off prev log es :
  wf_log off log → consecutive prev es → 0 ≤ prev ≤ off + zlen log → prev + zlen es < u64_max →
  wf_log off (merged off prev log es).
Proof.
  intros (Ho & Hl & Hc) He Hp Hr. unfold merged. cbv zeta.
  set (p := Z.to_nat (prev - off)). set (k := Z.to_nat (off - prev)).
  assert (Hpl : (p ≤ length log)%nat) by (unfold p, zlen in *; lia).
  assert (Hlen : Z.of_nat p + zlen (drop k es) ≤ Z.max (zlen log) (prev + zlen es - off)).
  { unfold zlen in *. rewrite length_drop. unfold p, k in *. lia. }
  pose proof (merge_ref_length (drop p log) (drop k es)) as Hm.
  rewrite zlen_drop in Hm by done.
  split_and!; [done| |].
  - rewrite zlen_app, zlen_take by done. unfold zlen in *. lia.
  - apply consecutive_app. split; [by apply consecutive_take|]. rewrite zlen_take by done.
    apply merge_ref_consecutive; [by apply consecutive_drop|].
    destruct (decide (prev ≤ off)).
    + apply (consecutive_drop _ _ k) in He.
      replace (off + Z.of_nat p) with (prev + Z.of_nat k) by (unfold p, k; lia). done.
    + replace k with 0%nat by (unfold k; lia). rewrite drop_0.
      replace (off + Z.of_nat p) with prev by (unfold p; lia). done.
Qed.

(** The append at the end of mergeEntriesLocked. *)
Lemma append_tail n d log es :
  ll_quiet d → ll_log (n_dataDir n) d log → Forall ll_storable es → n_log n = log →
  ∃ d', (match es with
         | [] => mret tt
         | _ => liftD (st_AppendLogEntries (n_dataDir n) es);;
                modifyN (λ n, set_log (n_log n ++ es) n)
         end : NodeM SM D unit) (n, d) = (Ok tt, (set_log (log ++ es) n, d')) ∧
    ll_quiet d' ∧ ll_log (n_dataDir n) d' (log ++ es).
Proof.
  intros Hq Hl Hs <-. destruct es as [|e es].
  - exists d. rewrite app_nil_r, set_log_id. done.
  - destruct (ll_append _ _ _ _ Hq Hl Hs) as (d' & E & ? & ?). exists d'. split; [|done].
    unfold_node. by rewrite E.
Qed.

Lemma mergeEntries_merged prev es s :
  synced s → consecutive prev es → Forall ll_storable es →
  0 ≤ prev ≤ n_logOffset s.1 + zlen (n_log s.1) → prev + zlen es + 1 < u64_max →
  ∃ d', mergeEntriesLocked prev es s =
      (Ok tt, (set_log (merged (n_logOffset s.1) prev (n_log s.1) es) s.1, d')) ∧
    synced (set_log (merged (n_logOffset s.1) prev (n_log s.1) es) s.1, d').
Proof.
  destruct s as [n d]. cbn [fst snd]. intros (Hw & Hq & Hl) Hc Hst Hp Hr. cbn [fst snd] in *.
  pose proof (merged_wf _ _ _ _ Hw Hc Hp ltac:(lia)) as Hmw.
  pose proof Hw as (Ho & Hb & Hcl). pose proof (zlen_nonneg es).
  set (off := n_logOffset n) in *. set (log := n_log n) in *.
  assert (Hgoal : ∀ d', ll_quiet d' → ll_log (n_dataDir n) d' (merged off prev log es) →
    synced (set_log (merged off prev log es) n, d')) by done.
  unfold mergeEntriesLocked. rewrite nbind_getN. cbn [fst]. cbv zeta. unwrap.
  rewrite merge_skip_spec by (fold off; lia). cbv zeta. fold off.
  set (j := Z.min _ _). set (idx := prev + 1 + j).
  set (p := Z.to_nat (prev - off)).
  assert (Hj : merged off prev log es = take p log ++ merge_ref (drop p log) (drop (Z.to_nat j) es)
    ∧ (drop (Z.to_nat j) es = [] ∨ off < idx ∧ p = Z.to_nat (idx - off - 1))).
  { unfold merged. cbv zeta. fold p. destruct (decide (Z.max 0 (off - (prev + 1) + 1) < zlen es)).
    - replace (Z.to_nat (off - prev)) with (Z.to_nat j) by (unfold j; lia). split; [done|].
      right. unfold idx, p, j. lia.
    - rewrite !(drop_ge es) by (unfold j, zlen in *; lia). auto. }
  destruct Hj as [Hj Hcase]. rewrite Hj in *. clear Hj.
  set (rest := drop (Z.to_nat j) es) in *.
  assert (Hrst : Forall ll_storable rest) by (by apply Forall_drop).
  destruct (merge_scan n idx rest) as [cf ta] eqn:Es.
  destruct Hcase as [Hnil|[Hoff Hpe]].
  { rewrite Hnil in *. cbn [merge_scan] in Es. injection Es as <- <-.
    assert (Hid : take p log ++ merge_ref (drop p log) [] = log).
    { by destruct (drop p log) eqn:Ed; cbn [merge_ref]; rewrite <- Ed, take_drop. }
    rewrite Hid in *. exists d. change (set_log log n) with (set_log (n_log n) n). rewrite set_log_id. done. }
  assert (Hri : idx + zlen rest < u64_max).
  { unfold idx, rest, zlen. rewrite length_drop. unfold zlen in *. lia. }
  destruct (merge_scan_spec n idx rest cf ta Hw Hoff Hri Es) as (q & Hta & Hql & Hcf & Hm).
  fold off log in Hm, Hcf. rewrite <- Hpe in *. rewrite Hm in *.
  assert (Hts : Forall ll_storable ta) by (rewrite Hta; by apply Forall_drop).
  destruct cf as [i|].
  - destruct Hcf as [-> Hpq].
    destruct (ll_truncate _ _ (idx + Z.of_nat q) _ Hq Hl) as (d1 & E1 & Hq1 & Hl1).
    assert (Hpos : idx + Z.of_nat q - off - 1 = Z.of_nat (p + q)) by lia.
    rewrite consecutive_filter_lt with (off := off) in Hl1 by (done || lia).
    rewrite Hpos, Nat2Z.id in Hl1.
    rewrite app_assoc, take_take_drop in *.
    destruct (append_tail (set_log (take (p + q) log) n) d1 _ ta Hq1 Hl1 Hts eq_refl)
      as (d2 & E2 & Hq2 & Hl2).
    exists d2. split; [|by apply Hgoal].
    erewrite nbind_Ok; [exact E2|]. erewrite nbind_Ok; [|unfold liftD; cbn [snd]; by rewrite E1].
    unfold modifyN. cbn [fst snd].
    assert (is_u64 (idx + Z.of_nat q - off) ∧ is_u64 (idx + Z.of_nat q - off - 1)) as [? ?].
    { unfold zlen in *. split; u64. }
    fold off. rewrite (wrap64_small (idx + Z.of_nat q - off)) by done.
    rewrite wrap64_small by done. by rewrite Hpos, Nat2Z.id.
  - rewrite app_assoc, take_drop in *.
    destruct (append_tail n d log ta Hq Hl Hts eq_refl) as (d2 & E2 & Hq2 & Hl2).
    exists d2. split; [|by apply Hgoal]. by rewrite nbind_ret.
Qed.

End synced.
