(* ===== verification/RaftCommit.v ===== *)
(** * Committing and applying

    What applyCommittedLocked does to the state machine and to the clients
    waiting in ProposeSync, which index maybeAdvanceCommitIndexLocked picks,
    what buildAppendEntriesRequestsLocked puts in a request, and the whole
    AppendEntries handler on a healthy disk. *)

From Stdlib Require Import Strings.Byte.
From S2P Require Import Prelude Pb Fs Persistence SnapshotFile Storage RaftNode RaftElection.
From S2P Require Import RaftReplication RaftLog.
Import SnapshotFile.

Section apply.
Context {SM : Type} `{StateMachine SM}.
Implicit Types n : Node SM.

(** The entries with index in (a, b]. *)
Definition segment n (a b : Z) : list LogEntry :=
  take (Z.to_nat (b - a)) (drop (Z.to_nat (a - n_logOffset n)) (n_log n)).

Definition apply_all (es : list LogEntry) (sm : SM) : SM :=
  foldl (λ sm e, sm_ApplyFn (MkApplyMsg (e_Index e) (e_Term e) (e_Command e)) sm) sm es.

(** Waiting clients have distinct channels, with nothing sent on them yet. *)
Definition waiters_wf n : Prop :=
  (∀ i j ch, n_waiters n !! i = Some ch → n_waiters n !! j = Some ch → i = j) ∧
  (∀ i ch, n_waiters n !! i = Some ch → n_chans n !! ch = None ∧ (ch < n_nextChan n)%nat) ∧
  (∀ ch, is_Some (n_chans n !! ch) → (ch < n_nextChan n)%nat).

(** The delivery to one waiter, and to those of a list of entries. *)
Definition notify n (e : LogEntry) : Node SM :=
  match n_waiters n !! e_Index e with
  | Some ch => set_waiters (delete (e_Index e) (n_waiters n)) (chan_send ch None n)
  | None => n
  end.
Definition notify_all (es : list LogEntry) n : Node SM := foldl notify n es.

Lemma set_waiters_chans_id n : set_waiters (n_waiters n) (set_chans (n_chans n) n) = n.
Proof. by destruct n. Qed.

Lemma notify_all_shape es n : ∃ W C, notify_all es n = set_waiters W (set_chans C n).
Proof.
  revert n. induction es as [|e es IH]; intros n; simpl.
  - exists (n_waiters n), (n_chans n). by rewrite set_waiters_chans_id.
  - destruct (IH (notify n e)) as (W & C & ->). exists W, C.
    unfold notify. by destruct (n_waiters n !! e_Index e).
Qed.

Lemma notify_all_waiters es n i :
  n_waiters (notify_all es n) !! i = if decide (i ∈ e_Index <$> es) then None else n_waiters n !! i.
Proof.
  revert n. induction es as [|e es IH]; intros n; simpl; [done|]. rewrite IH.
  assert (Hn : n_waiters (notify n e) !! i = if decide (i = e_Index e) then None else n_waiters n !! i).
  { unfold notify. destruct (n_waiters n !! e_Index e) as [ch|] eqn:E; simpl.
    - destruct (decide (i = e_Index e)) as [->|]; [apply lookup_delete_eq|by apply lookup_delete_ne].
    - by destruct (decide (i = e_Index e)) as [->|]. }
  rewrite Hn. destruct (decide (i ∈ e_Index <$> es)) as [Hin|Hin].
  - by rewrite decide_True by (by right).
  - destruct (decide (i = e_Index e)) as [->|Hne].
    + by rewrite decide_True by (by left).
    + rewrite decide_False; [done|]. by intros [?|?]%elem_of_cons.
Qed.

Lemma notify_wf n e : waiters_wf n → waiters_wf (notify n e).
Proof.
  intros (W1 & W2 & W3). unfold notify. destruct (n_waiters n !! e_Index e) as [ch|] eqn:E; [|done].
  unfold waiters_wf. simpl. split_and!.
  - intros i j c'. rewrite !lookup_delete_Some. intros [_ ?] [_ ?]. by eapply W1.
  - intros i c'. rewrite lookup_delete_Some. intros [Hne Hi]. rewrite lookup_insert_ne; [by eapply W2|].
    intros ->. apply Hne. by eapply W1.
  - intros c'. destruct (decide (c' = ch)) as [->|]; [intros _; by eapply W2|].
    rewrite lookup_insert_ne by done. apply W3.
Qed.

Lemma notify_all_wf es n : waiters_wf n → waiters_wf (notify_all es n).
Proof. revert n. induction es as [|e es IH]; intros n Hw; simpl; [done|]. by apply IH, notify_wf. Qed.

Lemma notify_all_chan_other es n ch :
  (∀ i, n_waiters n !! i ≠ Some ch) → n_chans (notify_all es n) !! ch = n_chans n !! ch.
Proof.
  revert n. induction es as [|e es IH]; intros n Hn; simpl; [done|]. rewrite IH.
  - unfold notify. destruct (n_waiters n !! e_Index e) as [c'|] eqn:E; [|done]. simpl.
    apply lookup_insert_ne. intros ->. by eapply Hn.
  - intros i. unfold notify. destruct (n_waiters n !! e_Index e) as [c'|] eqn:E; [|apply Hn]. simpl.
    rewrite lookup_delete_Some. naive_solver.
Qed.

(** A waiter whose index is among the entries finds [nil] on its channel. *)
Lemma notify_all_sent es n i ch :
  waiters_wf n → n_waiters n !! i = Some ch → i ∈ e_Index <$> es →
  ProposeSync_poll ch (notify_all es n) = Some None.
Proof.
  unfold ProposeSync_poll. revert n. induction es as [|e es IH]; intros n Hw Hi Hin; [by apply elem_of_nil in Hin|].
  simpl. destruct (decide (e_Index e = i)) as [<-|Hne].
  - destruct Hw as (W1 & W2 & W3). rewrite notify_all_chan_other.
    + unfold notify. rewrite Hi. simpl. rewrite lookup_insert_eq.
      destruct (W2 _ _ Hi) as [-> _]. done.
    + intros j. unfold notify. rewrite Hi. simpl. rewrite lookup_delete_Some. intros [? Hj].
      by specialize (W1 _ _ _ Hi Hj).
  - apply IH; [by apply notify_wf| |by apply elem_of_cons in Hin as [?|?]].
    unfold notify. destruct (n_waiters n !! e_Index e) as [c'|] eqn:E; [|done]. simpl.
    by rewrite lookup_delete_ne.
Qed.

(** ** The loop *)

(** Nodes whose next entry to apply is still in the log. *)
Definition applicable n : Prop :=
  log_wf n ∧ n_logOffset n ≤ n_lastApplied n ∧ n_commitIndex n ≤ n_logOffset n + zlen (n_log n).

Lemma segment_cons n a b e :
  n_logOffset n ≤ a < b → n_log n !! Z.to_nat (a - n_logOffset n) = Some e →
  segment n a b = e :: segment n (a + 1) b.
Proof.
  intros [Ha Hb] He. unfold segment.
  replace (Z.to_nat (b - a)) with (S (Z.to_nat (b - (a + 1)))) by lia.
  rewrite (drop_S _ e) by done. simpl. f_equal. f_equal. f_equal. lia.
Qed.

Lemma set_applied_id n :
  set_lastApplied (n_lastApplied n) (set_stateMachine (n_stateMachine n) n) = n.
Proof. by destruct n. Qed.

Lemma apply_loop_spec fuel n :
  applicable n → n_lastApplied n ≤ n_commitIndex n →
  fuel = Z.to_nat (n_commitIndex n - n_lastApplied n) →
  let seg := segment n (n_lastApplied n) (n_commitIndex n) in
  apply_loop fuel n =
    set_lastApplied (n_commitIndex n)
      (set_stateMachine (apply_all seg (n_stateMachine n)) (notify_all seg n)).
Proof.
  revert n. induction fuel as [|fuel IH]; intros n (Hw & Ho & Hc) Hle Hf; cbv zeta; cbn [apply_loop].
  - assert (n_commitIndex n = n_lastApplied n) as -> by lia. unfold segment.
    rewrite Z.sub_diag. change (Z.to_nat 0) with 0%nat. rewrite take_0.
    change (apply_all [] (n_stateMachine n)) with (n_stateMachine n).
    change (notify_all [] n) with n. by rewrite set_applied_id.
  - rewrite (proj2 (Z.ltb_lt _ _)) by lia. pose proof Hw as (? & ? & Hcons).
    cbn [n_lastApplied set_lastApplied]. unwrap. set (la := n_lastApplied n) in *.
    assert (is_Some (n_log n !! Z.to_nat (la - n_logOffset n))) as [e He].
    { apply lookup_lt_is_Some. unfold zlen in *. lia. }
    set (n1 := set_lastApplied (la + 1) n).
    assert (Hea : entryAtLocked n1 (la + 1) = Some e).
    { apply entryAt_Some; [done|]. split; [simpl; lia|].
      change (n_log n1) with (n_log n). change (n_logOffset n1) with (n_logOffset n).
      by replace (la + 1 - n_logOffset n - 1) with (la - n_logOffset n) by lia. }
    rewrite Hea. cbv zeta.
    rewrite (segment_cons n la (n_commitIndex n) e) by (done || lia).
    cbn [n_waiters set_stateMachine n1 set_lastApplied].
    set (m := set_stateMachine _ _).
    assert (Hstep : (match n_waiters n !! e_Index e with
      | Some ch => set_waiters (delete (e_Index e) (n_waiters n)) (chan_send ch None m)
      | None => m end) =
      set_lastApplied (la + 1) (set_stateMachine
        (sm_ApplyFn (MkApplyMsg (e_Index e) (e_Term e) (e_Command e)) (n_stateMachine n)) (notify n e))).
    { unfold notify. by destruct (n_waiters n !! e_Index e). }
    rewrite Hstep.
    assert (Hsame : n_log (notify n e) = n_log n ∧ n_logOffset (notify n e) = n_logOffset n ∧
      n_commitIndex (notify n e) = n_commitIndex n).
    { unfold notify. by destruct (n_waiters n !! e_Index e). }
    destruct Hsame as (S1 & S2 & S3).
    rewrite IH; cbn [n_lastApplied set_lastApplied n_commitIndex n_logOffset n_log n_stateMachine
      set_stateMachine]; rewrite ?S3; [|unfold applicable, log_wf; simpl; rewrite S1, S2, S3|lia..].
    + unfold segment. simpl. rewrite S1, S2.
      set (seg := take _ _). destruct (notify_all_shape seg (notify n e)) as (W & C & E).
      assert (Hcomm : ∀ x y m, notify_all seg (set_lastApplied x (set_stateMachine y m)) =
        set_lastApplied x (set_stateMachine y (notify_all seg m))).
      { clear. induction seg as [|e' seg IH]; intros x y m; simpl; [done|]. rewrite <- IH. f_equal.
        unfold notify. simpl. by destruct (n_waiters m !! e_Index e'). }
      rewrite Hcomm. done.
    + split_and!; [done|lia|done].
Qed.

Lemma segment_lookup n a b k e :
  n_logOffset n ≤ a → segment n a b !! k = Some e ↔
  Z.of_nat k < b - a ∧ n_log n !! (Z.to_nat (a - n_logOffset n) + k)%nat = Some e.
Proof.
  intros Ha. unfold segment. rewrite lookup_take_Some, lookup_drop. split; intros [? ?]; split; auto; lia.
Qed.

Lemma segment_indices n a b i :
  log_wf n → n_logOffset n ≤ a → b ≤ n_logOffset n + zlen (n_log n) →
  i ∈ e_Index <$> segment n a b ↔ a < i ≤ b.
Proof.
  intros (Ho & _ & Hc) Ha Hb. rewrite list_elem_of_fmap. setoid_rewrite list_elem_of_lookup. split.
  - intros (e & -> & k & Hk). apply segment_lookup in Hk as [? Hk]; [|done]. rewrite (Hc _ _ Hk). lia.
  - intros Hi. destruct (lookup_lt_is_Some_2 (n_log n) (Z.to_nat (i - n_logOffset n - 1))) as [e He].
    { unfold zlen in *. lia. }
    exists e. split; [rewrite (Hc _ _ He); lia|]. exists (Z.to_nat (i - a - 1)).
    apply segment_lookup; [done|]. split; [lia|]. rewrite <- He. f_equal. lia.
Qed.

Lemma applyCommitted_eq n :
  applicable n → n_lastApplied n ≤ n_commitIndex n →
  let seg := segment n (n_lastApplied n) (n_commitIndex n) in
  applyCommittedLocked n =
    set_applyWake (if n_lastApplied n <? n_commitIndex n then S (n_applyWake n) else n_applyWake n)
    (set_lastApplied (n_commitIndex n)
      (set_stateMachine (apply_all seg (n_stateMachine n)) (notify_all seg n))).
Proof.
  intros Ha Hle. cbv zeta. unfold applyCommittedLocked.
  rewrite (apply_loop_spec _ n Ha Hle eq_refl). cbv zeta. set (seg := segment _ _ _).
  destruct (notify_all_shape seg n) as (W & C & ->).
  by destruct (_ <? _).
Qed.

(** ** The commit rule *)

Lemma find_commit_spec n N c :
  Z.of_nat c ≤ N ≤ u64_max →
  match find_commit n N c with
  | Some M => N - Z.of_nat c < M ≤ N ∧ committable n M = true ∧
      ∀ K, M < K ≤ N → committable n K = false
  | None => ∀ K, N - Z.of_nat c < K ≤ N → committable n K = false
  end.
Proof.
  revert N. induction c as [|c IH]; intros N Hc; cbn [find_commit]; [lia|].
  destruct (committable n N) eqn:E.
  - split_and!; [lia..|done|lia].
  - unwrap. specialize (IH (N - 1) ltac:(lia)). destruct (find_commit n (N - 1) c) as [M|].
    + destruct IH as (? & ? & HK). split_and!; [lia..|done|]. intros K HKN.
      destruct (decide (K = N)) as [->|]; [done|]. apply HK. lia.
    + intros K HKN. destruct (decide (K = N)) as [->|]; [done|]. apply IH. lia.
Qed.

(** The peers that are known to hold the log up to [N]. *)
Definition holders n (N : Z) : list string := (filter (λ kv, N ≤ kv.2) (map_to_list (n_matchIndex n))).*1.

Lemma holders_NoDup n N : NoDup (holders n N).
Proof.
  unfold holders. apply (sublist_NoDup _ ((map_to_list (n_matchIndex n)).*1)).
  - apply NoDup_fst_map_to_list.
  - apply fmap_sublist, sublist_filter.
Qed.

Lemma match_count_holders n N : match_count n N = zlen (holders n N).
Proof.
  unfold match_count, holders, zlen. rewrite length_fmap. f_equal.
  rewrite <- length_map_to_list, map_filter_alt. apply Permutation_length, map_to_list_to_map.
  apply holders_NoDup.
Qed.

Lemma elem_of_holders n N p : p ∈ holders n N ↔ ∃ v, n_matchIndex n !! p = Some v ∧ N ≤ v.
Proof.
  unfold holders. rewrite list_elem_of_fmap. split.
  - intros ([p' v] & -> & [Hle Hin]%list_elem_of_filter). apply elem_of_map_to_list in Hin. eauto.
  - intros (v & Hv & Hle). exists (p, v). split; [done|]. apply list_elem_of_filter. split; [done|].
    by apply elem_of_map_to_list.
Qed.

Lemma committable_spec n N :
  log_wf n →
  committable n N = true ↔
  (∃ e, entryAtLocked n N = Some e ∧ e_Term e = n_currentTerm n) ∧
  quorumSize (zlen (n_peers n) + 1) ≤ 1 + zlen (holders n N).
Proof.
  intros Hw. unfold committable. rewrite match_count_holders.
  destruct (entryAtLocked n N) as [e|] eqn:E; [|naive_solver].
  rewrite andb_true_iff, Z.eqb_eq, Z.leb_le. naive_solver.
Qed.

(** What applying can change. *)
Lemma apply_loop_shape fuel n :
  ∃ la sm W C, apply_loop fuel n =
    set_lastApplied la (set_stateMachine sm (set_waiters W (set_chans C n))).
Proof.
  assert (Hid : ∀ n, ∃ la sm W C, n =
    set_lastApplied la (set_stateMachine sm (set_waiters W (set_chans C n)))).
  { intros m. exists (n_lastApplied m), (n_stateMachine m), (n_waiters m), (n_chans m). by destruct m. }
  revert n. induction fuel as [|fuel IH]; intros n; cbn [apply_loop]; [apply Hid|].
  destruct (_ <? _); [|apply Hid]. cbv zeta. destruct (entryAtLocked _ _) as [e|].
  - destruct (n_waiters _ !! _); edestruct IH as (la & sm & W & C & ->); by exists la, sm, W, C.
  - exists (n_lastApplied n +u 1), (n_stateMachine n), (n_waiters n), (n_chans n). by destruct n.
Qed.

Lemma applyCommitted_shape n :
  ∃ la sm W C wk, applyCommittedLocked n =
    set_applyWake wk (set_lastApplied la (set_stateMachine sm (set_waiters W (set_chans C n)))).
Proof.
  unfold applyCommittedLocked. cbv zeta.
  destruct (apply_loop_shape (Z.to_nat (n_commitIndex n - n_lastApplied n)) n) as (la & sm & W & C & ->).
  destruct (_ <? _); [by do 5 eexists|]. exists la, sm, W, C, (n_applyWake n). by destruct n.
Qed.

Lemma setRole_shape r n : ∃ W C, setRoleLocked r n = set_role r (set_waiters W (set_chans C n)).
Proof.
  assert (Hab : ∀ err, ∃ W C, abortPendingWaitersLocked err n = set_waiters W (set_chans C n)).
  { intros err. unfold abortPendingWaitersLocked.
    assert (∃ C, map_fold (λ _ ch acc, chan_send ch (Some err) acc) n (n_waiters n) = set_chans C n)
      as [C ->].
    { apply (map_fold_weak_ind (λ r _, ∃ C, r = set_chans C n)).
      - exists (n_chans n). by destruct n.
      - intros i ch m r' _ [C ->]. by eexists. }
    by do 2 eexists. }
  unfold setRoleLocked. cbv zeta. destruct (_ && _).
  - destruct (Hab ErrLeadershipLost) as (W & C & ->). by do 2 eexists.
  - exists (n_waiters n), (n_chans n). by destruct n.
Qed.

Lemma maybeAdvance_commit n :
  n_commitIndex (maybeAdvanceCommitIndexLocked n) =
  default (n_commitIndex n)
    (find_commit n (lastLogIndexLocked n) (Z.to_nat (lastLogIndexLocked n - n_commitIndex n))).
Proof.
  unfold maybeAdvanceCommitIndexLocked. cbv zeta. destruct (find_commit _ _ _) as [N|]; [|done].
  simpl. by destruct (applyCommitted_shape (set_commitIndex N n)) as (la & sm & W & C & wk & ->).
Qed.

(** ** Requests *)

Lemma collect_entries_spec n idx c :
  log_wf n → n_logOffset n < idx → idx + Z.of_nat c = n_logOffset n + zlen (n_log n) + 1 →
  collect_entries n idx c = Some (drop (Z.to_nat (idx - n_logOffset n - 1)) (n_log n)).
Proof.
  intros Hw. revert idx. induction c as [|c IH]; intros idx Ho Hc; cbn [collect_entries].
  - rewrite drop_ge; [done|]. unfold zlen in *. lia.
  - pose proof Hw as (? & ? & ?).
    destruct (proj2 (entryAt_is_Some n idx Hw) ltac:(lia)) as [e He]. rewrite He.
    apply entryAt_Some in He as [_ He]; [|done].
    unwrap. rewrite IH by lia. rewrite (drop_S _ _ _ He). do 3 f_equal. lia.
Qed.

Definition prev_term n (prev : Z) : Z :=
  match entryAtLocked n prev with Some e => e_Term e | None => 0 end.

Lemma entryAt_zero n : log_wf n → entryAtLocked n 0 = None.
Proof.
  intros Hw. rewrite entryAt_spec by done. destruct Hw as (? & _). rewrite decide_False; [done|lia].
Qed.

Lemma buildRequest_eq n p :
  log_wf n → (∀ v, n_nextIndex n !! p = Some v → is_u64 v) →
  let next := peerNext n p in
  n_logOffset n < next ≤ u64_max ∧
  buildRequest n p = Some (MkOutgoing p
    (MkAppendEntriesRequest (n_currentTerm n) (n_address n) (next - 1) (prev_term n (next - 1))
       (drop (Z.to_nat (next - 1 - n_logOffset n)) (n_log n)) (n_commitIndex n))
    (next - 1) (zlen (drop (Z.to_nat (next - 1 - n_logOffset n)) (n_log n)))).
Proof.
  intros Hw Hv. cbv zeta. pose proof Hw as (Ho & Hr & _). pose proof (zlen_nonneg (n_log n)).
  assert (Hnx : n_logOffset n < peerNext n p ≤ u64_max).
  { unfold peerNext. destruct (n_nextIndex n !! p) as [v|] eqn:E; simpl;
      [specialize (Hv v eq_refl)|]; destruct (_ <=? _) eqn:El; zbool; unwrap; u64. }
  split; [done|]. unfold buildRequest. cbv zeta. set (next := peerNext n p) in *. unwrap.
  rewrite lastLogIndex_spec by done.
  assert (Hce : collect_entries n next (Z.to_nat (n_logOffset n + zlen (n_log n) - next + 1)) =
    Some (drop (Z.to_nat (next - 1 - n_logOffset n)) (n_log n))).
  { destruct (decide (next ≤ n_logOffset n + zlen (n_log n))).
    - rewrite collect_entries_spec by (done || lia). do 2 f_equal. lia.
    - replace (Z.to_nat (n_logOffset n + zlen (n_log n) - next + 1)) with 0%nat by lia. simpl.
      rewrite drop_ge; [done|]. unfold zlen in *. lia. }
  rewrite Hce. do 3 f_equal. unfold prev_term. destruct (0 <? next - 1) eqn:E; [done|]. zbool.
  replace (next - 1) with 0 by lia. by rewrite entryAt_zero.
Qed.

(** C19.  applyCommittedLocked applies exactly the entries with index in
    (lastApplied, commitIndex], once each and in order; every client waiting
    for one of them finds nil on its channel, every other client keeps
    waiting. *)
Theorem applyCommitted_correct n :
  applicable n → waiters_wf n → n_lastApplied n ≤ n_commitIndex n →
  let n' := applyCommittedLocked n in
  n_lastApplied n' = n_commitIndex n ∧ n_commitIndex n' = n_commitIndex n ∧
  n_stateMachine n' =
    apply_all (segment n (n_lastApplied n) (n_commitIndex n)) (n_stateMachine n) ∧
  (∀ i ch, n_waiters n !! i = Some ch → n_lastApplied n < i ≤ n_commitIndex n →
    ProposeSync_poll ch n' = Some None) ∧
  (∀ i, n_waiters n' !! i =
    if decide (n_lastApplied n < i ≤ n_commitIndex n) then None else n_waiters n !! i) ∧
  waiters_wf n'.
Proof.
  intros Ha Hww Hle. cbv zeta. rewrite applyCommitted_eq by done. cbv zeta.
  set (seg := segment _ _ _). pose proof Ha as (Hw & Ho & Hc).
  assert (Hidx : ∀ i, i ∈ e_Index <$> seg ↔ n_lastApplied n < i ≤ n_commitIndex n)
    by (intros i; by apply segment_indices).
  split; [done|]. split.
  { by destruct (notify_all_shape seg n) as (W & C & ->). }
  split; [done|]. split_and!.
  - intros i ch Hi Hr. unfold ProposeSync_poll. cbn [n_chans set_applyWake set_lastApplied set_stateMachine].
    eapply notify_all_sent; [done|exact Hi|by apply Hidx].
  - intros i. cbn [n_waiters set_applyWake set_lastApplied set_stateMachine].
    rewrite notify_all_waiters.
    destruct (decide (i ∈ e_Index <$> seg)) as [Hin|Hin]; rewrite Hidx in Hin;
      [by rewrite decide_True|by rewrite decide_False].
  - exact (notify_all_wf seg n Hww).
Qed.

(** C14.  The commit rule: maybeAdvanceCommitIndexLocked moves commitIndex, if
    at all, forward to an entry of the leader's current term that it and
    enough peers for a majority are known to hold, and to the greatest such
    entry. *)
Theorem commit_rule n :
  log_wf n → is_u64 (n_commitIndex n) →
  let held N := (∃ e, entryAtLocked n N = Some e ∧ e_Term e = n_currentTerm n) ∧
    quorumSize (zlen (n_peers n) + 1) ≤ 1 + zlen (holders n N) in
  let c' := n_commitIndex (maybeAdvanceCommitIndexLocked n) in
  (c' = n_commitIndex n ∨ (n_commitIndex n < c' ∧ held c')) ∧
  ∀ K, c' < K → ¬ held K.
Proof.
  intros Hw Hu held c'. unfold c'. rewrite maybeAdvance_commit.
  pose proof Hw as (Ho & Hr & _). pose proof (zlen_nonneg (n_log n)).
  rewrite lastLogIndex_spec by done. set (last := n_logOffset n + zlen (n_log n)) in *.
  assert (Hbeyond : ∀ K, last < K → ¬ held K).
  { intros K HK ((e & He & _) & _).
    assert (is_Some (entryAtLocked n K)) as Hs by eauto. apply entryAt_is_Some in Hs; [|done]. lia. }
  assert (Hheld : ∀ K, committable n K = true ↔ held K) by (intros; by apply committable_spec).
  pose proof (find_commit_spec n last (Z.to_nat (last - n_commitIndex n)) ltac:(u64)) as Hf.
  assert (Hneg : ∀ K, committable n K = false → ¬ held K).
  { intros K HK Hh%Hheld. congruence. }
  destruct (find_commit _ _ _) as [M|]; simpl.
  - destruct Hf as (? & Hcm & HK). split.
    + right. split; [lia|by apply Hheld].
    + intros K ?. destruct (decide (K ≤ last)); [apply Hneg, HK; lia|apply Hbeyond; lia].
  - split; [by left|]. intros K ?.
    destruct (decide (K ≤ last)); [apply Hneg, Hf; lia|apply Hbeyond; lia].
Qed.

(** A leader's broadcast never dereferences a missing entry: it yields one
    request per peer, with everything from that peer's nextIndex (clamped
    above the compaction point) to the end of the log, indexed consecutively
    after PrevLogIndex, and LeaderCommit never beyond what the request
    carries. *)
Theorem broadcast_total n :
  log_wf n → (∀ p v, n_nextIndex n !! p = Some v → is_u64 v) → n_role n = Leader →
  ∃ reqs, broadcastAppendEntries n = Some (n_currentTerm n, reqs) ∧
    o_peer <$> reqs = n_peers n ∧
    Forall (λ o, let r := o_req o in let prev := ae_PrevLogIndex r in
      prev = peerNext n (o_peer o) - 1 ∧ n_logOffset n ≤ prev ∧
      o_prevIndex o = prev ∧ o_numEntries o = zlen (ae_Entries r) ∧
      ae_Term r = n_currentTerm n ∧ ae_LeaderId r = n_address n ∧
      ae_PrevLogTerm r = prev_term n prev ∧
      ae_Entries r = segment n prev (lastLogIndexLocked n) ∧ consecutive prev (ae_Entries r) ∧
      ae_LeaderCommit r = n_commitIndex n ∧
      (n_commitIndex n ≤ lastLogIndexLocked n → prev ≤ lastLogIndexLocked n →
       ae_LeaderCommit r ≤ prev + zlen (ae_Entries r))) reqs.
Proof.
  intros Hw Hv Hl. unfold broadcastAppendEntries. rewrite bool_decide_eq_true_2 by done. cbn [negb].
  unfold buildAppendEntriesRequestsLocked.
  set (req p := MkOutgoing p
    (MkAppendEntriesRequest (n_currentTerm n) (n_address n) (peerNext n p - 1)
       (prev_term n (peerNext n p - 1))
       (drop (Z.to_nat (peerNext n p - 1 - n_logOffset n)) (n_log n)) (n_commitIndex n))
    (peerNext n p - 1) (zlen (drop (Z.to_nat (peerNext n p - 1 - n_logOffset n)) (n_log n)))).
  assert (Hall : mapM (buildRequest n) (n_peers n) = Some (req <$> n_peers n)).
  { apply mapM_Some. induction (n_peers n) as [|p ps IH]; [constructor|]. constructor; [|done].
    by destruct (buildRequest_eq n p Hw (Hv p)) as [_ ->]. }
  rewrite Hall. exists (req <$> n_peers n). split; [done|].
  split; [by rewrite <- list_fmap_compose, list_fmap_id|].
  apply Forall_fmap, Forall_forall. intros p _. simpl.
  destruct (buildRequest_eq n p Hw (Hv p)) as [Hn _]. pose proof Hw as (? & ? & Hc).
  rewrite lastLogIndex_spec by done. pose proof (zlen_nonneg (n_log n)).
  set (prev := peerNext n p - 1) in *.
  assert (Hcd : consecutive prev (drop (Z.to_nat (prev - n_logOffset n)) (n_log n))).
  { apply (consecutive_drop _ _ (Z.to_nat (prev - n_logOffset n))) in Hc.
    by replace (n_logOffset n + Z.of_nat (Z.to_nat (prev - n_logOffset n))) with prev in Hc by lia. }
  split_and!; try done; [lia| |].
  - unfold segment. rewrite take_ge; [done|]. rewrite length_drop. unfold zlen in *. lia.
  - intros ? ?. rewrite zlen_drop by (unfold zlen in *; lia). lia.
Qed.

End apply.

(** ** AppendEntries on a healthy disk *)

Section append_entries.
Context {SM : Type} `{StateMachine SM} {D : Type} `{Storage D} `{!LogLaws D}.
Implicit Types (n : Node SM) (d : D) (s : Node SM * D).

(** A node update that leaves log, offsets and data directory alone. *)
Definition log_kept n n' : Prop :=
  n_log n' = n_log n ∧ n_logOffset n' = n_logOffset n ∧ n_dataDir n' = n_dataDir n.

Lemma synced_kept n n' d : log_kept n n' → synced (n, d) → synced (n', d).
Proof. intros (E1 & E2 & E3). unfold synced, log_wf. simpl. by rewrite E1, E2, E3. Qed.

Lemma setRole_kept r n :
  log_kept n (setRoleLocked r n) ∧ n_commitIndex (setRoleLocked r n) = n_commitIndex n ∧
  n_currentTerm (setRoleLocked r n) = n_currentTerm n ∧ n_votedFor (setRoleLocked r n) = n_votedFor n ∧
  n_lastApplied (setRoleLocked r n) = n_lastApplied n ∧ n_role (setRoleLocked r n) = r ∧
  n_stateMachine (setRoleLocked r n) = n_stateMachine n.
Proof. by destruct (setRole_shape r n) as (W & C & ->). Qed.

(** Persisting on a healthy disk. *)
Lemma persist_quiet n d :
  synced (n, d) → is_u64 (n_currentTerm n) →
  ∃ d', persistStateLocked (n, d) = (Ok tt, (n, d')) ∧ synced (n, d').
Proof.
  intros (Hw & Hq & Hl) Ht. simpl in *.
  destruct (ll_save (n_dataDir n) (n_currentTerm n) (n_votedFor n) d _ Hq Hl Ht) as (d' & E & ? & ?).
  exists d'. split; [|done]. unfold persistStateLocked, liftD. unfold_node. by rewrite E.
Qed.

(** The higher-term rule at the head of both handlers. *)
Lemma observe_quiet t s :
  synced s → is_u64 t →
  ∃ b s', (if n_currentTerm s.1 <? t then observeTermLocked t else mret false) s = (Ok b, s') ∧
    synced s' ∧ log_kept s.1 s'.1 ∧ n_currentTerm s'.1 = Z.max (n_currentTerm s.1) t ∧
    n_commitIndex s'.1 = n_commitIndex s.1 ∧ n_lastApplied s'.1 = n_lastApplied s.1 ∧
    n_stateMachine s'.1 = n_stateMachine s.1 ∧
    n_votedFor s'.1 = (if decide (n_currentTerm s.1 < t) then "" else n_votedFor s.1) ∧
    (n_currentTerm s.1 < t → n_role s'.1 = Follower) ∧ (t ≤ n_currentTerm s.1 → s' = s).
Proof.
  intros Hs Ht. destruct (n_currentTerm s.1 <? t) eqn:E; zbool.
  - destruct s as [n d]. simpl in *. unfold observeTermLocked. rewrite nbind_getN. cbn [fst].
    rewrite (proj2 (Z.leb_gt _ _)) by lia. rewrite nbind_modifyN. cbn [fst snd].
    destruct (setRole_kept Follower (set_votedFor "" (set_currentTerm t n)))
      as (K1 & K2 & K3 & K4 & K5 & K6 & K7). set (n1 := setRoleLocked _ _) in *. clearbody n1. simpl in K2, K3, K4, K5, K7.
    destruct (persist_quiet n1 d) as (d' & Ep & Hs'); [by eapply synced_kept|by rewrite K3|].
    node_step Ep. exists true, (n1, d'). simpl. rewrite decide_True by lia.
    split_and!; try done; try (intros; lia); apply K1.
  - exists false, s. rewrite decide_False by lia. split_and!; try done; intros; lia.
Qed.

(** The request agrees with the log at PrevLogIndex, or lies below what has
    been compacted away. *)
Definition prev_matches n (req : AppendEntriesRequest) : Prop :=
  ae_PrevLogIndex req ≤ n_logOffset n ∨
  ∃ e, entryAtLocked n (ae_PrevLogIndex req) = Some e ∧ e_Term e = ae_PrevLogTerm req.

Definition req_wf (req : AppendEntriesRequest) : Prop :=
  is_u64 (ae_Term req) ∧ 0 ≤ ae_PrevLogIndex req ∧
  ae_PrevLogIndex req + zlen (ae_Entries req) + 1 < u64_max ∧
  consecutive (ae_PrevLogIndex req) (ae_Entries req) ∧ Forall ll_storable (ae_Entries req).

Lemma consistencyCheck_None n req :
  consistencyCheck n req = None ↔ prev_matches n req.
Proof.
  unfold consistencyCheck, prev_matches. destruct (_ <? _) eqn:E; zbool.
  - destruct (entryAtLocked n (ae_PrevLogIndex req)) as [e|] eqn:Ee.
    + destruct (e_Term e =? ae_PrevLogTerm req) eqn:Et; zbool; simpl.
      * split; [|done]. intros _. right. by exists e.
      * split; [done|]. intros [?|(? & [= <-] & ?)]; [lia|done].
    + split; [done|]. intros [?|(? & ? & _)]; [lia|done].
  - split; [|done]. intros _. left. lia.
Qed.

Lemma prev_matches_le n req :
  log_wf n → prev_matches n req → ae_PrevLogIndex req ≤ n_logOffset n + zlen (n_log n).
Proof.
  intros Hw [?|(e & He & _)]; [pose proof (zlen_nonneg (n_log n)); lia|].
  assert (is_Some (entryAtLocked n (ae_PrevLogIndex req))) as Hs by eauto.
  apply entryAt_is_Some in Hs; [lia|done].
Qed.

(** The last step of the handler: follow the leader's commit index. *)
Definition follow_commit (req : AppendEntriesRequest) n : Node SM :=
  if n_commitIndex n <? ae_LeaderCommit req
  then applyCommittedLocked (set_commitIndex (min64 (ae_LeaderCommit req) (lastLogIndexLocked n)) n)
  else n.

Lemma follow_commit_kept req n :
  log_kept n (follow_commit req n) ∧ n_currentTerm (follow_commit req n) = n_currentTerm n ∧
  n_role (follow_commit req n) = n_role n ∧ n_currentLeader (follow_commit req n) = n_currentLeader n ∧
  n_commitIndex (follow_commit req n) =
    if decide (n_commitIndex n < ae_LeaderCommit req)
    then Z.min (ae_LeaderCommit req) (lastLogIndexLocked n) else n_commitIndex n.
Proof.
  unfold follow_commit. destruct (_ <? _) eqn:E; zbool.
  - rewrite decide_True by done.
    destruct (applyCommitted_shape
      (set_commitIndex (min64 (ae_LeaderCommit req) (lastLogIndexLocked n)) n))
      as (la & sm & W & C & wk & ->).
    split_and!; try done. simpl. unfold min64. destruct (_ <? _) eqn:E2; zbool; lia.
  - rewrite decide_False by lia. done.
Qed.

(** Following the leader: role, leader address and deadline. *)
Definition follow_leader (env : Env) (req : AppendEntriesRequest) n : Node SM :=
  resetElectionDeadlineLocked env (set_currentLeader (ae_LeaderId req) (setRoleLocked Follower n)).

Lemma follow_leader_kept env req n :
  log_kept n (follow_leader env req n) ∧
  n_currentTerm (follow_leader env req n) = n_currentTerm n ∧
  n_role (follow_leader env req n) = Follower ∧
  n_currentLeader (follow_leader env req n) = ae_LeaderId req ∧
  n_commitIndex (follow_leader env req n) = n_commitIndex n.
Proof.
  unfold follow_leader. destruct (setRole_shape Follower n) as (W & C & ->). done.
Qed.

Lemma prev_matches_kept n n' req : log_kept n n' → prev_matches n req → prev_matches n' req.
Proof.
  intros (E1 & E2 & _). unfold prev_matches, entryAtLocked. by rewrite E1, E2.
Qed.

(** The merge, also when the request is a heartbeat. *)
Lemma merge_step n d req :
  synced (n, d) → req_wf req → ae_PrevLogIndex req ≤ n_logOffset n + zlen (n_log n) →
  let log' := merged (n_logOffset n) (ae_PrevLogIndex req) (n_log n) (ae_Entries req) in
  ∃ d', (if 0 <? zlen (ae_Entries req)
         then mergeEntriesLocked (ae_PrevLogIndex req) (ae_Entries req) else mret tt) (n, d)
      = (Ok tt, (set_log log' n, d')) ∧ synced (set_log log' n, d').
Proof.
  intros Hs (_ & Hp & Hr & Hc & Hst) Hle. cbv zeta. destruct (0 <? _) eqn:E; zbool.
  - destruct (mergeEntries_merged (ae_PrevLogIndex req) (ae_Entries req) (n, d)) as (d' & ? & ?);
      [done..|simpl; lia|done|]. by exists d'.
  - destruct (ae_Entries req) as [|e es] eqn:Ee; [|rewrite zlen_cons in *; pose proof (zlen_nonneg es); lia].
    unfold merged. rewrite drop_nil.
    assert (Hid : ∀ l : list LogEntry, merge_ref l [] = l) by (by intros []).
    rewrite Hid, take_drop, set_log_id. by exists d.
Qed.

(** C12.  A request of the current or a newer term whose PrevLogIndex matches is
    accepted: the log becomes the paper's merge of the two logs, in memory
    and in log.dat alike, the node follows the sender, and commitIndex moves
    to min(LeaderCommit, last index) if that is news. *)
Theorem AppendEntries_accept env req s :
  synced s → req_wf req → n_currentTerm s.1 ≤ ae_Term req → prev_matches s.1 req →
  let log' := merged (n_logOffset s.1) (ae_PrevLogIndex req) (n_log s.1) (ae_Entries req) in
  let last' := n_logOffset s.1 + zlen log' in
  ∃ s', AppendEntries env req s = (Ok (MkAppendEntriesReply (ae_Term req) true 0 0), s') ∧
    synced s' ∧ n_log s'.1 = log' ∧ n_logOffset s'.1 = n_logOffset s.1 ∧
    n_currentTerm s'.1 = ae_Term req ∧ n_role s'.1 = Follower ∧
    n_currentLeader s'.1 = ae_LeaderId req ∧
    n_commitIndex s'.1 =
      if decide (n_commitIndex s.1 < ae_LeaderCommit req)
      then Z.min (ae_LeaderCommit req) last' else n_commitIndex s.1.
Proof.
  intros Hs Hreq Ht Hm log' last'. pose proof Hreq as (Hu & _).
  destruct (observe_quiet (ae_Term req) s Hs Hu) as (b & [n1 d1] & E1 & Hs1 & K1 & T1 & C1 & _).
  unfold AppendEntries. rewrite nbind_getN. node_step E1. rewrite nbind_getN. cbn [fst snd] in *.
  rewrite (proj2 (Z.ltb_ge _ _)) by lia. rewrite nbind_modifyN, nbind_getN. cbn [fst snd].
  change (resetElectionDeadlineLocked env _) with (follow_leader env req n1).
  destruct (follow_leader_kept env req n1) as (K2 & T2 & R2 & L2 & C2).
  set (n2 := follow_leader env req n1) in *.
  assert (Hm2 : prev_matches n2 req) by (eapply prev_matches_kept, prev_matches_kept; eauto).
  rewrite (proj2 (consistencyCheck_None n2 req) Hm2). rewrite nbind_modifyN. cbn [fst snd].
  set (n3 := set_lastAppendEntriesAt (Some (env_now env)) n2).
  assert (Hs3 : synced (n3, d1)) by (eapply (synced_kept n2); [done|by eapply synced_kept]).
  destruct (merge_step n3 d1 req Hs3 Hreq) as (d4 & E4 & Hs4).
  { apply prev_matches_le; [apply Hs3|]. by eapply (prev_matches_kept n2). }
  node_step E4. destruct K1 as (E11 & E12 & E13). destruct K2 as (E21 & E22 & E23).
  assert (Elog : merged (n_logOffset n3) (ae_PrevLogIndex req) (n_log n3) (ae_Entries req) = log').
  { unfold log'. change (n_logOffset n3) with (n_logOffset n2). change (n_log n3) with (n_log n2).
    by rewrite E21, E22, E11, E12. }
  rewrite Elog in *. set (n4 := set_log log' n3) in *. rewrite nbind_getN. cbn [fst].
  assert (E5 : (if n_commitIndex n4 <? ae_LeaderCommit req
    then modifyN (λ n, applyCommittedLocked
      (set_commitIndex (min64 (ae_LeaderCommit req) (lastLogIndexLocked n)) n))
    else mret tt) (n4, d4) = (Ok tt, (follow_commit req n4, d4))).
  { unfold follow_commit. by destruct (n_commitIndex n4 <? ae_LeaderCommit req). }
  node_step E5. rewrite nbind_getN. cbn [fst].
  destruct (follow_commit_kept req n4) as (K5 & T5 & R5 & L5 & C5).
  exists (follow_commit req n4, d4). cbn [fst].
  assert (Hterm : n_currentTerm (follow_commit req n4) = ae_Term req).
  { rewrite T5. change (n_currentTerm n4) with (n_currentTerm n2). lia. }
  rewrite Hterm. split; [done|]. split; [by eapply synced_kept|]. destruct K5 as (-> & -> & _).
  rewrite R5, L5, C5. rewrite lastLogIndex_spec by apply Hs4.
  change (n_logOffset n4) with (n_logOffset n2). change (n_commitIndex n4) with (n_commitIndex n2).
  change (n_currentLeader n4) with (n_currentLeader n2). change (n_role n4) with (n_role n2).
  change (n_log n4) with log'. rewrite E22, E12, C2, C1. done.
Qed.

(** C20.  A request of an old term, or one whose PrevLogIndex does not match, is
    refused with the follower's term; the log stays as it is in memory and on
    disk, and so do commitIndex and the state machine. *)
Theorem AppendEntries_refuse env req s :
  synced s → is_u64 (ae_Term req) → is_u64 (n_currentTerm s.1) →
  ae_Term req < n_currentTerm s.1 ∨ ¬ prev_matches s.1 req →
  ∃ reply s', AppendEntries env req s = (Ok reply, s') ∧
    aer_Success reply = false ∧ aer_Term reply = Z.max (n_currentTerm s.1) (ae_Term req) ∧
    synced s' ∧ n_log s'.1 = n_log s.1 ∧ n_logOffset s'.1 = n_logOffset s.1 ∧
    n_currentTerm s'.1 = aer_Term reply ∧
    n_commitIndex s'.1 = n_commitIndex s.1 ∧ n_stateMachine s'.1 = n_stateMachine s.1 ∧
    (ae_Term req < n_currentTerm s.1 → s' = s).
Proof.
  intros Hs Hu Hc Hcase.
  destruct (observe_quiet (ae_Term req) s Hs Hu)
    as (b & [n1 d1] & E1 & Hs1 & K1 & T1 & C1 & _ & M1 & _ & _ & Hsame).
  unfold AppendEntries. rewrite nbind_getN. node_step E1. rewrite nbind_getN. cbn [fst snd] in *.
  destruct (ae_Term req <? n_currentTerm n1) eqn:Elt; zbool.
  - do 2 eexists. split; [done|]. rewrite T1 in Elt. cbn [aer_Success aer_Term].
    destruct K1 as (K11 & K12 & K13).
    split_and!; try done. intros _. apply Hsame. lia.
  - rewrite nbind_modifyN, nbind_getN. cbn [fst snd].
    change (resetElectionDeadlineLocked env _) with (follow_leader env req n1).
    destruct (follow_leader_kept env req n1) as (K2 & T2 & R2 & L2 & C2).
    assert (M2 : n_stateMachine (follow_leader env req n1) = n_stateMachine n1).
    { unfold follow_leader. destruct (setRole_kept Follower n1) as (_ & _ & _ & _ & _ & _ & <-). done. }
    set (n2 := follow_leader env req n1) in *.
    destruct (consistencyCheck n2 req) as [rej|] eqn:Ec.
    + do 2 eexists. split; [done|]. cbn [fst].
      assert (Hrej : aer_Success rej = false ∧ aer_Term rej = n_currentTerm n2).
      { revert Ec. unfold consistencyCheck, reject. repeat case_match; intros; simplify_eq/=; done. }
      destruct Hrej as [-> ->]. destruct K1 as (K11 & K12 & K13). pose proof K2 as (K21 & K22 & K23).
      cbn [fst snd] in *. split_and!; try done; try lia; try congruence.
      by eapply synced_kept.
    + apply consistencyCheck_None in Ec. exfalso. destruct Hcase as [?|Hn]; [lia|]. apply Hn.
      destruct K1 as (K11 & K12 & K13). destruct K2 as (K21 & K22 & K23).
      eapply prev_matches_kept; [|exact Ec]. split_and!; congruence.
Qed.

(** C13.  RequestVote grants exactly the votes Raft allows: the request is not
    from an old term, no other candidate has this node's vote in that term,
    and the candidate's log is at least as up to date (last term first, then
    last index).  The reply carries the node's term, a granted vote is
    recorded in memory (vote_durable is about the disk), and the log is
    untouched. *)
Theorem RequestVote_correct env req s :
  synced s → is_u64 (rv_Term req) → is_u64 (n_currentTerm s.1) →
  let n := s.1 in
  ∃ reply s', RequestVote env req s = (Ok reply, s') ∧ synced s' ∧
    n_log s'.1 = n_log n ∧ n_logOffset s'.1 = n_logOffset n ∧
    rvr_Term reply = Z.max (n_currentTerm n) (rv_Term req) ∧
    n_currentTerm s'.1 = rvr_Term reply ∧
    (rvr_VoteGranted reply = true ↔
      n_currentTerm n ≤ rv_Term req ∧
      (n_currentTerm n < rv_Term req ∨ n_votedFor n = "" ∨ n_votedFor n = rv_CandidateId req) ∧
      (lastLogTermLocked n < rv_LastLogTerm req ∨
       lastLogTermLocked n = rv_LastLogTerm req ∧ lastLogIndexLocked n ≤ rv_LastLogIndex req)) ∧
    (rvr_VoteGranted reply = true → n_votedFor s'.1 = rv_CandidateId req).
Proof.
  intros Hs Hu Hc n. subst n.
  destruct (observe_quiet (rv_Term req) s Hs Hu)
    as (b & [n1 d1] & E1 & Hs1 & K1 & T1 & _ & _ & _ & V1 & _ & _).
  unfold RequestVote. rewrite nbind_getN. node_step E1. rewrite nbind_getN. cbn [fst snd] in *.
  pose proof K1 as (L1 & L2 & L3).
  assert (Hll : lastLogTermLocked n1 = lastLogTermLocked s.1 ∧ lastLogIndexLocked n1 = lastLogIndexLocked s.1).
  { unfold lastLogTermLocked, lastLogIndexLocked. by rewrite L1, L2. }
  destruct Hll as [Hlt Hli].
  destruct (rv_Term req <? n_currentTerm n1) eqn:Elt; zbool.
  { do 2 eexists. split; [done|]. cbn [rvr_Term rvr_VoteGranted fst]. split_and!; try done.
    split; [done|]. intros [? _]. lia. }
  assert (Hcand : candLogUpToDate n1 req = true ↔ lastLogTermLocked s.1 < rv_LastLogTerm req ∨
       lastLogTermLocked s.1 = rv_LastLogTerm req ∧ lastLogIndexLocked s.1 ≤ rv_LastLogIndex req).
  { unfold candLogUpToDate, isLogAtLeastAsUpToDate. rewrite Hlt, Hli.
    destruct (rv_LastLogTerm req =? lastLogTermLocked s.1) eqn:Et; zbool; cbn [negb].
    - rewrite Z.leb_le. lia.
    - rewrite Z.ltb_lt. lia. }
  assert (Hvote : notAlreadyVoted n1 req = true ↔
    n_currentTerm s.1 < rv_Term req ∨ n_votedFor s.1 = "" ∨ n_votedFor s.1 = rv_CandidateId req).
  { unfold notAlreadyVoted. rewrite orb_true_iff, !bool_decide_eq_true, V1.
    destruct (decide _); [naive_solver|]. split; [naive_solver|]. intros [?|?]; [lia|done]. }
  destruct (notAlreadyVoted n1 req) eqn:Ev, (candLogUpToDate n1 req) eqn:El; cbn [negb orb];
    try (do 2 eexists; split; [done|]; cbn [rvr_Term rvr_VoteGranted fst]; split_and!; try done;
         split; [done|]; intros (_ & Hx%Hvote & Hy%Hcand); congruence).
  rewrite nbind_modifyN. cbn [fst snd].
  destruct (persist_quiet (set_votedFor (rv_CandidateId req) n1) d1) as (d' & Ep & Hs');
    [by eapply (synced_kept n1)|simpl; rewrite T1; u64|].
  node_step Ep. rewrite nbind_modifyN. cbn [fst snd]. do 2 eexists. split; [done|].
  cbn [rvr_Term rvr_VoteGranted fst].
  split_and!; try done. split; [|done]. intros _. split_and!; [lia|by apply Hvote|by apply Hcand].
Qed.

(** The waiter and channel ProposeSync registers. *)
Lemma add_waiter_wf n i :
  waiters_wf n → n_waiters n !! i = None →
  waiters_wf (set_waiters (<[i := n_nextChan n]> (n_waiters n)) (set_nextChan (S (n_nextChan n)) n)).
Proof.
  intros (W1 & W2 & W3) Hi. unfold waiters_wf. simpl.
  assert (Hfresh : ∀ j ch, n_waiters n !! j = Some ch → ch ≠ n_nextChan n).
  { intros j ch Hj. destruct (W2 _ _ Hj). lia. }
  split_and!.
  - intros j k ch. rewrite !lookup_insert_Some.
    intros [[<- <-]|[? Hj]] [[<- E]|[? Hk]]; try done.
    + by apply Hfresh in Hk.
    + subst ch. by apply Hfresh in Hj.
    + by eapply W1.
  - intros j ch. rewrite lookup_insert_Some. intros [[<- <-]|[? Hj]].
    + split; [|lia]. destruct (n_chans n !! n_nextChan n) eqn:E; [|done].
      assert (n_nextChan n < n_nextChan n)%nat by (apply W3; eauto). lia.
    + destruct (W2 _ _ Hj). split; [done|lia].
  - intros ch Hc. specialize (W3 ch Hc). lia.
Qed.

(** C21.  ProposeSync on a leader appends its command at the next index with the
    leader's term, durably (log.dat holds it before the call goes on), and
    registers a fresh channel that nothing has been sent on; on any other
    node it fails with ErrNotLeader and changes nothing. *)
Theorem ProposeSync_correct cmd s :
  synced s → waiters_wf s.1 →
  let index := lastLogIndexLocked s.1 + 1 in
  let entry := MkLogEntry (n_currentTerm s.1) index cmd in
  ll_storable entry → index + 1 < u64_max → n_waiters s.1 !! index = None →
  if decide (n_role s.1 = Leader) then
    ∃ ch s', ProposeSync_begin cmd s = (Ok (index, n_currentTerm s.1, ch), s') ∧ synced s' ∧
      n_log s'.1 = n_log s.1 ++ [entry] ∧ entryAtLocked s'.1 index = Some entry ∧
      n_waiters s'.1 !! index = Some ch ∧ ProposeSync_poll ch s'.1 = None ∧ waiters_wf s'.1
  else ProposeSync_begin cmd s = (Err ErrNotLeader, s).
Proof.
  intros Hs Hww index entry Hst Hroom Hwi. unfold ProposeSync_begin. rewrite nbind_getN.
  destruct (decide _) as [Hl|Hnl]; [|by rewrite bool_decide_eq_false_2].
  rewrite bool_decide_eq_true_2 by done. cbn [negb].
  pose proof Hs as (Hw & Hq & Hlog). pose proof Hw as (Ho & Hb & Hc).
  assert (Hli : lastLogIndexLocked s.1 = n_logOffset s.1 + zlen (n_log s.1)) by (by apply lastLogIndex_spec).
  pose proof (zlen_nonneg (n_log s.1)).
  destruct s as [n d]. cbn [fst snd] in *.
  destruct (ll_append (n_dataDir n) _ [entry] d Hq Hlog) as (d' & E & Hq' & Hl'); [by constructor|].
  assert (Ea : appendLocalLocked cmd (n, d) =
    (Ok (index, n_currentTerm n), (set_log (n_log n ++ [entry]) n, d'))).
  { unfold appendLocalLocked. rewrite nbind_getN. cbv zeta. cbn [fst]. rewrite wrap64_small by u64.
    erewrite nbind_Ok; [|unfold liftD; cbn [fst snd]; fold index; fold entry; by rewrite E].
    by rewrite nbind_modifyN. }
  node_step Ea. cbv beta match. rewrite nbind_getN, nbind_modifyN. cbn [fst snd].
  assert (Hw' : wf_log (n_logOffset n) (n_log n ++ [entry])).
  { split_and!; [done|rewrite zlen_app; change (zlen [entry]) with 1; lia|].
    apply consecutive_app. split; [done|]. apply consecutive_cons.
    split; [simpl; lia|apply consecutive_nil]. }
  exists (n_nextChan n). eexists. split; [done|]. cbn [fst snd]. split_and!; try done.
  - apply entryAt_Some; [done|]. simpl. split; [lia|].
    rewrite lookup_app_r by (unfold zlen in *; lia).
    replace (Z.to_nat _ - length (n_log n))%nat with 0%nat; [done|]. unfold zlen in *. lia.
  - simpl. apply lookup_insert_eq.
  - unfold ProposeSync_poll. simpl. destruct Hww as (_ & _ & W3).
    destruct (n_chans n !! n_nextChan n) eqn:Ec; [|done].
    assert (n_nextChan n < n_nextChan n)%nat by (apply W3; eauto). lia.
  - by apply (add_waiter_wf (set_log (n_log n ++ [entry]) n)).
Qed.

End append_entries.
