(* ===== verification/KV.v ===== *)
(** * internal/statemachine/statemachine.go: the replicated map

    The map, its operations, and the ApplyFn that cmd/consensus-node hands to
    raft.  The reference specification is last-writer-wins over the command
    history; snapshots, restores and overlapping replays are shown to agree
    with it. *)

From Stdlib Require Import Strings.Byte.
From S2P Require Import Prelude Pb Codecs RaftNode RaftCommit.

Record KV : Type := MkKV { kv_data : gmap string string }.

Definition New : KV := MkKV ∅.

(** value and found; an absent key reads as the empty string. *)
Definition Get (key : string) (kv : KV) : string * bool :=
  match kv_data kv !! key with
  | Some value => (value, true)
  | None => ("", false)
  end.

(** The copying loop of Snapshot and Restore. *)
Definition copy_map (m : gmap string string) : gmap string string :=
  map_fold (λ k v out, <[k := v]> out) ∅ m.

Definition Snapshot (kv : KV) : gmap string string := copy_map (kv_data kv).
Definition Restore (data : gmap string string) (kv : KV) : KV := MkKV (copy_map data).

Definition Apply (cmd : KVCommand) (kv : KV) : KV :=
  match c_Op cmd with
  | KVCommand_PUT | KVCommand_UPDATE => MkKV (<[c_Key cmd := c_Value cmd]> (kv_data kv))
  | KVCommand_DELETE => MkKV (delete (c_Key cmd) (kv_data kv))
  | KVCommand_Unknown _ => kv
  end.

(** The ApplyFn of cmd/consensus-node: an undecodable command is logged and
    skipped. *)
Definition ApplyFn `{Codec KVCommand} (msg : ApplyMsg) (kv : KV) : KV :=
  match codec_dec (am_Command msg) with
  | None => kv
  | Some cmd => Apply cmd kv
  end.

#[global] Instance KV_StateMachine `{Codec KVCommand} : StateMachine KV := {|
  sm_ApplyFn := ApplyFn;
  sm_Restore := Restore
|}.

(** ** Facts *)

Lemma copy_map_id m : copy_map m = m.
Proof.
  unfold copy_map. apply (map_fold_weak_ind (λ r m, r = m)); [done|].
  intros k v m' r _ ->. done.
Qed.

(** What one command does to one key: [None] leaves it alone, [Some x] makes
    it [x] ([None] again meaning absent). *)
Definition effect (key : string) (cmd : KVCommand) : option (option string) :=
  if decide (c_Key cmd = key) then
    match c_Op cmd with
    | KVCommand_PUT | KVCommand_UPDATE => Some (Some (c_Value cmd))
    | KVCommand_DELETE => Some None
    | KVCommand_Unknown _ => None
    end
  else None.

(** The reference: the last command of the history that touches the key
    decides. *)
Fixpoint last_write (key : string) (cmds : list KVCommand) : option (option string) :=
  match cmds with
  | [] => None
  | cmd :: rest =>
      match last_write key rest with
      | Some x => Some x
      | None => effect key cmd
      end
  end.

Lemma Apply_effect cmd kv key :
  kv_data (Apply cmd kv) !! key = default (kv_data kv !! key) (effect key cmd).
Proof.
  unfold Apply, effect. destruct (decide (c_Key cmd = key)) as [<-|Hne].
  - destruct (c_Op cmd); simpl; try done; apply lookup_insert_eq || apply lookup_delete_eq.
  - destruct (c_Op cmd); simpl; try done; by apply lookup_insert_ne || by apply lookup_delete_ne.
Qed.

Definition apply_cmds (cmds : list KVCommand) (kv : KV) : KV := foldl (λ kv cmd, Apply cmd kv) kv cmds.

Lemma apply_cmds_lookup cmds kv key :
  kv_data (apply_cmds cmds kv) !! key = default (kv_data kv !! key) (last_write key cmds).
Proof.
  revert kv. induction cmds as [|cmd cmds IH]; intros kv; [done|].
  change (apply_cmds (cmd :: cmds) kv) with (apply_cmds cmds (Apply cmd kv)). rewrite IH.
  simpl. destruct (last_write key cmds); simpl; [done|].
  apply Apply_effect.
Qed.

Lemma KV_ext (kv kv' : KV) : (∀ key, kv_data kv !! key = kv_data kv' !! key) → kv = kv'.
Proof. destruct kv, kv'. simpl. intros Hk. f_equal. by apply map_eq. Qed.

Lemma last_write_app key l1 l2 :
  last_write key (l1 ++ l2) =
  match last_write key l2 with Some x => Some x | None => last_write key l1 end.
Proof.
  induction l1 as [|c l1 IH]; simpl; [by destruct (last_write key l2)|]. rewrite IH.
  by destruct (last_write key l2).
Qed.

(** Replaying a range that has been applied already, and going on, ends where
    going on alone ends. *)
Lemma replay_cmds l1 l2 kv :
  apply_cmds (l1 ++ l2) (apply_cmds l1 kv) = apply_cmds (l1 ++ l2) kv.
Proof.
  apply KV_ext. intros key. rewrite !apply_cmds_lookup, last_write_app.
  destruct (last_write key l2); [done|]. by destruct (last_write key l1).
Qed.

Section entries.
Context `{Codec KVCommand}.

(** The commands of a list of log entries that decode. *)
Definition cmds_of (es : list LogEntry) : list KVCommand :=
  omap (λ e, codec_dec (e_Command e)) es.

Lemma apply_all_cmds es kv : apply_all es kv = apply_cmds (cmds_of es) kv.
Proof.
  revert kv. induction es as [|e es IH]; intros kv; [done|].
  unfold cmds_of in *. simpl. change (apply_all (e :: es) kv) with
    (apply_all es (ApplyFn (MkApplyMsg (e_Index e) (e_Term e) (e_Command e)) kv)).
  rewrite IH. unfold ApplyFn. simpl. by destruct (codec_dec (e_Command e)).
Qed.

(** C27.  Last writer wins: after a node has applied the entries [es] to an
    empty store, reading a key returns what the last command of [es] on that
    key left (PUT and UPDATE alike set it, DELETE removes it, undecodable
    commands and unknown operations do not count). *)
Theorem KV_last_writer_wins es key :
  Get key (apply_all es New) =
  match last_write key (cmds_of es) with
  | Some (Some value) => (value, true)
  | _ => ("", false)
  end.
Proof.
  unfold Get. rewrite apply_all_cmds, apply_cmds_lookup.
  by destruct (last_write key (cmds_of es)) as [[v|]|].
Qed.

(** C28.  Snapshots agree with replay: restoring, on any node in any state, the
    snapshot of a store that has applied [es1], and then applying [es2], is
    the same as applying [es1 ++ es2] from the start; and re-applying a range
    that is already in the snapshot first does not change the result. *)
Theorem snapshot_replay es1 es2 es3 (kv : KV) :
  apply_all es3 (Restore (Snapshot (apply_all (es1 ++ es2) New)) kv) =
    apply_all (es1 ++ es2 ++ es3) New ∧
  apply_all (es2 ++ es3) (Restore (Snapshot (apply_all (es1 ++ es2) New)) kv) =
    apply_all (es1 ++ es2 ++ es3) New.
Proof.
  assert (HR : ∀ s, Restore (Snapshot s) kv = s).
  { intros [m]. unfold Restore, Snapshot. simpl. by rewrite !copy_map_id. }
  rewrite HR. rewrite !apply_all_cmds. unfold cmds_of. rewrite !omap_app.
  unfold apply_cmds. rewrite !foldl_app. split; [done|].
  pose proof (replay_cmds (omap (λ e, codec_dec (e_Command e)) es2)
    (omap (λ e, codec_dec (e_Command e)) es3) (foldl (λ kv cmd, Apply cmd kv) New
       (omap (λ e, codec_dec (e_Command e)) es1))) as Hr.
  unfold apply_cmds in Hr. by rewrite !foldl_app in Hr.
Qed.

End entries.
