(* ===== verification/RaftSnapshot.v ===== *)
(** * internal/raft: compaction, snapshot transfer and catch-up

    compaction.go, snapshottransfer.go and snapshotcatchup.go.  Catch-up runs
    partly outside the mutex; its pieces are separate steps, and the whole
    call takes what other goroutines do in between as an argument. *)

From Stdlib Require Import Strings.Byte.
From S2P Require Import Prelude Pb Fs Persistence SnapshotFile Storage RaftNode.
Import SnapshotFile.

Section snapshot.
Context {SM : Type} `{StateMachine SM} {D : Type} `{Storage D} `{GF : Codec File}.

(** ** compaction.go *)

Definition replaceSnapshotFileLocked (newPath : Path) : NodeM SM D unit :=
  n ← getN;
  let old := n_currentSnapshotPath n in
  modifyN (set_currentSnapshotPath (Some newPath));;
  match old with
  | Some p => if decide (p = newPath) then mret tt else gtry (liftD (st_Remove p));; mret tt
  | None => mret tt
  end.

Definition compactLocked (file : File) : NodeM SM D unit :=
  n ← getN;
  let targetIndex := f_LastIncludedIndex file in
  match entryAtLocked n targetIndex with
  | None => gfail (ErrMsg "raft: cannot compact: not present in local log")
  | Some _ =>
      newPath ← liftD (st_WriteFile (n_dataDir n) file);
      replaceSnapshotFileLocked newPath;;
      let anchor := MkLogEntry (f_LastIncludedTerm file) targetIndex [] in
      let pos := targetIndex -u n_logOffset n in
      let kept := anchor :: drop (Z.to_nat pos) (n_log n) in
      liftD (st_RewriteLog (n_dataDir n) kept);;
      modifyN (λ n, set_logOffset (targetIndex -u 1) (set_log kept n))
  end.

(** ** snapshottransfer.go *)

Definition GetLogStatus (n : Node SM) : LogStatusReply :=
  let total := zlen (n_log n) in
  let firstIndex := if 0 <? total then n_logOffset n +u 1 else 0 in
  MkLogStatusReply total
    (Z.quot (total *u 100) (LogCapacityEntries (n_snapshotCfg n)))
    firstIndex (lastLogIndexLocked n).

(** The entries of [idx, idx + count) that the log still has. *)
Fixpoint log_range (n : Node SM) (idx : Z) (count : nat) : list LogEntry :=
  match count with
  | O => []
  | S c =>
      match entryAtLocked n idx with
      | Some e => e :: log_range n (idx +u 1) c
      | None => log_range n (idx +u 1) c
      end
  end.

Definition StreamLogRange (n : Node SM) (fromIndex toIndex : Z) : list LogEntry :=
  log_range n fromIndex (Z.to_nat (toIndex - fromIndex + 1)).

Definition ConfirmCompaction (req : CompactionAck) : NodeM SM D unit :=
  n ← getN;
  let target := ca_TruncatedUpToIndex req in
  if target <=? n_logOffset n +u 1 then mret tt else
  if n_lastApplied n <? target
  then gfail (ErrMsg "raft: cannot confirm compaction: not yet applied") else
  match Decode (ca_StateMachineSnapshot req) with
  | None => gfail ErrDecode
  | Some file =>
      if negb (f_LastIncludedIndex file =? target)
      then gfail (ErrMsg "raft: state_machine_snapshot lastIncludedIndex does not match")
      else compactLocked file
  end.

(** ** snapshotcatchup.go *)

(** catchUpFromSnapshot after a successful fetch, outside the mutex: write
    the snapshot file, then the one-entry log. *)
Definition catchUp_disk (file : File) : NodeM SM D Path :=
  n ← getN;
  let anchor := MkLogEntry (f_LastIncludedTerm file) (f_LastIncludedIndex file) [] in
  if e_Index anchor =? 0 then gfail (ErrMsg "zero-index snapshot") else
  newPath ← liftD (st_WriteFile (n_dataDir n) file);
  liftD (st_RewriteLog (n_dataDir n) [anchor]);;
  mret newPath.

(** Still outside the mutex: replace the state machine's contents. *)
Definition catchUp_restore (file : File) : NodeM SM D unit :=
  modifyN (λ n, set_stateMachine (sm_Restore (f_State file) (n_stateMachine n)) n).

(** The final section, under the mutex. *)
Definition catchUp_install (file : File) (newPath : Path) : NodeM SM D unit :=
  let anchor := MkLogEntry (f_LastIncludedTerm file) (f_LastIncludedIndex file) [] in
  replaceSnapshotFileLocked newPath;;
  modifyN (λ n, set_logOffset (e_Index anchor -u 1) (set_log [anchor] n));;
  modifyN (λ n, if n_commitIndex n <? e_Index anchor then set_commitIndex (e_Index anchor) n else n);;
  modifyN (λ n, if n_lastApplied n <? e_Index anchor then set_lastApplied (e_Index anchor) n else n).

(** The whole call; [fetch] is FetchSnapshot's answer, [others1] and
    [others2] are what the rest of the node does while the mutex is free. *)
Definition catchUpFromSnapshot (fetch : option File) (others1 others2 : NodeM SM D unit) :
    NodeM SM D unit :=
  match fetch with
  | None => mret tt
  | Some file =>
      r ← gtry (catchUp_disk file);
      match r with
      | Err _ => mret tt
      | Ok newPath =>
          others1;;
          catchUp_restore file;;
          others2;;
          catchUp_install file newPath
      end
  end.

Inductive PollAction : Type :=
| PollNothing
| PollCatchUp (target : Z)
| PollCompact (target : Z).

(** snapshotPollOnce up to its decision: [info] is the catalog's answer, or
    nothing when the call failed. *)
Definition snapshotPollDecide (info : option SnapshotInfo) (n : Node SM) : PollAction :=
  match info with
  | None => PollNothing
  | Some i =>
      if negb (si_Available i) then PollNothing else
      let target := si_LastIncludedIndex i in
      if n_lastApplied n <? target then PollCatchUp target
      else if n_logOffset n +u 1 <? target then PollCompact target
      else PollNothing
  end.

(** The local-compaction section: the fetched file is used only if it is
    still the one announced, and the conditions are checked again. *)
Definition pollCompact (target : Z) (fetch : option File) : NodeM SM D unit :=
  match fetch with
  | None => mret tt
  | Some file =>
      if negb (f_LastIncludedIndex file =? target) then mret tt else
      n ← getN;
      if (n_logOffset n +u 1 <? target) && (target <=? n_lastApplied n)
      then gtry (compactLocked file);; mret tt
      else mret tt
  end.

Definition snapshotPollOnce (info : option SnapshotInfo) (fetch : option File)
    (others1 others2 others3 : NodeM SM D unit) : NodeM SM D unit :=
  n ← getN;
  match snapshotPollDecide info n with
  | PollNothing => mret tt
  | PollCatchUp _ => others1;; catchUpFromSnapshot fetch others2 others3
  | PollCompact target => others1;; pollCompact target fetch
  end.

End snapshot.
