(* ===== verification/RaftReadIndex.v ===== *)
(** * internal/raft/readindex.go: the Read-Index handshake

    Leader side, the quorum round that reconfirms leadership, and the
    follower side.  The code blocks outside the mutex; what happens meanwhile
    is a list of events: the answer of a peer, another goroutine's step on
    this node, or the context ending. *)

From Stdlib Require Import Strings.Byte.
From S2P Require Import Prelude Pb Fs Persistence SnapshotFile Storage RaftNode.
From S2P Require Import RaftReplication.

Section readindex.
Context {SM : Type} `{StateMachine SM} {D : Type} `{Storage D}.

Inductive RoundEvent : Type :=
| RoundReply (peer : string) (reply : option AppendEntriesReply)
| RoundOther (m : NodeM SM D unit)
| RoundCtxDone.

(** One goroutine of the round: [None] is a transport failure. *)
Definition round_handle (term : Z) (r : outgoingAppendEntries) (reply : option AppendEntriesReply) :
    NodeM SM D bool :=
  match reply with
  | None => mret false
  | Some reply => sendAppendEntriesAndHandle term r reply
  end.

(** The collecting loop: [i] results are still awaited, [pending] are the
    requests not answered yet.  Running out of events is the context ending. *)
Fixpoint confirm_loop (term : Z) (i : nat) (pending : list outgoingAppendEntries)
    (quorum acked : Z) (events : list RoundEvent) {struct events} : NodeM SM D unit :=
  match i with
  | O => gfail (ErrMsg "raft: could not reconfirm leadership via quorum heartbeat")
  | S i' =>
      match events with
      | [] => gfail ErrCtxDone
      | RoundCtxDone :: _ => gfail ErrCtxDone
      | RoundOther m :: es => gtry m;; confirm_loop term i pending quorum acked es
      | RoundReply peer reply :: es =>
          match list_find (λ o, o_peer o = peer) pending with
          | None => confirm_loop term i pending quorum acked es
          | Some (_, r) =>
              let pending := filter (λ o, o_peer o ≠ peer) pending in
              ok ← round_handle term r reply;
              if (ok : bool) then
                if quorum <=? acked + 1 then mret tt
                else confirm_loop term i' pending quorum (acked + 1) es
              else confirm_loop term i' pending quorum acked es
          end
      end
  end.

Definition confirmLeadershipQuorum (term : Z) (events : list RoundEvent) : NodeM SM D unit :=
  n ← getN;
  if negb (bool_decide (n_role n = Leader)) || negb (n_currentTerm n =? term)
  then gfail ErrNotLeader else
  match buildAppendEntriesRequestsLocked n with
  | None => gfail (ErrMsg "nil pointer dereference")
  | Some (_, reqs) =>
      let numPeers := length (n_peers n) in
      if Z.of_nat numPeers =? 0 then mret tt else
      confirm_loop term numPeers reqs (quorumSize (Z.of_nat numPeers + 1)) 1 events
  end.

(** RequestReadIndex; [others] runs between its first section and the round. *)
Definition RequestReadIndex (others : NodeM SM D unit) (events : list RoundEvent) :
    NodeM SM D ReadIndexReply :=
  n ← getN;
  if negb (bool_decide (n_role n = Leader))
  then mret (MkReadIndexReply false 0 (n_currentLeader n)) else
  let term := n_currentTerm n in
  let readIndex := n_commitIndex n in
  gtry others;;
  r ← gtry (confirmLeadershipQuorum term events);
  match r with
  | Err err =>
      n2 ← getN;
      let stillLeader := bool_decide (n_role n2 = Leader) && (n_currentTerm n2 =? term) in
      if negb stillLeader then mret (MkReadIndexReply false 0 (n_currentLeader n2))
      else gfail err
  | Ok _ => mret (MkReadIndexReply true readIndex "")
  end.

(** waitForApplied (replication.go): look, park until applyWake is closed,
    look again.  [Some m] is what other goroutines do up to the next wake-up,
    [None] the context ending while parked. *)
Fixpoint waitForApplied (target : Z) (events : list (option (NodeM SM D unit))) :
    NodeM SM D unit :=
  n ← getN;
  if target <=? n_lastApplied n then mret tt else
  match events with
  | [] | None :: _ => gfail ErrCtxDone
  | Some m :: es => gtry m;; waitForApplied target es
  end.

(** FollowerLinearizableRead; [reply] is what SendReadIndex returned ([None]
    for a transport failure), [others] what other goroutines did during that
    call. *)
Definition FollowerLinearizableRead (reply : option ReadIndexReply) (others : NodeM SM D unit)
    (events : list (option (NodeM SM D unit))) : NodeM SM D unit :=
  n ← getN;
  if bool_decide (n_role n = Leader) then mret tt else
  if bool_decide (n_currentLeader n = "") then gfail ErrReadIndexUnavailable else
  gtry others;;
  match reply with
  | None => gfail ErrReadIndexUnavailable
  | Some reply =>
      if negb (rir_Ok reply) then
        (if negb (bool_decide (rir_RedirectLeader reply = ""))
         then modifyN (set_currentLeader (rir_RedirectLeader reply)) else mret tt);;
        gfail ErrReadIndexUnavailable
      else
        r ← gtry (waitForApplied (rir_ReadIndex reply) events);
        match r with
        | Err _ => gfail ErrReadIndexUnavailable
        | Ok _ => mret tt
        end
  end.

(** ** What a granted read index means *)

(** Peer [p] acknowledged the round of [term]. *)
Definition acked_round (events : list RoundEvent) (term : Z) (p : string) : Prop :=
  ∃ rep, RoundReply p (Some rep) ∈ events ∧ aer_Success rep = true ∧ aer_Term rep = term.

Lemma round_handle_ok term r reply s s' :
  round_handle term r reply s = (Ok true, s') →
  ∃ rep, reply = Some rep ∧ aer_Success rep = true ∧ aer_Term rep = term ∧
    n_role s.1 = Leader ∧ n_currentTerm s.1 = term.
Proof.
  unfold round_handle, sendAppendEntriesAndHandle. destruct reply as [rep|]; [|done].
  rewrite nbind_getN. destruct (_ || _) eqn:E; [done|]. zbool.
  intros [(x & s1 & _ & HR)|(e & _ & ?)]%nbind_inv; [|done].
  injection HR as Hb _. zbool. by exists rep.
Qed.

Lemma confirm_loop_acks term quorum events : ∀ i pending acked s s' Q,
  confirm_loop term i pending quorum acked events s = (Ok tt, s') →
  NoDup (o_peer <$> pending) → NoDup Q → (∀ p, p ∈ Q → p ∉ o_peer <$> pending) →
  acked = 1 + zlen Q →
  ∃ Q', NoDup (Q' ++ Q) ∧ Q' ⊆ o_peer <$> pending ∧ quorum ≤ 1 + zlen (Q' ++ Q) ∧
    ∀ p, p ∈ Q' → acked_round events term p.
Proof.
  assert (Hmore : ∀ ev es p, acked_round es term p → acked_round (ev :: es) term p).
  { intros ev es p (rep & ? & ?). exists rep. split; [by right|done]. }
  induction events as [|ev es IH]; intros [|i] pending acked s s' Q HR Hnd HQ Hdis Hack;
    cbn [confirm_loop] in HR; try done.
  destruct ev as [peer reply|m|]; [| |done].
  - destruct (list_find _ pending) as [[k r]|] eqn:Ef.
    + apply list_find_Some in Ef as (Hk & Hpeer & _). cbv zeta in HR.
      set (pending' := filter (λ o, o_peer o ≠ peer) pending) in *.
      assert (Hsub : o_peer <$> pending' ⊆ o_peer <$> pending).
      { intros p (o & -> & Ho)%list_elem_of_fmap. apply list_elem_of_filter in Ho as [_ Ho].
        by apply list_elem_of_fmap_2. }
      assert (Hpeer_in : peer ∈ o_peer <$> pending).
      { subst peer. apply list_elem_of_fmap_2. by eapply list_elem_of_lookup_2. }
      assert (Hpeer_out : peer ∉ o_peer <$> pending').
      { intros (o & -> & Ho)%list_elem_of_fmap. by apply list_elem_of_filter in Ho as [? _]. }
      assert (Hnd' : NoDup (o_peer <$> pending')).
      { eapply sublist_NoDup; [exact Hnd|]. apply fmap_sublist, sublist_filter. }
      apply nbind_inv in HR as [([] & s1 & Hh & HR)|(e & _ & ?)]; [| |done].
      * apply round_handle_ok in Hh as (rep & -> & Hsuc & Hterm & _).
        assert (Hacked : acked_round (RoundReply peer (Some rep) :: es) term peer).
        { exists rep. split; [by left|done]. }
        assert (HpQ : peer ∉ Q) by (intros Hin; by apply (Hdis peer)).
        destruct (quorum <=? acked + 1) eqn:Eq; zbool.
        -- exists [peer]. split_and!.
           ++ simpl. by apply NoDup_cons.
           ++ intros p ->%list_elem_of_singleton. done.
           ++ simpl. rewrite zlen_cons. lia.
           ++ intros p ->%list_elem_of_singleton. done.
        -- destruct (IH i pending' (acked + 1) s1 s' (peer :: Q) HR) as (Q' & D1 & D2 & D3 & D4).
           ++ done.
           ++ by apply NoDup_cons.
           ++ intros p [->|Hp]%elem_of_cons; [done|]. intros Hin. by apply (Hdis p Hp), Hsub.
           ++ rewrite zlen_cons. lia.
           ++ exists (Q' ++ [peer]). rewrite <- app_assoc. simpl. split_and!; try done.
              ** intros p [Hp|Hp]%elem_of_app; [by apply Hsub, D2|]. by apply list_elem_of_singleton in Hp as ->.
              ** intros p [Hp|Hp]%elem_of_app; [by apply Hmore, D4|]. by apply list_elem_of_singleton in Hp as ->.
      * destruct (IH i pending' acked s1 s' Q HR) as (Q' & D1 & D2 & D3 & D4); try done.
        -- intros p Hp Hin. by apply (Hdis p Hp), Hsub.
        -- exists Q'. split_and!; auto. etrans; [exact D2|done].
    + destruct (IH (S i) pending acked s s' Q HR) as (Q' & D1 & D2 & D3 & D4); try done.
      exists Q'. split_and!; auto.
  - apply nbind_inv in HR as [(x & s1 & _ & HR)|(e & Hx & ?)]; [|done].
    destruct (IH (S i) pending acked s1 s' Q HR) as (Q' & D1 & D2 & D3 & D4); try done.
    exists Q'. split_and!; auto.
Qed.

Lemma build_peers (n : Node SM) term reqs :
  buildAppendEntriesRequestsLocked n = Some (term, reqs) → o_peer <$> reqs = n_peers n.
Proof.
  unfold buildAppendEntriesRequestsLocked. destruct (mapM _ _) as [l|] eqn:E; [|done]. simpl.
  intros [= _ <-]. apply mapM_Some in E. induction E as [|p o ps os Ho _ IH]; [done|].
  rewrite fmap_cons, IH. f_equal. revert Ho. unfold buildRequest. destruct (collect_entries _ _ _); [|done].
  by intros [= <-].
Qed.

Lemma confirm_quorum term events s s' :
  confirmLeadershipQuorum term events s = (Ok tt, s') → NoDup (n_peers s.1) →
  n_role s.1 = Leader ∧ n_currentTerm s.1 = term ∧
  ∃ Q, NoDup Q ∧ Q ⊆ n_peers s.1 ∧ quorumSize (zlen (n_peers s.1) + 1) ≤ 1 + zlen Q ∧
    ∀ p, p ∈ Q → acked_round events term p.
Proof.
  unfold confirmLeadershipQuorum. rewrite nbind_getN. intros HR Hnd.
  destruct (_ || _) eqn:E; [done|]. zbool.
  destruct (buildAppendEntriesRequestsLocked s.1) as [[t reqs]|] eqn:Eb; [|done].
  pose proof (build_peers _ _ _ Eb) as Hp. split_and!; [done|done|]. cbv zeta in HR.
  destruct (Z.of_nat _ =? 0) eqn:E0; zbool.
  - exists []. split_and!; [constructor|set_solver| |set_solver].
    unfold zlen. rewrite E0. done.
  - destruct (confirm_loop_acks _ _ _ _ _ _ _ _ [] HR) as (Q & D1 & D2 & D3 & D4).
    + by rewrite Hp.
    + constructor.
    + set_solver.
    + done.
    + rewrite app_nil_r in *. rewrite Hp in *. exists Q. split_and!; auto.
Qed.

(** A read index is handed out only by a node that was leader when the
    request came in, for the commitIndex it had then, and only after enough
    distinct peers to form a majority with it acknowledged, in the same term,
    a round of AppendEntries sent after that. *)
Theorem read_index_quorum others events s reply s' :
  RequestReadIndex others events s = (Ok reply, s') → rir_Ok reply = true →
  NoDup (n_peers (others s).2.1) →
  n_role s.1 = Leader ∧ rir_ReadIndex reply = n_commitIndex s.1 ∧
  let n1 := (others s).2.1 in
  n_role n1 = Leader ∧ n_currentTerm n1 = n_currentTerm s.1 ∧
  ∃ Q, NoDup Q ∧ Q ⊆ n_peers n1 ∧ quorumSize (zlen (n_peers n1) + 1) ≤ 1 + zlen Q ∧
    ∀ p, p ∈ Q → acked_round events (n_currentTerm s.1) p.
Proof.
  unfold RequestReadIndex. rewrite nbind_getN. intros HR Hok Hnd.
  destruct (bool_decide _) eqn:El; cbn [negb] in HR; zbool; [|by injection HR as <- _].
  cbv zeta in HR. apply nbind_inv in HR as [(x & s1 & Ho & HR)|(e & _ & ?)]; [|done].
  assert (s1 = (others s).2) as ->.
  { unfold gtry in Ho. destruct (others s). by injection Ho as _ <-. }
  apply nbind_inv in HR as [(r & s2 & Hc & HR)|(e & _ & ?)]; [|done].
  destruct r as [[]|err].
  - injection HR as <- <-. simpl. split; [done|]. split; [done|].
    apply confirm_quorum with (s' := s2); [|done].
    unfold gtry in Hc. destruct (confirmLeadershipQuorum _ _ _) as [r s3]. by injection Hc as -> ->.
  - rewrite nbind_getN in HR. destruct (negb _); [by injection HR as <- _|done].
Qed.

Lemma waitForApplied_ok target events s s' :
  waitForApplied target events s = (Ok tt, s') → target ≤ n_lastApplied s'.1.
Proof.
  revert s. induction events as [|ev es IH]; intros s; cbn [waitForApplied]; rewrite nbind_getN.
  - destruct (_ <=? _) eqn:E; zbool; [|done]. by intros [= <-].
  - destruct (_ <=? _) eqn:E; zbool; [by intros [= <-]|]. destruct ev as [m|]; [|done].
    intros [(x & s1 & _ & HR)|(e & _ & ?)]%nbind_inv; [|done]. by apply IH in HR.
Qed.

Lemma follower_read_outcome reply others events s r s' :
  FollowerLinearizableRead reply others events s = (r, s') → n_role s.1 ≠ Leader →
  match r with
  | Ok _ => ∃ rep, reply = Some rep ∧ rir_Ok rep = true ∧ n_currentLeader s.1 ≠ "" ∧
      rir_ReadIndex rep ≤ n_lastApplied s'.1
  | Err e => e = ErrReadIndexUnavailable
  end.
Proof.
  unfold FollowerLinearizableRead. rewrite nbind_getN. intros HR Hl.
  rewrite bool_decide_eq_false_2 in HR by done.
  destruct (bool_decide (n_currentLeader s.1 = "")) eqn:Ec; zbool; [by injection HR as <- <-|].
  apply nbind_inv in HR as [(x & s1 & Ho & HR)|(e & Ho & ?)];
    [|unfold gtry in Ho; by destruct (others s)].
  destruct reply as [rep|]; [|by injection HR as <- <-].
  destruct (rir_Ok rep) eqn:Eok; cbn [negb] in HR.
  - apply nbind_inv in HR as [(r2 & s2 & Hw & HR)|(e & Hw & ?)];
      [|unfold gtry in Hw; by destruct (waitForApplied _ _ _)].
    destruct r2 as [[]|e]; [|by injection HR as <- <-]. injection HR as <- <-.
    exists rep. split_and!; try done. apply (waitForApplied_ok _ events s1).
    unfold gtry in Hw. destruct (waitForApplied _ _ _) as [r3 s3]. by injection Hw as -> ->.
  - apply nbind_inv in HR as [(u & s2 & _ & HR)|(e & Hm & ?)]; [by injection HR as <- <-|].
    by destruct (negb _).
Qed.

End readindex.
