(* ===== verification/KVServer.v ===== *)
(** * internal/statemachine/server.go: the KV service of a node

    Server answers the client proxy on top of a raft node whose state machine
    is the map of KV.v.  Each handler is the composition the code makes:
    ProposeSync for writes; Status, the Read-Index handshake and the local map
    for reads. *)

From Stdlib Require Import Strings.Byte.
From S2P Require Import Prelude Pb Fs Persistence SnapshotFile Codecs Storage RaftNode.
From S2P Require Import RaftElection RaftReplication RaftLog RaftCommit KV RaftReadIndex.

Module KVServer.

Definition ProposeTimeout : Z := 5 * second.
Definition ReadIndexTimeout : Z := 2 * second.

Section server.
Context `{CC : Codec KVCommand} {D : Type} `{Storage D}.

(** Server.Get.  Status, the handshake and the last look at the node take the
    lock separately: [between] is what the node does between the first two,
    [others] what it does before the last.  [reply], [during] and [events] are
    what the Read-Index handshake sees. *)
Definition Server_Get (key : string) (between : NodeM KV D unit) (reply : option ReadIndexReply)
    (during : NodeM KV D unit) (events : list (option (NodeM KV D unit))) (others : NodeM KV D unit) :
    NodeM KV D GetReply :=
  n ← getN;
  err ← (if negb (bool_decide ((Status n).1 = Leader))
         then gtry between;; gtry (FollowerLinearizableRead reply during events)
         else mret (Ok tt));
  gtry others;;
  n ← getN;
  match err with
  | Err _ => mret (MkGetReply false "" (LeaderAddress n) false)
  | Ok _ =>
      let '(value, found) := Get key (n_stateMachine n) in
      mret (MkGetReply found value "" true)
  end.

(** write: [others] is what the node does until select takes a branch,
    [ctxFirst] whether that is the timeout. *)
Definition write (op : KVCommand_Op) (key value : string) (others : NodeM KV D unit)
    (ctxFirst : bool) : NodeM KV D WriteReply :=
  match codec_enc (MkKVCommand op key value) with
  | None => gfail ErrEncode
  | Some payload =>
      r ← gtry (ProposeSync payload others ctxFirst);
      match r with
      | Err ErrNotLeader | Err ErrLeadershipLost =>
          n ← getN; mret (MkWriteReply false (LeaderAddress n) 0)
      | Err e => gfail e
      | Ok (index, _) => mret (MkWriteReply true "" index)
      end
  end.

Definition Server_Put (key value : string) := write KVCommand_PUT key value.
Definition Server_Update (key value : string) := write KVCommand_UPDATE key value.
Definition Server_Delete (key : string) := write KVCommand_DELETE key "".

(** ** Writes *)

Lemma ProposeSync_ok payload (others : NodeM KV D unit) ctxFirst s index term s' :
  ProposeSync payload others ctxFirst s = (Ok (index, term), s') →
  ∃ ch s1, ProposeSync_begin payload s = (Ok (index, term, ch), s1) ∧ n_role s.1 = Leader ∧
    s' = (others s1).2 ∧ ProposeSync_poll ch s'.1 = Some None.
Proof.
  unfold ProposeSync. intros [([[i t] ch] & s1 & Hb & HR)|(e & _ & ?)]%nbind_inv; [|done].
  assert (Hl : n_role s.1 = Leader).
  { unfold ProposeSync_begin in Hb. rewrite nbind_getN in Hb.
    destruct (bool_decide (n_role s.1 = Leader)) eqn:El; zbool; done. }
  cbv beta match in HR.
  apply nbind_inv in HR as [(x & s2 & Ho & HR)|(e & _ & ?)]; [|done].
  rewrite nbind_getN in HR.
  destruct (ProposeSync_poll ch s2.1) as [[e|]|] eqn:Ep; destruct ctxFirst; try done.
  injection HR as <- <- <-. exists ch, s1. split_and!; try done. by rewrite Ho.
Qed.

(** A write is acknowledged only by a node that was leader when it took
    the command, under the index it gave that command in its own log, and
    after the waiter of that index was released by applyCommittedLocked; a
    node that is not leader answers every write with a redirect to the leader
    it knows and leaves its own state as it is. *)
Theorem write_ack op key value others ctxFirst s r s' :
  write op key value others ctxFirst s = (Ok r, s') →
  (wr_Success r = true →
     n_role s.1 = Leader ∧
     ∃ payload term ch s1, codec_enc (MkKVCommand op key value) = Some payload ∧
       ProposeSync_begin payload s = (Ok (wr_CommitIndex r, term, ch), s1) ∧
       s' = (others s1).2 ∧ ProposeSync_poll ch s'.1 = Some None) ∧
  (n_role s.1 ≠ Leader →
     r = MkWriteReply false (LeaderAddress s.1) 0 ∧ s' = s).
Proof.
  unfold write. destruct (codec_enc _) as [payload|] eqn:Ee; [|done].
  intros [(x & s1 & Hp & HR)|(e & Hp & ?)]%nbind_inv; [|done].
  unfold gtry in Hp. destruct (ProposeSync payload others ctxFirst s) as [y s2] eqn:Es.
  injection Hp as <- <-. split.
  - intros Hs. destruct y as [[index term]|e].
    + injection HR as <- <-. apply ProposeSync_ok in Es as (ch & s1 & Hb & Hl & -> & Hpoll).
      split; [done|]. exists payload, term, ch, s1. done.
    + destruct e; try done; rewrite nbind_getN in HR; by injection HR as <- <-.
  - intros Hl. unfold ProposeSync in Es.
    assert (Hb : ProposeSync_begin payload s = (Err ErrNotLeader, s)).
    { unfold ProposeSync_begin. rewrite nbind_getN. by rewrite bool_decide_eq_false_2. }
    rewrite (nbind_Err _ _ _ _ _ Hb) in Es. injection Es as <- <-.
    rewrite nbind_getN in HR. by injection HR as <- <-.
Qed.

Lemma gtry_eq {A} (m : NodeM KV D A) s : gtry m s = (Ok (m s).1, (m s).2).
Proof. unfold gtry. by destruct (m s). Qed.

(** What gives an answer its standing: the node led when it was asked or when
    the handshake began, or a read index was granted and the node had applied
    up to it, in a state [s2] that comes before the map is read. *)
Definition read_backed (between : NodeM KV D unit) (reply : option ReadIndexReply) (others : NodeM KV D unit)
    (s s' : Node KV * D) : Prop :=
  n_role s.1 = Leader ∨ n_role (between s).2.1 = Leader ∨
  ∃ rep s2, reply = Some rep ∧ rir_Ok rep = true ∧ rir_ReadIndex rep ≤ n_lastApplied s2.1 ∧
    s' = (others s2).2 ∧
    (n_lastApplied s2.1 ≤ n_lastApplied s'.1 → rir_ReadIndex rep ≤ n_lastApplied s'.1).

(** C22.  What a node answers to a read, whatever it does between the moments
    Get takes its lock.  Get always answers.  An answer with Ok = true is the
    value of the node's own map at the end, and the node led when it was asked,
    or led when the handshake began, or has been granted a read index and had
    applied everything up to it.  Any other answer says Ok = false, found
    nothing, and names the leader the node knows; a leader never gives one. *)
Theorem follower_get key between reply during events others s :
  let '(res, s') := Server_Get key between reply during events others s in
  ∃ r, res = Ok r ∧
    if gr_Ok r then (gr_Value r, gr_Found r) = Get key (n_stateMachine s'.1) ∧ gr_RedirectLeader r = "" ∧
      read_backed between reply others s s'
    else n_role s.1 ≠ Leader ∧ gr_Found r = false ∧ gr_Value r = "" ∧
      gr_RedirectLeader r = LeaderAddress s'.1.
Proof.
  unfold Server_Get, read_backed. rewrite nbind_getN. change ((Status s.1).1) with (n_role s.1).
  destruct (decide (n_role s.1 = Leader)) as [Hl|Hl].
  - rewrite bool_decide_eq_true_2 by done. cbn [negb]. erewrite nbind_Ok by done.
    erewrite nbind_Ok by apply gtry_eq. rewrite nbind_getN.
    destruct (Get key _) as [v f] eqn:Eg. eexists. split; [done|]. simpl. by auto.
  - rewrite bool_decide_eq_false_2 by done. cbn [negb]. set (s1 := (between s).2).
    destruct (FollowerLinearizableRead reply during events s1) as [y s2] eqn:Ef.
    assert (E : (gtry between;; gtry (FollowerLinearizableRead reply during events)) s = (Ok y, s2)).
    { erewrite nbind_Ok by apply gtry_eq. unfold gtry. fold s1. by rewrite Ef. }
    rewrite (nbind_Ok _ _ _ _ _ E). erewrite nbind_Ok by apply gtry_eq. rewrite nbind_getN.
    destruct y as [u|e]; [|by eexists].
    destruct (Get key _) as [v f] eqn:Eg. eexists. split; [done|]. simpl. split_and!; [done..|].
    right. destruct (decide (n_role s1.1 = Leader)) as [?|Hl1]; [by left|right].
    apply follower_read_outcome in Ef; [|done]. destruct Ef as (rep & -> & ? & _ & ?).
    exists rep, s2. split_and!; try done. lia.
Qed.

End server.
End KVServer.
