(* ===== verification/SnapshotService.v ===== *)
(** * internal/snapshot: the Snapshot & Backup service

    Store (store.go), the catalog API with its chunked stream
    (catalog_server.go) and the client that puts the chunks together again
    (raft/snapshotcatalogclient), and the compaction cycle (compaction.go).
    What the service hears from Service Discovery and from the leader during
    one cycle is the record [CycleEnv]. *)

From Stdlib Require Import Strings.Byte.
From S2P Require Import Prelude Pb Fs Persistence SnapshotFile Codecs Storage RaftNode RaftLog.
From S2P Require Import RaftCommit KV.
Import SnapshotFile.

Module SnapshotService.

Record Store : Type := MkStore {
  s_dataDir : string;
  s_state : KV;
  s_lastIncludedIndex : Z;
  s_lastIncludedTerm : Z;
  s_available : bool;
  s_currentPath : option Path
}.

(** config.go *)
Record Config : Type := MkConfig {
  PollInterval : Z;
  CompactionThresholdPercent : Z;
  ConcurrencyGuardPercent : Z;
  RPCTimeout : Z
}.

Definition chunkSize : Z := 64 * 1024.

Section service.
Context `{CC : Codec KVCommand} `{GF : Codec File} {D : Type} `{Storage D}.

#[local] Notation StoreM := (GoM (Store * D)).

(** ** store.go *)

Definition NewStore (dataDir : string) : GoM D Store :=
  found ← st_Latest dataDir;
  match found with
  | None => mret (MkStore dataDir New 0 0 false None)
  | Some (file, path) =>
      mret (MkStore dataDir (Restore (f_State file) New) (f_LastIncludedIndex file)
        (f_LastIncludedTerm file) true (Some path))
  end.

Definition Store_Latest (s : Store) : Z * Z * bool :=
  (s_lastIncludedIndex s, s_lastIncludedTerm s, s_available s).

Definition Store_File (s : Store) : option File :=
  if negb (s_available s) then None
  else Some (MkFile (Snapshot (s_state s)) (s_lastIncludedIndex s) (s_lastIncludedTerm s)).

Definition set_state (kv : KV) (s : Store) : Store :=
  MkStore (s_dataDir s) kv (s_lastIncludedIndex s) (s_lastIncludedTerm s) (s_available s)
    (s_currentPath s).

(** The loop of Apply; an undecodable command ends it, with the entries
    before it applied. *)
Fixpoint apply_entries (entries : list LogEntry) (kv : KV) : result unit * KV :=
  match entries with
  | [] => (Ok tt, kv)
  | e :: es =>
      match codec_dec (e_Command e) with
      | None => (Err ErrDecode, kv)
      | Some cmd => apply_entries es (Apply cmd kv)
      end
  end.

Definition Store_Apply (entries : list LogEntry) : StoreM unit := λ '(s, d),
  let '(r, kv) := apply_entries entries (s_state s) in (r, (set_state kv s, d)).

Definition Store_Commit (lastIncludedIndex lastIncludedTerm : Z) : StoreM File := λ '(s, d),
  let file := MkFile (Snapshot (s_state s)) lastIncludedIndex lastIncludedTerm in
  match st_WriteFile (s_dataDir s) file d with
  | (Err e, d') => (Err e, (s, d'))
  | (Ok newPath, d') =>
      let old := s_currentPath s in
      let s' := MkStore (s_dataDir s) (s_state s) lastIncludedIndex lastIncludedTerm true
        (Some newPath) in
      let d'' := match old with
        | Some p => if decide (p = newPath) then d' else (st_Remove p d').2
        | None => d'
        end in
      (Ok file, (s', d''))
  end.

(** ** catalog_server.go *)

Definition GetLatestSnapshotInfo (s : Store) : SnapshotInfo :=
  let '(index, term, available) := Store_Latest s in MkSnapshotInfo index term available.

(** The sending loop, [size] bytes a time: [fuel] rounds, at most one per
    byte, are enough. *)
Fixpoint chunks (size fuel : nat) (data : list byte) : list SnapshotChunk :=
  match fuel, data with
  | O, _ | _, [] => []
  | S fuel', _ =>
      MkSnapshotChunk (take size data) (bool_decide (length data ≤ size)%nat)
        :: chunks size fuel' (drop size data)
  end.

(** [None]: an error status, nothing sent. *)
Definition FetchSnapshot (s : Store) : option (list SnapshotChunk) :=
  match Store_File s with
  | None => None
  | Some file =>
      match Encode file with
      | None => None
      | Some data => Some (chunks (Z.to_nat chunkSize) (length data) data)
      end
  end.

(** ** raft/snapshotcatalogclient/client.go *)

Inductive RecvEvent : Type :=
| RecvChunk (c : SnapshotChunk)
| RecvEOF
| RecvErr.

Fixpoint recv_loop (events : list RecvEvent) (buf : list byte) : option (list byte) :=
  match events with
  | [] | RecvErr :: _ => None
  | RecvEOF :: _ => Some buf
  | RecvChunk c :: es =>
      let buf := buf ++ ch_Data c in
      if ch_IsLast c then Some buf else recv_loop es buf
  end.

Definition Client_FetchSnapshot (events : list RecvEvent) : option File :=
  match recv_loop events [] with
  | None => None
  | Some buf => Decode buf
  end.

(** ** compaction.go *)

Record CycleEnv : Type := MkCycleEnv {
  ce_view : option ClusterView;
  ce_GetLogStatus : option LogStatusReply;
  ce_StreamLogRange : Z → Z → option (list LogEntry);
  ce_view' : option ClusterView;
  ce_ConfirmCompaction : Z → list byte → bool
}.

(** How far a cycle got. *)
Inductive CycleOutcome : Type :=
| CycleSkipped
| CycleNothingNew
| CycleNoEntries
| CycleApplyFailed
| CycleAborted
| CycleCommitFailed
| CycleUnconfirmed (index : Z)
| CycleComplete (index : Z).

Definition runCycle (env : CycleEnv) (leader : string) (status : LogStatusReply) :
    StoreM CycleOutcome := λ '(s, d),
  let '(lastBackedUp, _, _) := Store_Latest s in
  let from := lastBackedUp +u 1 in
  let from := if from <? ls_FirstIndex status then ls_FirstIndex status else from in
  let to := ls_LastIndex status in
  if to <? from then (Ok CycleNothingNew, (s, d)) else
  match ce_StreamLogRange env from to with
  | None | Some [] => (Ok CycleNoEntries, (s, d))
  | Some (e :: es) =>
      let entries := e :: es in
      match Store_Apply entries (s, d) with
      | (Err _, sd) => (Ok CycleApplyFailed, sd)
      | (Ok _, sd) =>
          let last := List.last entries e in
          match ce_view' env with
          | None => (Ok CycleAborted, sd)
          | Some view =>
              if negb (bool_decide (cv_LeaderAddress view = leader)) then (Ok CycleAborted, sd) else
              match Store_Commit (e_Index last) (e_Term last) sd with
              | (Err _, sd) => (Ok CycleCommitFailed, sd)
              | (Ok file, sd) =>
                  match Encode file with
                  | None => (Ok (CycleUnconfirmed (e_Index last)), sd)
                  | Some stateBytes =>
                      if ce_ConfirmCompaction env (e_Index last) stateBytes
                      then (Ok (CycleComplete (e_Index last)), sd)
                      else (Ok (CycleUnconfirmed (e_Index last)), sd)
                  end
              end
          end
      end
  end.

Record Compactor : Type := MkCompactor {
  cp_cfg : Config;
  cp_store : Store;
  cp_compacting : bool
}.

Definition NewCompactor (store : Store) (cfg : Config) : Compactor := MkCompactor cfg store false.

Definition set_compacting (b : bool) (c : Compactor) : Compactor :=
  MkCompactor (cp_cfg c) (cp_store c) b.

Definition set_store (s : Store) (c : Compactor) : Compactor :=
  MkCompactor (cp_cfg c) s (cp_compacting c).

(** Tick: the flag is set before the cycle, and the deferred function resets it
    whatever the cycle did. *)
Definition Tick (env : CycleEnv) : GoM (Compactor * D) CycleOutcome := λ '(c, d),
  match ce_view env with
  | None => (Ok CycleSkipped, (c, d))
  | Some view =>
      let leader := cv_LeaderAddress view in
      if bool_decide (leader = "") then (Ok CycleSkipped, (c, d)) else
      match ce_GetLogStatus env with
      | None => (Ok CycleSkipped, (c, d))
      | Some status =>
          let occupancy := ls_OccupancyPercent status in
          if occupancy <? CompactionThresholdPercent (cp_cfg c) then (Ok CycleSkipped, (c, d)) else
          if ConcurrencyGuardPercent (cp_cfg c) <=? occupancy then (Ok CycleSkipped, (c, d)) else
          if cp_compacting c then (Ok CycleSkipped, (c, d)) else
          let c := set_compacting true c in
          let '(r, (s, d)) := runCycle env leader status (cp_store c, d) in
          (r, (set_compacting false (set_store s c), d))
      end
  end.

(** Run: one tick after the other until the context is done; what each tick
    meets is an element of [envs].  [None]: time.NewTicker panics. *)
Fixpoint run_ticks (envs : list CycleEnv) (x : Compactor * D) :
    list (CycleEnv * result CycleOutcome * (Compactor * D)) :=
  match envs with
  | [] => []
  | env :: envs => let '(r, x') := Tick env x in (env, r, x') :: run_ticks envs x'
  end.

Definition Compactor_Run (envs : list CycleEnv) (x : Compactor * D) :
    option (list (CycleEnv * result CycleOutcome * (Compactor * D))) :=
  if PollInterval (cp_cfg x.1) <=? 0 then None else Some (run_ticks envs x).

(** ** The stream *)

Lemma recv_chunks size fuel data buf :
  (0 < size)%nat → (length data ≤ fuel)%nat →
  recv_loop ((RecvChunk <$> chunks size fuel data) ++ [RecvEOF]) buf = Some (buf ++ data).
Proof.
  intros Hp. revert data buf.
  induction fuel as [|fuel IH]; intros data buf Hl.
  - destruct data; [|simpl in Hl; lia]. simpl. by rewrite app_nil_r.
  - destruct data as [|x data]; [simpl; by rewrite app_nil_r|].
    remember (x :: data) as dt eqn:Ed.
    assert (Hc : chunks size (S fuel) dt = MkSnapshotChunk (take size dt)
      (bool_decide (length dt ≤ size)%nat) :: chunks size fuel (drop size dt)) by (by subst dt).
    rewrite Hc. cbn [fmap list_fmap app recv_loop ch_IsLast ch_Data].
    case_bool_decide as Hle.
    + by rewrite take_ge.
    + change (list_fmap _ _ RecvChunk ?l) with (RecvChunk <$> l).
      rewrite IH by (rewrite length_drop; subst dt; simpl in *; lia).
      by rewrite <- app_assoc, take_drop.
Qed.

Lemma recv_broken size fuel data k buf :
  (k < length (chunks size fuel data))%nat →
  recv_loop ((RecvChunk <$> take k (chunks size fuel data)) ++ [RecvErr]) buf = None.
Proof.
  revert data k buf. induction fuel as [|fuel IH]; intros data k buf; [simpl; lia|].
  destruct data as [|x data]; [simpl; lia|]. remember (x :: data) as dt eqn:Ed.
  assert (Hc : chunks size (S fuel) dt = MkSnapshotChunk (take size dt)
    (bool_decide (length dt ≤ size)%nat) :: chunks size fuel (drop size dt)) by (by subst dt).
  rewrite Hc. intros Hk. destruct k as [|k]; [done|].
  cbn [take fmap list_fmap app recv_loop ch_IsLast ch_Data]. case_bool_decide as Hle.
  - rewrite (drop_ge dt) in Hk by done. destruct fuel; simpl in Hk; lia.
  - apply IH. simpl in Hk. lia.
Qed.

Lemma chunks_small size fuel data :
  Forall (λ c, (length (ch_Data c) ≤ size)%nat) (chunks size fuel data).
Proof.
  revert data. induction fuel as [|fuel IH]; intros data; [constructor|].
  destruct data as [|x data]; [constructor|]. constructor; [|apply IH].
  cbn [ch_Data]. rewrite length_take. lia.
Qed.

(** C30.  A node that fetches a snapshot gets exactly what the service has: the
    chunks, each at most 64 KiB, put together and decoded give the store's
    file; and a stream that breaks before its last chunk gives an error,
    never a shortened snapshot. *)
Theorem fetch_roundtrip wf (s : Store) file cs :
  CodecLaws File wf → Store_File s = Some file → wf file → FetchSnapshot s = Some cs →
  Client_FetchSnapshot ((RecvChunk <$> cs) ++ [RecvEOF]) = Some file ∧
  Forall (λ c, zlen (ch_Data c) ≤ chunkSize) cs ∧
  (∀ k, (k < length cs)%nat → Client_FetchSnapshot ((RecvChunk <$> take k cs) ++ [RecvErr]) = None).
Proof.
  intros Hlaws Hf Hwf. unfold FetchSnapshot, Client_FetchSnapshot. rewrite Hf.
  destruct (Encode file) as [data|] eqn:Ee; [|done]. intros [= <-]. split_and!.
  - rewrite recv_chunks by (done || (unfold chunkSize; lia)). simpl. by eapply codec_roundtrip.
  - eapply Forall_impl; [apply chunks_small|]. cbv beta. intros c Hc. unfold zlen, chunkSize in *. lia.
  - intros k Hk. by rewrite recv_broken.
Qed.

(** ** The replica *)

Definition decodes (e : LogEntry) : Prop := is_Some (codec_dec (T := KVCommand) (e_Command e)).

Lemma apply_entries_all es kv :
  Forall decodes es → apply_entries es kv = (Ok tt, apply_all es kv).
Proof.
  intros Hd. revert kv. induction Hd as [|e es [c Hc] _ IH]; intros kv; [done|].
  cbn [apply_entries]. rewrite Hc, IH. unfold apply_all. cbn [foldl sm_ApplyFn KV_StateMachine].
  unfold ApplyFn at 3. cbn [am_Command]. by rewrite Hc.
Qed.

(** An undecodable command: the entries before it are applied. *)
Lemma apply_entries_stuck es kv :
  ¬ Forall decodes es → ∃ j, apply_entries es kv = (Err ErrDecode, apply_all (take j es) kv).
Proof.
  revert kv. induction es as [|e es IH]; intros kv Hd; [by destruct Hd|]. cbn [apply_entries].
  destruct (codec_dec (e_Command e)) as [c|] eqn:Hc; [|by exists O].
  destruct (IH (Apply c kv)) as [j ->].
  { intros Hes. apply Hd. constructor; [by eexists|done]. }
  exists (S j). f_equal. unfold apply_all. cbn [take foldl sm_ApplyFn KV_StateMachine].
  unfold ApplyFn at 3. cbn [am_Command]. by rewrite Hc.
Qed.

#[export] Instance decodes_dec e : Decision (decodes e).
Proof. unfold decodes. apply _. Defined.

(** [hist] is the cluster's history of committed entries, from index 1. *)
Definition range (hist : list LogEntry) (from to : Z) : list LogEntry :=
  take (Z.to_nat (to - from + 1)) (drop (Z.to_nat (from - 1)) hist).

(** The store has applied the first [k] entries, at least those its boundary
    covers. *)
Definition replica (hist : list LogEntry) (k : Z) (s : Store) : Prop :=
  0 ≤ s_lastIncludedIndex s ≤ k ∧ k ≤ zlen hist ∧
  s_state s = apply_all (take (Z.to_nat k) hist) New.

(** Applying the range after the boundary up to [to] brings the replica to
    [to], wherever it was. *)
Lemma replica_advance hist lb k to :
  0 ≤ lb ≤ k → k ≤ to ≤ zlen hist →
  apply_all (range hist (lb + 1) to) (apply_all (take (Z.to_nat k) hist) New) =
  apply_all (take (Z.to_nat to) hist) New.
Proof.
  intros Hlb Hk. rewrite !apply_all_cmds. unfold cmds_of, range.
  set (f := λ e : LogEntry, codec_dec (T := KVCommand) (e_Command e)).
  assert (E1 : take (Z.to_nat k) hist =
    take (Z.to_nat lb) hist ++ take (Z.to_nat (k - lb)) (drop (Z.to_nat lb) hist)).
  { rewrite take_take_drop. f_equal. lia. }
  assert (E2 : take (Z.to_nat (to - (lb + 1) + 1)) (drop (Z.to_nat (lb + 1 - 1)) hist) =
    take (Z.to_nat (k - lb)) (drop (Z.to_nat lb) hist) ++
    take (Z.to_nat (to - k)) (drop (Z.to_nat k) hist)).
  { replace (Z.to_nat k) with (Z.to_nat lb + Z.to_nat (k - lb))%nat by lia.
    rewrite <- drop_drop, take_take_drop. replace (lb + 1 - 1) with lb by lia. f_equal. lia. }
  assert (E3 : take (Z.to_nat to) hist = take (Z.to_nat lb) hist ++
    take (Z.to_nat (to - (lb + 1) + 1)) (drop (Z.to_nat (lb + 1 - 1)) hist)).
  { replace (lb + 1 - 1) with lb by lia. rewrite take_take_drop. f_equal. lia. }
  rewrite E3, E1, E2. rewrite !omap_app. unfold apply_cmds. rewrite !foldl_app.
  set (a := omap f (take _ hist)). set (b := omap f (take _ (drop (Z.to_nat lb) hist))).
  set (c := omap f (take _ (drop (Z.to_nat k) hist))).
  pose proof (replay_cmds b c (foldl (λ kv cmd, Apply cmd kv) New a)) as Hr.
  unfold apply_cmds in Hr. by rewrite !foldl_app in Hr.
Qed.

Lemma last_list_last {A} (x d : A) l : last (x :: l) = Some (List.last (x :: l) d).
Proof.
  revert x. induction l as [|y l IH]; intros x; [done|].
  change (last (x :: y :: l)) with (last (y :: l)). by rewrite IH.
Qed.

Lemma last_range hist from to e es :
  1 ≤ from ≤ to → to ≤ zlen hist → range hist from to = e :: es →
  hist !! Z.to_nat (to - 1) = Some (List.last (e :: es) e).
Proof.
  intros Hf Ht Hr.
  assert (Hl : length (range hist from to) = Z.to_nat (to - from + 1)).
  { unfold range. rewrite length_take, length_drop. unfold zlen in *. lia. }
  assert (Hlast : last (range hist from to) = Some (List.last (e :: es) e)).
  { rewrite Hr. apply last_list_last. }
  rewrite last_lookup, Hl in Hlast. unfold range in Hlast.
  rewrite lookup_take_lt, lookup_drop in Hlast by lia. rewrite <- Hlast. f_equal. lia.
Qed.

(** A cycle on a log that reaches back to the boundary: it finds nothing to
    do, or gets stuck in an undecodable command, or applies what it is sent and
    is aborted, or commits. *)
Lemma cycle_effect (s : Store) d env leader status r s' d' :
  let from := s_lastIncludedIndex s + 1 in
  let to := ls_LastIndex status in
  is_u64 from → ls_FirstIndex status ≤ from →
  runCycle env leader status (s, d) = (r, (s', d')) →
  (s' = s ∧ d' = d ∧ (r = Ok CycleNothingNew ∨ r = Ok CycleNoEntries)) ∨
  ∃ e es, from ≤ to ∧ ce_StreamLogRange env from to = Some (e :: es) ∧
    let s1 := set_state (apply_all (e :: es) (s_state s)) s in
    let last := List.last (e :: es) e in
    (¬ Forall decodes (e :: es) ∧ d' = d ∧ r = Ok CycleApplyFailed ∧
     ∃ j, s' = set_state (apply_all (take j (e :: es)) (s_state s)) s) ∨
    (s' = s1 ∧ d' = d ∧ r = Ok CycleAborted) ∨
    ∃ c, Store_Commit (e_Index last) (e_Term last) (s1, d) = (c, (s', d')) ∧
      match c with
      | Err _ => r = Ok CycleCommitFailed
      | Ok _ => r = Ok (CycleComplete (e_Index last)) ∨ r = Ok (CycleUnconfirmed (e_Index last))
      end.
Proof.
  intros from to Hu Hfi. unfold runCycle. cbn [Store_Latest]. cbv zeta. fold from to.
  rewrite (wrap64_small from) by done. rewrite (proj2 (Z.ltb_ge from (ls_FirstIndex status))) by lia.
  destruct (to <? from) eqn:Et; zbool; [intros [= <- <- <-]; by auto|].
  destruct (ce_StreamLogRange env from to) as [[|e es]|] eqn:Es; [intros [= <- <- <-]; by auto| |intros [= <- <- <-]; by auto].
  unfold Store_Apply. intros E. right. exists e, es. split; [lia|]. split; [done|]. cbv zeta.
  destruct (decide (Forall decodes (e :: es))) as [Hd|Hd].
  2:{ left. destruct (apply_entries_stuck (e :: es) (s_state s) Hd) as [j Hj]. rewrite Hj in E.
      injection E as <- <- <-. by eauto. }
  right. rewrite apply_entries_all in E by done. set (s1 := set_state _ s) in *.
  destruct (ce_view' env) as [view|]; [|injection E as <- <- <-; by left].
  destruct (negb _); [injection E as <- <- <-; by left|]. right.
  destruct (Store_Commit _ _ (s1, d)) as [[f|er] sd]; [|injection E as <- ->; by exists (Err er)].
  exists (Ok f). destruct (Encode f) as [bytes|]; [destruct (ce_ConfirmCompaction _ _ _)|];
    injection E as <- ->; by auto.
Qed.

(** A cycle that reaches the commit leaves a store whose file is the map
    obtained by applying exactly the first [i] entries to an empty store, for
    the boundary [i] = the leader's last index and the term of that entry. *)
Definition file_exact (hist : list LogEntry) (i : Z) (s : Store) : Prop :=
  ∃ e, hist !! Z.to_nat (i - 1) = Some e ∧
    Store_File s = Some (MkFile (kv_data (apply_all (take (Z.to_nat i) hist) New)) i (e_Term e)).

(** Committing writes the state at hand; a failed write leaves the store. *)
Lemma Store_Commit_cases i t (s : Store) d c s' d' :
  Store_Commit i t (s, d) = (c, (s', d')) →
  match c with
  | Err _ => s' = s
  | Ok f => f = MkFile (kv_data (s_state s)) i t ∧ Store_File s' = Some f ∧
      s_state s' = s_state s ∧ s_lastIncludedIndex s' = i
  end.
Proof.
  unfold Store_Commit. destruct (st_WriteFile _ _ d) as [[p|er] d1]; intros [= <- <- <-]; [|done].
  unfold Store_File, Snapshot. simpl. by rewrite copy_map_id.
Qed.

Lemma cycle_exact hist k (s : Store) d env leader status out s' d' :
  replica hist k s → Forall decodes hist → consecutive 0 hist →
  ls_FirstIndex status ≤ s_lastIncludedIndex s + 1 → k ≤ ls_LastIndex status ≤ zlen hist →
  zlen hist < u64_max →
  (∀ from to es, ce_StreamLogRange env from to = Some es → es = range hist from to) →
  runCycle env leader status (s, d) = (Ok out, (s', d')) →
  match out with
  | CycleComplete i | CycleUnconfirmed i =>
      i = ls_LastIndex status ∧ replica hist i s' ∧ file_exact hist i s'
  | CycleAborted | CycleCommitFailed =>
      replica hist (ls_LastIndex status) s' ∧ Store_Latest s' = Store_Latest s
  | _ => s' = s
  end.
Proof.
  intros (Hlb & Hk & Hst) Hdec Hcons Hfi Hto Hmax Henv HE.
  apply cycle_effect in HE as [(-> & _ & [[= ->]|[= ->]])|(e & es & Hle & Es & HE)]; [done|done| |u64|done].
  apply Henv in Es. destruct HE as [[Hnd _]|HE].
  { destruct Hnd. rewrite Es. unfold range. by apply Forall_take, Forall_drop. }
  set (lb := s_lastIncludedIndex s) in *. set (to := ls_LastIndex status) in *.
  pose proof (last_range hist (lb + 1) to e es ltac:(lia) ltac:(lia) (eq_sym Es)) as Hlast.
  cbv zeta in HE. set (le := List.last (e :: es) e) in *.
  assert (Hidx : e_Index le = to) by (rewrite (Hcons _ _ Hlast); lia). rewrite Hidx in HE.
  assert (Hap : apply_all (e :: es) (s_state s) = apply_all (take (Z.to_nat to) hist) New).
  { rewrite Es, Hst. apply replica_advance; lia. }
  rewrite Hap in HE. set (kv := apply_all (take (Z.to_nat to) hist) New) in *.
  assert (Hrep : replica hist to (set_state kv s)).
  { unfold replica. cbn [set_state s_lastIncludedIndex s_state]. split_and!; [lia..|done]. }
  destruct HE as [(-> & _ & [= ->])|(c & HC & Hc)]; [done|]. apply Store_Commit_cases in HC.
  destruct c as [f|er]; [|injection Hc as ->; by rewrite HC]. destruct HC as (-> & HF & HS & HI).
  destruct Hc as [[= ->]|[= ->]]; (split; [done|]; split; [|by exists le]).
  all: unfold replica; rewrite HI, HS; cbn [set_state s_state]; split_and!; [lia..|done].
Qed.

(** A tick that sees an occupancy at or over the guard does nothing. *)
Lemma Tick_guarded env (c : Compactor) d status :
  ce_GetLogStatus env = Some status → ConcurrencyGuardPercent (cp_cfg c) ≤ ls_OccupancyPercent status →
  Tick env (c, d) = (Ok CycleSkipped, (c, d)).
Proof.
  intros Hs Hg. unfold Tick. destruct (ce_view env); [|done]. rewrite Hs. case_bool_decide; [done|].
  rewrite (proj2 (Z.leb_le _ _) Hg). by destruct (_ <? _).
Qed.

(** A tick is skipped, or runs a cycle and leaves the flag down. *)
Lemma Tick_cycle env (c : Compactor) d r c' d' :
  Tick env (c, d) = (r, (c', d')) →
  (r = Ok CycleSkipped ∧ c' = c ∧ d' = d) ∨
  ∃ leader status s', ce_GetLogStatus env = Some status ∧
    CompactionThresholdPercent (cp_cfg c) ≤ ls_OccupancyPercent status < ConcurrencyGuardPercent (cp_cfg c) ∧
    runCycle env leader status (cp_store c, d) = (r, (s', d')) ∧ c' = MkCompactor (cp_cfg c) s' false.
Proof.
  unfold Tick. destruct (ce_view env) as [v|]; [|intros [= <- <- <-]; by left].
  case_bool_decide; [intros [= <- <- <-]; by left|].
  destruct (ce_GetLogStatus env) as [st|]; [|intros [= <- <- <-]; by left].
  destruct (_ <? _) eqn:E1; [intros [= <- <- <-]; by left|].
  destruct (_ <=? _) eqn:E2; [intros [= <- <- <-]; by left|].
  destruct (cp_compacting c); [intros [= <- <- <-]; by left|]. zbool. cbn [set_compacting cp_store].
  destruct (runCycle _ _ _ _) as [r0 [s' d0]] eqn:E. intros [= <- <- <-]. right.
  by exists (cv_LeaderAddress v), st, s'.
Qed.

(** ** The life of the service *)

(** What the leaders tell the service: their logs hold entries of the history
    up to its end and never fewer than an earlier tick saw, they have not
    compacted beyond what the service holds, and they stream the range they
    are asked for. *)
Definition env_ok (hist : list LogEntry) (seen : Z) (s : Store) (env : CycleEnv) : Prop :=
  (∀ status, ce_GetLogStatus env = Some status →
    ls_FirstIndex status ≤ s_lastIncludedIndex s + 1 ∧ seen ≤ ls_LastIndex status ≤ zlen hist) ∧
  (∀ from to es, ce_StreamLogRange env from to = Some es → es = range hist from to).

Definition sees (env : CycleEnv) (seen : Z) : Z :=
  match ce_GetLogStatus env with Some status => ls_LastIndex status | None => seen end.

Fixpoint envs_ok (hist : list LogEntry) (seen : Z) (envs : list CycleEnv) (x : Compactor * D) : Prop :=
  match envs with
  | [] => True
  | env :: envs =>
      env_ok hist seen (cp_store x.1) env ∧ envs_ok hist (sees env seen) envs (Tick env x).2
  end.

(** What a tick leaves. *)
Definition tick_exact (hist : list LogEntry) (t : CycleEnv * result CycleOutcome * (Compactor * D)) : Prop :=
  let '(env, r, (c, _)) := t in
  cp_compacting c = false ∧ (∃ k, replica hist k (cp_store c)) ∧
  match r with
  | Ok (CycleComplete i) | Ok (CycleUnconfirmed i) =>
      ls_LastIndex <$> ce_GetLogStatus env = Some i ∧ file_exact hist i (cp_store c)
  | _ => True
  end.

Lemma cycle_Ok env leader status x : ∃ out x', runCycle env leader status x = (Ok out, x').
Proof.
  destruct x as [s d]. unfold runCycle. destruct (Store_Latest s) as [[lb lt] av]. cbv zeta.
  destruct (_ <? _); [by eexists _, _|].
  destruct (ce_StreamLogRange _ _ _) as [[|e es]|]; [by eexists _, _| |by eexists _, _].
  destruct (Store_Apply _ _) as [[]]; [|by eexists _, _].
  destruct (ce_view' env) as [v|]; [|by eexists _, _]. destruct (negb _); [by eexists _, _|].
  destruct (Store_Commit _ _ _) as [[f|] sd]; [|by eexists _, _].
  destruct (Encode f); [|by eexists _, _]. destruct (ce_ConfirmCompaction _ _ _); by eexists _, _.
Qed.

Lemma Tick_exact hist seen k c d env :
  Forall decodes hist → consecutive 0 hist → zlen hist < u64_max →
  replica hist k (cp_store c) → k ≤ seen → env_ok hist seen (cp_store c) env → cp_compacting c = false →
  let '(r, x') := Tick env (c, d) in
  tick_exact hist (env, r, x') ∧ cp_compacting x'.1 = false ∧
  ∃ k', replica hist k' (cp_store x'.1) ∧ k' ≤ sees env seen.
Proof.
  intros Hdec Hcons Hmax Hrep Hk [Hst Hes] Hc.
  destruct (Tick _ _) as [r [c' d']] eqn:E.
  apply Tick_cycle in E as [(-> & -> & ->)|(leader & status & s' & Es & _ & E & ->)].
  { simpl. split; [by split_and!; [|exists k|]|]. split; [done|]. exists k. split; [done|]. unfold sees.
    destruct (ce_GetLogStatus env) as [st|]; [|done]. destruct (Hst st eq_refl). lia. }
  destruct (Hst status Es) as [Hf Hl]. destruct (cycle_Ok env leader status (cp_store c, d)) as (out & [s2 d2] & E').
  rewrite E in E'. injection E' as -> <- <-.
  pose proof (cycle_exact hist k _ d env leader status out s' d' Hrep Hdec Hcons Hf ltac:(lia) Hmax Hes E) as HX.
  unfold tick_exact, sees. rewrite Es. cbn [cp_compacting cp_store fst snd].
  assert (Hk' : ∃ k', replica hist k' s' ∧ k' ≤ ls_LastIndex status).
  { destruct out; try (exists k; split; [by rewrite HX|lia]).
    - exists (ls_LastIndex status). by destruct HX.
    - exists (ls_LastIndex status). by destruct HX.
    - exists (ls_LastIndex status). by destruct HX as (-> & ? & _).
    - exists (ls_LastIndex status). by destruct HX as (-> & ? & _). }
  split; [|by split]. split; [done|]. destruct Hk' as (k' & ? & _). split; [by exists k'|].
  destruct out; try done; by destruct HX as (-> & _ & ?).
Qed.

(** C29.  The snapshots the service publishes are states of the history.  Take
    a service started on an empty directory and not restarted, and leaders that
    have all streamed ranges of one history, none of them knowing less of it
    than one asked before, and none compacted past what the service holds.
    However often it ticks and however many cycles fail or are aborted because
    the leader changed: the flag is down after every tick, so it never blocks a
    later one, the replica is always the map of some prefix of the history, and
    every cycle that reaches the commit leaves a file that is the map of exactly
    the first [i] entries, with [i] the last index the leader reported and the
    term of that entry. *)
Theorem service_snapshots_exact hist cfg envs dir (d0 d : D) st ticks :
  Forall decodes hist → consecutive 0 hist → zlen hist < u64_max →
  NewStore dir d0 = (Ok st, d) → s_available st = false →
  let c := NewCompactor st cfg in
  envs_ok hist 0 envs (c, d) → Compactor_Run envs (c, d) = Some ticks → Forall (tick_exact hist) ticks.
Proof.
  intros Hdec Hcons Hmax HN Ha c.
  assert (Hst : st = MkStore dir New 0 0 false None).
  { unfold NewStore, mbind, GoM_bind in HN. destruct (st_Latest dir d0) as [[[[f q]|]|er] d1]; try done;
      injection HN as <- <-; done. }
  clear HN Ha. unfold c. clear c. rewrite Hst. clear Hst st. set (c := NewCompactor _ _). unfold Compactor_Run. destruct (_ <=? _); [done|]. intros He [= <-].
  assert (Hgen : ∀ seen k c d, replica hist k (cp_store c) → k ≤ seen → cp_compacting c = false →
    envs_ok hist seen envs (c, d) → Forall (tick_exact hist) (run_ticks envs (c, d))).
  { clear c d He. induction envs as [|env envs IH]; intros seen k c d Hr Hk Hc; cbn [envs_ok run_ticks]; [done|].
    intros [He Hes]. pose proof (Tick_exact hist seen k c d env Hdec Hcons Hmax Hr Hk He Hc) as HT.
    destruct (Tick env (c, d)) as [r [c' d']]. destruct HT as (HT & Hc' & k' & Hr' & Hk').
    constructor; [done|]. by eapply IH. }
  apply (Hgen 0 0); [|lia|done|done]. split; [simpl; lia|]. split; [unfold zlen; lia|done].
Qed.

End service.
End SnapshotService.
