(* ===== verification/RaftVotes.v ===== *)
(** * Vote stability: no operation of a node forgets a vote

    The part of a node that elections depend on is its term, its vote, its
    role and state.json.  [vok b s s'] says that a step from [s] to [s'] keeps
    every vote the node has on disk, never moves its term back or past [b],
    and makes nobody a leader.  Every operation of internal/raft satisfies
    it, for any storage with [VoteLaws], whatever storage calls fail. *)

From Stdlib Require Import Strings.Byte.
From S2P Require Import Prelude Pb Fs Persistence SnapshotFile Storage RaftNode RaftElection.
From S2P Require Import RaftReplication RaftSnapshot RaftReadIndex.
Import SnapshotFile.

Section votes.
Context {SM : Type} `{StateMachine SM} {D : Type} `{Storage D} `{!VoteLaws D} `{GF : Codec File}.
Implicit Types (n : Node SM) (d : D) (s : Node SM * D).

Definition disk_vote s : option (Z * string) := vl_vote (n_dataDir s.1) s.2.

Definition path_ok n : Prop :=
  match n_currentSnapshotPath n with
  | None => True
  | Some p => ∃ i, p = (n_dataDir n, FileName i)
  end.

(** The vote invariant of one node: what is on disk is no newer than memory
    and never names another candidate for the current term; state.json can
    hold the vote and the node's own id. *)
Definition NI s : Prop :=
  is_u64 (n_currentTerm s.1) ∧ path_ok s.1 ∧ (vl_name (n_votedFor s.1) ∧ vl_name (n_id s.1)) ∧
  ∃ dt dv, disk_vote s = Some (dt, dv) ∧ 0 ≤ dt ≤ n_currentTerm s.1 ∧
    (dt = n_currentTerm s.1 → dv = "" ∨ dv = n_votedFor s.1).

(** Node state [s] will never again vote for anyone but [c] in term [t]. *)
Definition promised s (t : Z) (c : string) : Prop :=
  ∃ dt dv, disk_vote s = Some (dt, dv) ∧ (t < dt ∨ (dt = t ∧ dv = c)).

Definition same_static n n' : Prop :=
  n_id n' = n_id n ∧ n_address n' = n_address n ∧ n_dataDir n' = n_dataDir n ∧
  n_peers n' = n_peers n.

Definition vok (b : Z) s s' : Prop :=
  same_static s.1 s'.1 ∧
  (n_currentTerm s.1 ≤ b → n_currentTerm s.1 ≤ n_currentTerm s'.1 ≤ b) ∧
  (n_role s'.1 = Leader → n_role s.1 = Leader ∧ n_currentTerm s'.1 = n_currentTerm s.1) ∧
  (NI s → NI s' ∧ ∀ t c, c ≠ "" → promised s t c → promised s' t c).

Lemma vok_refl b s : vok b s s.
Proof. unfold vok, same_static. split_and!; auto. lia. Qed.

Lemma vok_trans b s1 s2 s3 : vok b s1 s2 → vok b s2 s3 → vok b s1 s3.
Proof.
  intros (S12 & T12 & L12 & N12) (S23 & T23 & L23 & N23). split_and!.
  - unfold same_static in *. destruct_and?. split_and!; congruence.
  - intros Hb. specialize (T12 Hb). specialize (T23 ltac:(lia)). lia.
  - intros HL. destruct (L23 HL) as [HL2 ?]. destruct (L12 HL2). split; congruence.
  - intros HN. destruct (N12 HN) as [HN2 HP2]. destruct (N23 HN2) as [HN3 HP3]. auto.
Qed.

(** [m] is vote-stable on every node whose data directory is [dir]. *)
Definition VOK {A} (dir : string) (b : Z) (m : NodeM SM D A) : Prop :=
  ∀ s, n_dataDir s.1 = dir → vok b s (m s).2.

Lemma VOK_ret {A} dir b (a : A) : VOK dir b (mret a).
Proof. intros s _. apply vok_refl. Qed.

Lemma VOK_fail {A} dir b e : VOK dir b (gfail e : NodeM SM D A).
Proof. intros s _. apply vok_refl. Qed.

Lemma VOK_bind {A B} dir b (m : NodeM SM D A) (f : A → NodeM SM D B) :
  VOK dir b m → (∀ a, VOK dir b (f a)) → VOK dir b (m ≫= f).
Proof.
  intros Hm Hf s Hs. specialize (Hm s Hs). unfold mbind, GoM_bind.
  destruct (m s) as [[a|e] s'] eqn:E; simpl in *; [|done].
  eapply vok_trans; [done|apply Hf]. destruct Hm as ((_ & _ & -> & _) & _). done.
Qed.

Lemma VOK_getN {A} dir b (f : Node SM → NodeM SM D A) :
  (∀ n, n_dataDir n = dir → VOK dir b (f n)) → VOK dir b (getN ≫= f).
Proof. intros Hf s Hs. by apply (Hf s.1). Qed.

(** The same, when what follows depends on the node being the one read. *)
Lemma VOK_getN' {A} dir b (f : Node SM → NodeM SM D A) :
  (∀ s, n_dataDir s.1 = dir → vok b s (f s.1 s).2) → VOK dir b (getN ≫= f).
Proof. intros Hf s Hs. by apply Hf. Qed.

Lemma VOK_gtry {A} dir b (m : NodeM SM D A) : VOK dir b m → VOK dir b (gtry m).
Proof. intros Hm s Hs. specialize (Hm s Hs). unfold gtry. by destruct (m s). Qed.

(** A change of the node that leaves term, vote and disk alone. *)
Definition calm n n' : Prop :=
  same_static n n' ∧ n_currentTerm n' = n_currentTerm n ∧ n_votedFor n' = n_votedFor n ∧
  n_currentSnapshotPath n' = n_currentSnapshotPath n ∧
  (n_role n' = n_role n ∨ n_role n' = Follower).

Lemma calm_refl n : calm n n.
Proof. unfold calm, same_static. split_and!; auto. Qed.
Lemma calm_trans n1 n2 n3 : calm n1 n2 → calm n2 n3 → calm n1 n3.
Proof. unfold calm, same_static. intros; destruct_and?; split_and!; try congruence.
  destruct_or?; [left; congruence|right; congruence..].
Qed.

Lemma vok_calm b n n' d : calm n n' → vok b (n, d) (n', d).
Proof.
  intros ((Hi & Ha & Hd & Hp) & Ht & Hv & Hs & Hr).
  unfold vok, same_static, NI, promised, disk_vote, path_ok. simpl.
  rewrite Hi, Ha, Hd, Hp, Ht, Hv, Hs.
  split; [done|]. split; [lia|]. split; [|auto]. intros HL. destruct Hr; [|congruence]. split; [congruence|done].
Qed.

Lemma VOK_modify dir b (f : Node SM → Node SM) : (∀ n, calm n (f n)) → VOK dir b (modifyN f).
Proof. intros Hf [n d] _. apply vok_calm, Hf. Qed.

Lemma VOK_liftD {A} dir b (m : GoM D A) : keeps (vl_vote dir) m → VOK dir b (liftD m).
Proof.
  intros Hm [n d] Hs. simpl in Hs. subst dir. unfold liftD. simpl. specialize (Hm d). simpl in Hm.
  destruct (m d) as [r d'] eqn:E. simpl in *.
  unfold vok, same_static, NI, promised, disk_vote. simpl. rewrite Hm.
  split_and!; auto. lia.
Qed.

(** ** The helpers of node.go *)

Ltac calm_tac := unfold calm, same_static; simpl; split_and!; auto.

Lemma calm_chan_send c v n : calm n (chan_send c v n).
Proof. calm_tac. Qed.

Lemma calm_abort e n : calm n (abortPendingWaitersLocked e n).
Proof.
  unfold abortPendingWaitersLocked.
  apply (calm_trans _ (map_fold (λ _ ch acc, chan_send ch (Some e) acc) n (n_waiters n)));
    [|calm_tac].
  apply (map_fold_weak_ind (λ r _, calm n r)); [apply calm_refl|].
  intros i x m r _ Hr. eapply calm_trans; [exact Hr|apply calm_chan_send].
Qed.

Lemma calm_setFollower n : calm n (setRoleLocked Follower n).
Proof.
  unfold setRoleLocked.
  assert (calm n (if bool_decide (n_role n = Leader) && negb (bool_decide (Follower = Leader))
    then abortPendingWaitersLocked ErrLeadershipLost n else n)) as Hc
    by (destruct (_ && _); [apply calm_abort|apply calm_refl]).
  unfold calm, same_static in *. simpl. naive_solver.
Qed.

Lemma VOK_persist dir b : VOK dir b persistStateLocked.
Proof.
  intros [n d] _. unfold persistStateLocked, liftD. unfold_node.
  destruct (st_SaveState (n_dataDir n) (n_currentTerm n) (n_votedFor n) d) as [r d'] eqn:E. simpl.
  unfold vok. split; [done|]. split; [simpl; lia|]. split; [done|].
  intros (Hu & Hp & Hnm & dt & dv & Hd & Hle & Heq). simpl in *.
  pose proof (vl_save _ _ _ _ _ _ Hu (proj1 Hnm) E) as Hs.
  unfold disk_vote in *. simpl in *. destruct r as [[]|e].
  - split.
    + split; [done|]. split; [done|]. split; [done|]. exists (n_currentTerm n), (n_votedFor n). simpl. split_and!; auto; u64.
    + intros t c Hc (dt' & dv' & Hd' & Hor). unfold disk_vote in Hd'. simpl in Hd'.
      rewrite Hd in Hd'. simplify_eq.
      exists (n_currentTerm n), (n_votedFor n). split; [done|].
      destruct (decide (t < n_currentTerm n)); [by left|].
      right. destruct Hor as [?|[-> ->]]; [lia|].
      assert (t = n_currentTerm n) by lia. naive_solver.
  - unfold NI, promised, disk_vote. simpl. rewrite Hs. naive_solver.
Qed.

(** ** The higher-term rule *)

Lemma VOK_observe dir b t : is_u64 t → t ≤ b → VOK dir b (observeTermLocked t).
Proof.
  intros Ht Hb. apply VOK_getN'. intros [n d] Hdir. cbn [fst].
  destruct (t <=? n_currentTerm n) eqn:E; [apply vok_refl|]. zbool.
  eapply vok_trans; [|apply (VOK_bind dir b persistStateLocked (λ _, mret true));
    [apply VOK_persist|intros; apply VOK_ret|]].
  2: { destruct (calm_setFollower (set_votedFor "" (set_currentTerm t n)))
         as ((_ & _ & Hx & _) & _). etrans; [exact Hx|done]. }
  unfold modifyN. simpl.
  pose proof (calm_setFollower (set_votedFor "" (set_currentTerm t n)))
    as ((Hi & Ha & Hdd & Hpp) & Htt & Hv & Hs & Hr). simpl in *.
  unfold vok, same_static, NI, promised, disk_vote, path_ok. simpl.
  rewrite Hi, Ha, Hdd, Hpp, Htt, Hv, Hs.
  split; [done|]. split; [lia|]. split.
  - unfold setRoleLocked. simpl. done.
  - intros (Hu & Hp & Hnm & dt & dv & Hd & Hle & Heq). split; [|done].
    split_and!; [done|done|apply vl_name_nil|apply Hnm|]. exists dt, dv. split_and!; [done|lia..].
Qed.

Create HintDb vokdb.
#[local] Hint Resolve VOK_ret VOK_fail VOK_gtry VOK_persist VOK_observe calm_refl calm_setFollower
  calm_abort calm_chan_send vl_append vl_read vl_truncate vl_rewrite vl_write : vokdb.
#[local] Hint Extern 3 (calm _ _) => progress calm_tac : vokdb.

(** Walk through a straight-line operation. *)
Ltac vok_tac :=
  repeat first
    [ solve [eauto with vokdb]
    | apply VOK_getN; intros ? ?; subst
    | apply VOK_gtry
    | apply VOK_modify; intros ?
    | apply VOK_liftD
    | apply VOK_bind; [|intros ?]
    | match goal with
      | |- VOK _ _ (match ?x with _ => _ end) => destruct x
      | |- VOK _ _ (if ?x then _ else _) => destruct x
      | |- calm _ (if ?x then _ else _) => destruct x
      end ].

(** ** replication.go *)

Lemma calm_apply_loop fuel n : calm n (apply_loop fuel n).
Proof.
  revert n. induction fuel as [|fuel IH]; intros n; cbn [apply_loop]; [apply calm_refl|].
  destruct (n_lastApplied n <? n_commitIndex n); [|apply calm_refl]. cbv zeta.
  destruct (entryAtLocked _ _) as [e|]; [|calm_tac].
  destruct (n_waiters _ !! e_Index e) as [ch|]; (eapply calm_trans; [|apply IH]); calm_tac.
Qed.

Lemma calm_applyCommitted n : calm n (applyCommittedLocked n).
Proof.
  unfold applyCommittedLocked. cbv zeta.
  pose proof (calm_apply_loop (Z.to_nat (n_commitIndex n - n_lastApplied n)) n) as Hc.
  destruct (n_lastApplied n <? n_commitIndex n); [|done].
  eapply calm_trans; [exact Hc|calm_tac].
Qed.

Lemma calm_set_commit v n : calm n (applyCommittedLocked (set_commitIndex v n)).
Proof. eapply calm_trans; [|apply calm_applyCommitted]. calm_tac. Qed.

Lemma calm_maybeAdvance n : calm n (maybeAdvanceCommitIndexLocked n).
Proof.
  unfold maybeAdvanceCommitIndexLocked. cbv zeta.
  destruct (find_commit _ _ _); [apply calm_set_commit|apply calm_refl].
Qed.
#[local] Hint Resolve calm_applyCommitted calm_set_commit calm_maybeAdvance : vokdb.

Lemma VOK_merge dir b prev es : VOK dir b (mergeEntriesLocked prev es).
Proof. unfold mergeEntriesLocked. vok_tac. Qed.
#[local] Hint Resolve VOK_merge : vokdb.

Lemma calm_follow env leader n :
  calm n (resetElectionDeadlineLocked env (set_currentLeader leader (setRoleLocked Follower n))).
Proof. eapply calm_trans; [apply calm_setFollower|]. calm_tac. Qed.
#[local] Hint Resolve calm_follow : vokdb.

Lemma VOK_AppendEntries dir b env req :
  is_u64 (ae_Term req) → ae_Term req ≤ b → VOK dir b (AppendEntries env req).
Proof. intros Hu Hb. unfold AppendEntries. vok_tac. Qed.

Lemma VOK_appendLocal dir b cmd : VOK dir b (appendLocalLocked cmd).
Proof. unfold appendLocalLocked. vok_tac. Qed.
#[local] Hint Resolve VOK_appendLocal : vokdb.

Lemma VOK_Propose dir b cmd : VOK dir b (Propose cmd).
Proof. unfold Propose. vok_tac. Qed.

Lemma VOK_ProposeSync_begin dir b cmd : VOK dir b (ProposeSync_begin cmd).
Proof. unfold ProposeSync_begin. vok_tac. Qed.

Lemma VOK_ProposeSync_cancel dir b i : VOK dir b (modifyN (ProposeSync_cancel i)).
Proof. vok_tac. Qed.

Lemma VOK_handleReply dir b peer prev num reply :
  is_u64 (aer_Term reply) → aer_Term reply ≤ b →
  VOK dir b (handleAppendEntriesReplyLocked peer prev num reply).
Proof. intros Hu Hb. unfold handleAppendEntriesReplyLocked. vok_tac. Qed.

Lemma VOK_sendAndHandle dir b term r reply :
  is_u64 (aer_Term reply) → aer_Term reply ≤ b →
  VOK dir b (sendAppendEntriesAndHandle term r reply).
Proof.
  intros Hu Hb. unfold sendAppendEntriesAndHandle. vok_tac.
Qed.

(** ** election.go *)

(** Recording a vote in memory, once the first condition holds. *)
Lemma vok_set_vote b n d c :
  vl_name c → n_votedFor n = "" ∨ n_votedFor n = c → vok b (n, d) (set_votedFor c n, d).
Proof.
  intros Hc Hv. unfold vok, NI, promised, disk_vote, path_ok. simpl.
  split; [done|]. split; [lia|]. split; [done|].
  intros (Hu & Hp & Hnm & dt & dv & Hd & Hle & Heq). split; [|done].
  split_and!; [done|done|done|apply Hnm|]. exists dt, dv. split_and!; [done|lia..|].
  intros Hdt. destruct (Heq Hdt) as [?|?]; [by left|].
  destruct Hv; [left|right]; congruence.
Qed.

Lemma VOK_RequestVote dir b env req :
  is_u64 (rv_Term req) → rv_Term req ≤ b → vl_name (rv_CandidateId req) → VOK dir b (RequestVote env req).
Proof.
  intros Hu Hb Hnm. unfold RequestVote. apply VOK_getN. intros n0 _.
  apply VOK_bind; [vok_tac|]. intros _. apply VOK_getN'. intros [n d] Hdir. simpl in Hdir.
  cbn [fst]. destruct (rv_Term req <? n_currentTerm n); [apply vok_refl|].
  destruct (negb (notAlreadyVoted n req) || negb (candLogUpToDate n req)) eqn:E;
    [apply vok_refl|].
  apply orb_false_iff in E as [E _]. apply negb_false_iff in E. unfold notAlreadyVoted in E.
  eapply vok_trans; [apply (vok_set_vote b n d (rv_CandidateId req))|].
  { done. }
  { apply orb_true_iff in E as [E|E]; apply bool_decide_eq_true in E; auto. }
  assert (VOK dir b (persistStateLocked;; modifyN (resetElectionDeadlineLocked env);;
    mret (MkRequestVoteReply (n_currentTerm n) true))) as HV by vok_tac.
  by apply HV.
Qed.

Lemma observe_term t s r s' :
  observeTermLocked t s = (r, s') →
  n_currentTerm s'.1 = Z.max (n_currentTerm s.1) t.
Proof.
  unfold observeTermLocked. rewrite nbind_getN.
  destruct (t <=? n_currentTerm s.1) eqn:E; zbool; [intros [= _ <-]; lia|].
  rewrite nbind_modifyN. unfold persistStateLocked, liftD. unfold_node.
  destruct (calm_setFollower (set_votedFor "" (set_currentTerm t s.1))) as (_ & Ht & _).
  destruct (st_SaveState _ _ _ _) as [[[]|e] d'] eqn:E2; intros [= <- <-]; simpl in *; lia.
Qed.

(** A granted vote is on disk before the reply exists. *)
Lemma RequestVote_granted env req s s' reply :
  RequestVote env req s = (Ok reply, s') → rvr_VoteGranted reply = true →
  is_u64 (rv_Term req) → is_u64 (n_currentTerm s.1) → vl_name (rv_CandidateId req) →
  disk_vote s' = Some (rv_Term req, rv_CandidateId req) ∧
  n_currentTerm s'.1 = rv_Term req ∧ n_votedFor s'.1 = rv_CandidateId req.
Proof.
  intros HR Hg Hu Hc Hnm. unfold RequestVote in HR. rewrite nbind_getN in HR.
  apply nbind_inv in HR as [(x & s1 & H1 & HR)|(e & _ & ?)]; [|done].
  assert (Hu1 : n_currentTerm s1.1 = Z.max (n_currentTerm s.1) (rv_Term req)).
  { revert H1. destruct (n_currentTerm s.1 <? rv_Term req) eqn:E; zbool.
    - intros H1. rewrite (observe_term _ _ _ _ H1); lia.
    - intros [= _ <-]. lia. }
  rewrite nbind_getN in HR.
  destruct (rv_Term req <? n_currentTerm s1.1) eqn:E1; [by unfold_node; simplify_eq/=|]. zbool.
  destruct (_ || _); [by unfold_node; simplify_eq/=|]. rewrite nbind_modifyN in HR.
  apply nbind_inv in HR as [([] & s2 & H2 & HR)|(e & _ & ?)]; [|done].
  rewrite nbind_modifyN in HR. unfold mret, GoM_ret in HR. simplify_eq/=.
  unfold persistStateLocked in H2. rewrite nbind_getN in H2. unfold liftD in H2. simpl in H2.
  destruct (st_SaveState _ _ _ _) as [r d'] eqn:E2. simplify_eq/=.
  apply vl_save in E2; [|rewrite Hu1; u64|done].
  unfold disk_vote. simpl. rewrite E2. split_and!; [f_equal; f_equal; lia|lia|done].
Qed.

(** A step that may crown a leader: everything but the role is kept. *)
Definition crowned s s' : Prop :=
  same_static s.1 s'.1 ∧ n_currentTerm s'.1 = n_currentTerm s.1 ∧
  (NI s → NI s' ∧ ∀ t c, c ≠ "" → promised s t c → promised s' t c).

Lemma crowned_becomeLeader n d : crowned (n, d) (becomeLeaderLocked n, d).
Proof.
  unfold becomeLeaderLocked. destruct (negb _).
  - unfold crowned, same_static. split_and!; auto.
  - unfold crowned, NI, promised, disk_vote, path_ok. simpl. unfold same_static. split_and!; auto.
Qed.

Lemma electionSelfQuorum_spec ca n d :
  let n' := electionSelfQuorum ca n in
  crowned (n, d) (n', d) ∧
  (n' = n ∨ (ca_quorum ca ≤ ca_votes ca ∧ n_currentTerm n = ca_term ca)).
Proof.
  unfold electionSelfQuorum. simpl. destruct (_ && _ && _) eqn:E; zbool.
  - split; [apply crowned_becomeLeader|]. by right.
  - split; [|by left]. unfold crowned, same_static. split_and!; auto.
Qed.

(** The reply handler of a campaign: either vote-stable, or the quorum-th
    granted vote of the campaign for the node's current term. *)
Lemma handleVoteReply_spec b ca reply s r s' :
  is_u64 (rvr_Term reply) → rvr_Term reply ≤ b →
  handleVoteReply ca reply s = (r, s') →
  ∃ ca', r = Ok ca' ∧ ca_term ca' = ca_term ca ∧ ca_quorum ca' = ca_quorum ca ∧
    ca_pending ca' = ca_pending ca ∧
    (ca_votes ca' = ca_votes ca ∨
     (rvr_VoteGranted reply = true ∧ ca_votes ca' = ca_votes ca + 1)) ∧
    (vok b s s' ∨
     (crowned s s' ∧ n_currentTerm s.1 = ca_term ca ∧ ca_quorum ca ≤ ca_votes ca' ∧
      rvr_VoteGranted reply = true ∧ ca_votes ca' = ca_votes ca + 1)).
Proof.
  intros Hu Hb. unfold handleVoteReply. rewrite nbind_getN.
  destruct (n_currentTerm s.1 <? rvr_Term reply).
  { pose proof (VOK_observe (n_dataDir s.1) b (rvr_Term reply) Hu Hb s eq_refl) as HV.
    unfold_node. unfold gtry. destruct (observeTermLocked _ s) as [x s1]. simpl in HV.
    intros [= <- <-]. exists ca. split_and!; auto. }
  destruct (_ || _) eqn:E.
  { intros [= <- <-]. exists ca. split_and!; auto using vok_refl. }
  zbool. destruct (rvr_VoteGranted reply) eqn:Eg; cbv zeta; cbn [ca_quorum ca_votes andb].
  2: { intros [= <- <-]. exists ca. split_and!; auto using vok_refl. }
  destruct (_ <=? _) eqn:Eq; zbool.
  - rewrite nbind_modifyN. intros [= <- <-]. eexists. split; [done|]. simpl.
    split_and!; auto. right. split_and!; auto. destruct s as [n d]. apply crowned_becomeLeader.
  - intros [= <- <-]. eexists. split; [done|]. simpl. split_and!; auto using vok_refl.
Qed.

Lemma persist_run n d r d' :
  st_SaveState (n_dataDir n) (n_currentTerm n) (n_votedFor n) d = (r, d') →
  persistStateLocked (n, d) = (r, (n, d')).
Proof. intros E. unfold persistStateLocked. rewrite nbind_getN. unfold liftD. simpl. by rewrite E. Qed.

(** Starting a campaign: the new term and the self-vote are on disk before
    any request exists. *)
Lemma startElection_spec b env s r s' :
  is_u64 (n_currentTerm s.1) → n_currentTerm s.1 + 1 ≤ b → b ≤ u64_max → vl_name (n_id s.1) →
  startElection env s = (r, s') →
  vok b s s' ∧ ∃ o, r = Ok o ∧
    match o with
    | None => True
    | Some (ca, req) =>
        n_currentTerm s'.1 = n_currentTerm s.1 + 1 ∧ ca_term ca = n_currentTerm s'.1 ∧
        disk_vote s' = Some (n_currentTerm s'.1, n_id s.1) ∧
        ca_quorum ca = quorumSize (zlen (n_peers s.1) + 1) ∧ ca_votes ca = 1 ∧
        ca_pending ca = n_peers s.1 ∧ rv_Term req = n_currentTerm s'.1 ∧
        rv_CandidateId req = n_id s.1
    end.
Proof.
  intros Hu Hb Hbm Hnm. unfold startElection. rewrite nbind_getN.
  destruct (bool_decide (n_role s.1 = Leader)) eqn:El.
  { intros [= <- <-]. split; [apply vok_refl|]. by exists None. }
  rewrite nbind_modifyN. zbool. destruct s as [n d]. cbn [fst snd] in *.
  assert (Hset : setRoleLocked Candidate n = set_role Candidate n).
  { unfold setRoleLocked. by rewrite (bool_decide_eq_false_2 _ El). }
  rewrite Hset. set (n1 := set_votedFor _ _).
  assert (Hn1 : n_currentTerm n1 = n_currentTerm n + 1) by (unfold n1; simpl; unwrap; lia).
  assert (V1 : vok b (n, d) (n1, d)).
  { unfold vok, NI, promised, disk_vote, path_ok. simpl. split; [done|].
    split; [unwrap; lia|]. split; [done|].
    intros (_ & Hp & Hnm0 & dt & dv & Hd & Hle & Heq). split; [|done]. split_and!; [unwrap; u64|done|apply Hnm0|apply Hnm0|].
    exists dt, dv. split_and!; [done|lia|unwrap; lia..]. }
  destruct (st_SaveState (n_dataDir n1) (n_currentTerm n1) (n_votedFor n1) d)
    as [r1 d'] eqn:E.
  pose proof (VOK_persist (n_dataDir n1) b (n1, d) eq_refl) as V2.
  rewrite (persist_run _ _ _ _ E) in V2.
  assert (Et : gtry persistStateLocked (n1, d) = (Ok r1, (n1, d')))
    by (unfold gtry; by rewrite (persist_run _ _ _ _ E)).
  node_step Et. destruct r1 as [[]|e].
  - rewrite nbind_modifyN, nbind_getN. intros [= <- <-].
    apply vl_save in E; [|rewrite Hn1; u64|done].
    split; [|eexists; split; [done|]; simpl; split_and!; auto].
    eapply vok_trans; [exact V1|]. eapply vok_trans; [exact V2|]. apply vok_calm. calm_tac.
  - intros [= <- <-].
    split; [by eapply vok_trans|by exists None].
Qed.

(** ** compaction, transfer and catch-up *)

Lemma VOK_bind_post {A B} dir b (P : A → Prop) (m : NodeM SM D A) (f : A → NodeM SM D B) :
  VOK dir b m → (∀ s a s', m s = (Ok a, s') → P a) → (∀ a, P a → VOK dir b (f a)) →
  VOK dir b (m ≫= f).
Proof.
  intros Hm HP Hf s Hs. specialize (Hm s Hs). unfold mbind, GoM_bind.
  destruct (m s) as [[a|e] s'] eqn:E; simpl in *; [|done].
  eapply vok_trans; [done|]. eapply Hf; [by eapply HP|]. by destruct Hm as ((_ & _ & -> & _) & _).
Qed.

Lemma VOK_replace dir b i : VOK dir b (replaceSnapshotFileLocked (dir, FileName i)).
Proof.
  intros [n d] Hs. simpl in Hs. unfold replaceSnapshotFileLocked.
  rewrite nbind_getN. cbv zeta. rewrite nbind_modifyN. cbn [fst snd].
  assert (V1 : vok b (n, d) (set_currentSnapshotPath (Some (dir, FileName i)) n, d)).
  { unfold vok, NI, promised, disk_vote, path_ok. simpl. split; [done|].
    split; [lia|]. split; [done|]. intros (? & _ & [? ?] & ?). subst dir. split; [|done].
    split_and!; eauto. }
  destruct (n_currentSnapshotPath n) as [p|] eqn:Ep; [|done].
  destruct (decide (p = (dir, FileName i))); [done|].
  unfold_node. unfold gtry. cbn [fst snd]. destruct (st_Remove p d) as [r d'] eqn:Er.
  unfold vok in *. cbn [fst snd] in *. destruct V1 as (? & ? & ? & V1).
  split; [done|]. split; [done|]. split; [done|]. intros HN.
  assert (∃ j, p = (dir, FileName j)) as [j ->].
  { destruct HN as (_ & Hp & _). unfold path_ok in Hp. simpl in Hp. rewrite Ep in Hp. by subst dir. }
  pose proof (vl_remove dir j d) as Hk. rewrite Er in Hk. cbn [snd] in Hk. subst dir.
  destruct (V1 HN) as [HN' HP]. unfold NI, promised, disk_vote, path_ok in *. simpl in *.
  rewrite Hk. by split.
Qed.

Lemma VOK_writeFile_then {B} dir b (file : File) (f : Path → NodeM SM D B) :
  VOK dir b (f (dir, FileName (f_LastIncludedIndex file))) →
  VOK dir b (liftD (st_WriteFile dir file) ≫= f).
Proof.
  intros Hf. eapply (VOK_bind_post dir b (λ p, p = (dir, FileName (f_LastIncludedIndex file)))).
  - apply VOK_liftD, vl_write.
  - intros s a s'. unfold liftD. destruct (st_WriteFile dir file s.2) as [r d'] eqn:E.
    intros [= -> <-]. by eapply vl_write_path.
  - by intros a ->.
Qed.

Lemma VOK_compact dir b file : VOK dir b (compactLocked file).
Proof.
  unfold compactLocked. apply VOK_getN. intros n Hn. cbv zeta. rewrite Hn.
  destruct (entryAtLocked _ _); [|apply VOK_fail].
  apply VOK_writeFile_then. apply VOK_bind; [apply VOK_replace|]. intros _. vok_tac.
Qed.
#[local] Hint Resolve VOK_compact : vokdb.

Lemma VOK_ConfirmCompaction dir b req : VOK dir b (ConfirmCompaction req).
Proof. unfold ConfirmCompaction. vok_tac. Qed.

Lemma VOK_pollCompact dir b target fetch : VOK dir b (pollCompact target fetch).
Proof. unfold pollCompact. vok_tac. Qed.

Lemma VOK_catchUp_disk dir b file : VOK dir b (catchUp_disk file).
Proof.
  unfold catchUp_disk. apply VOK_getN. intros n Hn. cbv zeta. cbn [e_Index].
  destruct (f_LastIncludedIndex file =? 0); [apply VOK_fail|]. rewrite Hn.
  apply VOK_writeFile_then. vok_tac.
Qed.

Lemma VOK_catchUp_restore dir b file : VOK dir b (catchUp_restore file).
Proof. unfold catchUp_restore. vok_tac. Qed.

Lemma VOK_catchUp_install dir b file i : VOK dir b (catchUp_install file (dir, FileName i)).
Proof.
  unfold catchUp_install. cbv zeta. apply VOK_bind; [apply VOK_replace|]. intros _. vok_tac.
Qed.

Lemma VOK_FollowerRead dir b reply : VOK dir b (FollowerLinearizableRead reply (mret tt) []).
Proof. unfold FollowerLinearizableRead, waitForApplied. vok_tac. Qed.

End votes.
