(* ===== verification/RaftCompaction.v ===== *)
(** * Compaction and restart

    compactLocked replaces a prefix of the log by one anchor entry; what is
    above the anchor stays, index by index.  A node restarted at any point of
    that procedure comes back with the same log.  Catch-up, by contrast,
    forgets everything above the snapshot. *)

From Stdlib Require Import Strings.Byte.
From S2P Require Import Prelude Pb Fs Persistence SnapshotFile Storage RaftNode RaftElection.
From S2P Require Import RaftReplication RaftLog RaftCommit RaftSnapshot RaftVotes.
Import SnapshotFile.

Section compaction.
Context {SM : Type} `{StateMachine SM} {D : Type} `{Storage D} `{!LogLaws D} `{GF : Codec File}.
Implicit Types (n : Node SM) (d : D) (s : Node SM * D).

Definition anchor_of (file : File) : LogEntry :=
  MkLogEntry (f_LastIncludedTerm file) (f_LastIncludedIndex file) [].

Definition compacted off (log : list LogEntry) (file : File) : list LogEntry :=
  anchor_of file :: drop (Z.to_nat (f_LastIncludedIndex file - off)) log.

Lemma compacted_wf off log file :
  wf_log off log → off < f_LastIncludedIndex file ≤ off + zlen log →
  wf_log (f_LastIncludedIndex file - 1) (compacted off log file).
Proof.
  intros (Ho & Hr & Hc) Hi. unfold compacted. set (t := f_LastIncludedIndex file) in *.
  split_and!; [lia| |].
  - rewrite zlen_cons, zlen_drop by (unfold zlen in *; lia). lia.
  - apply consecutive_cons. split; [simpl; lia|].
    apply (consecutive_drop _ _ (Z.to_nat (t - off))) in Hc.
    by replace (t - 1 + 1) with (off + Z.of_nat (Z.to_nat (t - off))) by lia.
Qed.

(** The last index does not move, and above the anchor nothing changes. *)
Lemma compacted_last off log file :
  off < f_LastIncludedIndex file ≤ off + zlen log →
  f_LastIncludedIndex file - 1 + zlen (compacted off log file) = off + zlen log.
Proof.
  intros Hi. unfold compacted. rewrite zlen_cons, zlen_drop by (unfold zlen in *; lia). lia.
Qed.

Lemma replace_quiet n d i es :
  ll_quiet d → ll_log (n_dataDir n) d es → path_ok n →
  ∃ d', replaceSnapshotFileLocked (n_dataDir n, FileName i) (n, d) =
      (Ok tt, (set_currentSnapshotPath (Some (n_dataDir n, FileName i)) n, d')) ∧
    ll_quiet d' ∧ ll_log (n_dataDir n) d' es.
Proof.
  intros Hq Hl Hp. unfold replaceSnapshotFileLocked.
  rewrite nbind_getN. cbv zeta. rewrite nbind_modifyN. cbn [fst snd].
  unfold path_ok in Hp. destruct (n_currentSnapshotPath n) as [p|]; [|by exists d].
  destruct (decide _); [by exists d|]. destruct Hp as [j ->].
  destruct (ll_remove (n_dataDir n) j _ d Hq Hl) as (d' & E & ? & ?). exists d'. split; [|done].
  unfold gtry. unfold_node. by rewrite E.
Qed.

Lemma compact_quiet file e s :
  synced s → path_ok s.1 → ll_file file → ll_storable (anchor_of file) →
  entryAtLocked s.1 (f_LastIncludedIndex file) = Some e →
  let log' := compacted (n_logOffset s.1) (n_log s.1) file in
  ∃ d', compactLocked file s =
      (Ok tt, (set_logOffset (f_LastIncludedIndex file - 1) (set_log log'
        (set_currentSnapshotPath (Some (n_dataDir s.1, FileName (f_LastIncludedIndex file))) s.1)), d')) ∧
    ll_quiet d' ∧ ll_log (n_dataDir s.1) d' log'.
Proof.
  destruct s as [n d]. intros Hs Hp Hf Hst He. cbn [fst snd] in *. cbv zeta.
  pose proof Hs as (Hw & Hq & Hl). cbn [fst snd] in *.
  assert (Hr : n_logOffset n < f_LastIncludedIndex file ≤ n_logOffset n + zlen (n_log n))
    by (apply entryAt_is_Some; eauto).
  unfold compactLocked. rewrite nbind_getN. cbv zeta. cbn [fst]. rewrite He.
  destruct (ll_write (n_dataDir n) file _ d Hq Hl Hf) as (d1 & E1 & Hq1 & Hl1).
  erewrite nbind_Ok; [|unfold liftD; cbn [snd]; by rewrite E1]. cbn [fst].
  destruct (replace_quiet n d1 (f_LastIncludedIndex file) _ Hq1 Hl1 Hp) as (d2 & E2 & Hq2 & Hl2).
  node_step E2. destruct Hw as (Ho & Hb & Hc).
  assert (Hpos : wrap64 (f_LastIncludedIndex file - n_logOffset n) = f_LastIncludedIndex file - n_logOffset n).
  { apply wrap64_small. pose proof (zlen_nonneg (n_log n)). u64. }
  rewrite Hpos. change (_ :: drop _ (n_log n)) with (compacted (n_logOffset n) (n_log n) file).
  destruct (ll_rewrite (n_dataDir n) (compacted (n_logOffset n) (n_log n) file) d2 Hq2)
    as (d3 & E3 & Hq3 & Hl3).
  { constructor; [done|]. apply Forall_drop. by eapply ll_log_storable. }
  exists d3. split; [|done].
  erewrite nbind_Ok; [|unfold liftD; cbn [snd]; by rewrite E3]. unfold modifyN. cbn [fst snd].
  by rewrite wrap64_small by u64.
Qed.

(** C23.  ConfirmCompaction, on every branch: a repeated or outdated request
    changes nothing; a request past lastApplied, one that does not decode, or
    one for another index is refused and changes nothing; otherwise the log
    becomes the anchor plus exactly the entries above it, in memory and in
    log.dat, with the last index, lastApplied and commitIndex as before. *)
Theorem ConfirmCompaction_correct req s :
  synced s → path_ok s.1 → n_lastApplied s.1 ≤ n_logOffset s.1 + zlen (n_log s.1) →
  let target := ca_TruncatedUpToIndex req in
  if decide (target ≤ n_logOffset s.1 + 1) then ConfirmCompaction req s = (Ok tt, s)
  else match Decode (ca_StateMachineSnapshot req) with
  | Some file =>
      if decide (target ≤ n_lastApplied s.1 ∧ f_LastIncludedIndex file = target) then
        ll_file file → ll_storable (anchor_of file) →
        ∃ s', ConfirmCompaction req s = (Ok tt, s') ∧ synced s' ∧ path_ok s'.1 ∧
          n_logOffset s'.1 = target - 1 ∧ lastLogIndexLocked s'.1 = lastLogIndexLocked s.1 ∧
          n_lastApplied s'.1 = n_lastApplied s.1 ∧ n_commitIndex s'.1 = n_commitIndex s.1 ∧
          entryAtLocked s'.1 target = Some (anchor_of file) ∧
          (∀ i, target < i → entryAtLocked s'.1 i = entryAtLocked s.1 i) ∧
          ConfirmCompaction req s' = (Ok tt, s')
      else ∃ e, ConfirmCompaction req s = (Err e, s)
  | None => ∃ e, ConfirmCompaction req s = (Err e, s)
  end.
Proof.
  intros Hs Hp Hla target. pose proof Hs as (Hw & _). pose proof Hw as (Ho & Hb & Hc).
  pose proof (zlen_nonneg (n_log s.1)).
  unfold ConfirmCompaction. rewrite nbind_getN. cbv zeta. fold target. unwrap.
  destruct (decide _) as [Hle|Hgt]; [by rewrite (proj2 (Z.leb_le _ _) Hle)|].
  rewrite (proj2 (Z.leb_gt _ _)) by lia.
  destruct (Decode _) as [file|] eqn:Ed.
  2: { destruct (_ <? _); by eexists. }
  destruct (decide _) as [[Hta Hft]|Hbad].
  - intros Hf Hst. rewrite (proj2 (Z.ltb_ge _ _)) by lia. rewrite Hft, Z.eqb_refl. cbn [negb].
    destruct (proj2 (entryAt_is_Some s.1 target Hw) ltac:(lia)) as [e He]. rewrite <- Hft in He.
    destruct (compact_quiet file e s Hs Hp Hf Hst He) as (d' & E & Hq' & Hl').
    rewrite E. rewrite Hft in *. set (n' := set_logOffset _ _).
    assert (Hw' : log_wf n').
    { unfold log_wf. simpl. rewrite <- Hft. apply compacted_wf; [done|lia]. }
    assert (Hlast : lastLogIndexLocked n' = lastLogIndexLocked s.1).
    { rewrite !lastLogIndex_spec by done. simpl. rewrite <- Hft. apply compacted_last. lia. }
    exists (n', d'). cbn [fst snd]. split_and!; try done.
    + unfold path_ok. simpl. by eexists.
    + apply entryAt_Some; [done|]. simpl. split; [lia|]. by replace (target - (target - 1) - 1) with 0 by lia.
    + intros i Hi. rewrite !entryAt_spec by done.
      change (n_logOffset n') with (target - 1).
      assert (Hz : target - 1 + zlen (n_log n') = n_logOffset s.1 + zlen (n_log s.1)).
      { simpl. rewrite <- Hft. apply compacted_last. lia. }
      rewrite Hz. destruct (decide (target - 1 < i ≤ _)), (decide (n_logOffset s.1 < i ≤ _)); try lia; [|done].
      simpl. unfold compacted.
      replace (Z.to_nat (i - (target - 1) - 1)) with (S (Z.to_nat (i - target - 1))) by lia.
      simpl. rewrite lookup_drop. f_equal. lia.
    + rewrite nbind_getN. cbn [fst]. change (n_logOffset n') with (target - 1).
      rewrite (wrap64_small (target - 1 + 1)) by u64. by rewrite (proj2 (Z.leb_le _ _)) by lia.
  - destruct (n_lastApplied s.1 <? target) eqn:El; zbool; [by eexists|].
    rewrite (proj2 (Z.eqb_neq _ _)); [by eexists|]. intros ?. apply Hbad. split; [lia|done].
Qed.

(** ** Restart *)

(** What a restarted node takes from what its two reads give. *)
Lemma NewNode_reads env (cfg : Config SM) d t v d1 es d2 :
  st_LoadState (cfg_DataDir cfg) d = (Ok (t, v), d1) → st_ReadAllLogEntries (cfg_DataDir cfg) d1 = (Ok es, d2) →
  ∃ n, NewNode env cfg d = (Ok n, d2) ∧
    n_dataDir n = cfg_DataDir cfg ∧ n_currentTerm n = t ∧ n_votedFor n = v ∧ n_role n = Follower ∧
    n_commitIndex n = n_lastApplied n ∧ n_stateMachine n = cfg_StateMachine cfg ∧
    n_waiters n = ∅ ∧ n_chans n = ∅ ∧
    initial_log cfg es = (n_log n, n_logOffset n, n_lastApplied n, n_currentSnapshotPath n).
Proof.
  intros E E2. unfold NewNode. cbv zeta. go_step E. go_step E2.
  destruct (initial_log cfg es) as [[[lg off] ap] sp] eqn:Ei.
  eexists. split; [done|]. split_and!; done.
Qed.

(** ReadAllLogEntries gets [es] back from log.dat, cutting off what a torn append
    may have left behind it. *)
Definition rereads (dir : string) (d : D) (es : list LogEntry) : Prop :=
  ∃ d2, st_ReadAllLogEntries dir d = (Ok es, d2) ∧ ll_quiet d2 ∧ ll_log dir d2 es.

Lemma log_rereads dir d es : ll_quiet d → ll_log dir d es → rereads dir d es.
Proof. intros Hq Hl. exact (ll_read dir es d Hq Hl). Qed.

Lemma NewNode_quiet env (cfg : Config SM) d es t v d1 :
  ll_quiet d → ll_log (cfg_DataDir cfg) d es → st_LoadState (cfg_DataDir cfg) d = (Ok (t, v), d1) →
  ∃ n d', NewNode env cfg d = (Ok n, d') ∧ ll_quiet d' ∧ ll_log (cfg_DataDir cfg) d' es ∧
    n_dataDir n = cfg_DataDir cfg ∧ n_currentTerm n = t ∧ n_votedFor n = v ∧ n_role n = Follower ∧
    n_commitIndex n = n_lastApplied n ∧ n_stateMachine n = cfg_StateMachine cfg ∧
    n_waiters n = ∅ ∧ n_chans n = ∅ ∧
    initial_log cfg es = (n_log n, n_logOffset n, n_lastApplied n, n_currentSnapshotPath n).
Proof.
  intros Hq Hl E. destruct (ll_load _ _ _ _ _ Hq Hl E) as [Hq1 Hl1].
  destruct (ll_read _ _ _ Hq1 Hl1) as (d2 & E2 & Hq2 & Hl2).
  destruct (NewNode_reads env cfg d t v d1 es d2 E E2) as (n & EN & Hn). by exists n, d2.
Qed.

Lemma consecutive_filter_gt off l i :
  consecutive off l → off ≤ i →
  filter (λ e, i < e_Index e) l = drop (Z.to_nat (i - off)) l.
Proof.
  revert off. induction l as [|e l IH]; intros off; [by rewrite drop_nil|].
  rewrite consecutive_cons. intros [He Hc] Hi. rewrite filter_cons.
  destruct (decide (i < e_Index e)) as [Hlt|Hge].
  - replace (Z.to_nat (i - off)) with 0%nat by lia. rewrite drop_0. f_equal.
    assert (i = off) as -> by lia. clear -Hc. apply filter_all.
    apply Forall_forall. intros x (k & Hk)%list_elem_of_lookup. rewrite (Hc _ _ Hk). lia.
  - rewrite (IH (off + 1)) by (done || lia).
    replace (Z.to_nat (i - off)) with (S (Z.to_nat (i - (off + 1)))) by lia. done.
Qed.

Lemma initial_log_snapshot (cfg : Config SM) file off es :
  cfg_LocalSnapshot cfg = Some file → wf_log off es →
  off < f_LastIncludedIndex file ≤ off + zlen es →
  initial_log cfg es = (compacted off es file, f_LastIncludedIndex file - 1,
    f_LastIncludedIndex file, Some (cfg_DataDir cfg, FileName (f_LastIncludedIndex file))).
Proof.
  intros Hs (Ho & Hr & Hc) Hi. unfold initial_log. cbv zeta. rewrite Hs.
  rewrite (proj2 (Z.ltb_lt _ _)) by lia. cbn [e_Index].
  rewrite (consecutive_filter_gt off) by (done || lia). by rewrite wrap64_small by u64.
Qed.

Lemma initial_log_compacted (cfg : Config SM) file off es :
  cfg_LocalSnapshot cfg = Some file → wf_log off es →
  off < f_LastIncludedIndex file ≤ off + zlen es →
  initial_log cfg (compacted off es file) = initial_log cfg es.
Proof.
  intros Hs Hw Hi. pose proof (compacted_wf off es file Hw Hi) as Hw'.
  pose proof (compacted_last off es file Hi) as Hlast.
  rewrite (initial_log_snapshot cfg file off es) by done.
  rewrite (initial_log_snapshot cfg file (f_LastIncludedIndex file - 1)) by (done || lia).
  do 3 f_equal. unfold compacted.
  replace (f_LastIncludedIndex file - (f_LastIncludedIndex file - 1)) with 1 by lia. done.
Qed.

Lemma initial_log_plain (cfg : Config SM) off es :
  cfg_LocalSnapshot cfg = None → wf_log off es → (es = [] → off = 0) →
  initial_log cfg es = (es, off, if 0 <? off then off + 1 else 0, None).
Proof.
  intros Hs (Ho & Hr & Hc) He. unfold initial_log. cbv zeta. rewrite Hs. destruct es as [|e es].
  - by rewrite He.
  - apply consecutive_cons in Hc as [-> _]. rewrite zlen_cons in Hr. pose proof (zlen_nonneg es).
    replace (off + 1 - 1) with off by lia. rewrite wrap64_small by u64.
    by rewrite (wrap64_small (off + 1)) by u64.
Qed.

(** Restart: a node that reads the log [es] back from its log.dat comes back with it.
    Without a snapshot its log is [es]; with a snapshot up to some index of
    [es], its log is the anchor plus the entries of [es] above it, so a crash
    between writing the snapshot and rewriting log.dat loses nothing: the log
    is the same whether log.dat still holds [es] or already its compacted
    form.  Everything up to the snapshot counts as applied. *)
Theorem restart_recovers env (cfg : Config SM) d off es t v d1 :
  wf_log off es →
  (match cfg_LocalSnapshot cfg with
   | None => rereads (cfg_DataDir cfg) d1 es ∧ (es = [] → off = 0)
   | Some file => off < f_LastIncludedIndex file ≤ off + zlen es ∧
       (rereads (cfg_DataDir cfg) d1 es ∨ rereads (cfg_DataDir cfg) d1 (compacted off es file))
   end) →
  st_LoadState (cfg_DataDir cfg) d = (Ok (t, v), d1) →
  ∃ n d', NewNode env cfg d = (Ok n, d') ∧ log_wf n ∧ applicable n ∧ waiters_wf n ∧
    n_currentTerm n = t ∧ n_votedFor n = v ∧ n_role n = Follower ∧
    lastLogIndexLocked n = off + zlen es ∧
    match cfg_LocalSnapshot cfg with
    | None => n_log n = es ∧ n_logOffset n = off ∧ synced (n, d')
    | Some file => n_log n = compacted off es file ∧
        n_logOffset n = f_LastIncludedIndex file - 1 ∧
        n_lastApplied n = f_LastIncludedIndex file
    end.
Proof.
  intros Hw Hcase HL.
  assert (Hww : ∀ n, n_waiters n = ∅ → n_chans n = ∅ → waiters_wf n).
  { intros n E1 E2. unfold waiters_wf. rewrite E1, E2. split_and!; intros *; rewrite ?lookup_empty.
    - done.
    - done.
    - by intros [? ?]. }
  pose proof (zlen_nonneg es). pose proof Hw as (Ho & Hb & _).
  destruct (cfg_LocalSnapshot cfg) as [file|] eqn:Es.
  - destruct Hcase as [Hi Hl].
    assert (∃ es', rereads (cfg_DataDir cfg) d1 es' ∧ initial_log cfg es' = initial_log cfg es)
      as (es' & (d' & Hr & _) & Ei).
    { destruct Hl as [Hl|Hl]; [by exists es|]. eexists. split; [exact Hl|]. by apply initial_log_compacted. }
    destruct (NewNode_reads env cfg d t v d1 es' d' HL Hr)
      as (n & E & _ & ? & ? & ? & Hci & _ & Hwt & Hch & Hin).
    rewrite Ei, (initial_log_snapshot cfg file off es) in Hin by done. injection Hin as I1 I2 I3 _.
    pose proof (compacted_wf off es file Hw Hi) as Hw'.
    pose proof (compacted_last off es file Hi) as Hlast.
    assert (Hlw : log_wf n) by (unfold log_wf; by rewrite <- I1, <- I2).
    exists n, d'. split; [done|]. split; [done|].
    split; [unfold applicable; rewrite Hci, <- I3, <- I1, <- I2; split_and!; [done|lia..]|].
    rewrite lastLogIndex_spec by done. rewrite <- I1, <- I2. split_and!; auto.
  - destruct Hcase as [(d' & Hr & Hq' & Hl') He].
    destruct (NewNode_reads env cfg d t v d1 es d' HL Hr)
      as (n & E & Hd & ? & ? & ? & Hci & _ & Hwt & Hch & Hin).
    rewrite (initial_log_plain cfg off es) in Hin by done. injection Hin as I1 I2 I3 _.
    assert (Hlw : log_wf n) by (unfold log_wf; by rewrite <- I1, <- I2).
    exists n, d'. split; [done|]. split; [done|].
    split.
    { unfold applicable. rewrite Hci, <- I3, <- I1, <- I2. split_and!; [done|..]; destruct (0 <? off) eqn:Ez; zbool; try lia.
      destruct es as [|e es]; [rewrite He in Ez by done; lia|]. rewrite zlen_cons. pose proof (zlen_nonneg es). lia. }
    rewrite lastLogIndex_spec by done. rewrite <- I1, <- I2. split_and!; auto.
    unfold synced. simpl. by rewrite <- I1, Hd.
Qed.

(** ** Catch-up *)

(** C38.  Catch-up keeps nothing above the snapshot: whatever the log held
    before, afterwards it is the single anchor entry, in memory and on disk.
    Entries above the snapshot that this node had already acknowledged to the
    leader are gone.  lastApplied moves forward, but neither the clients
    waiting for the skipped entries nor the reads parked on applyWake are
    woken. *)
Theorem catchUp_forgets file s :
  synced s → path_ok s.1 → ll_file file → ll_storable (anchor_of file) →
  0 < f_LastIncludedIndex file < u64_max - 1 →
  ∃ s', catchUpFromSnapshot (Some file) (mret tt) (mret tt) s = (Ok tt, s') ∧ synced s' ∧
    n_log s'.1 = [anchor_of file] ∧ lastLogIndexLocked s'.1 = f_LastIncludedIndex file ∧
    n_stateMachine s'.1 = sm_Restore (f_State file) (n_stateMachine s.1) ∧
    n_lastApplied s'.1 = Z.max (n_lastApplied s.1) (f_LastIncludedIndex file) ∧
    n_commitIndex s'.1 = Z.max (n_commitIndex s.1) (f_LastIncludedIndex file) ∧
    n_waiters s'.1 = n_waiters s.1 ∧ n_chans s'.1 = n_chans s.1 ∧
    n_applyWake s'.1 = n_applyWake s.1.
Proof.
  destruct s as [n d]. intros Hs Hp Hf Hst Hi. pose proof Hs as (Hw & Hq & Hl). cbn [fst snd] in *.
  set (t := f_LastIncludedIndex file) in *.
  destruct (ll_write (n_dataDir n) file _ d Hq Hl Hf) as (d1 & E1 & Hq1 & Hl1).
  destruct (ll_rewrite (n_dataDir n) [anchor_of file] d1 Hq1) as (d2 & E2 & Hq2 & Hl2);
    [by constructor|].
  assert (Ed : gtry (catchUp_disk file) (n, d) = (Ok (Ok (n_dataDir n, FileName t)), (n, d2))).
  { unfold gtry, catchUp_disk. rewrite nbind_getN. cbv zeta. cbn [fst e_Index].
    rewrite (proj2 (Z.eqb_neq _ _)) by (unfold t in *; lia).
    erewrite nbind_Ok; [|unfold liftD; cbn [snd]; by rewrite E1].
    erewrite nbind_Ok; [|unfold liftD; cbn [fst snd]; change (MkLogEntry _ _ []) with (anchor_of file); by rewrite E2]. done. }
  unfold catchUpFromSnapshot. node_step Ed. cbv beta match. rewrite nbind_ret.
  unfold catchUp_restore. rewrite nbind_modifyN, nbind_ret. cbn [fst snd].
  set (n1 := set_stateMachine _ n). unfold catchUp_install. cbv zeta.
  pose proof (replace_quiet n1 d2 t _ Hq2 Hl2 Hp) as Er. change (n_dataDir n1) with (n_dataDir n) in Er.
  destruct Er as (d3 & Er & Hq3 & Hl3). node_step Er. rewrite !nbind_modifyN. unfold modifyN. cbn [fst snd].
  cbn [e_Index]. fold t. rewrite wrap64_small by u64. set (n2 := set_logOffset _ _).
  eexists. split; [done|]. cbn [fst snd].
  assert (Hfin : ∀ n3, n_log n3 = [anchor_of file] → n_logOffset n3 = t - 1 → n_dataDir n3 = n_dataDir n →
    synced (n3, d3) ∧ lastLogIndexLocked n3 = t).
  { intros n3 L1 L2 L3.
    assert (Hw3 : log_wf n3).
    { unfold log_wf, wf_log. rewrite L1, L2. change (zlen [anchor_of file]) with 1. split_and!; [lia..|].
      apply consecutive_cons. split; [simpl; lia|apply consecutive_nil]. }
    split; [unfold synced; simpl; by rewrite L1, L3|].
    rewrite lastLogIndex_spec by done. rewrite L1, L2. change (zlen [anchor_of file]) with 1. lia. }
  destruct (n_commitIndex n2 <? t) eqn:Ec; cbn [n_lastApplied set_commitIndex];
    destruct (n_lastApplied n2 <? t) eqn:El; zbool; simpl in Ec, El;
    match goal with |- context [synced (?m, _)] => destruct (Hfin m eq_refl eq_refl eq_refl) as [? ->] end;
    split_and!; try done; simpl; lia.
Qed.

(** ** Log transfer *)

Lemma log_range_segment n from c :
  log_wf n → n_logOffset n < from → from + Z.of_nat c ≤ n_logOffset n + zlen (n_log n) + 1 →
  log_range n from c = take c (drop (Z.to_nat (from - n_logOffset n - 1)) (n_log n)).
Proof.
  intros Hw. revert from. induction c as [|c IH]; intros from Ho Hc; cbn [log_range]; [done|].
  pose proof Hw as (? & ? & ?).
  destruct (proj2 (entryAt_is_Some n from Hw) ltac:(lia)) as [e He]. rewrite He.
  apply entryAt_Some in He as [_ He]; [|done].
  unwrap. rewrite IH by lia. rewrite (drop_S _ _ _ He). cbn [take]. do 3 f_equal. lia.
Qed.

(** StreamLogRange sends exactly the log entries of the requested range,
    in order.  commitIndex plays no part: the entries need not be
    committed. *)
Theorem StreamLogRange_exact n from to :
  log_wf n → n_logOffset n < from → to ≤ n_logOffset n + zlen (n_log n) →
  StreamLogRange n from to = segment n (from - 1) to ∧
  consecutive (from - 1) (StreamLogRange n from to) ∧
  (from ≤ to + 1 → zlen (StreamLogRange n from to) = to - from + 1).
Proof.
  intros Hw Hf Ht. pose proof Hw as (Ho & Hb & Hc).
  assert (E : StreamLogRange n from to = segment n (from - 1) to).
  { unfold StreamLogRange, segment. destruct (decide (from ≤ to)).
    - rewrite log_range_segment by (done || lia). f_equal; [lia|]. f_equal. lia.
    - replace (Z.to_nat (to - from + 1)) with 0%nat by lia.
      by replace (Z.to_nat (to - (from - 1))) with 0%nat by lia. }
  rewrite E. split; [done|]. split.
  - unfold segment. apply consecutive_take.
    apply (consecutive_drop _ _ (Z.to_nat (from - 1 - n_logOffset n))) in Hc.
    by replace (n_logOffset n + Z.of_nat (Z.to_nat (from - 1 - n_logOffset n))) with (from - 1) in Hc by lia.
  - intros Hle. unfold segment, zlen in *. rewrite length_take, length_drop. lia.
Qed.

End compaction.
