(* ===== verification/RaftCluster.v ===== *)
(** * The cluster: nodes, campaigns and an unreliable network

    The nodes run the operations of internal/raft, each critical section one
    step, in any interleaving.  The network is the set of messages ever sent:
    a request or reply may be handled late, more than once (a campaign's
    goroutine takes one reply per peer) or never.  Storage calls fail as the
    environment likes, and any node may crash and be started again from its
    files at any point between steps; a crash inside an operation is a run of
    failing storage calls followed by a restart.  A crash may lose log.dat and
    snapshots, but not what SaveState has written ([crash]). *)

From Stdlib Require Import Strings.Byte.
From S2P Require Import Prelude Pb Fs Persistence SnapshotFile Storage RaftNode RaftElection.
From S2P Require Import RaftReplication RaftSnapshot RaftReadIndex RaftVotes.
Import SnapshotFile.

(** The static configuration: addresses, and the NODE_ID behind each. *)
Class Membership : Type := {
  members : list string;
  id_of : string → string
}.

Class MembershipOk `{Membership} : Prop := {
  members_nodup : NoDup members;
  id_of_inj : ∀ i j, i ∈ members → j ∈ members → id_of i = id_of j → i = j;
  id_of_nonempty : ∀ i, i ∈ members → id_of i ≠ ""
}.

Section cluster.
Context {SM : Type} `{StateMachine SM} {D : Type} `{Storage D} `{GF : Codec File} `{Membership}.

Inductive Msg : Type :=
| MVoteReq (src dst : string) (req : RequestVoteRequest)
| MVoteRep (src dst : string) (term : Z) (reply : RequestVoteReply)
| MAppReq (src dst : string) (term : Z) (o : outgoingAppendEntries)
| MAppRep (src dst : string) (term : Z) (o : outgoingAppendEntries) (reply : AppendEntriesReply).

(** [cl_votes] is a history variable: every vote ever cast, as (voter, term,
    candidate id). *)
Record Cluster : Type := MkCluster {
  cl_nodes : gmap string (Node SM * D);
  cl_campaigns : gmap (string * Z) Campaign;
  cl_net : list Msg;
  cl_votes : list (string * Z * string)
}.

Definition upd_node (i : string) (s : Node SM * D) (c : Cluster) : Cluster :=
  MkCluster (<[i := s]> (cl_nodes c)) (cl_campaigns c) (cl_net c) (cl_votes c).
Definition add_net (ms : list Msg) (c : Cluster) : Cluster :=
  MkCluster (cl_nodes c) (cl_campaigns c) (ms ++ cl_net c) (cl_votes c).
Definition add_votes (vs : list (string * Z * string)) (c : Cluster) : Cluster :=
  MkCluster (cl_nodes c) (cl_campaigns c) (cl_net c) (vs ++ cl_votes c).
Definition set_campaigns (m : gmap (string * Z) Campaign) (c : Cluster) : Cluster :=
  MkCluster (cl_nodes c) m (cl_net c) (cl_votes c).

(** Operations of a single node that send nothing themselves. *)
Inductive LocalOp : Type :=
| OpPropose (cmd : list byte)
| OpProposeSync (cmd : list byte)
| OpProposeCancel (index : Z)
| OpConfirmCompaction (req : CompactionAck)
| OpPollCompact (target : Z) (fetch : option File)
| OpCatchUpDisk (file : File)
| OpCatchUpRestore (file : File)
| OpCatchUpInstall (file : File)
| OpFollowerRead (reply : option ReadIndexReply).

Definition ignore {A} (m : NodeM SM D A) : NodeM SM D unit := gtry m;; mret tt.

Definition run_local (op : LocalOp) : NodeM SM D unit :=
  match op with
  | OpPropose cmd => ignore (Propose cmd)
  | OpProposeSync cmd => ignore (ProposeSync_begin cmd)
  | OpProposeCancel index => modifyN (ProposeSync_cancel index)
  | OpConfirmCompaction req => ignore (ConfirmCompaction req)
  | OpPollCompact target fetch => pollCompact target fetch
  | OpCatchUpDisk file => ignore (catchUp_disk file)
  | OpCatchUpRestore file => catchUp_restore file
  | OpCatchUpInstall file =>
      n ← getN;
      ignore (catchUp_install file (n_dataDir n, FileName (f_LastIncludedIndex file)))
  | OpFollowerRead reply => ignore (FollowerLinearizableRead reply (mret tt) [])
  end.

(** Starting the process until it comes up; failed attempts may still have
    touched the files. *)
Inductive boots (cfg : Config SM) : D → Node SM * D → Prop :=
| boots_up env d n d' : NewNode env cfg d = (Ok n, d') → boots cfg d (n, d')
| boots_retry env d e d1 d2 s :
    NewNode env cfg d = (Err e, d1) → st_env d1 d2 → boots cfg d2 s → boots cfg d s.

(** The configuration a restarted process is given is the one it had; its
    snapshot and state machine come from its files. *)
Definition same_config (cfg : Config SM) (n : Node SM) : Prop :=
  cfg_ID cfg = n_id n ∧ cfg_Address cfg = n_address n ∧ cfg_DataDir cfg = n_dataDir n ∧
  cfg_Peers cfg = n_peers n.

Definition ca_drop (peer : string) (ca : Campaign) : Campaign :=
  MkCampaign (ca_term ca) (ca_quorum ca) (ca_votes ca) (filter (λ p, p ≠ peer) (ca_pending ca)).

Definition vote_of (voter : string) (req : RequestVoteRequest) (r : result RequestVoteReply) :
    list (string * Z * string) :=
  match r with
  | Ok rep => if rvr_VoteGranted rep then [(voter, rv_Term req, rv_CandidateId req)] else []
  | Err _ => []
  end.

(** What a crash leaves on the disk: anything, except that state.json is what
    SaveState last wrote.  SaveState does not call fsync, so a power failure
    may break this; persistence.go accepts that a node then votes twice, and
    [power_loss_double_vote] shows that it does.  A crash of the process alone
    leaves the whole disk. *)
Definition crash `{!VoteLaws D} (dir : string) (d d1 : D) : Prop := vl_vote dir d1 = vl_vote dir d.

Inductive step `{!VoteLaws D} : Cluster → Cluster → Prop :=
| step_timeout c i env s s' :
    cl_nodes c !! i = Some s → startElection env s = (Ok None, s') →
    step c (upd_node i s' c)
| step_campaign c i env s s' ca req :
    cl_nodes c !! i = Some s → startElection env s = (Ok (Some (ca, req)), s') →
    step c (set_campaigns (<[(i, ca_term ca) := ca]> (cl_campaigns c))
      (add_net (map (λ p, MVoteReq i p req) (ca_pending ca))
        (add_votes [(i, ca_term ca, n_id s.1)] (upd_node i s' c))))
| step_self_quorum c i t ca n d :
    cl_nodes c !! i = Some (n, d) → cl_campaigns c !! (i, t) = Some ca → n_peers n = [] →
    step c (upd_node i (electionSelfQuorum ca n, d) c)
| step_vote_req c src dst req env s r s' :
    MVoteReq src dst req ∈ cl_net c → cl_nodes c !! dst = Some s →
    RequestVote env req s = (r, s') →
    step c (add_net (match r with Ok rep => [MVoteRep dst src (rv_Term req) rep] | Err _ => [] end)
      (add_votes (vote_of dst req r) (upd_node dst s' c)))
| step_vote_rep c peer i t reply ca s ca' s' :
    MVoteRep peer i t reply ∈ cl_net c → cl_campaigns c !! (i, t) = Some ca →
    peer ∈ ca_pending ca → cl_nodes c !! i = Some s →
    handleVoteReply ca reply s = (Ok ca', s') →
    step c (set_campaigns (<[(i, t) := ca_drop peer ca']> (cl_campaigns c)) (upd_node i s' c))
| step_broadcast c i s term reqs :
    cl_nodes c !! i = Some s → broadcastAppendEntries s.1 = Some (term, reqs) →
    step c (add_net (map (λ o, MAppReq i (o_peer o) term o) reqs) c)
| step_app_req c src dst term o env s r s' :
    MAppReq src dst term o ∈ cl_net c → cl_nodes c !! dst = Some s →
    AppendEntries env (o_req o) s = (r, s') →
    step c (add_net (match r with Ok rep => [MAppRep dst src term o rep] | Err _ => [] end)
      (upd_node dst s' c))
| step_app_rep c peer i term o reply s r s' :
    MAppRep peer i term o reply ∈ cl_net c → cl_nodes c !! i = Some s →
    sendAppendEntriesAndHandle term o reply s = (r, s') →
    step c (upd_node i s' c)
| step_local c i op s r s' :
    cl_nodes c !! i = Some s → run_local op s = (r, s') →
    step c (upd_node i s' c)
| step_faults c i n d d' :
    cl_nodes c !! i = Some (n, d) → st_env d d' →
    step c (upd_node i (n, d') c)
| step_restart c i n d d1 cfg s' :
    cl_nodes c !! i = Some (n, d) → crash (n_dataDir n) d d1 → same_config cfg n → boots cfg d1 s' →
    step c (set_campaigns (filter (λ kv, kv.1.1 ≠ i) (cl_campaigns c)) (upd_node i s' c)).

(** All nodes fresh: started on empty data directories. *)
Definition init_node `{!VoteLaws D} (i : string) (s : Node SM * D) : Prop :=
  i ∈ members ∧ n_address s.1 = i ∧ n_id s.1 = id_of i ∧ i :: n_peers s.1 ≡ₚ members ∧
  NI s ∧ n_currentTerm s.1 = 0 ∧ n_role s.1 = Follower.

Definition init `{!VoteLaws D} (c : Cluster) : Prop :=
  map_Forall init_node (cl_nodes c) ∧ cl_campaigns c = ∅ ∧ cl_net c = [] ∧ cl_votes c = [].

(** Reachable in exactly [k] steps. *)
Inductive reach `{!VoteLaws D} : nat → Cluster → Prop :=
| reach_init c : init c → reach 0 c
| reach_step k c c' : reach k c → step c c' → reach (S k) c'.

(** Zero or more further steps. *)
Inductive steps `{!VoteLaws D} : nat → Cluster → Cluster → Prop :=
| steps_refl c : steps 0 c c
| steps_step k c c' c'' : steps k c c' → step c' c'' → steps (S k) c c''.

(** ** The invariant *)

Context `{!VoteLaws D} `{!MembershipOk}.

Definition wins (votes : list (string * Z * string)) (i : string) (t : Z) : Prop :=
  ∃ Q, NoDup Q ∧ Q ⊆ members ∧ quorumSize (zlen members) ≤ zlen Q ∧
    ∀ v, v ∈ Q → (v, t, id_of i) ∈ votes.

Definition node_ok (i : string) (s : Node SM * D) : Prop :=
  i ∈ members ∧ n_address s.1 = i ∧ n_id s.1 = id_of i ∧ i :: n_peers s.1 ≡ₚ members ∧ NI s.

Definition msg_ok (b : Z) (votes : list (string * Z * string)) (m : Msg) : Prop :=
  match m with
  | MVoteReq src dst req =>
      src ∈ members ∧ is_u64 (rv_Term req) ∧ rv_Term req ≤ b ∧ rv_CandidateId req = id_of src ∧
      vl_name (rv_CandidateId req)
  | MVoteRep src dst t reply =>
      src ∈ members ∧ is_u64 (rvr_Term reply) ∧ rvr_Term reply ≤ b ∧
      (rvr_VoteGranted reply = true → (src, t, id_of dst) ∈ votes)
  | MAppReq _ _ _ o => is_u64 (ae_Term (o_req o)) ∧ ae_Term (o_req o) ≤ b
  | MAppRep _ _ _ _ reply => is_u64 (aer_Term reply) ∧ aer_Term reply ≤ b
  end.

(** The votes a campaign has counted: the self-vote and the peers in [Q],
    none of which is still pending. *)
Definition camp_ok (votes : list (string * Z * string)) (i : string) (t : Z) (ca : Campaign) : Prop :=
  ca_term ca = t ∧ i ∈ members ∧ (i, t, id_of i) ∈ votes ∧
  ca_quorum ca = quorumSize (zlen members) ∧ NoDup (ca_pending ca) ∧
  ∃ Q, NoDup (i :: Q) ∧ Q ⊆ members ∧ (∀ v, v ∈ Q → v ∉ ca_pending ca) ∧
    ca_votes ca ≤ 1 + zlen Q ∧ i ∉ ca_pending ca ∧ ∀ v, v ∈ Q → (v, t, id_of i) ∈ votes.

Record Inv (b : Z) (c : Cluster) : Prop := {
  inv_nodes : ∀ i s, cl_nodes c !! i = Some s → node_ok i s ∧ n_currentTerm s.1 ≤ b;
  inv_votes : ∀ i t v, (i, t, v) ∈ cl_votes c →
    v ≠ "" ∧ ∃ s, cl_nodes c !! i = Some s ∧ promised s t v;
  inv_uniq : ∀ i t v v', (i, t, v) ∈ cl_votes c → (i, t, v') ∈ cl_votes c → v = v';
  inv_net : ∀ m, m ∈ cl_net c → msg_ok b (cl_votes c) m;
  inv_camp : ∀ i t ca, cl_campaigns c !! (i, t) = Some ca → camp_ok (cl_votes c) i t ca;
  inv_lead : ∀ i s, cl_nodes c !! i = Some s → n_role s.1 = Leader →
    wins (cl_votes c) i (n_currentTerm s.1)
}.

(** Two candidates cannot both win a term. *)
Lemma wins_unique votes i j t :
  (∀ v t c c', (v, t, c) ∈ votes → (v, t, c') ∈ votes → c = c') →
  i ∈ members → j ∈ members → wins votes i t → wins votes j t → i = j.
Proof.
  intros Hu Hi Hj (Q1 & N1 & S1 & L1 & V1) (Q2 & N2 & S2 & L2 & V2).
  destruct (quorum_intersection members Q1 Q2) as (v & Hv1 & Hv2); try done.
  { apply members_nodup. }
  { unfold quorumSize, zlen in *.
    pose proof (Z.quot_div_nonneg (Z.of_nat (length members)) 2). 
    pose proof (Z.div_mod (Z.of_nat (length members)) 2).
    pose proof (Z.mod_pos_bound (Z.of_nat (length members)) 2). lia. }
  apply id_of_inj; [done..|]. eauto.
Qed.

End cluster.
