(* ===== verification/RaftSafety.v ===== *)
(** * Election safety

    The invariant [Inv] of RaftCluster holds in every reachable cluster; at
    most one node is leader of a term.  A step may raise a term by one, so the
    bound on terms grows with the number of steps: 2^64 steps are the limit
    after which currentTerm would wrap. *)

From Stdlib Require Import Strings.Byte.
From S2P Require Import Prelude Pb Fs Persistence SnapshotFile Storage RaftNode RaftElection.
From S2P Require Import RaftReplication RaftSnapshot RaftReadIndex RaftVotes RaftCluster.
Import SnapshotFile.

Section safety.
Context {SM : Type} `{StateMachine SM} {D : Type} `{Storage D} `{!VoteLaws D} `{GF : Codec File}.
Context `{MB : Membership} `{!MembershipOk}.
Implicit Types (c : Cluster (SM := SM) (D := D)) (s : Node SM * D).

(** ** How each change of the cluster keeps the invariant *)

Lemma msg_ok_mono b b' vs vs' m : b ≤ b' → vs ⊆ vs' → msg_ok b vs m → msg_ok b' vs' m.
Proof. intros Hb Hv. destruct m; simpl; intros; destruct_and?; split_and!; auto; lia. Qed.

Lemma camp_ok_mono vs vs' i t ca : vs ⊆ vs' → camp_ok vs i t ca → camp_ok vs' i t ca.
Proof.
  intros Hv (? & ? & ? & ? & ? & Q & ? & ? & ? & ? & ? & ?). split_and!; auto.
  exists Q. split_and!; auto.
Qed.

Lemma wins_mono vs vs' i t : vs ⊆ vs' → wins vs i t → wins vs' i t.
Proof. intros Hv (Q & ? & ? & ? & ?). exists Q. split_and!; auto. Qed.

Lemma Inv_mono b b' c : b ≤ b' → Inv b c → Inv b' c.
Proof.
  intros Hb [I1 I2 I3 I4 I5 I6]. constructor; auto.
  - intros i s Hi. destruct (I1 i s Hi). split; [done|lia].
  - intros m Hm. by eapply msg_ok_mono, I4.
Qed.

Lemma Inv_upd b c i s s' :
  Inv b c → cl_nodes c !! i = Some s →
  same_static s.1 s'.1 → n_currentTerm s'.1 ≤ b →
  (NI s → NI s' ∧ ∀ t v, v ≠ "" → promised s t v → promised s' t v) →
  (n_role s'.1 = Leader → wins (cl_votes c) i (n_currentTerm s'.1)) →
  Inv b (upd_node i s' c).
Proof.
  intros [I1 I2 I3 I4 I5 I6] Hi (Hid & Hadr & Hdir & Hp) Hb HN HL.
  destruct (I1 i s Hi) as [(Ni1 & Ni2 & Ni3 & Ni4 & Ni5) _]. destruct (HN Ni5) as [HN' HP].
  constructor; simpl; auto.
  - intros j s2. rewrite lookup_insert_Some. intros [[<- <-]|[_ ?]]; [|by apply I1].
    split; [|done]. unfold node_ok. rewrite Hid, Hadr, Hp. split_and!; auto.
  - intros j t v Hv. destruct (I2 j t v Hv) as (Hne & s2 & Hs2 & Hpr). split; [done|].
    destruct (decide (i = j)) as [<-|Hij].
    + exists s'. rewrite lookup_insert_eq. simplify_eq. auto.
    + exists s2. by rewrite lookup_insert_ne.
  - intros j s2. rewrite lookup_insert_Some. intros [[<- <-]|[_ ?]]; auto.
Qed.

Lemma Inv_upd_vok b c i s s' :
  Inv b c → cl_nodes c !! i = Some s → vok b s s' → Inv b (upd_node i s' c).
Proof.
  intros HI Hi (Hs & Ht & HL & HN).
  pose proof (inv_nodes b c HI i s Hi) as [_ Hb].
  eapply Inv_upd; eauto; [lia|].
  intros Hl. destruct (HL Hl) as [? ->]. by apply (inv_lead b c HI i s).
Qed.

Lemma Inv_upd_crowned b c i s s' :
  Inv b c → cl_nodes c !! i = Some s → crowned s s' →
  wins (cl_votes c) i (n_currentTerm s.1) → Inv b (upd_node i s' c).
Proof.
  intros HI Hi (Hs & Ht & HN) HW.
  pose proof (inv_nodes b c HI i s Hi) as [_ Hb]. rewrite <- Ht in HW.
  eapply Inv_upd; eauto; lia.
Qed.

Lemma Inv_add_net b c ms :
  Inv b c → (∀ m, m ∈ ms → msg_ok b (cl_votes c) m) → Inv b (add_net ms c).
Proof.
  intros [I1 I2 I3 I4 I5 I6] Hm. constructor; simpl; auto.
  intros m [?|?]%elem_of_app; auto.
Qed.

Lemma Inv_add_vote b c i s t v :
  Inv b c → cl_nodes c !! i = Some s → disk_vote s = Some (t, v) → v ≠ "" →
  Inv b (add_votes [(i, t, v)] c).
Proof.
  intros [I1 I2 I3 I4 I5 I6] Hi Hd Hv.
  assert (HS : cl_votes c ⊆ [(i, t, v)] ++ cl_votes c) by set_solver.
  assert (HU : ∀ v', (i, t, v') ∈ cl_votes c → v' = v).
  { intros v' Hin. destruct (I2 _ _ _ Hin) as (_ & s2 & Hs2 & dt & dv & Hd2 & Hor).
    simplify_eq. destruct Hor as [?|[_ ?]]; [lia|done]. }
  constructor; simpl; auto.
  - intros j t' v' [[= -> -> ->]|?]%elem_of_cons; [|auto].
    split; [done|]. exists s. split; [done|]. exists t, v. auto.
  - intros j t' v1 v2 [[= -> -> ->]|Hv1]%elem_of_cons [E|Hv2]%elem_of_cons;
      simplify_eq; eauto; symmetry; eauto.
  - intros m Hm. by eapply msg_ok_mono, I4.
  - intros j t' ca Hca. eapply camp_ok_mono; [done|auto].
  - intros j s2 Hj HL. eapply wins_mono; [done|auto].
Qed.

Lemma Inv_add_no_votes b c : Inv b c → Inv b (add_votes [] c).
Proof. by destruct c. Qed.

Lemma Inv_set_campaigns b c m :
  Inv b c → (∀ i t ca, m !! (i, t) = Some ca → camp_ok (cl_votes c) i t ca) →
  Inv b (set_campaigns m c).
Proof. intros [I1 I2 I3 I4 I5 I6] Hm. by constructor. Qed.

Lemma Inv_camp_insert b c i t ca :
  Inv b c → camp_ok (cl_votes c) i t ca → Inv b (set_campaigns (<[(i, t) := ca]> (cl_campaigns c)) c).
Proof.
  intros HI Hc. apply Inv_set_campaigns; [done|]. intros j t' ca'.
  rewrite lookup_insert_Some. intros [[[= <- <-] <-]|[_ ?]]; [done|].
  by eapply inv_camp.
Qed.

(** ** What messages carry *)

Lemma AppendEntries_reply_term env req s rep s' :
  AppendEntries env req s = (Ok rep, s') → aer_Term rep = n_currentTerm s'.1.
Proof.
  unfold AppendEntries. rewrite nbind_getN.
  intros [(x & s1 & _ & HR)|(e & _ & ?)]%nbind_inv; [|done].
  rewrite nbind_getN in HR. destruct (_ <? _); [by injection HR as <- <-|].
  rewrite nbind_modifyN, nbind_getN in HR. cbn [fst snd] in HR.
  set (n2 := resetElectionDeadlineLocked _ _) in HR.
  destruct (consistencyCheck n2 req) as [rej|] eqn:Ec.
  { injection HR as <- <-. revert Ec. unfold consistencyCheck, reject.
    repeat case_match; intros; simplify_eq/=; done. }
  rewrite nbind_modifyN in HR.
  apply nbind_inv in HR as [(x2 & s2 & _ & HR)|(e & _ & ?)]; [|done].
  rewrite nbind_getN in HR.
  apply nbind_inv in HR as [(x3 & s3 & _ & HR)|(e & _ & ?)]; [|done].
  rewrite nbind_getN in HR. by injection HR as <- <-.
Qed.

Lemma RequestVote_reply_term env req s rep s' :
  RequestVote env req s = (Ok rep, s') → rvr_Term rep = n_currentTerm s'.1.
Proof.
  unfold RequestVote. rewrite nbind_getN.
  intros [(x & s1 & _ & HR)|(e & _ & ?)]%nbind_inv; [|done].
  rewrite nbind_getN in HR. destruct (_ <? _); [by injection HR as <- <-|].
  destruct (_ || _); [by injection HR as <- <-|]. rewrite nbind_modifyN in HR.
  apply nbind_inv in HR as [(x2 & s2 & Hp & HR)|(e & _ & ?)]; [|done].
  rewrite nbind_modifyN in HR. injection HR as <- <-. simpl.
  revert Hp. unfold persistStateLocked. rewrite nbind_getN. unfold liftD. simpl.
  destruct (st_SaveState _ _ _ _). intros [= -> <-]. done.
Qed.

Lemma broadcast_term (n : Node SM) term reqs :
  broadcastAppendEntries n = Some (term, reqs) →
  Forall (λ o, ae_Term (o_req o) = n_currentTerm n) reqs.
Proof.
  unfold broadcastAppendEntries, buildAppendEntriesRequestsLocked.
  destruct (negb _); [by intros [= _ <-]|].
  destruct (mapM _ _) as [l|] eqn:E; simpl; [|done]. intros [= _ <-].
  apply mapM_Some in E. eapply Forall2_Forall_r; [exact E|].
  apply Forall_forall. intros p _ o. unfold buildRequest.
  destruct (collect_entries _ _ _); [|done]. by intros [= <-].
Qed.

Lemma boots_vote cfg d s' :
  boots cfg d s' →
  vl_vote (cfg_DataDir cfg) s'.2 = vl_vote (cfg_DataDir cfg) d ∧
  vl_vote (cfg_DataDir cfg) d = Some (n_currentTerm s'.1, n_votedFor s'.1) ∧
  n_id s'.1 = cfg_ID cfg ∧ n_address s'.1 = cfg_Address cfg ∧
  n_dataDir s'.1 = cfg_DataDir cfg ∧ n_peers s'.1 = cfg_Peers cfg ∧
  n_role s'.1 = Follower ∧ path_ok s'.1 ∧ vl_name (n_votedFor s'.1).
Proof.
  assert (Hnew : ∀ env d r d', NewNode env cfg d = (r, d') →
    vl_vote (cfg_DataDir cfg) d' = vl_vote (cfg_DataDir cfg) d ∧
    match r with Err _ => True | Ok n =>
    vl_vote (cfg_DataDir cfg) d = Some (n_currentTerm n, n_votedFor n) ∧
    n_id n = cfg_ID cfg ∧ n_address n = cfg_Address cfg ∧
    n_dataDir n = cfg_DataDir cfg ∧ n_peers n = cfg_Peers cfg ∧
    n_role n = Follower ∧ path_ok n ∧ vl_name (n_votedFor n) end).
  { intros env d0 r d'. unfold NewNode. cbv zeta.
    pose proof (vl_load_keeps (cfg_DataDir cfg) d0) as Hk.
    intros [([t v] & d1 & Hl & HR)|(e & He & ->)]%bind_inv; [|by rewrite He in Hk].
    rewrite Hl in Hk. simpl in Hk. apply vl_load in Hl as [Hl Hnm].
    pose proof (vl_read (cfg_DataDir cfg) d1) as Hk2.
    apply bind_inv in HR as [(log & d2 & Hr & HR)|(e & He & ->)];
      [|rewrite He in Hk2; simpl in Hk2; split; [by etrans|done]].
    rewrite Hr in Hk2. simpl in Hk2.
    destruct (initial_log cfg log) as [[[lg lo] ap] sp] eqn:Ei.
    injection HR as <- <-. split; [by etrans|]. simpl. split_and!; auto.
    revert Ei. unfold initial_log, path_ok. simpl.
    repeat case_match; intros; simplify_eq/=; eauto. }
  induction 1 as [env d0 n d' E|env d0 e d1 d2 s E He Hb IH].
  - destruct (Hnew _ _ _ _ E) as (? & ?). destruct_and?. split_and!; done.
  - destruct (Hnew _ _ _ _ E) as (Hv & _). pose proof (vl_env (cfg_DataDir cfg) _ _ He) as Hve.
    destruct IH as (IH1 & IH2 & IH3). split_and!; try apply IH3.
    + by rewrite IH1, Hve.
    + by rewrite <- Hv, <- Hve.
Qed.

Lemma VOK_run_local dir b op : VOK dir b (run_local op).
Proof.
  assert (Hig : ∀ A (m : NodeM SM D A), VOK dir b m → VOK dir b (ignore m)).
  { intros A m Hm. apply VOK_bind; [by apply VOK_gtry|]. intros _. apply VOK_ret. }
  destruct op; cbn [run_local].
  - apply Hig, VOK_Propose.
  - apply Hig, VOK_ProposeSync_begin.
  - apply VOK_ProposeSync_cancel.
  - apply Hig, VOK_ConfirmCompaction.
  - apply VOK_pollCompact.
  - apply Hig, VOK_catchUp_disk.
  - apply VOK_catchUp_restore.
  - apply VOK_getN. intros n ->. apply Hig, VOK_catchUp_install.
  - apply Hig, VOK_FollowerRead.
Qed.

(** ** Every step keeps the invariant *)

Lemma node_facts b c i s :
  Inv b c → cl_nodes c !! i = Some s →
  i ∈ members ∧ n_id s.1 = id_of i ∧ i :: n_peers s.1 ≡ₚ members ∧ NI s ∧
  is_u64 (n_currentTerm s.1) ∧ n_currentTerm s.1 ≤ b.
Proof.
  intros HI Hi. destruct (inv_nodes b c HI i s Hi) as [(? & ? & ? & ? & HN) ?].
  split_and!; try done; apply HN.
Qed.

Lemma peers_facts i (peers : list string) :
  i :: peers ≡ₚ members → zlen peers + 1 = zlen members ∧ NoDup peers ∧ i ∉ peers.
Proof.
  intros HP. pose proof members_nodup as HN. rewrite <- HP in HN. apply NoDup_cons in HN as [? ?].
  split_and!; [|done|done]. unfold zlen. rewrite <- (Permutation_length HP). simpl. lia.
Qed.

Lemma step_campaign_Inv b c i env s s' ca req :
  b + 1 ≤ u64_max → Inv b c → cl_nodes c !! i = Some s →
  startElection env s = (Ok (Some (ca, req)), s') →
  Inv (b + 1) (set_campaigns (<[(i, ca_term ca) := ca]> (cl_campaigns c))
      (add_net (map (λ p, MVoteReq i p req) (ca_pending ca))
        (add_votes [(i, ca_term ca, n_id s.1)] (upd_node i s' c)))).
Proof.
  intros Hm HI Hi HE. destruct (node_facts _ _ _ _ HI Hi) as (Him & Hid & HP & HN & Hu & Hb).
  destruct (startElection_spec (b + 1) env s _ s' Hu ltac:(lia) Hm ltac:(apply HN) HE)
    as (HV & ? & [= <-] & Ht' & Hct & Hdv & Hq & Hv & Hpe & Hrt & Hrc).
  assert (Hb' : n_currentTerm s'.1 ≤ b + 1) by lia.
  destruct (peers_facts _ _ HP) as (Hlen & Hnd & Hnin).
  apply (Inv_mono b (b + 1)) in HI; [|lia].
  pose proof (Inv_upd_vok _ _ _ _ _ HI Hi HV) as HI2.
  apply (Inv_camp_insert (b + 1) (add_net _ (add_votes _ (upd_node i s' c)))).
  - apply Inv_add_net.
    + eapply Inv_add_vote; [exact HI2|apply lookup_insert_eq|by rewrite Hct|].
      rewrite Hid. by apply id_of_nonempty.
    + intros m (p & -> & _)%list_elem_of_fmap. simpl. rewrite Hrt, Hrc.
      split_and!; [done| |lia|done|apply HN]. split; [|u64]. unfold is_u64 in Hu. lia.
  - simpl. rewrite Hid. split_and!; [done|done|set_solver|by rewrite Hq, Hlen|by rewrite Hpe|].
    exists []. split_and!.
    + apply NoDup_singleton.
    + set_solver.
    + set_solver.
    + rewrite Hv. unfold zlen. simpl. lia.
    + by rewrite Hpe.
    + set_solver.
Qed.

Lemma step_vote_req_Inv b c src dst req env s r s' :
  b ≤ u64_max → Inv b c → MVoteReq src dst req ∈ cl_net c → cl_nodes c !! dst = Some s →
  RequestVote env req s = (r, s') →
  Inv b (add_net (match r with Ok rep => [MVoteRep dst src (rv_Term req) rep] | Err _ => [] end)
      (add_votes (vote_of dst req r) (upd_node dst s' c))).
Proof.
  intros Hm HI Hmsg Hi HE. destruct (node_facts _ _ _ _ HI Hi) as (Him & Hid & HP & HN & Hu & Hb).
  destruct (inv_net _ _ HI _ Hmsg) as (Hsrc & Hru & Hrb & Hrc & Hnm).
  pose proof (VOK_RequestVote (n_dataDir s.1) b env req Hru Hrb Hnm s eq_refl) as HV.
  rewrite HE in HV. cbn [snd] in HV.
  pose proof (Inv_upd_vok _ _ _ _ _ HI Hi HV) as HI2.
  destruct r as [rep|e]; [|by apply Inv_add_net; [apply Inv_add_no_votes|set_solver]].
  pose proof (RequestVote_reply_term _ _ _ _ _ HE) as Hrt.
  assert (Hs' : NI s' ∧ n_currentTerm s'.1 ≤ b).
  { destruct (node_facts b _ dst s' HI2) as (_ & _ & _ & ? & _ & ?); [apply lookup_insert_eq|done]. }
  destruct Hs' as [[Hu' _] Hb'].
  apply Inv_add_net.
  - unfold vote_of. destruct (rvr_VoteGranted rep) eqn:Eg; [|by apply Inv_add_no_votes].
    destruct (RequestVote_granted _ _ _ _ _ HE Eg Hru Hu Hnm) as (Hd & _).
    eapply Inv_add_vote; [exact HI2|apply lookup_insert_eq|exact Hd|].
    rewrite Hrc. by apply id_of_nonempty.
  - intros m Hin. apply list_elem_of_singleton in Hin as ->. simpl. rewrite Hrt. split_and!; [done..|].
    unfold vote_of. intros ->. rewrite Hrc. set_solver.
Qed.

Lemma wins_campaign vs i t ca Q :
  NoDup (i :: Q) → i ∈ members → Q ⊆ members → ca_quorum ca = quorumSize (zlen members) →
  ca_quorum ca ≤ 1 + zlen Q → (i, t, id_of i) ∈ vs → (∀ v, v ∈ Q → (v, t, id_of i) ∈ vs) →
  wins vs i t.
Proof.
  intros ?? HQ Hq Hle Hi Hv. exists (i :: Q). rewrite zlen_cons. split_and!; [done| |lia|].
  - intros x [->|?]%elem_of_cons; auto.
  - intros v [->|?]%elem_of_cons; auto.
Qed.

Lemma step_vote_rep_Inv b c peer i t reply ca s ca' s' :
  b ≤ u64_max → Inv b c → MVoteRep peer i t reply ∈ cl_net c →
  cl_campaigns c !! (i, t) = Some ca → peer ∈ ca_pending ca → cl_nodes c !! i = Some s →
  handleVoteReply ca reply s = (Ok ca', s') →
  Inv b (set_campaigns (<[(i, t) := ca_drop peer ca']> (cl_campaigns c)) (upd_node i s' c)).
Proof.
  intros Hm HI Hmsg Hca Hpend Hi HE.
  destruct (inv_net _ _ HI _ Hmsg) as (Hpm & Hru & Hrb & Hgr).
  destruct (inv_camp _ _ HI _ _ _ Hca) as (Hct & Him & Hself & Hq & Hnd & Q & HQ1 & HQ2 & HQ3 & HQ4 & HQ5 & HQ6).
  destruct (handleVoteReply_spec b ca reply s _ s' Hru Hrb HE)
    as (? & [= <-] & Ht' & Hq' & Hp' & Hvotes & Hcase).
  assert (HdropQ : ∀ v (Q' : list string), (v ∈ Q' → v = peer ∨ v ∈ Q) → v ∈ Q' → v ∉ ca_pending (ca_drop peer ca')).
  { intros v Q' HvQ Hv. unfold ca_drop. simpl. rewrite list_elem_of_filter, Hp'.
    intros [? ?]. destruct (HvQ Hv) as [->|?]; [done|]. by eapply HQ3. }
  assert (Hpi : peer ≠ i) by (intros ->; done).
  assert (HpQ : peer ∉ Q) by (intros ?; by eapply HQ3).
  assert (HQ' : ca_votes ca' = ca_votes ca + 1 → rvr_VoteGranted reply = true →
    NoDup (i :: peer :: Q) ∧ peer :: Q ⊆ members ∧ (∀ v, v ∈ peer :: Q → (v, t, id_of i) ∈ cl_votes c)
    ∧ ca_votes ca' ≤ 1 + zlen (peer :: Q)).
  { intros Hv Hg. apply NoDup_cons in HQ1 as [HiQ HQn]. split_and!.
    - apply NoDup_cons. split; [set_solver|]. by apply NoDup_cons.
    - intros x [->|?]%elem_of_cons; auto.
    - intros v [->|?]%elem_of_cons; auto.
    - rewrite zlen_cons. lia. }
  apply (Inv_camp_insert b (upd_node i s' c)).
  - destruct Hcase as [HV|(HC & Hct' & Hwin & Hg & Hv1)]; [by eapply Inv_upd_vok|].
    eapply Inv_upd_crowned; eauto. rewrite Hct', Hct. destruct (HQ' Hv1 Hg) as (? & ? & ? & ?).
    eapply wins_campaign; eauto. lia.
  - cbn [upd_node cl_votes]. unfold camp_ok.
    split_and!; [by simpl; rewrite Ht'|done|done|by simpl; rewrite Hq'| |].
    { simpl. rewrite Hp'. by apply NoDup_filter. }
    assert (Hni : i ∉ ca_pending (ca_drop peer ca')).
    { simpl. rewrite Hp', list_elem_of_filter. intros [_ ?]. done. }
    destruct Hvotes as [Hv0|[Hg Hv1]].
    + exists Q. split_and!; auto; [|simpl; lia]. intros v Hv. eapply (HdropQ v Q); auto.
    + destruct (HQ' Hv1 Hg) as (? & ? & ? & ?). exists (peer :: Q). split_and!; auto.
      intros v Hv. eapply (HdropQ v (peer :: Q)); [|done]. set_solver.
Qed.

Lemma step_Inv b c c' : b + 1 ≤ u64_max → Inv b c → step c c' → Inv (b + 1) c'.
Proof.
  intros Hm HI Hstep.
  assert (HI1 : Inv (b + 1) c) by (eapply Inv_mono; [|exact HI]; lia).
  destruct Hstep as [c i env s s' Hi HE|c i env s s' ca req Hi HE|c i t ca n d Hi Hca Hp
    |c src dst req env s r s' Hmsg Hi HE|c peer i t reply ca s ca' s' Hmsg Hca Hpe Hi HE
    |c i s term reqs Hi HE|c src dst term o env s r s' Hmsg Hi HE
    |c peer i term o reply s r s' Hmsg Hi HE|c i op s r s' Hi HE|c i n d d' Hi HE
    |c i n d d1 cfg s' Hi Hcr Hcfg HB].
  - destruct (node_facts _ _ _ _ HI Hi) as (_ & _ & _ & HN & Hu & Hb).
    destruct (startElection_spec (b + 1) env s _ s' Hu ltac:(lia) Hm ltac:(apply HN) HE) as (HV & _).
    by eapply Inv_upd_vok.
  - by eapply step_campaign_Inv.
  - destruct (inv_camp _ _ HI1 _ _ _ Hca) as (Hct & Him & Hself & Hq & _ & Q & HQ1 & HQ2 & _ & HQ4 & _ & HQ6).
    destruct (electionSelfQuorum_spec ca n d) as [HC [->|[Hle Hc]]];
      [eapply Inv_upd_vok; [done|done|apply vok_refl]|].
    eapply Inv_upd_crowned; [done|done|exact HC|]. simpl. rewrite Hc, Hct.
    eapply wins_campaign; eauto. lia.
  - by eapply step_vote_req_Inv.
  - by eapply step_vote_rep_Inv.
  - destruct (node_facts _ _ _ _ HI1 Hi) as (_ & _ & _ & _ & Hu & Hb).
    pose proof (broadcast_term _ _ _ HE) as Hts. rewrite Forall_forall in Hts.
    apply Inv_add_net; [done|]. intros m (o & -> & Ho)%list_elem_of_fmap. simpl. by rewrite (Hts o Ho).
  - destruct (inv_net _ _ HI1 _ Hmsg) as (Hru & Hrb).
    pose proof (VOK_AppendEntries (n_dataDir s.1) (b + 1) env (o_req o) Hru Hrb s eq_refl) as HV.
    rewrite HE in HV. cbn [snd] in HV. pose proof (Inv_upd_vok _ _ _ _ _ HI1 Hi HV) as HI2.
    apply Inv_add_net; [done|]. intros m Hin. destruct r as [rep|e]; [|by apply elem_of_nil in Hin].
    apply list_elem_of_singleton in Hin as ->. simpl. rewrite (AppendEntries_reply_term _ _ _ _ _ HE).
    destruct (node_facts _ _ dst s' HI2) as (_ & _ & _ & _ & ? & ?); [apply lookup_insert_eq|done].
  - destruct (inv_net _ _ HI1 _ Hmsg) as (Hru & Hrb).
    pose proof (VOK_sendAndHandle (n_dataDir s.1) (b + 1) term o reply Hru Hrb s eq_refl) as HV.
    rewrite HE in HV. by eapply Inv_upd_vok.
  - pose proof (VOK_run_local (n_dataDir s.1) (b + 1) op s eq_refl) as HV.
    rewrite HE in HV. by eapply Inv_upd_vok.
  - eapply Inv_upd_vok; [done|done|]. pose proof (vl_env (n_dataDir n) _ _ HE) as Hv.
    unfold vok, NI, promised, disk_vote. simpl. rewrite Hv. split_and!; auto; [done|lia].
  - apply Inv_set_campaigns.
    + destruct Hcfg as (C1 & C2 & C3 & C4). destruct (boots_vote _ _ _ HB)
        as (Hv1 & Hv2 & E1 & E2 & E3 & E4 & E5 & E6 & E7). rewrite C3 in *. unfold crash in Hcr.
      destruct (node_facts _ _ _ _ HI1 Hi) as (_ & _ & _ & HN & _ & Hb).
      pose proof HN as (Hu & _ & Hnm & dt & dv & Hd & Hle & _). unfold disk_vote in Hd. simpl in *.
      assert (dt = n_currentTerm s'.1 ∧ dv = n_votedFor s'.1) as [-> ->] by (split; congruence).
      eapply Inv_upd; [done|exact Hi|unfold same_static; simpl; split_and!; congruence|lia| |congruence].
      intros _. split.
      * split; [u64|]. split; [done|]. split; [split; [done|rewrite E1, C1; apply Hnm]|]. exists (n_currentTerm s'.1), (n_votedFor s'.1).
        unfold disk_vote. rewrite E3, Hv1. split_and!; auto; lia.
      * intros t v _ (dt & dv & Hd' & Hor). exists dt, dv. unfold disk_vote in *. simpl in *.
        by rewrite E3, Hv1, Hcr.
    + intros j t ca. rewrite map_lookup_filter_Some. intros [Hca _]. by apply (inv_camp _ _ HI1).
Qed.

Lemma init_Inv c : init c → Inv 0 c.
Proof.
  intros (Hn & Hc & Hnet & Hv). constructor; rewrite ?Hc, ?Hnet, ?Hv.
  - intros i s Hi. destruct (Hn i s Hi) as (? & ? & ? & ? & ? & Ht & ?). rewrite Ht.
    split; [split_and!; done|lia].
  - intros i t v Hin. by apply elem_of_nil in Hin.
  - intros i t v v' Hin. by apply elem_of_nil in Hin.
  - intros m Hin. by apply elem_of_nil in Hin.
  - intros i t ca. rewrite lookup_empty. done.
  - intros i s Hi HL. destruct (Hn i s Hi) as (? & ? & ? & ? & ? & ? & Hr). congruence.
Qed.

Lemma reach_Inv k c : reach k c → Z.of_nat k ≤ u64_max → Inv (Z.of_nat k) c.
Proof.
  induction 1 as [c Hc|k c c' Hr IH Hs]; intros Hk; [by apply init_Inv|].
  replace (Z.of_nat (S k)) with (Z.of_nat k + 1) in * by lia.
  eapply step_Inv; [done| |exact Hs]. apply IH. lia.
Qed.

Lemma steps_votes k c c' : steps k c c' → cl_votes c ⊆ cl_votes c'.
Proof.
  induction 1 as [c|k c c' c'' _ IH Hs]; [done|]. etrans; [exact IH|].
  destruct Hs; simpl; set_solver.
Qed.

Lemma reach_steps j k c c' : reach j c → steps k c c' → reach (j + k) c'.
Proof.
  intros Hr Hs. induction Hs as [c|k c c' c'' _ IH Hs]; [by rewrite Nat.add_0_r|].
  rewrite Nat.add_succ_r. econstructor; eauto.
Qed.

(** A leader holds the votes of its term in every later state. *)
Lemma leader_wins j k c c' (i : string) s :
  reach j c → steps k c c' → Z.of_nat (j + k) ≤ u64_max → cl_nodes c !! i = Some s → n_role s.1 = Leader →
  i ∈ members ∧ wins (cl_votes c') i (n_currentTerm s.1).
Proof.
  intros Hr Hs Hk Hi HL. pose proof (reach_Inv _ _ Hr ltac:(lia)) as HI.
  destruct (node_facts _ _ _ _ HI Hi) as (Him & _). split; [done|].
  eapply wins_mono; [by eapply steps_votes|]. by apply (inv_lead _ _ HI).
Qed.

(** C1.  Election safety: if node [i] is leader of a term in some reachable
    state of the cluster and node [j] is leader of the same term in the same
    or any later state, they are the same node.  Storage calls may fail at
    any point, messages may be lost, delayed and repeated, and nodes may
    crash and restart, losing anything on disk but state.json, which SaveState
    does not fsync and which a power failure may therefore undo
    ([power_loss_double_vote]); the number of steps is at most 2^64 - 1. *)
Theorem election_safety j k c c' (i i' : string) s s' :
  reach j c → steps k c c' → Z.of_nat (j + k) ≤ u64_max →
  cl_nodes c !! i = Some s → cl_nodes c' !! i' = Some s' →
  n_role s.1 = Leader → n_role s'.1 = Leader → n_currentTerm s.1 = n_currentTerm s'.1 →
  i = i'.
Proof.
  intros Hr Hs Hk Hi Hi' HL HL' Ht.
  pose proof (reach_steps _ _ _ _ Hr Hs) as Hr'. pose proof (reach_Inv _ _ Hr' Hk) as HI'.
  destruct (leader_wins j k c c' i s Hr Hs Hk Hi HL) as [Him Hw].
  destruct (leader_wins (j + k) 0 c' c' i' s' Hr' ltac:(constructor) ltac:(lia) Hi' HL') as [Him' Hw'].
  rewrite Ht in Hw. exact (wins_unique (cl_votes c') i i' _ (inv_uniq _ _ HI') Him Him' Hw Hw').
Qed.

(** C15.  A granted vote is durable: once a voter has answered a request with
    VoteGranted, its state.json holds that term and candidate, or a later
    term, in every later state of the cluster, through storage faults and
    through restarts after crashes that leave state.json as SaveState wrote it
    (not those that undo the write, which is not fsync'd:
    [power_loss_double_vote]). *)
Theorem vote_durable j k c c' voter t cand :
  reach j c → steps k c c' → Z.of_nat (j + k) ≤ u64_max → (voter, t, cand) ∈ cl_votes c →
  ∃ s, cl_nodes c' !! voter = Some s ∧ promised s t cand.
Proof.
  intros Hr Hs Hk Hv. pose proof (reach_Inv _ _ (reach_steps _ _ _ _ Hr Hs) Hk) as HI'.
  destruct (inv_votes _ _ HI' voter t cand) as (_ & ?); [|done]. by eapply steps_votes.
Qed.

End safety.
