(* ===== verification/RaftSpec.v ===== *)
(** * The specification of log replication

    An abstract Raft, without messages, roles or files: the term and the log
    of every node, and histories.  [sp_lead t] is the log of the leader
    of term t, as far as it got; [sp_elog t] the log it was elected with;
    [sp_vrecs] the logs of the voters when they voted; [sp_acks] the logs
    that were accepted; [sp_known t] how far the leader of term t has found
    its log committed.  Log matching, leader completeness and the agreement
    of committed logs are proved of this system; RaftRefine shows that the
    nodes of internal/raft implement it. *)

From stdpp Require Import functions.
From S2P Require Import Prelude Pb RaftNode RaftCluster.

Record Spec : Type := MkSpec {
  sp_term : string → Z;
  sp_log : string → list LogEntry;
  sp_lead : Z → option (list LogEntry);
  sp_elog : Z → list LogEntry;
  sp_vrecs : list (string * Z * list LogEntry);
  sp_acks : list (string * Z * list LogEntry);
  sp_known : Z → Z
}.

(** ** Steps *)

Definition sp_set_term (v : string) (t : Z) (a : Spec) : Spec :=
  MkSpec (<[v := t]> (sp_term a)) (sp_log a) (sp_lead a) (sp_elog a) (sp_vrecs a) (sp_acks a) (sp_known a).
Definition sp_set_log (v : string) (l : list LogEntry) (a : Spec) : Spec :=
  MkSpec (sp_term a) (<[v := l]> (sp_log a)) (sp_lead a) (sp_elog a) (sp_vrecs a) (sp_acks a) (sp_known a).
Definition sp_set_lead (t : Z) (l : list LogEntry) (a : Spec) : Spec :=
  MkSpec (sp_term a) (sp_log a) (<[t := Some l]> (sp_lead a)) (sp_elog a) (sp_vrecs a) (sp_acks a) (sp_known a).
Definition sp_set_elog (t : Z) (l : list LogEntry) (a : Spec) : Spec :=
  MkSpec (sp_term a) (sp_log a) (sp_lead a) (<[t := l]> (sp_elog a)) (sp_vrecs a) (sp_acks a) (sp_known a).
Definition sp_add_vrec (x : string * Z * list LogEntry) (a : Spec) : Spec :=
  MkSpec (sp_term a) (sp_log a) (sp_lead a) (sp_elog a) (x :: sp_vrecs a) (sp_acks a) (sp_known a).
Definition sp_add_ack (x : string * Z * list LogEntry) (a : Spec) : Spec :=
  MkSpec (sp_term a) (sp_log a) (sp_lead a) (sp_elog a) (sp_vrecs a) (x :: sp_acks a) (sp_known a).

Definition sp_set_known (t k : Z) (a : Spec) : Spec :=
  MkSpec (sp_term a) (sp_log a) (sp_lead a) (sp_elog a) (sp_vrecs a) (sp_acks a) (<[t := k]> (sp_known a)).

Definition last_term (l : list LogEntry) : Z :=
  match last l with None => 0 | Some e => e_Term e end.

(** [l] is at least as up to date as [l']. *)
Definition up_to_date (l l' : list LogEntry) : Prop :=
  last_term l' < last_term l ∨ (last_term l' = last_term l ∧ (length l' ≤ length l)%nat).

(** Accepting the leader's log [l]: keep what extends it, else take it. *)
Definition adopt (l mine : list LogEntry) : list LogEntry :=
  if decide (l `prefix_of` mine) then mine else l.

Section spec.
Context `{MB : Membership} `{!MembershipOk}.

Definition quorum (Q : list string) : Prop :=
  NoDup Q ∧ Q ⊆ members ∧ quorumSize (zlen members) ≤ zlen Q.

Definition owned (P : list LogEntry) (t : Z) : Prop := ∃ e, last P = Some e ∧ e_Term e = t.

(** [P], a log of the leader of term [t] that ends in an entry of that term,
    is held by a majority. *)
Definition committed (a : Spec) (t : Z) (P : list LogEntry) : Prop :=
  owned P t ∧ (∃ L, sp_lead a t = Some L ∧ P `prefix_of` L) ∧
  ∃ Q, quorum Q ∧ ∀ v, v ∈ Q → ∃ P', (v, t, P') ∈ sp_acks a ∧ P `prefix_of` P'.

Inductive spec_step : Spec → Spec → Prop :=
| spec_term v t a :
    sp_term a v ≤ t → spec_step a (sp_set_term v t a)
| spec_vote v t a :
    sp_term a v ≤ t → sp_lead a t = None →
    spec_step a (sp_add_vrec (v, t, sp_log a v) (sp_set_term v t a))
| spec_elect i a Q :
    0 < sp_term a i → sp_lead a (sp_term a i) = None → quorum Q →
    (∀ v, v ∈ Q → ∃ l, (v, sp_term a i, l) ∈ sp_vrecs a ∧ up_to_date (sp_log a i) l) →
    spec_step a (sp_set_lead (sp_term a i) (sp_log a i)
      (sp_set_elog (sp_term a i) (sp_log a i) a))
| spec_append i e a :
    sp_lead a (sp_term a i) = Some (sp_log a i) → e_Term e = sp_term a i →
    spec_step a (sp_set_lead (sp_term a i) (sp_log a i ++ [e])
      (sp_set_log i (sp_log a i ++ [e]) a))
| spec_accept v t l L a :
    sp_term a v ≤ t → sp_lead a t = Some L → l `prefix_of` L →
    spec_step a (sp_add_ack (v, t, l)
      (sp_set_log v (adopt l (sp_log a v)) (sp_set_term v t a)))
| spec_commit t k P a :
    committed a t P → sp_known a t ≤ k ≤ zlen P → spec_step a (sp_set_known t k a).

Inductive spec_steps : Spec → Spec → Prop :=
| spec_refl a : spec_steps a a
| spec_trans a1 a2 a3 : spec_steps a1 a2 → spec_step a2 a3 → spec_steps a1 a3.

(** ** The invariant *)

(** Every prefix of [l] is a prefix of the log of the leader that created its
    last entry. *)
Definition good (a : Spec) (l : list LogEntry) : Prop :=
  ∀ k e, l !! k = Some e → ∃ L, sp_lead a (e_Term e) = Some L ∧ take (S k) l `prefix_of` L.

(** A leader of a term in (lo, hi] does not have [P]. *)
Definition overridden (a : Spec) (lo hi : Z) (P : list LogEntry) : Prop :=
  ∃ t L, sp_lead a t = Some L ∧ lo < t ≤ hi ∧ ¬ P `prefix_of` L.

Record lead_ok (a : Spec) (t : Z) (L : list LogEntry) : Prop := {
  lo_pos : 0 < t;
  lo_good : good a L;
  lo_pre : sp_elog a t `prefix_of` L;
  lo_old : ∀ e, e ∈ sp_elog a t → e_Term e < t;
  lo_new : ∀ k e, L !! k = Some e → (length (sp_elog a t) ≤ k)%nat → e_Term e = t;
  lo_votes : ∃ Q, quorum Q ∧
    ∀ v, v ∈ Q → ∃ l, (v, t, l) ∈ sp_vrecs a ∧ up_to_date (sp_elog a t) l
}.

Record SInv (a : Spec) : Prop := {
  si_lead : ∀ t L, sp_lead a t = Some L → lead_ok a t L;
  si_log : ∀ v, good a (sp_log a v);
  si_terms : ∀ v e, e ∈ sp_log a v → e_Term e ≤ sp_term a v;
  si_acks : ∀ v t P, (v, t, P) ∈ sp_acks a →
    t ≤ sp_term a v ∧ (∃ L, sp_lead a t = Some L ∧ P `prefix_of` L) ∧
    ∀ P', P' `prefix_of` P → owned P' t →
      P' `prefix_of` sp_log a v ∨ overridden a t (sp_term a v) P';
  si_vrecs : ∀ v t l, (v, t, l) ∈ sp_vrecs a →
    t ≤ sp_term a v ∧ good a l ∧
    ∀ t0 P P', (v, t0, P) ∈ sp_acks a → t0 < t → P' `prefix_of` P → owned P' t0 →
      P' `prefix_of` l ∨ overridden a t0 (t - 1) P';
  si_known : ∀ t, sp_lead a t = None → sp_known a t = 0
}.

(** ** Logs of leaders *)

Lemma take_prefix_of {A} k (l l' : list A) :
  l `prefix_of` l' → (k ≤ length l)%nat → take k l' = take k l.
Proof. intros [m ->] Hk. by rewrite take_app_le by lia. Qed.

Lemma prefix_length_le {A} (P l L : list A) :
  P `prefix_of` L → l `prefix_of` L → (length P ≤ length l)%nat → P `prefix_of` l.
Proof.
  intros HP Hl Hle. destruct (prefix_weak_total _ _ _ HP Hl) as [?|Hr]; [done|].
  assert (l = P) as ->; [|done]. apply prefix_length_eq; [done|]. done.
Qed.

Lemma good_prefix a l l' : l `prefix_of` l' → good a l' → good a l.
Proof.
  intros Hp Hg k e He. pose proof (lookup_lt_Some _ _ _ He).
  destruct (Hg k e) as (L & HL & HP); [by eapply prefix_lookup_Some|]. exists L. split; [done|].
  rewrite <- (take_prefix_of (S k) l l'); [done|done|lia].
Qed.

Lemma good_last a l e :
  good a l → last l = Some e → ∃ L, sp_lead a (e_Term e) = Some L ∧ l `prefix_of` L.
Proof.
  intros Hg. rewrite last_lookup. intros He. destruct (Hg _ _ He) as (L & HL & HP).
  exists L. split; [done|]. pose proof (lookup_lt_Some _ _ _ He).
  by rewrite take_ge in HP by lia.
Qed.

Lemma lead_terms a t L e : lead_ok a t L → e ∈ L → e_Term e ≤ t.
Proof.
  intros HL [k Hk]%list_elem_of_lookup.
  destruct (decide (length (sp_elog a t) ≤ k)%nat) as [Hle|Hgt].
  { by rewrite (lo_new _ _ _ HL k e Hk Hle). }
  assert (e_Term e < t); [|lia]. apply (lo_old _ _ _ HL). apply list_elem_of_lookup. exists k.
  rewrite (prefix_lookup_lt _ L); [done|lia|apply HL].
Qed.

(** Terms never decrease along a good log. *)
Lemma good_sorted a l k k' e e' :
  SInv a → good a l → l !! k = Some e → l !! k' = Some e' → (k ≤ k')%nat → e_Term e ≤ e_Term e'.
Proof.
  intros HI Hg He He' Hle. destruct (Hg k' e' He') as (L & HL & HP).
  eapply lead_terms; [by apply (si_lead a HI)|]. apply list_elem_of_lookup. exists k.
  eapply prefix_lookup_Some; [|exact HP]. by rewrite lookup_take_lt by lia.
Qed.

Lemma good_last_le a l e e' :
  SInv a → good a l → e ∈ l → last l = Some e' → e_Term e ≤ e_Term e'.
Proof.
  intros HI Hg [k Hk]%list_elem_of_lookup. rewrite last_lookup. intros Hl.
  eapply good_sorted; [done..|]. pose proof (lookup_lt_Some _ _ _ Hk). lia.
Qed.

(** Log matching: two good logs with an entry of the same index and term
    agree up to that entry. *)
Lemma good_match a l l' k e e' :
  good a l → good a l' → l !! k = Some e → l' !! k = Some e' → e_Term e = e_Term e' →
  take (S k) l = take (S k) l'.
Proof.
  intros Hg Hg' He He' Ht. destruct (Hg k e He) as (L & HL & HP).
  destruct (Hg' k e' He') as (L' & HL' & HP'). rewrite Ht in HL. simplify_eq.
  pose proof (lookup_lt_Some _ _ _ He). pose proof (lookup_lt_Some _ _ _ He').
  apply prefix_length_eq; [eapply prefix_length_le; [done..|]|]; rewrite !length_take; lia.
Qed.

(** ** Leader completeness *)

Lemma quorums_meet Q Q' : quorum Q → quorum Q' → ∃ v, v ∈ Q ∧ v ∈ Q'.
Proof.
  intros (N1 & S1 & L1) (N2 & S2 & L2). apply (quorum_intersection members Q Q'); try done.
  { apply members_nodup. }
  unfold quorumSize, zlen in *.
  pose proof (Z.quot_div_nonneg (Z.of_nat (length members)) 2).
  pose proof (Z.div_mod (Z.of_nat (length members)) 2).
  pose proof (Z.mod_pos_bound (Z.of_nat (length members)) 2). lia.
Qed.

(** A log at least as up to date as one that has [P] has [P] too, if every
    leader in between has it. *)
Lemma up_to_date_has a t t' P E l :
  SInv a → owned P t → 0 < t → good a E → good a l →
  (∀ e, e ∈ E → e_Term e < t') →
  (∀ t2 L2, sp_lead a t2 = Some L2 → t < t2 < t' → P `prefix_of` L2) →
  P `prefix_of` l → up_to_date E l → P `prefix_of` E.
Proof.
  intros HI (eP & HeP & HtP) Ht HgE Hgl HE HB HP Hu.
  assert (HPin : eP ∈ P) by (by apply last_Some_elem_of).
  assert (Hin : eP ∈ l) by (by eapply elem_of_prefix).
  destruct (last l) as [el|] eqn:Hel; [|by apply last_None in Hel; subst; inversion Hin].
  pose proof (good_last_le a l eP el HI Hgl Hin Hel) as Hle.
  unfold up_to_date, last_term in Hu. rewrite Hel in Hu.
  destruct (last E) as [eE|] eqn:HeE; [|lia].
  destruct (good_last _ _ _ HgE HeE) as (LE & HLE & HpE).
  destruct (good_last _ _ _ Hgl Hel) as (Ll & HLl & Hpl).
  destruct Hu as [Hu|[Hu Hlen]].
  - assert (HPL : P `prefix_of` LE).
    { apply (HB (e_Term eE)); [done|]. split; [lia|]. apply HE. by apply last_Some_elem_of. }
    destruct (prefix_weak_total _ _ _ HPL HpE) as [?|HEP]; [done|].
    pose proof (good_prefix a P l HP Hgl) as HgP.
    assert (eE ∈ P) by (eapply elem_of_prefix; [by apply last_Some_elem_of|done]).
    pose proof (good_last_le a P eE eP HI HgP ltac:(done) HeP). lia.
  - rewrite Hu in HLl. simplify_eq. etrans; [exact HP|]. by eapply prefix_length_le.
Qed.

(** Leader completeness: what is committed in term [t] is in the log of every
    later leader. *)
Lemma leader_complete a t P t' L' :
  SInv a → committed a t P → sp_lead a t' = Some L' → t < t' → P `prefix_of` L'.
Proof.
  intros HI HC. assert (Ht : 0 < t).
  { destruct HC as (_ & (L & HL & _) & _). apply (lo_pos _ _ _ (si_lead a HI _ _ HL)). }
  revert L'. induction (Z.lt_wf 0 t') as [t' _ IH]. intros L' HL' Htt.
  pose proof (si_lead a HI _ _ HL') as Hok.
  destruct HC as (Hown & (L & HL & HPL) & Q & HQ & Hacks).
  destruct (lo_votes _ _ _ Hok) as (Qv & HQv & Hv).
  destruct (quorums_meet _ _ HQ HQv) as (v & Hin & Hinv).
  destruct (Hacks v Hin) as (P2 & HA & HPP). destruct (Hv v Hinv) as (l & Hr & Hu).
  destruct (si_vrecs a HI _ _ _ Hr) as (_ & Hgl & Hvr).
  assert (HB : ∀ t2 L2, sp_lead a t2 = Some L2 → t < t2 < t' → P `prefix_of` L2).
  { intros t2 L2 HL2 Hb. apply (IH t2); [lia|done|lia]. }
  etrans; [|exact (lo_pre _ _ _ Hok)].
  apply (up_to_date_has a t t' P _ l); try done.
  - eapply good_prefix; [apply Hok|apply Hok].
  - apply Hok.
  - destruct (Hvr t P2 P HA Htt HPP Hown) as [?|(t2 & L2 & HL2 & Hb & Hn)]; [done|].
    destruct Hn. apply (HB t2); [done|lia].
Qed.

(** Any two committed logs agree. *)
Lemma committed_agree a t t' P P' :
  SInv a → committed a t P → committed a t' P' → P `prefix_of` P' ∨ P' `prefix_of` P.
Proof.
  intros HI HC HC'.
  assert (Hlt : ∀ t t' P P', committed a t P → committed a t' P' → t < t' →
    P `prefix_of` P' ∨ P' `prefix_of` P).
  { clear t t' P P' HC HC'. intros t t' P P' HC HC' Hlt.
    destruct HC' as (Ho & (L' & HL' & HP') & ?). 
    pose proof (leader_complete a t P t' L' HI HC HL' Hlt) as HPL.
    by apply (prefix_weak_total _ _ L'). }
  destruct (Z.lt_trichotomy t t') as [?|[->|?]]; [eauto| |destruct (Hlt t' t P' P); eauto].
  destruct HC as (_ & (L & HL & HP) & _). destruct HC' as (_ & (L' & HL' & HP') & _).
  simplify_eq. by eapply prefix_weak_total.
Qed.

(** ** The histories only grow *)

Record grows (a a' : Spec) : Prop := {
  gr_term : ∀ v, sp_term a v ≤ sp_term a' v;
  gr_lead : ∀ t L, sp_lead a t = Some L →
    ∃ L', sp_lead a' t = Some L' ∧ L `prefix_of` L' ∧
      ∀ P t0, owned P t0 → t0 ≠ t → P `prefix_of` L' → P `prefix_of` L;
  gr_vrecs : sp_vrecs a ⊆ sp_vrecs a';
  gr_acks : sp_acks a ⊆ sp_acks a';
  gr_known : ∀ t, sp_known a t ≤ sp_known a' t
}.

#[export] Instance grows_preorder : PreOrder grows.
Proof.
  split.
  - intros a. split; [done| |done|done|done]. intros t L HL. eauto.
  - intros a1 a2 a3 [T1 L1 V1 A1 K1] [T2 L2 V2 A2 K2]. split.
    + intros v. etrans; [apply T1|apply T2].
    + intros t L HL. destruct (L1 t L HL) as (L' & HL' & Hp & Hb).
      destruct (L2 t L' HL') as (L'' & HL'' & Hp' & Hb').
      exists L''. split; [done|]. split; [by etrans|]. eauto.
    + by etrans.
    + by etrans.
    + intros t. etrans; [apply K1|apply K2].
Qed.

Lemma good_grows a a' l : grows a a' → good a l → good a' l.
Proof.
  intros Hgr Hg k e He. destruct (Hg k e He) as (L & HL & HP).
  destruct (gr_lead a a' Hgr _ _ HL) as (L' & HL' & Hp & _). exists L'. split; [done|by etrans].
Qed.

Lemma overridden_grows a a' lo hi hi' P :
  grows a a' → owned P lo → hi ≤ hi' → overridden a lo hi P → overridden a' lo hi' P.
Proof.
  intros Hgr Ho Hh (t & L & HL & Hb & Hn).
  destruct (gr_lead a a' Hgr _ _ HL) as (L' & HL' & Hp & Hk).
  exists t, L'. split; [done|]. split; [lia|]. intros HP. destruct Hn. apply (Hk P lo); [done|lia|done].
Qed.

Lemma committed_grows a a' t P : grows a a' → committed a t P → committed a' t P.
Proof.
  intros Hgr (Ho & (L & HL & HP) & Q & HQ & Hv). split; [done|]. split.
  - destruct (gr_lead a a' Hgr _ _ HL) as (L' & HL' & Hp & _). exists L'. split; [done|by etrans].
  - exists Q. split; [done|]. intros v Hin. destruct (Hv v Hin) as (P' & HA & ?).
    exists P'. split; [|done]. by apply (gr_acks a a' Hgr).
Qed.

Lemma prefix_snoc_owned (P l : list LogEntry) e t0 :
  owned P t0 → t0 ≠ e_Term e → P `prefix_of` l ++ [e] → P `prefix_of` l.
Proof.
  intros (x & Hx & Ht) Hne Hp. destruct (decide (length P ≤ length l)%nat) as [Hle|Hgt].
  - apply (prefix_length_le _ _ (l ++ [e])); [done|by apply prefix_app_r|done].
  - assert (P = l ++ [e]) as ->.
    { apply prefix_length_eq; [done|]. rewrite length_app. simpl. lia. }
    rewrite last_snoc in Hx. congruence.
Qed.

Lemma fn_insert_cases {B} (f : string → B) i j (x : B) :
  <[i := x]> f j = if decide (i = j) then x else f j.
Proof. by destruct (decide (i = j)) as [<-|?]; [rewrite fn_lookup_insert|rewrite fn_lookup_insert_ne]. Qed.

Lemma fn_insertZ_cases {B} (f : Z → B) i j (x : B) :
  <[i := x]> f j = if decide (i = j) then x else f j.
Proof. by destruct (decide (i = j)) as [<-|?]; [rewrite fn_lookup_insert|rewrite fn_lookup_insert_ne]. Qed.

Lemma step_grows a a' : spec_step a a' → grows a a'.
Proof.
  intros Hs. destruct Hs as [v t a Ht|v t a Ht Hn|i a Q Hp Hn HQ Hv|i e a HL He|v t l L a Ht HL Hl|t k P a HC Hk];
    split; simpl; try set_solver; try (intros w; rewrite ?fn_insert_cases; case_decide; subst; lia);
    try (intros t1 L1 HL1; eauto; fail).
  - intros t1 L1 HL1. rewrite fn_insertZ_cases. case_decide; [congruence|]. eauto.
  - intros t1 L1 HL1. rewrite fn_insertZ_cases. case_decide; [|eauto]. subst t1.
    rewrite HL in HL1. injection HL1 as <-. eexists. split; [done|]. split; [by apply prefix_app_r|].
    intros P t0 Ho Hne. apply (prefix_snoc_owned _ _ _ t0); [done|congruence].
  - intros t'. rewrite fn_insertZ_cases. case_decide; subst; lia.
Qed.

(** ** Every step keeps the invariant *)

Lemma lead_ok_grows a a' t L :
  grows a a' → sp_elog a' t = sp_elog a t → lead_ok a t L → lead_ok a' t L.
Proof.
  intros Hgr He [H1 H2 H3 H4 H5 (Q & HQ & Hv)]. split; rewrite ?He; try done.
  - by eapply good_grows.
  - exists Q. split; [done|]. intros v Hin. destruct (Hv v Hin) as (l & Hl & ?).
    exists l. split; [|done]. by apply (gr_vrecs a a' Hgr).
Qed.

(** The clauses about histories, for a step that does not shorten logs. *)
Lemma acks_grow a a' v t P :
  SInv a → grows a a' → (v, t, P) ∈ sp_acks a → sp_log a v `prefix_of` sp_log a' v →
  t ≤ sp_term a' v ∧ (∃ L, sp_lead a' t = Some L ∧ P `prefix_of` L) ∧
  ∀ P', P' `prefix_of` P → owned P' t →
    P' `prefix_of` sp_log a' v ∨ overridden a' t (sp_term a' v) P'.
Proof.
  intros HI Hgr HA Hl. destruct (si_acks a HI v t P HA) as (Ht & (L & HL & HP) & Hk).
  pose proof (gr_term a a' Hgr v). split; [lia|]. split.
  - destruct (gr_lead a a' Hgr _ _ HL) as (L' & HL' & ? & _). exists L'. split; [done|by etrans].
  - intros P' Hp Ho. destruct (Hk P' Hp Ho) as [?|?]; [left; by etrans|right].
    by eapply overridden_grows.
Qed.

Lemma vrecs_grow a a' v t l :
  SInv a → grows a a' → (v, t, l) ∈ sp_vrecs a →
  (∀ t0 P, (v, t0, P) ∈ sp_acks a' → t0 < t → (v, t0, P) ∈ sp_acks a) →
  t ≤ sp_term a' v ∧ good a' l ∧
  ∀ t0 P P', (v, t0, P) ∈ sp_acks a' → t0 < t → P' `prefix_of` P → owned P' t0 →
    P' `prefix_of` l ∨ overridden a' t0 (t - 1) P'.
Proof.
  intros HI Hgr HV HA. destruct (si_vrecs a HI v t l HV) as (Ht & Hg & Hk).
  pose proof (gr_term a a' Hgr v). split; [lia|]. split; [by eapply good_grows|].
  intros t0 P P' Hin Hlt Hp Ho. destruct (Hk t0 P P' (HA _ _ Hin Hlt) Hlt Hp Ho) as [?|?]; [by left|right].
  by eapply overridden_grows.
Qed.

Lemma SInv_term v t a : SInv a → sp_term a v ≤ t → SInv (sp_set_term v t a).
Proof.
  intros HI Ht. assert (Hgr : grows a (sp_set_term v t a)) by (by apply step_grows, spec_term).
  split; simpl.
  - intros t1 L1 HL1. eapply lead_ok_grows; [done|done|by apply HI].
  - intros w. eapply good_grows; [done|apply HI].
  - intros w e He. etrans; [by apply (si_terms a HI)|]. apply (gr_term _ _ Hgr).
  - intros w t1 P HA. by apply (acks_grow a (sp_set_term v t a)).
  - intros w t1 l HV. by apply (vrecs_grow a (sp_set_term v t a)).
  - apply HI.
Qed.

Lemma SInv_vote v t a :
  SInv a → sp_term a v ≤ t → sp_lead a t = None →
  SInv (sp_add_vrec (v, t, sp_log a v) (sp_set_term v t a)).
Proof.
  intros HI Ht Hn. pose proof (step_grows _ _ (spec_vote v t a Ht Hn)) as Hgr. split; simpl.
  - intros t1 L1 HL1. eapply lead_ok_grows; [done|done|by apply HI].
  - intros w. eapply good_grows; [done|apply HI].
  - intros w e He. etrans; [by apply (si_terms a HI)|]. apply (gr_term _ _ Hgr).
  - intros w t1 P HA. by apply (acks_grow a (sp_add_vrec (v, t, sp_log a v) (sp_set_term v t a))).
  - intros w t1 l [[= -> -> ->]|HV]%elem_of_cons; [|by apply (vrecs_grow a (sp_add_vrec (v, t, sp_log a v) (sp_set_term v t a)))].
    rewrite fn_lookup_insert. split; [done|]. split; [eapply good_grows; [done|apply HI]|].
    intros t0 P P' HA Hlt Hp Ho. destruct (si_acks a HI v t0 P HA) as (_ & _ & Hk).
    destruct (Hk P' Hp Ho) as [?|(t2 & L2 & HL2 & Hb & Hno)]; [by left|right].
    eapply (overridden_grows a); [done|done|reflexivity|]. exists t2, L2.
    split; [done|]. split; [|done]. destruct (decide (t2 = t)); [congruence|lia].
  - apply HI.
Qed.

Lemma SInv_elect i a Q :
  SInv a → 0 < sp_term a i → sp_lead a (sp_term a i) = None → quorum Q →
  (∀ v, v ∈ Q → ∃ l, (v, sp_term a i, l) ∈ sp_vrecs a ∧ up_to_date (sp_log a i) l) →
  SInv (sp_set_lead (sp_term a i) (sp_log a i) (sp_set_elog (sp_term a i) (sp_log a i) a)).
Proof.
  intros HI Hp Hn HQ Hv. pose proof (step_grows _ _ (spec_elect i a Q Hp Hn HQ Hv)) as Hgr.
  split; simpl.
  - intros t1 L1. rewrite fn_insertZ_cases. case_decide as Hd.
    + intros [= <-]. subst t1. split; simpl; rewrite ?fn_lookup_insert; try done.
      * eapply good_grows; [done|apply HI].
      * intros e He. pose proof (si_terms a HI i e He).
        apply list_elem_of_lookup in He as [k Hk]. destruct (si_log a HI i k e Hk) as (L & HL & _).
        destruct (decide (e_Term e = sp_term a i)); [congruence|lia].
      * intros k e Hk. pose proof (lookup_lt_Some _ _ _ Hk). lia.
      * by exists Q.
    + intros HL1. eapply lead_ok_grows; [done| |by apply HI].
      simpl. by rewrite fn_lookup_insert_ne.
  - intros w. eapply good_grows; [done|apply HI].
  - apply HI.
  - intros w t1 P HA. by apply (acks_grow a (sp_set_lead (sp_term a i) (sp_log a i) (sp_set_elog (sp_term a i) (sp_log a i) a))).
  - intros w t1 l HV. by apply (vrecs_grow a (sp_set_lead (sp_term a i) (sp_log a i) (sp_set_elog (sp_term a i) (sp_log a i) a))).
  - intros t1. rewrite fn_insertZ_cases. case_decide; [done|apply HI].
Qed.

Lemma good_snoc a l L e :
  good a l → sp_lead a (e_Term e) = Some L → l ++ [e] `prefix_of` L → good a (l ++ [e]).
Proof.
  intros Hg HL HP k x Hx. pose proof (lookup_lt_Some _ _ _ Hx) as Hlt. rewrite length_app in Hlt.
  destruct (decide (k < length l)%nat) as [Hk|Hk].
  - rewrite lookup_app_l in Hx by lia. destruct (Hg k x Hx) as (L1 & HL1 & HP1).
    exists L1. split; [done|]. by rewrite take_app_le by lia.
  - simpl in Hlt. assert (k = length l) as -> by lia. rewrite list_lookup_middle in Hx by done.
    injection Hx as <-. exists L. split; [done|]. rewrite take_ge; [done|]. rewrite length_app. simpl. lia.
Qed.

Lemma SInv_append i e a :
  SInv a → sp_lead a (sp_term a i) = Some (sp_log a i) → e_Term e = sp_term a i →
  SInv (sp_set_lead (sp_term a i) (sp_log a i ++ [e]) (sp_set_log i (sp_log a i ++ [e]) a)).
Proof.
  intros HI HL He. pose proof (step_grows _ _ (spec_append i e a HL He)) as Hgr.
  set (a' := sp_set_lead _ _ _) in *.
  assert (Hgood : good a' (sp_log a i ++ [e])).
  { eapply (good_snoc _ _ (sp_log a i ++ [e])); [eapply good_grows; [done|apply HI]| |done].
    simpl. by rewrite He, fn_lookup_insert. }
  assert (Hpre : ∀ w, sp_log a w `prefix_of` sp_log a' w).
  { intros w. simpl. rewrite fn_insert_cases. case_decide; [|done]. subst. by apply prefix_app_r. }
  split.
  - intros t1 L1. simpl. rewrite fn_insertZ_cases. case_decide as Hd.
    + intros [= <-]. subst t1. destruct (si_lead a HI _ _ HL) as [H1 H2 H3 H4 H5 H6].
      split; simpl; try done; [by etrans; [|apply prefix_app_r]|].
      intros k x Hx Hk. apply lookup_app_Some in Hx as [Hx|[_ Hx]]; [by eapply H5|].
      apply list_lookup_singleton_Some in Hx as [_ <-]. done.
    + intros HL1. by eapply lead_ok_grows, HI.
  - intros w. simpl. rewrite fn_insert_cases. case_decide; [done|]. eapply good_grows; [done|apply HI].
  - intros w x. simpl. rewrite fn_insert_cases. case_decide; [|apply HI]. subst w.
    rewrite elem_of_app, list_elem_of_singleton. intros [Hx| ->]; [by apply HI|lia].
  - intros w t1 P HA. by apply (acks_grow a).
  - intros w t1 l HV. by apply (vrecs_grow a).
  - intros t1. simpl. rewrite fn_insertZ_cases. case_decide; [done|apply HI].
Qed.

(** What a node holds that some leader acknowledged survives the adoption of
    a later leader's log, unless that leader lacks it. *)
Lemma adopt_keeps a t t0 P l L mine :
  sp_lead a t = Some L → l `prefix_of` L → P `prefix_of` mine → t0 ≤ t →
  (t0 = t → P `prefix_of` L) → P `prefix_of` adopt l mine ∨ overridden a t0 t P.
Proof.
  intros HL Hl HP Ht Heq. unfold adopt. case_decide as Hd; [by left|].
  assert (Hor : P `prefix_of` L ∨ overridden a t0 t P).
  { destruct (decide (P `prefix_of` L)); [by left|right]. exists t, L. split; [done|]. split; [|done].
    destruct (decide (t0 = t)) as [Hq|?]; [by specialize (Heq Hq)|lia]. }
  destruct Hor as [HPL|?]; [|by right]. left.
  destruct (prefix_weak_total _ _ _ HPL Hl) as [?|?]; [done|]. destruct Hd. by etrans.
Qed.

Lemma SInv_accept v t l L a :
  SInv a → sp_term a v ≤ t → sp_lead a t = Some L → l `prefix_of` L →
  SInv (sp_add_ack (v, t, l) (sp_set_log v (adopt l (sp_log a v)) (sp_set_term v t a))).
Proof.
  intros HI Ht HL Hl. pose proof (step_grows _ _ (spec_accept v t l L a Ht HL Hl)) as Hgr.
  set (a' := sp_add_ack _ _) in *. pose proof (si_lead a HI _ _ HL) as Hok.
  assert (Hgood : good a' (adopt l (sp_log a v))).
  { eapply good_grows; [done|]. unfold adopt. case_decide; [apply HI|].
    eapply good_prefix; [done|apply Hok]. }
  assert (Hnew : l `prefix_of` adopt l (sp_log a v)) by (unfold adopt; by case_decide).
  split.
  - intros t1 L1 HL1. by eapply lead_ok_grows, HI.
  - intros w. simpl. rewrite fn_insert_cases. case_decide; [done|]. eapply good_grows; [done|apply HI].
  - intros w e. simpl. rewrite !fn_insert_cases. case_decide; [|apply HI]. subst w.
    unfold adopt. case_decide; intros He; [pose proof (si_terms a HI v e He); lia|].
    eapply lead_terms; [done|]. by eapply elem_of_prefix.
  - intros w t1 P [[= -> -> ->]|HA]%elem_of_cons.
    + simpl. rewrite !fn_lookup_insert. split; [done|]. split; [by exists L|].
      intros P' Hp _. left. by etrans.
    + destruct (decide (v = w)) as [<-|Hne].
      * destruct (si_acks a HI v t1 P HA) as (Hb & (L1 & HL1 & HP1) & Hk).
        simpl. rewrite !fn_lookup_insert. split; [lia|]. split; [by exists L1|].
        intros P' Hp Ho. destruct (Hk P' Hp Ho) as [HP'|?]; [|right; by eapply overridden_grows].
        apply (adopt_keeps a' t t1 P' l L); [done|done|done|lia|].
        intros ->. simplify_eq. by etrans; [exact Hp|].
      * apply (acks_grow a); [done|done|done|]. simpl. by rewrite fn_lookup_insert_ne.
  - intros w t1 l1 HV. apply (vrecs_grow a); [done|done|done|].
    intros t0 P [[= -> -> ->]|HA]%elem_of_cons Hlt; [|done].
    destruct (si_vrecs a HI _ _ _ HV) as (Hb & _). lia.
  - apply HI.
Qed.

Lemma SInv_commit t k P a :
  SInv a → committed a t P → sp_known a t ≤ k ≤ zlen P → SInv (sp_set_known t k a).
Proof.
  intros HI HC Hk. pose proof (step_grows _ _ (spec_commit t k P a HC Hk)) as Hgr. split; simpl.
  - intros t1 L1 HL1. by eapply lead_ok_grows, HI.
  - intros w. eapply good_grows; [done|apply HI].
  - apply HI.
  - intros w t1 P1 HA. by apply (acks_grow a (sp_set_known t k a)).
  - intros w t1 l HV. by apply (vrecs_grow a (sp_set_known t k a)).
  - intros t1 Hn. rewrite fn_insertZ_cases. case_decide; [|by apply HI]. subst t1.
    destruct HC as (_ & (L & HL & _) & _). congruence.
Qed.

Lemma step_SInv a a' : SInv a → spec_step a a' → SInv a'.
Proof.
  intros HI Hs. destruct Hs; eauto using SInv_term, SInv_vote, SInv_elect, SInv_append, SInv_accept, SInv_commit.
Qed.

Lemma steps_SInv a a' : spec_steps a a' → SInv a → SInv a' ∧ grows a a'.
Proof.
  intros Hs HI. induction Hs as [a|a1 a2 a3 _ IH Hs]; [done|].
  destruct (IH HI) as [HI2 Hg]. split; [by eapply step_SInv|]. etrans; [done|by apply step_grows].
Qed.

End spec.
