(* ===== verification/RaftViews.v ===== *)
(** * What a compacted log still shows of the whole one

    A node that compacts up to some index keeps one anchor entry, without its
    command, in place of everything up to that index.  [view off l] is what
    it holds of the log [l] it would have had without compaction; [off] is its
    logOffset.  The lemmas say what the accessors and the merge of
    AppendEntries see through such a view. *)

From Stdlib Require Import Strings.Byte.
From S2P Require Import Prelude Pb Fs Persistence SnapshotFile Storage RaftNode RaftElection.
From S2P Require Import RaftReplication RaftLog RaftCommit RaftCluster RaftSpec.

(** The entry that stands for [e] and everything before it. *)
Definition anchored (e : LogEntry) : LogEntry := MkLogEntry (e_Term e) (e_Index e) [].

Definition view (off : Z) (l : list LogEntry) : list LogEntry :=
  if decide (off = 0) then l else
  match l !! Z.to_nat off with
  | Some e => anchored e :: drop (S (Z.to_nat off)) l
  | None => []
  end.

(** Nothing compacted, or the anchor is an entry of the log. *)
Definition in_view (off : Z) (l : list LogEntry) : Prop := off = 0 ∨ 0 < off < zlen l.

Lemma view_0 l : view 0 l = l.
Proof. done. Qed.

Lemma view_cons off l :
  off ≠ 0 → in_view off l →
  ∃ e, l !! Z.to_nat off = Some e ∧ view off l = anchored e :: drop (S (Z.to_nat off)) l.
Proof.
  intros Hne [?|Hb]; [done|]. unfold view. rewrite decide_False by done.
  destruct (lookup_lt_is_Some_2 l (Z.to_nat off)) as [e He]; [unfold zlen in *; lia|].
  exists e. by rewrite He.
Qed.

Lemma view_length off l : in_view off l → off + zlen (view off l) = zlen l.
Proof.
  intros Hv. destruct (decide (off = 0)) as [->|Hne]; [by rewrite view_0|].
  destruct (view_cons off l Hne Hv) as (e & He & ->). destruct Hv as [?|Hb]; [done|].
  rewrite zlen_cons, zlen_drop by (unfold zlen in *; lia). lia.
Qed.

(** Only the anchor differs, and it keeps its term and index. *)
Lemma view_lookup off l k e :
  in_view off l → view off l !! k = Some e →
  ∃ e', l !! (Z.to_nat off + k)%nat = Some e' ∧ e_Term e' = e_Term e ∧ e_Index e' = e_Index e ∧
    (off = 0 ∨ (0 < k)%nat → e' = e).
Proof.
  intros Hv. destruct (decide (off = 0)) as [->|Hne]; [rewrite view_0; by exists e|].
  destruct (view_cons off l Hne Hv) as (x & Hx & ->). destruct k as [|k]; simpl.
  - intros [= <-]. exists x. rewrite Nat.add_0_r. split_and!; try done. intros [?|?]; lia.
  - rewrite lookup_drop. intros He. exists e. split; [|done]. rewrite <- He. f_equal. lia.
Qed.

Lemma view_lookup_tail off l k :
  in_view off l → off = 0 ∨ (0 < k)%nat → view off l !! k = l !! (Z.to_nat off + k)%nat.
Proof.
  intros Hv Hk. destruct (decide (off = 0)) as [->|Hne]; [done|]. destruct Hk as [?|Hk]; [done|].
  destruct (view_cons off l Hne Hv) as (x & Hx & ->). destruct k as [|k]; [lia|]. simpl.
  rewrite lookup_drop. f_equal. lia.
Qed.

Lemma view_drop off l k :
  in_view off l → off = 0 ∨ (0 < k)%nat → drop k (view off l) = drop (Z.to_nat off + k) l.
Proof.
  intros Hv Hk. destruct (decide (off = 0)) as [->|Hne]; [done|]. destruct Hk as [?|Hk]; [done|].
  destruct (view_cons off l Hne Hv) as (x & Hx & ->). destruct k as [|k]; [lia|]. simpl.
  rewrite drop_drop. f_equal. lia.
Qed.

Lemma view_last_term off l : in_view off l → last_term (view off l) = last_term l.
Proof.
  intros Hv. destruct (decide (off = 0)) as [->|Hne]; [done|].
  destruct (view_cons off l Hne Hv) as (x & Hx & ->). rewrite <- (take_drop_middle l _ x Hx) at 2.
  unfold last_term. rewrite last_app_cons, !last_cons. by destruct (last (drop _ l)).
Qed.

Lemma view_app off l k : in_view off l → view off (l ++ k) = view off l ++ k.
Proof.
  intros Hv. destruct (decide (off = 0)) as [->|Hne]; [done|].
  destruct (view_cons off l Hne Hv) as (x & Hx & ->). unfold view. rewrite decide_False by done.
  rewrite (lookup_app_l_Some _ _ _ _ Hx). simpl. f_equal.
  apply drop_app_le. apply lookup_lt_Some in Hx. lia.
Qed.

Lemma in_view_le off l l' : in_view off l → zlen l ≤ zlen l' → in_view off l'.
Proof. intros [?|?] ?; [by left|right; lia]. Qed.

Lemma view_consecutive off l : in_view off l → consecutive 0 l → consecutive off (view off l).
Proof.
  intros Hv Hc k e He. destruct (view_lookup off l k e Hv He) as (e' & He' & _ & <- & _).
  rewrite (Hc _ _ He'). destruct Hv; lia.
Qed.

(** Compacting further compacts the view. *)
Lemma view_compact off off' l e :
  in_view off l → off < off' < zlen l → l !! Z.to_nat off' = Some e →
  anchored e :: drop (Z.to_nat (off' + 1 - off)) (view off l) = view off' l.
Proof.
  intros Hv Hb He. assert (0 ≤ off) by (destruct Hv; lia).
  rewrite view_drop by (done || right; lia). unfold view. rewrite decide_False by lia.
  rewrite He. do 2 f_equal. lia.
Qed.

(** ** Accessors *)

Section accessors.
Context {SM : Type} `{StateMachine SM}.
Implicit Types n : Node SM.

(** [n] holds the log [l] as far as it has not compacted it. *)
Definition shows_log n (l : list LogEntry) : Prop :=
  n_log n = view (n_logOffset n) l ∧ in_view (n_logOffset n) l ∧ consecutive 0 l.

Lemma shows_last n l : log_wf n → shows_log n l → lastLogIndexLocked n = zlen l.
Proof.
  intros Hw (E & Hv & _). rewrite lastLogIndex_spec, E by done. by apply view_length.
Qed.

Lemma shows_entry n l i e :
  log_wf n → shows_log n l → entryAtLocked n i = Some e →
  n_logOffset n < i ∧ ∃ e', l !! Z.to_nat (i - 1) = Some e' ∧ e_Term e' = e_Term e ∧
    (n_logOffset n = 0 ∨ n_logOffset n + 1 < i → e' = e).
Proof.
  intros Hw (E & Hv & _) [Hi He]%entryAt_Some; [|done]. rewrite E in He. split; [done|].
  destruct (view_lookup _ _ _ _ Hv He) as (e' & He' & Ht & _ & Hs). exists e'.
  pose proof Hw as (? & _). split; [rewrite <- He'; f_equal; lia|]. split; [done|].
  intros [?|?]; apply Hs; [by left|right; lia].
Qed.

Lemma shows_lookup n l i :
  log_wf n → shows_log n l → n_logOffset n = 0 ∨ n_logOffset n + 1 < i → 0 < i →
  entryAtLocked n i = l !! Z.to_nat (i - 1).
Proof.
  intros Hw (E & Hv & _) Hi Hp. rewrite entryAt_spec, E, (view_length _ _ Hv) by done.
  pose proof Hw as (? & _). case_decide as Hd.
  - rewrite view_lookup_tail; [f_equal; lia|done|]. destruct Hi; [by left|right; lia].
  - symmetry. apply lookup_ge_None. unfold zlen in *. lia.
Qed.

(** The entries an advancing commit index covers. *)
Lemma shows_segment n l a b :
  shows_log n l → n_logOffset n = 0 ∧ 0 ≤ a ∨ n_logOffset n < a →
  segment n a b = take (Z.to_nat (b - a)) (drop (Z.to_nat a) l).
Proof.
  intros (E & Hv & _) Ha. unfold segment. rewrite E. f_equal.
  assert (0 ≤ n_logOffset n) by (destruct Hv; lia).
  rewrite view_drop; [f_equal; lia|done|]. destruct Ha; [left; lia|right; lia].
Qed.

End accessors.
