(* ===== verification/RaftHealthy.v ===== *)
(** * Nodes on healthy disks

    [healthy_at l] collects what holds of a node between its critical sections
    as long as no storage call fails: memory and files agree, the log is [l] as
    far as it has not been compacted, everything committed is applied and
    nothing else is, on top of one of the state machines [start] a node may
    have begun with.  Each operation is described by what it does to term,
    role, log and commit index of such a node.  [healthy] is the case of a
    node that has compacted nothing and began with the machine [sm0]. *)

From Stdlib Require Import Strings.Byte.
From S2P Require Import Prelude Pb Fs Persistence SnapshotFile Storage RaftNode RaftElection.
From S2P Require Import RaftReplication RaftLog RaftCommit RaftReadIndex RaftVotes RaftCompaction.
From S2P Require Import RaftCluster RaftSafety RaftSpec RaftViews.
Import SnapshotFile.

Section healthy.
Context {SM : Type} `{StateMachine SM} {D : Type} `{Storage D} `{!VoteLaws D} `{!LogLaws D}.
(** [start b M]: a node may begin with the state machine [M], counting the
    first [b] entries as applied. *)
Variable start : Z → SM → Prop.
Implicit Types (n : Node SM) (d : D) (s : Node SM * D).

Definition maps_ok n : Prop :=
  (∀ p v, n_nextIndex n !! p = Some v → is_u64 v) ∧
  (∀ p v, n_matchIndex n !! p = Some v → p ∈ n_peers n).

(** Entries [b], [b + 1], ... [k - 1] of [l]. *)
Definition slice (b k : Z) (l : list LogEntry) : list LogEntry := drop (Z.to_nat b) (take (Z.to_nat k) l).

(** What a node whose whole log would be [l] has applied. *)
Definition machine_from (l : list LogEntry) n : Prop :=
  ∃ b M, start b M ∧ 0 ≤ b ≤ n_commitIndex n ∧ b ≤ n_logOffset n + 1 ∧
    n_stateMachine n = apply_all (slice b (n_commitIndex n) l) M.

Definition applied_at (l : list LogEntry) n : Prop :=
  n_lastApplied n = n_commitIndex n ∧ 0 ≤ n_commitIndex n ≤ zlen l ∧ machine_from l n.

(** The compaction point is below the commit index. *)
Definition anchor_committed n : Prop := n_logOffset n = 0 ∨ n_logOffset n < n_commitIndex n.

Definition healthy_at (l : list LogEntry) s : Prop :=
  synced s ∧ (shows_log s.1 l ∧ anchor_committed s.1) ∧
  disk_vote s = Some (n_currentTerm s.1, n_votedFor s.1) ∧ is_u64 (n_currentTerm s.1) ∧
  applied_at l s.1 ∧ maps_ok s.1.

Lemma slice_extend b c c' (l : list LogEntry) :
  0 ≤ b ≤ c → c ≤ c' → slice b c' l = slice b c l ++ slice c c' l.
Proof.
  intros Hb Hc. unfold slice. rewrite !skipn_firstn_comm.
  replace (drop (Z.to_nat c) l) with (drop (Z.to_nat c - Z.to_nat b) (drop (Z.to_nat b) l))
    by (rewrite drop_drop; f_equal; lia).
  rewrite take_take_drop. f_equal. lia.
Qed.

Lemma slice_take b c (l l' : list LogEntry) :
  take (Z.to_nat c) l' = take (Z.to_nat c) l → slice b c l' = slice b c l.
Proof. unfold slice. by intros ->. Qed.

Lemma healthy_at_last l s : healthy_at l s → lastLogIndexLocked s.1 = zlen l.
Proof. intros (Hs & (Hl & _) & _). apply shows_last; [apply Hs|done]. Qed.

Lemma healthy_at_last_term l s : healthy_at l s → lastLogTermLocked s.1 = last_term l.
Proof.
  intros (_ & ((E & Hv & _) & _) & _). change (last_term (n_log s.1) = last_term l). rewrite E.
  by apply view_last_term.
Qed.

Lemma healthy_at_room l s : healthy_at l s → 0 ≤ zlen l < u64_max.
Proof.
  intros (Hs & ((E & Hv & _) & _) & _). pose proof Hs as ((_ & Hr & _) & _).
  rewrite E, view_length in Hr by done. pose proof (zlen_nonneg l). lia.
Qed.

(** Only term, vote, role, waiters and timers may differ. *)
Definition same_core n n' : Prop :=
  log_kept n n' ∧ n_commitIndex n' = n_commitIndex n ∧ n_lastApplied n' = n_lastApplied n ∧
  n_stateMachine n' = n_stateMachine n ∧ n_nextIndex n' = n_nextIndex n ∧
  n_matchIndex n' = n_matchIndex n ∧ n_peers n' = n_peers n ∧ n_id n' = n_id n.

#[export] Instance same_core_preorder : PreOrder same_core.
Proof.
  split; [by intros n|]. unfold same_core, log_kept. intros n1 n2 n3 ? ?. destruct_and?.
  split_and!; congruence.
Qed.

Lemma healthy_core l n n' d d' :
  healthy_at l (n, d) → same_core n n' → synced (n', d') →
  vl_vote (n_dataDir n) d' = Some (n_currentTerm n', n_votedFor n') → is_u64 (n_currentTerm n') →
  healthy_at l (n', d').
Proof.
  intros (_ & Ho & _ & _ & Ha & Hm) ((E1 & E2 & E3) & E4 & E5 & E6 & E7 & E8 & E9 & _) Hs Hv Hu.
  unfold healthy_at, shows_log, anchor_committed, applied_at, machine_from, maps_ok, disk_vote in *. simpl in *.
  rewrite E1, E2, E3, E4, E5, E6, E7, E8, E9 in *. split_and!; try done; apply Ho || apply Ha || apply Hm.
Qed.

Lemma healthy_same l n n' d :
  healthy_at l (n, d) → same_core n n' → n_currentTerm n' = n_currentTerm n →
  n_votedFor n' = n_votedFor n → healthy_at l (n', d).
Proof.
  intros Hh Hc Ht Hv. pose proof Hh as (Hs & _ & Hd & Hu & _).
  apply (healthy_core l n n' d d); [done|done| | |by rewrite Ht].
  - eapply synced_kept; [apply Hc|done].
  - by rewrite Ht, Hv.
Qed.

Lemma setRole_core r n : same_core n (setRoleLocked r n).
Proof. by destruct (setRole_shape r n) as (W & C & ->). Qed.

(** ** Elections *)

Lemma persist_healthy n d :
  synced (n, d) → is_u64 (n_currentTerm n) → vl_name (n_votedFor n) →
  ∃ d', persistStateLocked (n, d) = (Ok tt, (n, d')) ∧ synced (n, d') ∧
    vl_vote (n_dataDir n) d' = Some (n_currentTerm n, n_votedFor n).
Proof.
  intros Hs Hu Hnm. pose proof Hs as (Hw & Hq & Hl). simpl in *.
  destruct (ll_save (n_dataDir n) (n_currentTerm n) (n_votedFor n) d _ Hq Hl Hu) as (d' & E & ? & ?).
  exists d'. split; [by apply persist_run|]. split; [done|]. by apply (vl_save _ _ _ _ _ _ Hu Hnm) in E.
Qed.

Lemma observe_at l t s :
  healthy_at l s → is_u64 t → n_currentTerm s.1 < t →
  ∃ s', observeTermLocked t s = (Ok true, s') ∧ healthy_at l s' ∧ same_core s.1 s'.1 ∧
    n_currentTerm s'.1 = t ∧ n_role s'.1 = Follower ∧ n_votedFor s'.1 = "".
Proof.
  destruct s as [n d]. cbn [fst snd]. intros Hh Ht Hlt. unfold observeTermLocked.
  rewrite nbind_getN. cbn [fst].
  rewrite (proj2 (Z.leb_gt _ _)) by lia. rewrite nbind_modifyN. cbn [fst snd].
  set (n0 := set_votedFor "" (set_currentTerm t n)).
  pose proof (setRole_core Follower n0) as Hc. pose proof (setRole_kept Follower n0) as (K & _ & K3 & K4 & _ & K6 & _).
  set (n1 := setRoleLocked Follower n0) in *. clearbody n1. simpl in K3, K4.
  assert (Hc1 : same_core n n1) by (by etrans; [|exact Hc]).
  destruct (persist_healthy n1 d) as (d' & Ep & Hs' & Hv);
    [eapply synced_kept; [apply Hc1|apply Hh]|by rewrite K3|rewrite K4; apply vl_name_nil|].
  node_step Ep. exists (n1, d'). simpl. split_and!; try done.
  eapply (healthy_core l n); [done|done|done| |by rewrite K3].
  destruct Hc1 as ((_ & _ & E3) & _). by rewrite <- E3.
Qed.

(** The head of both request handlers. *)
Lemma observe_if_at l t s :
  healthy_at l s → is_u64 t →
  ∃ b s', (if n_currentTerm s.1 <? t then observeTermLocked t else mret false) s = (Ok b, s') ∧
    healthy_at l s' ∧ same_core s.1 s'.1 ∧ n_currentTerm s'.1 = Z.max (n_currentTerm s.1) t ∧
    (n_currentTerm s.1 < t → n_role s'.1 = Follower ∧ n_votedFor s'.1 = "") ∧
    (t ≤ n_currentTerm s.1 → s' = s).
Proof.
  intros Hh Ht. destruct (_ <? _) eqn:E; zbool.
  - destruct (observe_at l t s Hh Ht E) as (s' & E1 & H1 & H2 & H3 & H4 & H5).
    exists true, s'. split_and!; try done; intros; lia.
  - exists false, s. split_and!; try done; intros; lia.
Qed.

Lemma startElection_at l env s :
  healthy_at l s → n_role s.1 ≠ Leader → n_currentTerm s.1 + 1 ≤ u64_max → vl_name (n_id s.1) →
  ∃ s', healthy_at l s' ∧ same_core s.1 s'.1 ∧ n_currentTerm s'.1 = n_currentTerm s.1 + 1 ∧
    n_role s'.1 = Candidate ∧
    startElection env s = (Ok (Some
      (MkCampaign (n_currentTerm s'.1) (quorumSize (zlen (n_peers s'.1) + 1)) 1 (n_peers s'.1),
       MkRequestVoteRequest (n_currentTerm s'.1) (n_id s'.1) (zlen l) (last_term l))), s').
Proof.
  destruct s as [n d]. cbn [fst snd]. intros Hh Hr Hb Hnm. pose proof Hh as (Hs & Ho & _ & Hu & _). simpl in *.
  unfold startElection. rewrite nbind_getN. cbn [fst]. rewrite bool_decide_eq_false_2 by done.
  rewrite nbind_modifyN. cbn [fst snd].
  pose proof (setRole_core Candidate n) as Hc. pose proof (setRole_kept Candidate n) as (K & _ & K3 & K4 & _ & K6 & _).
  set (n0 := setRoleLocked Candidate n) in *. clearbody n0. rewrite wrap64_small by u64.
  set (n1 := set_votedFor _ _).
  assert (Hc1 : same_core n n1) by (by etrans; [exact Hc|]).
  destruct (persist_healthy n1 d) as (d' & Ep & Hs' & Hv); [by eapply synced_kept; [apply Hc1|]|simpl; u64|done|].
  assert (Eg : gtry persistStateLocked (n1, d) = (Ok (Ok tt), (n1, d'))) by (unfold gtry; by rewrite Ep).
  node_step Eg. rewrite nbind_modifyN. rewrite nbind_getN. cbn [fst snd].
  set (n2 := resetElectionDeadlineLocked env n1).
  assert (Hs2 : synced (n2, d')) by (by eapply (synced_kept n1)).
  exists (n2, d'). cbn [fst].
  assert (Hh2 : healthy_at l (n2, d')).
  { eapply (healthy_core l n); [done|done|done| |simpl; u64].
    destruct Hc1 as ((_ & _ & E3) & _). rewrite <- E3. done. }
  pose proof (healthy_at_last l _ Hh2) as Hli. cbn [fst] in Hli. pose proof (healthy_at_last_term l _ Hh2) as Hlt.
  cbn [fst] in Hlt. split_and!; [done..|]. by rewrite Hli, Hlt.
Qed.

Lemma startElection_leader env s : n_role s.1 = Leader → startElection env s = (Ok None, s).
Proof.
  intros Hr. unfold startElection. rewrite nbind_getN. by rewrite bool_decide_eq_true_2.
Qed.

Lemma init_index_lookup peers v p x : init_index peers v !! p = Some x → x = v ∧ p ∈ peers.
Proof.
  unfold init_index.
  assert (Hg : ∀ m : gmap string Z, foldl (λ m p, <[p := v]> m) m peers !! p = Some x →
    (x = v ∧ p ∈ peers) ∨ m !! p = Some x).
  { induction peers as [|q peers IH]; intros m; simpl; [by right|]. intros Hf.
    destruct (IH _ Hf) as [[? ?]|Hm]; [left; by split; [|right]|].
    apply lookup_insert_Some in Hm as [[-> ->]|[_ ?]]; [left; by split; [|left]|by right]. }
  intros Hx. destruct (Hg ∅ Hx) as [?|Hn]; [done|]. by rewrite lookup_empty in Hn.
Qed.

Lemma becomeLeader_at l n d :
  healthy_at l (n, d) → n_role n = Candidate →
  let n' := becomeLeaderLocked n in
  healthy_at l (n', d) ∧ n_currentTerm n' = n_currentTerm n ∧ log_kept n n' ∧
  n_commitIndex n' = n_commitIndex n ∧ n_role n' = Leader ∧ n_peers n' = n_peers n ∧
  ∀ p v, n_matchIndex n' !! p = Some v → v = 0.
Proof.
  intros (Hs & [Hl Hac] & Hd & Hu & Ha & Hm) Hr. cbv zeta. unfold becomeLeaderLocked.
  rewrite bool_decide_eq_true_2 by done. cbn [negb]. cbv zeta. split_and!; try done.
  - unfold healthy_at. split_and!; try done. split; simpl.
    + intros p v [-> _]%init_index_lookup. apply wrap64_is_u64.
    + intros p v Hp. by apply init_index_lookup in Hp as [_ ?].
  - simpl. intros p v [-> _]%init_index_lookup. done.
Qed.

Lemma handleVoteReply_at l ca reply s :
  healthy_at l s → is_u64 (rvr_Term reply) →
  ∃ ca' s', handleVoteReply ca reply s = (Ok ca', s') ∧ healthy_at l s' ∧
    ((s' = s) ∨
     (same_core s.1 s'.1 ∧ n_currentTerm s.1 < n_currentTerm s'.1 ∧ n_role s'.1 = Follower) ∨
     (n_role s.1 = Candidate ∧ n_currentTerm s.1 = ca_term ca ∧ rvr_VoteGranted reply = true ∧
      ca_quorum ca ≤ ca_votes ca + 1 ∧ s' = (becomeLeaderLocked s.1, s.2))).
Proof.
  intros Hh Hu. unfold handleVoteReply. rewrite nbind_getN. destruct (_ <? _) eqn:E; zbool.
  - destruct (observe_at l _ s Hh Hu E) as (s' & E1 & H1 & H2 & H3 & H4 & _).
    assert (Eg : gtry (observeTermLocked (rvr_Term reply)) s = (Ok (Ok true), s')) by (unfold gtry; by rewrite E1).
    node_step Eg. exists ca, s'. split; [done|]. split; [done|]. right; left. split_and!; [done|lia|done].
  - destruct (_ || _) eqn:Ec; [by exists ca, s; auto|]. zbool.
    destruct (rvr_VoteGranted reply) eqn:Eg; [|by exists ca, s; auto]. cbn [andb].
    destruct (_ <=? _) eqn:Eq; zbool; [|by do 2 eexists; auto].
    rewrite nbind_modifyN. do 2 eexists. split; [done|]. destruct s as [n d]. cbn [fst snd] in *.
    split; [by apply becomeLeader_at|]. right; right. simpl in Eq. split_and!; [done..|lia|done].
Qed.

Lemma RequestVote_at l env req s :
  healthy_at l s → is_u64 (rv_Term req) → vl_name (rv_CandidateId req) →
  ∃ reply s', RequestVote env req s = (Ok reply, s') ∧ healthy_at l s' ∧ same_core s.1 s'.1 ∧
    n_currentTerm s'.1 = Z.max (n_currentTerm s.1) (rv_Term req) ∧
    (n_role s'.1 = n_role s.1 ∧ n_currentTerm s'.1 = n_currentTerm s.1 ∨ n_role s'.1 = Follower) ∧
    (rvr_VoteGranted reply = true → n_currentTerm s'.1 = rv_Term req ∧
      (last_term l < rv_LastLogTerm req ∨
       last_term l = rv_LastLogTerm req ∧ zlen l ≤ rv_LastLogIndex req)).
Proof.
  intros Hh Hu Hnm. destruct (observe_if_at l (rv_Term req) s Hh Hu)
    as (b & [n1 d1] & E1 & Hh1 & Hc1 & T1 & R1 & Same).
  unfold RequestVote. rewrite nbind_getN. node_step E1. rewrite nbind_getN. cbn [fst snd] in *.
  assert (Hrole : n_role n1 = n_role s.1 ∧ n_currentTerm n1 = n_currentTerm s.1 ∨ n_role n1 = Follower).
  { destruct (decide (n_currentTerm s.1 < rv_Term req)); [right; by apply R1|].
    rewrite <- (Same ltac:(lia)). by left. }
  destruct (rv_Term req <? n_currentTerm n1) eqn:Elt; zbool.
  { do 2 eexists. split; [done|]. split_and!; done. }
  destruct (_ || _) eqn:Ec. { do 2 eexists. split; [done|]. split_and!; done. } zbool.
  rewrite nbind_modifyN. cbn [fst snd]. set (n2 := set_votedFor _ n1).
  destruct (persist_healthy n2 d1) as (d' & Ep & Hs' & Hv);
    [by eapply (synced_kept n1); [|apply Hh1]|simpl; apply Hh1|done|].
  node_step Ep. rewrite nbind_modifyN. cbn [fst snd]. do 2 eexists. split; [done|].
  assert (Hc2 : same_core n1 (resetElectionDeadlineLocked env n2)) by done.
  split_and!.
  - eapply (healthy_core l n1); [done|done|by eapply (synced_kept n2)|done|apply Hh1].
  - by etrans.
  - done.
  - done.
  - intros _. cbn [fst]. split; [simpl; lia|].
    match goal with Hc : candLogUpToDate n1 req = true |- _ => revert Hc end.
    unfold candLogUpToDate, isLogAtLeastAsUpToDate.
    pose proof (healthy_at_last l _ Hh1) as E2. pose proof (healthy_at_last_term l _ Hh1) as E3.
    cbn [fst] in E2, E3. rewrite E2, E3.
    destruct (_ =? _) eqn:Et; zbool; cbn [negb]; [rewrite Z.leb_le|rewrite Z.ltb_lt]; lia.
Qed.

(** ** Applying *)

Lemma apply_all_app (l1 l2 : list LogEntry) (sm : SM) :
  apply_all (l1 ++ l2) sm = apply_all l2 (apply_all l1 sm).
Proof. apply foldl_app. Qed.

(** Moving the commit index forward applies what is new. *)
Lemma advance_applied l n c :
  log_wf n → shows_log n l → anchor_committed n → applied_at l n → n_commitIndex n ≤ c ≤ zlen l →
  let n' := applyCommittedLocked (set_commitIndex c n) in
  applied_at l n' ∧ n_commitIndex n' = c ∧ log_kept n n' ∧ n_currentTerm n' = n_currentTerm n ∧
  n_votedFor n' = n_votedFor n ∧ n_role n' = n_role n ∧ n_nextIndex n' = n_nextIndex n ∧
  n_matchIndex n' = n_matchIndex n ∧ n_peers n' = n_peers n ∧ n_id n' = n_id n.
Proof.
  intros Hw Hl Hac (Ha & Hb & b0 & M & Hst & Hb0 & Hbo & Hsm) Hc. cbv zeta. pose proof Hl as (E & Hv & _).
  pose proof (view_length _ _ Hv) as Hvl. rewrite <- E in Hvl.
  set (m := set_commitIndex c n).
  assert (Hap : applicable m).
  { unfold applicable, m, anchor_committed in *. simpl. split_and!; [done|destruct Hac; lia|lia]. }
  assert (Hle : n_lastApplied m ≤ n_commitIndex m) by (unfold m; simpl; lia).
  rewrite (applyCommitted_eq m Hap Hle). cbv zeta.
  set (seg := segment m _ _). destruct (notify_all_shape seg m) as (W & C & ->).
  split; [|by split_and!]. unfold applied_at, machine_from. simpl. split; [done|]. split; [lia|].
  exists b0, M. split_and!; [done|lia..|]. rewrite (slice_extend b0 (n_commitIndex n) c) by lia.
  rewrite Hsm, <- apply_all_app. do 2 f_equal. unfold seg.
  rewrite (shows_segment m l) by (unfold m, anchor_committed in *; simpl; done || destruct Hac; lia).
  unfold m, slice. simpl. rewrite Ha, skipn_firstn_comm. f_equal. lia.
Qed.

(** ** AppendEntries *)

Lemma log_kept_trans n1 n2 n3 : log_kept n1 n2 → log_kept n2 n3 → log_kept n1 n3.
Proof. unfold log_kept. intros; destruct_and?; split_and!; congruence. Qed.

Lemma anchor_kept n n' :
  log_kept n n' → n_commitIndex n ≤ n_commitIndex n' → anchor_committed n → anchor_committed n'.
Proof. intros (_ & E & _) Hc [?|?]; unfold anchor_committed; rewrite E; [by left|right; lia]. Qed.

Lemma shows_kept n n' l : log_kept n n' → shows_log n l → shows_log n' l.
Proof. intros (E1 & E2 & _). unfold shows_log. by rewrite E1, E2. Qed.

Lemma merge_vote dir prev es s :
  n_dataDir s.1 = dir → vl_vote dir (mergeEntriesLocked prev es s).2.2 = vl_vote dir s.2.
Proof.
  destruct s as [n d]. cbn [fst snd]. intros Hd. unfold mergeEntriesLocked. rewrite nbind_getN. cbn [fst].
  destruct (merge_skip _ _ _) as [idx rest]. destruct (merge_scan n idx rest) as [cf ta].
  assert (Happ : ∀ n1 d1, vl_vote dir ((match ta with [] => mret tt
      | _ => liftD (st_AppendLogEntries (n_dataDir n) ta);; modifyN (λ n, set_log (n_log n ++ ta) n)
      end : NodeM SM D unit) (n1, d1)).2.2 = vl_vote dir d1).
  { intros n1 d1. destruct ta as [|e ta]; [done|]. unfold_node.
    pose proof (vl_append dir (e :: ta) d1) as Hk. rewrite <- Hd in *. by destruct (st_AppendLogEntries _ _ d1) as [[]]. }
  destruct cf as [i|]; [|rewrite nbind_ret; apply Happ].
  pose proof (vl_truncate dir i d) as Ht. rewrite <- Hd in Ht.
  destruct (st_TruncateLogFrom (n_dataDir n) i d) as [[[]|e] d1] eqn:E; cbn [snd] in Ht.
  - erewrite nbind_Ok; [|erewrite nbind_Ok; [|unfold liftD; cbn [snd]; by rewrite E]; reflexivity].
    unfold modifyN. cbn [fst snd]. rewrite Happ. by rewrite <- Hd.
  - erewrite nbind_Err; [|erewrite nbind_Err; [|unfold liftD; cbn [snd]; by rewrite E]; reflexivity].
    simpl. by rewrite <- Hd.
Qed.

Lemma follow_leader_core env req n : same_core n (follow_leader env req n).
Proof. unfold follow_leader. by etrans; [apply (setRole_core Follower)|]. Qed.

Lemma AppendEntries_stale l env req s :
  healthy_at l s → ae_Term req < n_currentTerm s.1 →
  AppendEntries env req s = (Ok (MkAppendEntriesReply (n_currentTerm s.1) false 0 0), s).
Proof.
  intros Hh Hlt. unfold AppendEntries. rewrite nbind_getN.
  rewrite (proj2 (Z.ltb_ge (n_currentTerm s.1) (ae_Term req))) by lia. rewrite nbind_ret, nbind_getN.
  by rewrite (proj2 (Z.ltb_lt (ae_Term req) (n_currentTerm s.1))).
Qed.

(** The common part of a request that is not stale: the node follows. *)
Lemma AppendEntries_follow_at l env req s :
  healthy_at l s → is_u64 (ae_Term req) → n_currentTerm s.1 ≤ ae_Term req →
  ∃ n d, healthy_at l (n, d) ∧ same_core s.1 n ∧ n_currentTerm n = ae_Term req ∧ n_role n = Follower ∧
    AppendEntries env req s =
      match consistencyCheck n req with
      | Some rejection => (Ok rejection, (n, d))
      | None =>
          (modifyN (set_lastAppendEntriesAt (Some (env_now env)));;
           (if 0 <? zlen (ae_Entries req)
            then mergeEntriesLocked (ae_PrevLogIndex req) (ae_Entries req) else mret tt);;
           modifyN (follow_commit req);;
           n ← getN; mret (MkAppendEntriesReply (n_currentTerm n) true 0 0)) (n, d)
      end.
Proof.
  intros Hh Hu Hle. destruct (observe_if_at l (ae_Term req) s Hh Hu)
    as (b & [n1 d1] & E1 & Hh1 & Hc1 & T1 & _). cbn [fst snd] in *.
  pose proof (follow_leader_core env req n1) as Hc2.
  destruct (follow_leader_kept env req n1) as (_ & T2 & R2 & _ & _).
  assert (V2 : n_votedFor (follow_leader env req n1) = n_votedFor n1).
  { unfold follow_leader. by destruct (setRole_shape Follower n1) as (W & C & ->). }
  exists (follow_leader env req n1), d1. split_and!; [by eapply healthy_same|by etrans|lia|done|].
  unfold AppendEntries. rewrite nbind_getN. node_step E1. rewrite nbind_getN. cbn [fst snd].
  rewrite (proj2 (Z.ltb_ge _ _)) by lia. rewrite nbind_modifyN, nbind_getN. cbn [fst snd].
  change (resetElectionDeadlineLocked env _) with (follow_leader env req n1).
  destruct (consistencyCheck (follow_leader env req n1) req) as [rej|]; [done|].
  rewrite !nbind_modifyN. cbn [fst snd]. set (n3 := set_lastAppendEntriesAt _ _).
  destruct ((if 0 <? zlen (ae_Entries req) then mergeEntriesLocked (ae_PrevLogIndex req) (ae_Entries req)
             else mret tt) (n3, d1)) as [[[]|e] [n4 d4]] eqn:E4.
  - node_step E4. node_step E4. rewrite nbind_getN, nbind_modifyN. cbn [fst snd].
    unfold follow_commit. by destruct (n_commitIndex n4 <? ae_LeaderCommit req).
  - node_step E4. by node_step E4.
Qed.

Lemma AppendEntries_reject_at l env req s :
  healthy_at l s → is_u64 (ae_Term req) → n_currentTerm s.1 ≤ ae_Term req → ¬ prev_matches s.1 req →
  ∃ reply s', AppendEntries env req s = (Ok reply, s') ∧ aer_Success reply = false ∧
    is_u64 (aer_ConflictIndex reply) ∧ healthy_at l s' ∧ same_core s.1 s'.1 ∧
    n_currentTerm s'.1 = ae_Term req ∧ n_role s'.1 = Follower.
Proof.
  intros Hh Hu Hle Hn. destruct (AppendEntries_follow_at l env req s Hh Hu Hle)
    as (n & d & Hh1 & Hc & Ht & Hr & ->).
  destruct (consistencyCheck n req) as [rej|] eqn:Ec.
  - exists rej, (n, d). split; [done|]. 
    assert (Hrej : aer_Success rej = false ∧ is_u64 (aer_ConflictIndex rej)).
    { revert Ec. unfold consistencyCheck, reject, firstIndexOfTermLocked.
      repeat case_match; intros; simplify_eq/=; (split; [done|apply wrap64_is_u64]). }
    by destruct Hrej.
  - apply consistencyCheck_None in Ec. destruct Hn. destruct Hc as ((E1 & E2 & E3) & _).
    eapply prev_matches_kept; [|exact Ec]. by split_and!.
Qed.

Lemma AppendEntries_merge_at l l' env req s :
  healthy_at l s → req_wf req → n_currentTerm s.1 ≤ ae_Term req → prev_matches s.1 req →
  let off := n_logOffset s.1 in
  let c := n_commitIndex s.1 in
  merged off (ae_PrevLogIndex req) (n_log s.1) (ae_Entries req) = view off l' →
  in_view off l' → consecutive 0 l' →
  c ≤ zlen l' → take (Z.to_nat c) l' = take (Z.to_nat c) l →
  ∃ s', AppendEntries env req s = (Ok (MkAppendEntriesReply (ae_Term req) true 0 0), s') ∧
    healthy_at l' s' ∧ n_logOffset s'.1 = off ∧ n_currentTerm s'.1 = ae_Term req ∧ n_role s'.1 = Follower ∧
    n_commitIndex s'.1 = (if decide (c < ae_LeaderCommit req)
      then Z.min (ae_LeaderCommit req) (zlen l') else c).
Proof.
  intros Hh Hreq Hle Hm off c Hlog' Hv' Hcl' Hlen Htake. pose proof Hreq as (Hu & _).
  destruct (AppendEntries_follow_at l env req s Hh Hu Hle) as (n & d & Hh1 & Hc & Ht & Hr & ->).
  pose proof Hc as (Hk & Ec & _). pose proof Hk as (E1 & E2 & E3).
  assert (Hm1 : prev_matches n req) by (by eapply prev_matches_kept).
  rewrite (proj2 (consistencyCheck_None n req) Hm1). rewrite nbind_modifyN. cbn [fst snd].
  set (n3 := set_lastAppendEntriesAt _ n).
  pose proof Hh1 as (Hs1 & Ho1 & Hd1 & Hu1 & (Ha1 & Hb1 & Hsm1) & Hmaps). cbn [fst snd] in *.
  destruct (merge_step n3 d req) as (d4 & E4 & Hs4); [by eapply (synced_kept n)|done| |].
  { eapply (prev_matches_le n); [apply Hs1|done]. }
  change (n_logOffset n3) with (n_logOffset n) in *. change (n_log n3) with (n_log n) in *.
  rewrite E2, E1 in E4, Hs4. fold off in E4, Hs4. rewrite Hlog' in E4, Hs4. set (log' := view off l') in *.
  assert (Hv4 : vl_vote (n_dataDir n) d4 = vl_vote (n_dataDir n) d).
  { destruct (0 <? zlen (ae_Entries req)).
    - pose proof (merge_vote (n_dataDir n) (ae_PrevLogIndex req) (ae_Entries req) (n3, d) eq_refl) as Hmv.
      by rewrite E4 in Hmv.
    - by injection E4 as _ <-. }
  node_step E4. rewrite nbind_modifyN, nbind_getN. cbn [fst snd].
  set (n4 := set_log log' n3) in *. pose proof Hs4 as (Hw4 & _).
  assert (Ha4 : applied_at l' n4).
  { unfold applied_at. change (n_commitIndex n4) with (n_commitIndex n).
    change (n_lastApplied n4) with (n_lastApplied n). change (n_stateMachine n4) with (n_stateMachine n).
    unfold machine_from in *. change (n_commitIndex n4) with (n_commitIndex n).
    change (n_stateMachine n4) with (n_stateMachine n). change (n_logOffset n4) with (n_logOffset n).
    rewrite Ec in *. fold c in Hb1, Hsm1 |- *. split; [done|]. split; [lia|].
    destruct Hsm1 as (b0 & M & ? & ? & ? & ->). exists b0, M. by rewrite (slice_take b0 c l l'). }
  assert (Hl4 : shows_log n4 l').
  { unfold shows_log. change (n_logOffset n4) with (n_logOffset n). by rewrite E2. }
  assert (Hac4 : anchor_committed n4) by apply Ho1.
  assert (Hf : ∃ n5, follow_commit req n4 = n5 ∧ applied_at l' n5 ∧ n_commitIndex n5 =
      (if decide (c < ae_LeaderCommit req) then Z.min (ae_LeaderCommit req) (zlen l') else c) ∧
      log_kept n4 n5 ∧ n_currentTerm n5 = n_currentTerm n4 ∧ n_votedFor n5 = n_votedFor n4 ∧
      n_role n5 = n_role n4 ∧ n_nextIndex n5 = n_nextIndex n4 ∧ n_matchIndex n5 = n_matchIndex n4 ∧
      n_peers n5 = n_peers n4).
  { unfold follow_commit. change (n_commitIndex n4) with (n_commitIndex n). rewrite Ec. fold c.
    destruct (c <? ae_LeaderCommit req) eqn:El; zbool.
    - rewrite decide_True by done.
      assert (Hmin : min64 (ae_LeaderCommit req) (lastLogIndexLocked n4) =
        Z.min (ae_LeaderCommit req) (zlen l')).
      { rewrite (shows_last n4 l') by done. unfold min64.
        destruct (Z.ltb_spec (ae_LeaderCommit req) (zlen l')); lia. }
      rewrite Hmin. eexists. split; [done|].
      destruct (advance_applied l' n4 (Z.min (ae_LeaderCommit req) (zlen l'))) as (A1 & A2 & A3 & A4 & A5 & A6 & A7 & A8 & A9 & _);
        [done|done|done|done| |by split_and!].
      change (n_commitIndex n4) with (n_commitIndex n). rewrite Ec. fold c. lia.
    - rewrite decide_False by lia. by exists n4. }
  destruct Hf as (n5 & -> & A1 & A2 & A3 & A4 & A5 & A6 & A7 & A8 & A9).
  exists (n5, d4). cbn [fst snd]. pose proof A3 as (B1 & B2 & B3).
  assert (T5 : n_currentTerm n5 = ae_Term req) by (rewrite A4; exact Ht).
  rewrite T5. split; [done|]. split_and!; [|by rewrite B2|done|rewrite A6; exact Hr|exact A2].
  assert (Hcc : n_commitIndex n4 ≤ n_commitIndex n5).
  { rewrite A2. change (n_commitIndex n4) with (n_commitIndex n). rewrite Ec. fold c. case_decide; lia. }
  unfold healthy_at, disk_vote. cbn [fst snd].
  split_and!; [by eapply synced_kept|by eapply shows_kept|by eapply anchor_kept| |by rewrite T5|done|].
  - rewrite B3, T5, A5. change (n_dataDir n4) with (n_dataDir n). rewrite Hv4.
    change (n_votedFor n4) with (n_votedFor n). unfold disk_vote in Hd1. cbn [fst snd] in Hd1.
    by rewrite Hd1, Ht.
  - unfold maps_ok. rewrite A7, A8, A9. exact Hmaps.
Qed.

(** ** Replies and the commit rule *)

(** A quorum of peers is known to hold the log up to [N]. *)
Definition match_quorum (peers : list string) (m : gmap string Z) (N : Z) : Prop :=
  ∃ Q, NoDup Q ∧ quorumSize (zlen peers + 1) ≤ 1 + zlen Q ∧
    ∀ p, p ∈ Q → ∃ v, m !! p = Some v ∧ N ≤ v.

Lemma maybeAdvance_at l n d :
  healthy_at l (n, d) →
  let n' := maybeAdvanceCommitIndexLocked n in
  healthy_at l (n', d) ∧ n_currentTerm n' = n_currentTerm n ∧ n_role n' = n_role n ∧
  log_kept n n' ∧ n_matchIndex n' = n_matchIndex n ∧ n_peers n' = n_peers n ∧
  (n_commitIndex n' = n_commitIndex n ∨
   n_commitIndex n < n_commitIndex n' ≤ zlen l ∧
   (∃ e, l !! Z.to_nat (n_commitIndex n' - 1) = Some e ∧ e_Term e = n_currentTerm n) ∧
   match_quorum (n_peers n) (n_matchIndex n) (n_commitIndex n')).
Proof.
  intros Hh. pose proof Hh as (Hs & (Hl & Hac) & Hd & Hu & Ha & Hm). cbn [fst snd] in *. cbv zeta.
  unfold maybeAdvanceCommitIndexLocked. pose proof Hs as (Hw & _). cbn [fst] in Hw.
  pose proof Ha as (Hla & Hb & _). pose proof (healthy_at_room l _ Hh).
  rewrite (shows_last n l) by done.
  pose proof (find_commit_spec n (zlen l) (Z.to_nat (zlen l - n_commitIndex n)) ltac:(lia)) as Hf.
  destruct (find_commit _ _ _) as [N|]; [|by split_and!; auto].
  destruct Hf as (HN & Hc & _). apply committable_spec in Hc as ((e & He & Ht) & Hq); [|done].
  destruct (advance_applied l n N) as (A1 & A2 & A3 & A4 & A5 & A6 & A7 & A8 & A9 & A10); [done|done|done|done|lia|].
  set (n' := applyCommittedLocked _) in *. pose proof A3 as (B1 & B2 & B3).
  split; [|split_and!; try done; right].
  - unfold healthy_at, disk_vote, maps_ok. cbn [fst snd]. rewrite B3, A4, A5, A7, A8, A9.
    split_and!; try done; [by eapply synced_kept|by eapply shows_kept|eapply anchor_kept; [done|lia|done]|apply Hm..].
  - rewrite A2. split; [lia|]. split.
    + destruct (shows_entry n l N e Hw Hl He) as (_ & e' & He' & Ht' & _). exists e'. split; [done|congruence].
    + exists (holders n N). split; [apply holders_NoDup|]. split; [done|].
      intros p. apply elem_of_holders.
Qed.

(** The bookkeeping of a successful reply, before the commit rule runs. *)
Definition record_match (peer : string) (newMatch : Z) n : Node SM :=
  let n := if default 0 (n_matchIndex n !! peer) <? newMatch
    then set_matchIndex (<[peer := newMatch]> (n_matchIndex n)) n else n in
  if default 0 (n_nextIndex n !! peer) <? newMatch +u 1
  then set_nextIndex (<[peer := newMatch +u 1]> (n_nextIndex n)) n else n.

Lemma maps_at l n m nx mt d :
  healthy_at l (n, d) → m = set_nextIndex nx (set_matchIndex mt n) →
  (∀ p v, nx !! p = Some v → is_u64 v) → (∀ p v, mt !! p = Some v → p ∈ n_peers n) →
  healthy_at l (m, d).
Proof. by intros (? & ? & ? & ? & ? & ?) -> ? ?. Qed.

Lemma record_match_at l peer v n d :
  healthy_at l (n, d) → peer ∈ n_peers n →
  healthy_at l (record_match peer v n, d) ∧
  n_currentTerm (record_match peer v n) = n_currentTerm n ∧
  n_role (record_match peer v n) = n_role n ∧ log_kept n (record_match peer v n) ∧
  n_peers (record_match peer v n) = n_peers n ∧ n_commitIndex (record_match peer v n) = n_commitIndex n ∧
  (n_matchIndex (record_match peer v n) = n_matchIndex n ∨
   n_matchIndex (record_match peer v n) = <[peer := v]> (n_matchIndex n)).
Proof.
  intros Hh Hp. pose proof Hh as (_ & _ & _ & _ & _ & Hx & Hy). cbn [fst] in *.
  assert (Hx' : ∀ p w, <[peer := v +u 1]> (n_nextIndex n) !! p = Some w → is_u64 w).
  { intros p w. rewrite lookup_insert_Some. intros [[_ <-]|[_ ?]]; [apply wrap64_is_u64|eauto]. }
  assert (Hy' : ∀ p w, <[peer := v]> (n_matchIndex n) !! p = Some w → p ∈ n_peers n).
  { intros p w. rewrite lookup_insert_Some. intros [[<- _]|[_ ?]]; eauto. }
  unfold record_match. cbv zeta.
  destruct (default 0 (n_matchIndex n !! peer) <? v); cbn [n_nextIndex set_matchIndex];
    destruct (default 0 (n_nextIndex n !! peer) <? v +u 1); (split; [|by split_and!; auto]).
  - by eapply (maps_at l n).
  - apply (maps_at l n _ (n_nextIndex n) (<[peer := v]> (n_matchIndex n))); done.
  - apply (maps_at l n _ (<[peer := v +u 1]> (n_nextIndex n)) (n_matchIndex n)); done.
  - done.
Qed.

Lemma reply_at l term o reply s :
  healthy_at l s → is_u64 (aer_Term reply) → is_u64 (aer_ConflictIndex reply) →
  is_u64 (o_prevIndex o + o_numEntries o) → o_peer o ∈ n_peers s.1 →
  ∃ r s', sendAppendEntriesAndHandle term o reply s = (Ok r, s') ∧ healthy_at l s' ∧
   (s' = s ∨
    same_core s.1 s'.1 ∧ n_currentTerm s.1 < n_currentTerm s'.1 ∧ n_role s'.1 = Follower ∨
    n_role s.1 = Leader ∧ n_currentTerm s.1 = term ∧
    n_role s'.1 = Leader ∧ n_currentTerm s'.1 = term ∧ log_kept s.1 s'.1 ∧
    n_peers s'.1 = n_peers s.1 ∧
    (n_matchIndex s'.1 = n_matchIndex s.1 ∨
     aer_Success reply = true ∧
     n_matchIndex s'.1 = <[o_peer o := o_prevIndex o + o_numEntries o]> (n_matchIndex s.1)) ∧
    (n_commitIndex s'.1 = n_commitIndex s.1 ∨
     n_commitIndex s.1 < n_commitIndex s'.1 ≤ zlen l ∧
     (∃ e, l !! Z.to_nat (n_commitIndex s'.1 - 1) = Some e ∧ e_Term e = term) ∧
     match_quorum (n_peers s.1) (n_matchIndex s'.1) (n_commitIndex s'.1))).
Proof.
  destruct s as [n d]. cbn [fst snd]. intros Hh Hu Huc Hus Hp.
  unfold sendAppendEntriesAndHandle. rewrite nbind_getN. cbn [fst].
  destruct (_ || _) eqn:Ec; [by do 2 eexists; auto|]. zbool.
  unfold handleAppendEntriesReplyLocked. 
  destruct (n_currentTerm n <? aer_Term reply) eqn:E; zbool.
  - destruct (observe_at l _ (n, d) Hh Hu E) as (s' & E1 & G1 & G2 & G3 & G4 & _).
    exists ((aer_Term reply =? term) && aer_Success reply), s'. split.
    + erewrite nbind_Ok; [done|]. rewrite nbind_getN. cbn [fst]. rewrite (proj2 (Z.ltb_lt _ _)) by done.
      erewrite nbind_Ok; [done|]. unfold gtry. by rewrite E1.
    + split; [done|]. right; left. cbn [fst] in *. split_and!; [done|lia|done].
  - destruct (aer_Success reply) eqn:Es.
    + destruct (record_match_at l (o_peer o) (o_prevIndex o + o_numEntries o) n d Hh Hp)
        as (Hh1 & R1 & R2 & R3 & R4 & R5 & R6).
      set (n1 := record_match _ _ n) in *.
      destruct (maybeAdvance_at l n1 d Hh1) as (Hh2 & M1 & M2 & M3 & M4 & M5 & M6).
      set (n2 := maybeAdvanceCommitIndexLocked n1) in *.
      exists ((aer_Term reply =? term) && true), (n2, d). split.
      { erewrite nbind_Ok; [done|]. rewrite nbind_getN. cbn [fst].
        rewrite (proj2 (Z.ltb_ge _ _)) by done. rewrite !nbind_modifyN. cbn [fst snd].
        rewrite wrap64_small by done. done. }
      split; [done|]. right; right. cbn [fst].
      rewrite M2, R2, M1, R1, M5, R4. split_and!; try done.
      * by apply (log_kept_trans n n1).
      * rewrite M4. destruct R6; auto.
      * rewrite R4, R5 in M6. rewrite M4. destruct M6 as [?|(Hb & (e & He & Ht) & Hq)]; [by left|right].
        split; [done|]. split; [|done]. exists e. split; [done|]. rewrite Ht, R1. done.
    + set (n1 := set_nextIndex (<[o_peer o := backoffNext n reply]> (n_nextIndex n)) n).
      exists ((aer_Term reply =? term) && false), (n1, d). split.
      { erewrite nbind_Ok; [done|]. rewrite nbind_getN. cbn [fst].
        by rewrite (proj2 (Z.ltb_ge _ _)) by done. }
      split; [|right; right; by split_and!; auto].
      eapply (maps_at l n n1 _ (n_matchIndex n)); [done|by destruct n| |apply Hh].
      intros p v. rewrite lookup_insert_Some. intros [[_ <-]|[_ Hv]]; [|by eapply Hh].
      unfold backoffNext. cbv zeta. pose proof (wrap64_is_u64 (lastIndexOfTermLocked n (aer_ConflictTerm reply) + 1)).
      repeat case_match; zbool; u64.
Qed.

(** ** Proposals, reads and restarts *)

(** The entry a leader would append next, and room for it. *)
Definition next_entry (cmd : list byte) n : LogEntry :=
  MkLogEntry (n_currentTerm n) (n_logOffset n + zlen (n_log n) + 1) cmd.

Definition fits cmd n : Prop :=
  ll_storable (next_entry cmd n) ∧ n_logOffset n + zlen (n_log n) + 2 < u64_max.

Lemma append_at l cmd n d :
  healthy_at l (n, d) → fits cmd n →
  ∃ d', appendLocalLocked cmd (n, d) = (Ok (zlen l + 1, n_currentTerm n),
      (set_log (n_log n ++ [next_entry cmd n]) n, d')) ∧
    healthy_at (l ++ [next_entry cmd n]) (set_log (n_log n ++ [next_entry cmd n]) n, d').
Proof.
  intros Hh [Hst Hroom]. pose proof (healthy_at_last l _ Hh) as Hlast.
  pose proof Hh as (Hs & (Hsl & Hac) & Hd & Hu & (Ha & Hb & Hsm) & Hm). cbn [fst snd] in *.
  pose proof Hs as (Hw & Hq & Hl). cbn [fst snd] in *. pose proof Hw as (Ho & Hr & Hc).
  pose proof Hsl as (E & Hv & Hcl). rewrite lastLogIndex_spec in Hlast by done.
  pose proof (zlen_nonneg l).
  destruct (ll_append (n_dataDir n) _ [next_entry cmd n] d Hq Hl) as (d' & EA & Hq' & Hl'); [by constructor|].
  pose proof (vl_append (n_dataDir n) [next_entry cmd n] d) as Hvt. rewrite EA in Hvt. cbn [snd] in Hvt.
  assert (Hz : zlen (l ++ [next_entry cmd n]) = zlen l + 1) by (by rewrite zlen_app).
  exists d'. split.
  - unfold appendLocalLocked. rewrite nbind_getN. cbn [fst]. cbv zeta.
    rewrite lastLogIndex_spec by done. rewrite wrap64_small by u64.
    change (MkLogEntry (n_currentTerm n) (n_logOffset n + zlen (n_log n) + 1) cmd) with (next_entry cmd n).
    erewrite nbind_Ok; [|unfold liftD; cbn [fst snd]; by rewrite EA]. rewrite nbind_modifyN. cbn [fst snd].
    by rewrite Hlast.
  - unfold healthy_at, synced, log_wf, wf_log, shows_log, applied_at, disk_vote. cbn [fst snd n_log n_logOffset set_log
      n_commitIndex n_lastApplied n_stateMachine n_dataDir n_currentTerm n_votedFor].
    rewrite Hz, zlen_app. change (zlen [next_entry cmd n]) with 1.
    split_and!; try done; try lia.
    + apply consecutive_app. split; [done|]. apply consecutive_cons. split; [simpl; lia|apply consecutive_nil].
    + rewrite view_app by done. by rewrite E.
    + eapply in_view_le; [done|lia].
    + apply consecutive_app. split; [done|]. apply consecutive_cons. split; [simpl; lia|apply consecutive_nil].
    + by rewrite Hvt.
    + destruct Hsm as (b0 & M & ? & ? & ? & Hsm). exists b0, M. split; [done|]. split; [done|]. split; [done|].
      simpl. rewrite Hsm. f_equal. symmetry. apply slice_take. by rewrite take_app_le by (unfold zlen in *; lia).
Qed.

Lemma FollowerRead_state (reply : option ReadIndexReply) s :
  ∃ n', (FollowerLinearizableRead reply (mret tt) [] s).2 = (n', s.2) ∧ same_core s.1 n' ∧
    n_currentTerm n' = n_currentTerm s.1 ∧ n_votedFor n' = n_votedFor s.1 ∧ n_role n' = n_role s.1.
Proof.
  destruct s as [n d]. unfold FollowerLinearizableRead, waitForApplied. unfold_node. unfold gfail, gtry.
  repeat case_match; simplify_eq/=; eexists; by split_and!.
Qed.

(** A process that starts has nobody waiting. *)
Definition no_callers n : Prop := n_waiters n = ∅ ∧ n_chans n = ∅ ∧ n_role n = Follower.

Lemma NewNode_no_callers env (cfg : Config SM) d n' d' : NewNode env cfg d = (Ok n', d') → no_callers n'.
Proof.
  unfold NewNode. cbv zeta. intros [([t v] & d1 & _ & E)|(e & _ & ?)]%bind_inv; [|done].
  apply bind_inv in E as [(log & d2 & _ & E)|(e & _ & ?)]; [|done].
  destruct (initial_log cfg log) as [[[lg lo] ap] sp]. by injection E as <- _.
Qed.

End healthy.

(** More ways to begin. *)
Lemma healthy_at_mono {SM : Type} `{StateMachine SM} {D : Type} `{Storage D} `{!VoteLaws D} `{!LogLaws D}
    (start start' : Z → SM → Prop) l (s : Node SM * D) :
  (∀ b M, start b M → start' b M) → healthy_at start l s → healthy_at start' l s.
Proof.
  intros Hm (? & ? & ? & ? & (? & ? & b & M & Hs & ?) & ?). unfold healthy_at, applied_at.
  repeat (split; [done|]). split; [|done]. split; [done|]. split; [done|]. exists b, M.
  split; [by apply Hm|done].
Qed.

Section healthy0.
Context {SM : Type} `{StateMachine SM} {D : Type} `{Storage D} `{!VoteLaws D} `{!LogLaws D}.
(** The state machine every node starts with. *)
Variable sm0 : SM.
Implicit Types (n : Node SM) (d : D) (s : Node SM * D).

Definition from_scratch (b : Z) (M : SM) : Prop := b = 0 ∧ M = sm0.

Definition applied n : Prop :=
  n_lastApplied n = n_commitIndex n ∧ 0 ≤ n_commitIndex n ≤ zlen (n_log n) ∧
  n_stateMachine n = apply_all (take (Z.to_nat (n_commitIndex n)) (n_log n)) sm0.

Definition healthy s : Prop :=
  synced s ∧ n_logOffset s.1 = 0 ∧
  disk_vote s = Some (n_currentTerm s.1, n_votedFor s.1) ∧ is_u64 (n_currentTerm s.1) ∧
  applied s.1 ∧ maps_ok s.1.

Lemma scratch_machine l n :
  0 ≤ n_commitIndex n → 0 ≤ n_logOffset n →
  machine_from from_scratch l n ↔ n_stateMachine n = apply_all (take (Z.to_nat (n_commitIndex n)) l) sm0.
Proof.
  intros Hc Ho. split.
  - by intros (b & M & [-> ->] & _ & _ & ->).
  - intros Hsm. exists 0, sm0. rewrite Hsm. split; [done|]. split; [lia|]. split; [lia|done].
Qed.

Lemma healthy_iff s : healthy s ↔ n_logOffset s.1 = 0 ∧ healthy_at from_scratch (n_log s.1) s.
Proof.
  unfold healthy, healthy_at, shows_log, anchor_committed, in_view, applied, applied_at. split.
  - intros (Hs & Ho & Hd & Hu & (H1 & H2 & H3) & Hm). pose proof Hs as ((_ & _ & Hc) & _).
    apply (scratch_machine (n_log s.1)) in H3; [|lia|lia]. rewrite Ho in *.
    split; [done|]. split; [done|]. split; [|done]. split; [|by left]. split; [done|]. split; [by left|done].
  - intros (Ho & Hs & _ & Hd & Hu & (H1 & H2 & H3) & Hm). apply scratch_machine in H3; [|lia|lia].
    done.
Qed.

Lemma healthy_at_plain l s :
  healthy_at from_scratch l s → n_logOffset s.1 = 0 → l = n_log s.1 ∧ healthy s.
Proof.
  intros Hh Ho. pose proof Hh as (_ & ((E & _) & _) & _). rewrite Ho, view_0 in E.
  split; [done|]. apply healthy_iff. by rewrite E.
Qed.

(** Starting on a healthy disk without a snapshot. *)
Lemma NewNode_healthy env (cfg : Config SM) log t v d n' d' :
  let dir := cfg_DataDir cfg in
  ll_quiet d → ll_log dir d log → wf_log 0 log → vl_vote dir d = Some (t, v) → is_u64 t →
  cfg_LocalSnapshot cfg = None → cfg_StateMachine cfg = sm0 →
  NewNode env cfg d = (Ok n', d') →
  healthy (n', d') ∧ n_log n' = log ∧ n_currentTerm n' = t ∧ n_votedFor n' = v ∧
  n_role n' = Follower ∧ n_commitIndex n' = 0.
Proof.
  intros dir Hq Hl Hw Hd Hu Hsn Hsm E. unfold dir in *.
  destruct (st_LoadState (cfg_DataDir cfg) d) as [[[t1 v1]|e] d1] eqn:EL.
  2:{ unfold NewNode in E. cbv zeta in E. by erewrite bind_Err in E by exact EL. }
  destruct (NewNode_quiet env cfg d _ t1 v1 d1 Hq Hl EL)
    as (n2 & d2 & E2 & Hq2 & Hl2 & Hdir & Ht & Hv & Hr & Hc & Hsm2 & _ & _ & Hi).
  rewrite E in E2. injection E2 as <- <-.
  rewrite (initial_log_plain cfg 0) in Hi by done. change (0 <? 0) with false in Hi. injection Hi as Hi1 Hi2 Hi3 _.
  pose proof (vl_load _ _ _ _ _ EL) as [HL _]. rewrite Hd in HL. injection HL as <- <-.
  assert (Hv2 : vl_vote (cfg_DataDir cfg) d' = vl_vote (cfg_DataDir cfg) d).
  { destruct (boots_vote cfg d (n', d') (boots_up cfg env d n' d' E)) as (Hb & _). exact Hb. }
  assert (Hmaps : n_nextIndex n' = ∅ ∧ n_matchIndex n' = ∅).
  { unfold NewNode in E. cbv zeta in E. apply bind_inv in E as [([t0 v0] & d0 & _ & E)|(? & _ & ?)]; [|done].
    apply bind_inv in E as [(lg & d3 & _ & E)|(? & _ & ?)]; [|done].
    destruct (initial_log cfg lg) as [[[? ?] ?] ?]. by injection E as <- _. }
  destruct Hmaps as [M1 M2].
  split; [|split_and!; congruence]. unfold healthy, synced, log_wf, applied, maps_ok, disk_vote. cbn [fst snd].
  rewrite <- Hi1, <- Hi2, Hc, <- Hi3, Hdir, Ht, Hv, M1, M2, Hsm2, Hsm.
  split_and!; try done; [by rewrite Hv2|apply zlen_nonneg].
Qed.

Lemma restart_healthy env (cfg : Config SM) n d n' d' :
  healthy (n, d) → same_config cfg n → cfg_LocalSnapshot cfg = None → cfg_StateMachine cfg = sm0 →
  NewNode env cfg d = (Ok n', d') →
  healthy (n', d') ∧ n_log n' = n_log n ∧ n_currentTerm n' = n_currentTerm n ∧
  n_role n' = Follower ∧ n_commitIndex n' = 0.
Proof.
  intros (Hs & Ho & Hd & Hu & _ & _) (_ & _ & Ecd & _) Hsn Hsm E. cbn [fst snd] in *.
  pose proof Hs as (Hw & Hq & Hl). unfold log_wf, disk_vote in *. cbn [fst snd] in *. rewrite Ho in Hw.
  rewrite <- Ecd in *. destruct (NewNode_healthy env cfg _ _ _ d n' d' Hq Hl Hw Hd Hu Hsn Hsm E)
    as (? & ? & ? & _ & ? & ?). by split_and!.
Qed.

(** ** Nodes that have compacted nothing *)

Lemma log_kept_healthy n n' d :
  healthy_at from_scratch (n_log n) (n', d) → log_kept n n' → n_logOffset n = 0 → healthy (n', d).
Proof.
  intros Hh (E1 & E2 & _) Ho. apply healthy_iff. cbn [fst]. rewrite E1, E2. done.
Qed.

Lemma healthy_maps n m nx mt d :
  healthy (n, d) → m = set_nextIndex nx (set_matchIndex mt n) →
  (∀ p v, nx !! p = Some v → is_u64 v) → (∀ p v, mt !! p = Some v → p ∈ n_peers n) →
  healthy (m, d).
Proof. by intros (? & ? & ? & ? & ? & ?) -> ? ?. Qed.

Lemma record_match_healthy peer v n d :
  healthy (n, d) → peer ∈ n_peers n → healthy (record_match peer v n, d) ∧
  n_currentTerm (record_match peer v n) = n_currentTerm n ∧
  n_role (record_match peer v n) = n_role n ∧ n_log (record_match peer v n) = n_log n ∧
  n_commitIndex (record_match peer v n) = n_commitIndex n.
Proof.
  intros [Ho Hh]%healthy_iff Hp. destruct (record_match_at from_scratch _ peer v n d Hh Hp) as (H1 & H2 & H3 & H4 & _ & H5 & _).
  split; [by eapply log_kept_healthy|]. split_and!; try done. apply H4.
Qed.

Lemma maybeAdvance_healthy n d :
  healthy (n, d) →
  let n' := maybeAdvanceCommitIndexLocked n in
  healthy (n', d) ∧ n_currentTerm n' = n_currentTerm n ∧ n_role n' = n_role n ∧
  n_log n' = n_log n ∧ n_matchIndex n' = n_matchIndex n ∧ n_commitIndex n ≤ n_commitIndex n'.
Proof.
  intros [Ho Hh]%healthy_iff. cbv zeta. destruct (maybeAdvance_at from_scratch _ n d Hh) as (H1 & H2 & H3 & H4 & H5 & _ & H6).
  split; [by eapply log_kept_healthy|]. split_and!; try done; [apply H4|]. destruct H6 as [->|[? _]]; lia.
Qed.

Lemma AppendEntries_follow env req s :
  healthy s → is_u64 (ae_Term req) → n_currentTerm s.1 ≤ ae_Term req →
  ∃ n d, healthy (n, d) ∧ same_core s.1 n ∧ n_currentTerm n = ae_Term req ∧ n_role n = Follower ∧
    (∀ rej, consistencyCheck n req = Some rej → AppendEntries env req s = (Ok rej, (n, d))).
Proof.
  intros [Ho Hh]%healthy_iff Hu Hle. destruct (AppendEntries_follow_at from_scratch _ env req s Hh Hu Hle) as (n & d & H1 & H2 & H3 & H4 & E).
  exists n, d. split; [apply (log_kept_healthy s.1 n d); [done|apply H2|done]|]. split_and!; try done.
  intros rej Hc. by rewrite E, Hc.
Qed.

Lemma AppendEntries_merge env req s :
  healthy s → req_wf req → n_currentTerm s.1 ≤ ae_Term req → prev_matches s.1 req →
  let log' := merged 0 (ae_PrevLogIndex req) (n_log s.1) (ae_Entries req) in
  let c := n_commitIndex s.1 in
  c ≤ zlen log' → take (Z.to_nat c) log' = take (Z.to_nat c) (n_log s.1) →
  ∃ s', AppendEntries env req s = (Ok (MkAppendEntriesReply (ae_Term req) true 0 0), s') ∧
    healthy s' ∧ n_log s'.1 = log' ∧ n_currentTerm s'.1 = ae_Term req ∧ n_role s'.1 = Follower ∧
    n_commitIndex s'.1 = (if decide (c < ae_LeaderCommit req)
      then Z.min (ae_LeaderCommit req) (zlen log') else c).
Proof.
  intros [Ho Hh]%healthy_iff Hreq Hle Hm log' c Hc Htk.
  pose proof Hreq as (_ & Hp0 & Hsum & Hce & _). pose proof Hh as ((Hw & _) & _).
  assert (Hwf : wf_log 0 log').
  { unfold log'. rewrite <- Ho. apply merged_wf; [done|done| |lia].
    split; [done|]. by apply prev_matches_le. }
  destruct (AppendEntries_merge_at from_scratch (n_log s.1) log' env req s) as (s' & E & Hh' & Ho' & H3); try done.
  - by rewrite Ho.
  - by left.
  - apply Hwf.
  - rewrite Ho in Ho'. destruct (healthy_at_plain _ _ Hh' Ho') as [El Hp].
    destruct H3 as (? & ? & ?). exists s'. by split_and!.
Qed.

Lemma append_healthy cmd n d :
  healthy (n, d) → fits cmd n →
  let e := MkLogEntry (n_currentTerm n) (zlen (n_log n) + 1) cmd in
  ∃ d', appendLocalLocked cmd (n, d) =
    (Ok (zlen (n_log n) + 1, n_currentTerm n), (set_log (n_log n ++ [e]) n, d')).
Proof.
  intros [Ho Hh]%healthy_iff Hf. destruct (append_at from_scratch _ cmd n d Hh Hf) as (d' & E & _). cbn [fst] in Ho.
  exists d'. rewrite E. unfold next_entry. by rewrite Ho.
Qed.

End healthy0.
