(* ===== verification/RaftCatchUp.v ===== *)
(** * Bringing a lagging follower up to date

    One exchange is a request of the leader, the follower's answer and what
    the leader makes of it.  A follower that only lags, its log a prefix of
    the leader's, has the whole log after at most two exchanges, whatever
    nextIndex the leader starts from.  (For a follower whose log disagrees the
    back-off need not end, see Findings.) *)

From Stdlib Require Import Strings.Byte.
From S2P Require Import Prelude Pb Fs Persistence SnapshotFile Storage RaftNode RaftElection.
From S2P Require Import RaftReplication RaftLog RaftCommit RaftReadIndex RaftVotes RaftCompaction.
From S2P Require Import RaftCluster RaftSafety RaftSpec RaftHealthy.
Import SnapshotFile.

Section catchup.
Context {SM : Type} `{StateMachine SM} {D : Type} `{Storage D} `{!VoteLaws D} `{!LogLaws D}.
Variable sm0 : SM.
Implicit Types (L F : Node SM * D).

Definition exchange (env : Env) (p : string) (LF : (Node SM * D) * (Node SM * D)) :
    option ((Node SM * D) * (Node SM * D)) :=
  let '(L, F) := LF in
  o ← buildRequest L.1 p;
  match AppendEntries env (o_req o) F with
  | (Ok reply, F') => Some ((sendAppendEntriesAndHandle (n_currentTerm L.1) o reply L).2, F')
  | (Err _, F') => Some (L, F')
  end.

Fixpoint exchanges (k : nat) (env : Env) (p : string) (LF : (Node SM * D) * (Node SM * D)) :
    option ((Node SM * D) * (Node SM * D)) :=
  match k with
  | O => Some LF
  | S k' => LF' ← exchange env p LF; exchanges k' env p LF'
  end.

Lemma merge_ref_prefix (l es : list LogEntry) : l `prefix_of` es → merge_ref l es = es.
Proof.
  revert es. induction l as [|x l IH]; intros es [k ->]; [by destruct k|]. simpl.
  rewrite Z.eqb_refl. f_equal. apply IH. by exists k.
Qed.

Lemma merged_prefix prev (mine l : list LogEntry) :
  mine `prefix_of` l → 0 ≤ prev ≤ zlen mine → merged 0 prev mine (drop (Z.to_nat prev) l) = l.
Proof.
  intros [k ->] Hp. unfold merged. rewrite Z.sub_0_r. replace (Z.to_nat (0 - prev)) with 0%nat by lia.
  rewrite drop_0, merge_ref_prefix; [|exists k; by rewrite drop_app_le by (unfold zlen in *; lia)].
  rewrite <- (take_app_le mine k) by (unfold zlen in *; lia). apply take_drop.
Qed.

(** What the leader does with an acknowledgement of its own term. *)
Lemma reply_success term o L :
  n_role L.1 = Leader → n_currentTerm L.1 = term → is_u64 (o_prevIndex o + o_numEntries o) →
  (sendAppendEntriesAndHandle term o (MkAppendEntriesReply term true 0 0) L).2 =
    (maybeAdvanceCommitIndexLocked (record_match (o_peer o) (o_prevIndex o + o_numEntries o) L.1), L.2).
Proof.
  destruct L as [n d]. cbn [fst snd]. intros Hr Ht Hu. unfold sendAppendEntriesAndHandle.
  rewrite nbind_getN. cbn [fst]. rewrite bool_decide_eq_true_2, Ht, Z.eqb_refl by done. cbn [negb orb].
  unfold handleAppendEntriesReplyLocked. erewrite nbind_Ok; [done|].
  rewrite nbind_getN. cbn [fst aer_Term aer_Success]. rewrite (proj2 (Z.ltb_ge _ _)) by lia.
  rewrite !nbind_modifyN. cbn [fst snd]. by rewrite wrap64_small.
Qed.

(** And with a rejection that names no conflicting term. *)
Lemma reply_reject term o i L :
  n_role L.1 = Leader → n_currentTerm L.1 = term → 1 ≤ i →
  (sendAppendEntriesAndHandle term o (MkAppendEntriesReply term false i 0) L).2 =
    (set_nextIndex (<[o_peer o := i]> (n_nextIndex L.1)) L.1, L.2).
Proof.
  destruct L as [n d]. cbn [fst snd]. intros Hr Ht Hi. unfold sendAppendEntriesAndHandle.
  rewrite nbind_getN. cbn [fst]. rewrite bool_decide_eq_true_2, Ht, Z.eqb_refl by done. cbn [negb orb].
  unfold handleAppendEntriesReplyLocked. erewrite nbind_Ok; [done|].
  rewrite nbind_getN. cbn [fst aer_Term aer_Success]. rewrite (proj2 (Z.ltb_ge _ _)) by lia.
  unfold modifyN, backoffNext. cbn [fst snd aer_ConflictTerm aer_ConflictIndex]. simpl.
  by rewrite (proj2 (Z.ltb_ge i 1)) by lia.
Qed.

(** Leader and follower, the follower behind. *)
Definition behind (p : string) L F : Prop :=
  healthy sm0 L ∧ healthy sm0 F ∧ n_role L.1 = Leader ∧ p ∈ n_peers L.1 ∧
  n_currentTerm F.1 ≤ n_currentTerm L.1 ∧ n_log F.1 `prefix_of` n_log L.1 ∧
  zlen (n_log L.1) + 1 < u64_max.

(** Caught up: the same log, the commit index of the leader's request or the
    follower's own if higher, and the leader knows. *)
Definition caught_up (p : string) L F L' F' : Prop :=
  healthy sm0 L' ∧ healthy sm0 F' ∧ n_role L'.1 = Leader ∧ n_log L'.1 = n_log L.1 ∧
  n_log F'.1 = n_log L.1 ∧ n_currentTerm F'.1 = n_currentTerm L.1 ∧ n_role F'.1 = Follower ∧
  n_commitIndex F'.1 = Z.max (n_commitIndex F.1) (n_commitIndex L.1) ∧
  n_commitIndex L.1 ≤ n_commitIndex L'.1 ∧
  zlen (n_log L.1) ≤ default 0 (n_matchIndex L'.1 !! p).

Lemma exchange_accepted env p L F :
  behind p L F → peerNext L.1 p - 1 ≤ zlen (n_log F.1) →
  ∃ L' F', exchange env p (L, F) = Some (L', F') ∧ caught_up p L F L' F'.
Proof.
  intros (HL & HF & Hr & Hp & Ht & Hpre & Hroom) Hnext.
  pose proof HL as (HsL & HoL & _ & HuL & (_ & HbL & _) & HmL & _). pose proof HsL as (HwL & _ & HlL).
  pose proof HF as (HsF & HoF & _ & _ & (_ & HbF & _) & _). pose proof HsF as (HwF & _).
  destruct (buildRequest_eq L.1 p HwL (HmL p)) as (Hnx & HB). cbv zeta in *.
  rewrite HoL, Z.sub_0_r in *. set (prev := peerNext L.1 p - 1) in *.
  set (es := drop (Z.to_nat prev) (n_log L.1)) in *. set (req := MkAppendEntriesRequest _ _ _ _ _ _) in HB.
  pose proof (prefix_length _ _ Hpre) as Hlen. 
  assert (Hes : prev + zlen es = zlen (n_log L.1)) by (unfold es; rewrite zlen_drop; unfold zlen in *; lia).
  assert (Hpm : prev_matches F.1 req).
  { unfold prev_matches. cbn [ae_PrevLogIndex ae_PrevLogTerm req]. rewrite HoF.
    destruct (decide (prev ≤ 0)); [by left|right].
    destruct (proj2 (entryAt_is_Some F.1 prev HwF) ltac:(lia)) as [e He]. exists e. split; [done|].
    unfold prev_term. apply entryAt_Some in He as [_ He]; [|done]. rewrite HoF, Z.sub_0_r in He.
    destruct (proj2 (entryAt_is_Some L.1 prev HwL) ltac:(unfold zlen in *; lia)) as [e' He']. rewrite He'.
    apply entryAt_Some in He' as [_ He']; [|done]. rewrite HoL, Z.sub_0_r in He'.
    pose proof (prefix_lookup_Some _ _ _ _ He Hpre). congruence. }
  assert (Hmg : merged 0 prev (n_log F.1) es = n_log L.1) by (apply merged_prefix; [done|unfold zlen in *; lia]).
  destruct (AppendEntries_merge sm0 env req F) as (F' & HE & HF' & E1 & E2 & E3 & E4); try done.
  { unfold req_wf. cbn [ae_Term ae_PrevLogIndex ae_Entries req]. split_and!; [apply HuL..|lia|lia| |].
    - destruct HwL as (_ & _ & Hc). rewrite HoL in Hc. apply (consecutive_drop 0 _ (Z.to_nat prev)) in Hc.
      by rewrite Z.add_0_l, Z2Nat.id in Hc by lia.
    - apply Forall_drop. by eapply ll_log_storable. }
  { cbn [ae_PrevLogIndex ae_Entries req]. rewrite Hmg. unfold zlen in *. lia. }
  { cbn [ae_PrevLogIndex ae_Entries req]. rewrite Hmg. apply take_prefix_of; [done|unfold zlen in *; lia]. }
  cbn [ae_PrevLogIndex ae_Entries ae_Term ae_LeaderCommit req] in *. rewrite Hmg in *.
  unfold exchange. rewrite HB. cbn [mbind option_bind o_req]. rewrite HE.
  set (o := MkOutgoing _ _ _ _). rewrite (reply_success (n_currentTerm L.1) o L Hr eq_refl)
    by (cbn [o_prevIndex o_numEntries o]; u64).
  destruct L as [n d]. cbn [fst snd] in *. cbn [o_peer o_prevIndex o_numEntries o]. rewrite Hes.
  destruct (record_match_healthy sm0 p (zlen (n_log n)) n d HL Hp) as (Hh1 & R1 & R2 & R3 & R5).
  destruct (maybeAdvance_healthy sm0 _ d Hh1) as (Hh2 & M1 & M2 & M3 & M4 & M6).
  do 2 eexists. split; [done|]. unfold caught_up. cbn [fst snd].
  rewrite M2, R2, M3, R3, M4. split_and!; try done.
  - rewrite E4. case_decide; lia.
  - by rewrite R5 in M6.
  - unfold record_match. cbv zeta. destruct (default 0 (n_matchIndex n !! p) <? _) eqn:E; zbool;
      destruct (_ <? _); cbn [n_matchIndex set_nextIndex set_matchIndex]; rewrite ?lookup_insert_eq; simpl; lia.
Qed.

Lemma exchange_refused env p L F :
  behind p L F → zlen (n_log F.1) < peerNext L.1 p - 1 →
  ∃ L' F', exchange env p (L, F) = Some (L', F') ∧ behind p L' F' ∧
    n_log L'.1 = n_log L.1 ∧ n_currentTerm L'.1 = n_currentTerm L.1 ∧
    n_commitIndex L'.1 = n_commitIndex L.1 ∧ n_commitIndex F'.1 = n_commitIndex F.1 ∧
    n_log F'.1 = n_log F.1 ∧ peerNext L'.1 p - 1 = zlen (n_log F.1).
Proof.
  intros (HL & HF & Hr & Hp & Ht & Hpre & Hroom) Hnext.
  pose proof HL as (HsL & HoL & _ & HuL & _ & HmL & Hmm). pose proof HsL as (HwL & _).
  destruct (buildRequest_eq L.1 p HwL (HmL p)) as (Hnx & HB). cbv zeta in *.
  rewrite HoL in *. set (prev := peerNext L.1 p - 1) in *. set (req := MkAppendEntriesRequest _ _ _ _ _ _) in HB.
  destruct (AppendEntries_follow sm0 env req F HF HuL Ht) as (n & d & Hh & Hc & Ht' & Hr' & HE).
  pose proof Hc as ((El & Eo & _) & Ec & _). pose proof Hh as (Hsn & Hon & _). pose proof Hsn as (Hwn & _).
  cbn [fst snd] in *. pose proof (prefix_length _ _ Hpre). pose proof (zlen_nonneg (n_log F.1)).
  assert (Hcc : consistencyCheck n req = Some (MkAppendEntriesReply (n_currentTerm L.1) false (zlen (n_log F.1) + 1) 0)).
  { unfold consistencyCheck. cbn [ae_PrevLogIndex req]. rewrite Hon, (proj2 (Z.ltb_lt _ _)) by lia.
    destruct (entryAtLocked n prev) as [e|] eqn:Ee.
    - assert (is_Some (entryAtLocked n prev)) as Hse by eauto. apply entryAt_is_Some in Hse; [|done].
      rewrite Hon, El in Hse. lia.
    - unfold reject. rewrite lastLogIndex_spec, Hon, El, Ht' by done. cbn [ae_Term req].
      do 2 f_equal. rewrite wrap64_small; [lia|unfold zlen in *; u64]. }
  unfold exchange. rewrite HB. cbn [mbind option_bind o_req]. rewrite (HE _ Hcc).
  rewrite (reply_reject (n_currentTerm L.1)) by (done || lia). cbn [o_peer].
  destruct L as [nL dL]. cbn [fst snd] in *. do 2 eexists. split; [done|]. unfold behind. cbn [fst snd].
  split_and!; try done.
  - eapply (healthy_maps sm0 nL _ (<[p := zlen (n_log F.1) + 1]> (n_nextIndex nL)) (n_matchIndex nL));
      [done|by destruct nL| |done].
    intros q v. rewrite lookup_insert_Some. intros [[_ <-]|[_ ?]]; [unfold zlen in *; u64|eauto].
  - rewrite Ht'. done.
  - by rewrite El.
  - unfold peerNext. cbn [n_nextIndex set_nextIndex]. rewrite lookup_insert_eq. simpl.
    rewrite HoL, (proj2 (Z.leb_gt _ _)) by lia. lia.
Qed.

(** C16.  Replication to a lagging follower ends: whatever nextIndex the leader
    starts from, at most two exchanges give the follower the leader's whole
    log and commit index, and the leader's matchIndex records it. *)
Theorem lagging_follower_catches_up env p L F :
  behind p L F →
  ∃ k L' F', (k ≤ 2)%nat ∧ exchanges k env p (L, F) = Some (L', F') ∧ caught_up p L F L' F'.
Proof.
  intros HB. destruct (decide (peerNext L.1 p - 1 ≤ zlen (n_log F.1))) as [Hle|Hgt].
  - destruct (exchange_accepted env p L F HB Hle) as (L' & F' & E & HC).
    exists 1%nat, L', F'. split; [lia|]. split; [|done]. cbn [exchanges]. by rewrite E.
  - destruct (exchange_refused env p L F HB ltac:(lia)) as (L1 & F1 & E1 & HB1 & El & Et & EcL & EcF & ElF & En).
    destruct (exchange_accepted env p L1 F1 HB1) as (L' & F' & E & HC); [rewrite ElF; lia|].
    exists 2%nat, L', F'. split; [lia|]. split; [cbn [exchanges]; rewrite E1; cbn [mbind option_bind]; by rewrite E|].
    unfold caught_up in *. by rewrite El, Et, EcL, EcF in HC.
Qed.

End catchup.
