(* ===== verification/RaftAnchors.v ===== *)
(** * What only compaction moves

    logOffset, the snapshot path and the snapshot files of a node's directory
    are changed by compaction, catch-up and restart alone.  [fixes m]: the
    operation [m] leaves them; [fixes_tac] walks through its text. *)

From Stdlib Require Import Strings.Byte.
From S2P Require Import Prelude Pb Fs Persistence SnapshotFile Storage SnapStorage RaftNode RaftElection.
From S2P Require Import RaftReplication RaftLog RaftCommit RaftReadIndex RaftSnapshot RaftVotes RaftCluster.
Import SnapshotFile.

(** A fact about the disk that the calls of these operations leave true. *)
Class DiskFact {D : Type} `{Storage D} (K : D → Prop) : Prop := {
  df_save : ∀ dir t v, keeps_true K (st_SaveState dir t v);
  df_append : ∀ dir es, keeps_true K (st_AppendLogEntries dir es);
  df_truncate : ∀ dir i, keeps_true K (st_TruncateLogFrom dir i)
}.

#[export] Instance no_fact {D : Type} `{Storage D} : DiskFact (λ _ : D, True).
Proof. by split. Qed.

#[export] Instance snapshots_fact {D : Type} `{Storage D} `{LL : !LogLaws D} `{!SnapLaws D} dir fs :
  DiskFact (λ d : D, sl_files dir d fs).
Proof. split; intros; [apply sl_save|apply sl_append|apply sl_truncate]. Qed.

Section anchors.
Context {SM : Type} `{StateMachine SM} {D : Type} `{Storage D} (K : D → Prop) `{!DiskFact K}.
Context `{GF : Codec File}.
Implicit Types (n : Node SM) (s : Node SM * D).

Definition same_place n n' : Prop :=
  n_logOffset n' = n_logOffset n ∧ n_currentSnapshotPath n' = n_currentSnapshotPath n ∧
  n_dataDir n' = n_dataDir n.

#[export] Instance same_place_preorder : PreOrder same_place.
Proof. split; [by intros n|]. intros n1 n2 n3 (? & ? & ?) (? & ? & ?). split_and!; congruence. Qed.

Definition fixes {A} (m : NodeM SM D A) : Prop :=
  ∀ s, K s.2 → same_place s.1 (m s).2.1 ∧ K (m s).2.2.

Lemma fixes_ret {A} (x : A) : fixes (mret x).
Proof. by intros s. Qed.

Lemma fixes_fail {A} e : fixes (gfail e : NodeM SM D A).
Proof. by intros s. Qed.

Lemma fixes_bind {A B} (m : NodeM SM D A) (f : A → NodeM SM D B) :
  fixes m → (∀ x, fixes (f x)) → fixes (m ≫= f).
Proof.
  intros Hm Hf s Hk. destruct (Hm s Hk) as [H1 H2]. unfold mbind, GoM_bind.
  destruct (m s) as [[x|e] s']; simpl in *; [|done]. destruct (Hf x s' H2) as [? ?].
  split; [by etrans|done].
Qed.

Lemma fixes_getN {A} (f : Node SM → NodeM SM D A) : (∀ n, fixes (f n)) → fixes (getN ≫= f).
Proof. intros Hf s. apply Hf. Qed.

Lemma fixes_gtry {A} (m : NodeM SM D A) : fixes m → fixes (gtry m).
Proof. intros Hm s Hk. specialize (Hm s Hk). unfold gtry. by destruct (m s). Qed.

Lemma fixes_modify (f : Node SM → Node SM) : (∀ n, same_place n (f n)) → fixes (modifyN f).
Proof. intros Hf s Hk. by split. Qed.

Lemma fixes_liftD {A} (m : GoM D A) : keeps_true K m → fixes (liftD m).
Proof. intros Hm [n d] Hk. specialize (Hm d Hk). unfold liftD. simpl. by destruct (m d). Qed.

(** ** Functions of the node *)

Lemma setRole_place r n : same_place n (setRoleLocked r n).
Proof. by destruct (setRole_shape r n) as (W & C & ->). Qed.

Lemma becomeLeader_place n : same_place n (becomeLeaderLocked n).
Proof. unfold becomeLeaderLocked. by destruct (negb _). Qed.

Lemma selfQuorum_place ca n : same_place n (electionSelfQuorum ca n).
Proof. unfold electionSelfQuorum. destruct (_ && _); [apply becomeLeader_place|done]. Qed.

Lemma apply_place n : same_place n (applyCommittedLocked n).
Proof.
  unfold applyCommittedLocked.
  assert (Hl : ∀ fuel m, same_place m (apply_loop fuel m)).
  { induction fuel as [|fuel IH]; intros m; cbn [apply_loop]; [done|]. destruct (_ <? _); [|done].
    destruct (entryAtLocked _ _) as [e|]; [|done]. destruct (n_waiters _ !! _); (etrans; [|apply IH]); done. }
  destruct (_ <? _); (etrans; [apply Hl|done]).
Qed.

Lemma maybeAdvance_place n : same_place n (maybeAdvanceCommitIndexLocked n).
Proof.
  unfold maybeAdvanceCommitIndexLocked. destruct (find_commit _ _ _); [|done].
  by etrans; [|apply apply_place].
Qed.

End anchors.

Create HintDb fixesdb.
#[export] Hint Resolve fixes_ret fixes_fail setRole_place becomeLeader_place apply_place maybeAdvance_place : fixesdb.
#[export] Hint Resolve df_save df_append df_truncate : fixesdb.

Ltac fixes_tac :=
  repeat first
    [ solve [eauto with fixesdb typeclass_instances]
    | apply fixes_getN; intros ?
    | apply fixes_gtry
    | apply fixes_modify; intros ?
    | apply fixes_liftD
    | apply fixes_bind; [|intros ?]
    | match goal with
      | |- fixes _ (match ?x with _ => _ end) => destruct x
      | |- fixes _ (if ?x then _ else _) => destruct x
      | |- same_place _ (if ?x then _ else _) => destruct x
      end
    | exact (setRole_place _ _)
    | exact (apply_place _)
    | match goal with |- same_place _ _ => done end ].

(** ** The operations *)

Section operations.
Context {SM : Type} `{StateMachine SM} {D : Type} `{Storage D} (K : D → Prop) `{!DiskFact K}.
Context `{GF : Codec File}.

Lemma persist_fixes : fixes K (persistStateLocked : NodeM SM D unit).
Proof. unfold persistStateLocked. fixes_tac. Qed.
#[local] Hint Resolve persist_fixes : fixesdb.

Lemma observe_fixes t : fixes K (observeTermLocked t : NodeM SM D bool).
Proof. unfold observeTermLocked. fixes_tac. Qed.
#[local] Hint Resolve observe_fixes : fixesdb.

Lemma startElection_fixes env : fixes K (startElection env : NodeM SM D _).
Proof. unfold startElection. fixes_tac. Qed.

Lemma RequestVote_fixes env req : fixes K (RequestVote env req : NodeM SM D _).
Proof. unfold RequestVote. fixes_tac. Qed.

Lemma handleVoteReply_fixes ca reply : fixes K (handleVoteReply ca reply : NodeM SM D _).
Proof. unfold handleVoteReply. fixes_tac. Qed.

Lemma merge_fixes prev es : fixes K (mergeEntriesLocked prev es : NodeM SM D _).
Proof. unfold mergeEntriesLocked. fixes_tac. Qed.
#[local] Hint Resolve merge_fixes : fixesdb.

Lemma AppendEntries_fixes env req : fixes K (AppendEntries env req : NodeM SM D _).
Proof. unfold AppendEntries. fixes_tac. Qed.

Lemma reply_fixes term o reply : fixes K (sendAppendEntriesAndHandle term o reply : NodeM SM D _).
Proof. unfold sendAppendEntriesAndHandle, handleAppendEntriesReplyLocked. fixes_tac. Qed.

Lemma appendLocal_fixes cmd : fixes K (appendLocalLocked cmd : NodeM SM D _).
Proof. unfold appendLocalLocked. fixes_tac. Qed.
#[local] Hint Resolve appendLocal_fixes : fixesdb.

(** A local operation that does not touch snapshots. *)
Definition plain_op (op : LocalOp) : Prop :=
  match op with
  | OpPropose _ | OpProposeSync _ | OpProposeCancel _ | OpFollowerRead _ => True
  | _ => False
  end.

Lemma local_fixes op : plain_op op → fixes K (run_local op : NodeM SM D _).
Proof.
  intros Hop. destruct op; try done; simpl;
    unfold ignore, Propose, ProposeSync_begin, FollowerLinearizableRead, waitForApplied; fixes_tac.
Qed.

End operations.
