(* ===== verification/RaftImplements.v ===== *)
(** * How the nodes follow the specification

    [implements c a]: the abstract state [a] of RaftSpec describes the cluster
    [c].  The log of a node in [a] is its whole log; the node itself holds a
    view of it, from its compaction point on.  Every operation of a node is
    matched by steps of the specification that keep the relation. *)

From Stdlib Require Import Strings.Byte.
From stdpp Require Import functions.
From S2P Require Import Prelude Pb Fs Persistence SnapshotFile Storage RaftNode RaftElection.
From S2P Require Import RaftReplication RaftLog RaftCommit RaftReadIndex RaftVotes RaftCompaction.
From S2P Require Import RaftCluster RaftSafety RaftSpec RaftViews RaftHealthy RaftAnchors.
Import SnapshotFile.

Section implements.
Context {SM : Type} `{StateMachine SM} {D : Type} `{Storage D} `{!VoteLaws D} `{!LogLaws D}.
Context `{GF : Codec File} `{MB : Membership} `{!MembershipOk}.
Variable start : Z → SM → Prop.
Implicit Types (n : Node SM) (d : D) (s : Node SM * D) (c : Cluster (SM := SM) (D := D)) (a : Spec).

(** Client operations; a leader has room for the entry it is given. *)
Definition client_ok (op : LocalOp) n : Prop :=
  match op with
  | OpPropose cmd | OpProposeSync cmd => n_role n = Leader → fits cmd n
  | OpProposeCancel _ | OpFollowerRead _ => True
  | _ => False
  end.

(** ** The relation *)

(** The first [k] entries of [l] are committed in some term up to [t], and the
    leader of that term has found them so. *)
Definition commit_ok a (t : Z) (l : list LogEntry) (k : Z) : Prop :=
  0 ≤ k ≤ zlen l ∧
  (k = 0 ∨ ∃ t0 P, committed a t0 P ∧ (t0 ≤ t ∧ k ≤ sp_known a t0) ∧ take (Z.to_nat k) l `prefix_of` P).

Definition node_im a (i : string) s : Prop :=
  healthy_at start (sp_log a i) s ∧ sp_term a i = n_currentTerm s.1 ∧
  zlen (sp_log a i) + 1 < u64_max ∧
  commit_ok a (n_currentTerm s.1) (sp_log a i) (n_commitIndex s.1) ∧
  (n_role s.1 = Candidate → 0 < n_currentTerm s.1) ∧
  (n_role s.1 = Leader →
    (sp_lead a (n_currentTerm s.1) = Some (sp_log a i) ∧
     sp_known a (n_currentTerm s.1) ≤ n_commitIndex s.1) ∧
    ∀ p v, n_matchIndex s.1 !! p = Some v →
      v = 0 ∨ ∃ P, (p, n_currentTerm s.1, P) ∈ sp_acks a ∧ zlen P = v).

(** The previous term a leader with log [l] and compaction point [ol] sends:
    0 where it has no entry. *)
Definition sent_term (ol : Z) (l : list LogEntry) (prev : Z) : Z :=
  if decide (ol < prev) then match l !! Z.to_nat (prev - 1) with Some e => e_Term e | None => 0 end
  else 0.

(** A request carries the end of the view, from [ol] on, that the leader of its
    term had of its log [l]. *)
Definition app_ok a (term : Z) (o : outgoingAppendEntries) : Prop :=
  let req := o_req o in
  let prev := ae_PrevLogIndex req in
  ∃ l L ol, sp_lead a term = Some L ∧ l `prefix_of` L ∧ ae_Term req = term ∧
    (o_prevIndex o = prev ∧ o_numEntries o = zlen (ae_Entries req)) ∧
    Forall ll_storable (ae_Entries req) ∧ consecutive 0 l ∧ zlen l + 1 < u64_max ∧
    commit_ok a term l (ae_LeaderCommit req) ∧ in_view ol l ∧ ol ≤ prev < u64_max ∧
    ae_Entries req = drop (Z.to_nat (prev - ol)) (view ol l) ∧
    ae_PrevLogTerm req = sent_term ol l prev.

Definition msg_im (nodes : gmap string (Node SM * D)) a (m : Msg) : Prop :=
  match m with
  | MVoteReq src _ req =>
      rv_Term req ≤ sp_term a src ∧
      ∀ s, nodes !! src = Some s → n_role s.1 = Candidate → n_currentTerm s.1 = rv_Term req →
        rv_LastLogTerm req = last_term (sp_log a src) ∧ rv_LastLogIndex req = zlen (sp_log a src)
  | MVoteRep _ _ _ _ => True
  | MAppReq src dst term o => app_ok a term o ∧ o_peer o = dst ∧ dst ∈ members ∧ dst ≠ src
  | MAppRep src dst term o reply =>
      is_u64 (aer_ConflictIndex reply) ∧ is_u64 (o_prevIndex o + o_numEntries o) ∧
      o_peer o = src ∧ src ∈ members ∧ src ≠ dst ∧
      (aer_Success reply = true →
        ∃ P, (src, term, P) ∈ sp_acks a ∧ zlen P = o_prevIndex o + o_numEntries o)
  end.

Record implements c a : Prop := {
  im_inv : SInv a;
  im_node : ∀ i s, cl_nodes c !! i = Some s → node_im a i s;
  im_votes : ∀ v t i, i ∈ members → (v, t, id_of i) ∈ cl_votes c →
    t ≤ sp_term a i ∧
    ∀ s, cl_nodes c !! i = Some s → n_role s.1 = Candidate → n_currentTerm s.1 = t →
      sp_lead a t = None → ∃ l, (v, t, l) ∈ sp_vrecs a ∧ up_to_date (sp_log a i) l;
  im_lead : ∀ t L, sp_lead a t = Some L →
    ∃ i, i ∈ members ∧ wins (cl_votes c) i t ∧ t ≤ sp_term a i ∧
      ∀ s, cl_nodes c !! i = Some s → n_role s.1 = Candidate → n_currentTerm s.1 ≠ t;
  im_net : ∀ m, m ∈ cl_net c → msg_im (cl_nodes c) a m
}.

(** ** How the relation survives changes *)

Lemma commit_ok_grows a a' t t' l l' k :
  grows a a' → t ≤ t' → k ≤ zlen l' → take (Z.to_nat k) l' = take (Z.to_nat k) l →
  commit_ok a t l k → commit_ok a' t' l' k.
Proof.
  intros Hgr Ht Hk Htk [Hb [->|(t0 & P & HC & Hle & HP)]]; (split; [lia|]); [by left|right].
  exists t0, P. split; [by eapply committed_grows|]. pose proof (gr_known a a' Hgr t0).
  split; [lia|]. by rewrite Htk.
Qed.

Lemma app_ok_grows a a' term o : grows a a' → app_ok a term o → app_ok a' term o.
Proof.
  intros Hgr (l & L & ol & HL & Hl & G1 & [G2 G2'] & G3 & G4 & G5 & G6 & G7 & G8 & G9 & G10).
  destruct (gr_lead a a' Hgr _ _ HL) as (L' & HL' & Hp & _).
  assert (commit_ok a' term l (ae_LeaderCommit (o_req o))).
  { pose proof G6 as [? _]. eapply (commit_ok_grows a a' term term l l); done || lia. }
  exists l, L', ol. split_and!; first [done|by etrans|lia].
Qed.

(** Everything that changes a node: [a'] follows [a] for node [i] and leaves
    the other nodes alone. *)
Lemma implements_upd c a a' i s s' :
  implements c a → cl_nodes c !! i = Some s → SInv a' → grows a a' →
  (∀ j, j ≠ i → sp_term a' j = sp_term a j ∧ sp_log a' j = sp_log a j) →
  (∀ j s2, j ≠ i → cl_nodes c !! j = Some s2 → n_role s2.1 = Leader →
    sp_lead a' (n_currentTerm s2.1) = sp_lead a (n_currentTerm s2.1) ∧
    sp_known a' (n_currentTerm s2.1) = sp_known a (n_currentTerm s2.1)) →
  node_im a' i s' →
  (n_role s'.1 = Candidate → n_currentTerm s.1 < n_currentTerm s'.1 ∨
    n_role s.1 = Candidate ∧ n_currentTerm s'.1 = n_currentTerm s.1 ∧ sp_log a' i = sp_log a i) →
  (∀ t L, sp_lead a' t = Some L → sp_lead a t = None →
    t = n_currentTerm s'.1 ∧ n_role s'.1 = Leader ∧ i ∈ members ∧ wins (cl_votes c) i t) →
  implements (upd_node i s' c) a'.
Proof.
  intros [R1 R2 R3 R4 R5] Hi HI Hgr Hoth Hlead Hn Hcand Hnew.
  pose proof (R2 i s Hi) as (_ & Hti & _). pose proof Hn as (_ & Hti' & _).
  assert (Hcase : ∀ k s2, <[i := s']> (cl_nodes c) !! k = Some s2 → n_role s2.1 = Candidate →
    sp_term a k < n_currentTerm s2.1 ∨ ∃ s1, cl_nodes c !! k = Some s1 ∧ n_role s1.1 = Candidate ∧
      n_currentTerm s1.1 = n_currentTerm s2.1 ∧ sp_log a' k = sp_log a k).
  { intros k s2 [[<- <-]|[Hne Hk]]%lookup_insert_Some Hc.
    - destruct (Hcand Hc) as [?|(? & ? & ?)]; [left; lia|right; by exists s].
    - right. exists s2. split_and!; try done. by apply Hoth. }
  split; simpl.
  - done.
  - intros j s2 [[<- <-]|[Hne Hj]]%lookup_insert_Some; [done|].
    destruct (R2 j s2 Hj) as (N1 & N2 & N4 & N6 & N7 & N8).
    unfold node_im. destruct (Hoth j) as [-> ->]; [done|]. split_and!; try done.
    + eapply (commit_ok_grows a); try done. apply N6.
    + intros HL. destruct (Hlead j s2) as [-> ->]; [done..|]. destruct (N8 HL) as [N9 N10]. split; [done|].
      intros p v Hv. destruct (N10 p v Hv) as [?|(P & HA & ?)]; [by left|right].
      exists P. split; [|done]. by apply (gr_acks a a' Hgr).
  - intros v t k Hk Hv. destruct (R3 v t k Hk Hv) as [Hle Hvr]. pose proof (gr_term a a' Hgr k).
    split; [lia|]. intros s2 Hs2 Hc Ht Hno.
    destruct (Hcase k s2 Hs2 Hc) as [?|(s1 & Hs1 & Hc1 & Ht1 & Hl1)]; [lia|].
    destruct (Hvr s1 Hs1 Hc1 ltac:(lia)) as (l & HV & ?).
    + destruct (sp_lead a t) as [L|] eqn:EL; [|done].
      destruct (gr_lead a a' Hgr _ _ EL) as (L' & ? & _). congruence.
    + exists l. rewrite Hl1. split; [|done]. by apply (gr_vrecs a a' Hgr).
  - intros t L HL. destruct (sp_lead a t) as [L0|] eqn:EL.
    + destruct (R4 t L0 EL) as (k & Hk & Hw & Hle & Hc). exists k. pose proof (gr_term a a' Hgr k).
      split_and!; [done|done|lia|]. intros s2 Hs2 Hcd.
      destruct (Hcase k s2 Hs2 Hcd) as [?|(s1 & Hs1 & Hc1 & Ht1 & _)]; [lia|].
      rewrite <- Ht1. by apply Hc.
    + destruct (Hnew t L HL EL) as (-> & Hl & Him & Hw). exists i. split_and!; [done|done|lia|].
      rewrite lookup_insert_eq. intros s2 [= <-]. congruence.
  - intros m Hm. specialize (R5 m Hm). destruct m as [src dst req| |src dst t o|src dst t o rep]; simpl in *.
    + destruct R5 as [Hle Hq]. pose proof (gr_term a a' Hgr src). split; [lia|].
      intros s2 Hs2 Hc Ht. destruct (Hcase src s2 Hs2 Hc) as [?|(s1 & Hs1 & Hc1 & Ht1 & Hl1)]; [lia|].
      rewrite Hl1. apply (Hq s1); [done|done|lia].
    + done.
    + split_and!; try apply R5. eapply app_ok_grows; [done|apply R5].
    + destruct R5 as (? & ? & ? & ? & ? & Hs). split_and!; try done. intros Hsu.
      destruct (Hs Hsu) as (P & HA & ?). exists P. split; [|done]. by apply (gr_acks a a' Hgr).
Qed.

Lemma implements_add_net c a ms :
  implements c a → (∀ m, m ∈ ms → msg_im (cl_nodes c) a m) → implements (add_net ms c) a.
Proof.
  intros [R1 R2 R3 R4 R5] Hm. split; try done. intros m [?|?]%elem_of_app; auto.
Qed.

Lemma implements_campaigns c a cs : implements c a → implements (set_campaigns cs c) a.
Proof. intros [R1 R2 R3 R4 R5]. by split. Qed.

(** A new vote of [v] for the candidate [i]. *)
Lemma implements_add_vote c a v t i :
  implements c a → i ∈ members → t ≤ sp_term a i →
  (∀ s, cl_nodes c !! i = Some s → n_role s.1 = Candidate → n_currentTerm s.1 = t →
    sp_lead a t = None → ∃ l, (v, t, l) ∈ sp_vrecs a ∧ up_to_date (sp_log a i) l) →
  implements (add_votes [(v, t, id_of i)] c) a.
Proof.
  intros [R1 R2 R3 R4 R5] Hi Ht Hv. split; try done.
  - intros w t' k Hk. simpl. intros [[= -> -> He]|?]%elem_of_cons; [|by apply R3].
    apply id_of_inj in He as ->; [|done..]. done.
  - intros t' L HL. destruct (R4 t' L HL) as (k & ? & ? & ? & ?). exists k. split_and!; try done.
    eapply wins_mono; [|done]. simpl. set_solver.
Qed.

Lemma implements_no_votes c a : implements c a → implements (add_votes [] c) a.
Proof. intros [R1 R2 R3 R4 R5]. by split. Qed.

(** ** Steps that leave log, commit index and leaders alone *)

Lemma implements_core c a a' i s s' :
  implements c a → cl_nodes c !! i = Some s → spec_step a a' →
  healthy_at start (sp_log a i) s' → same_core s.1 s'.1 → n_currentTerm s.1 ≤ n_currentTerm s'.1 →
  sp_term a' = <[i := n_currentTerm s'.1]> (sp_term a) → sp_log a' = sp_log a →
  sp_lead a' = sp_lead a → sp_known a' = sp_known a →
  (n_role s'.1 = n_role s.1 ∧ n_currentTerm s'.1 = n_currentTerm s.1 ∨
   n_role s'.1 = Follower ∨ n_role s'.1 = Candidate ∧ n_currentTerm s.1 < n_currentTerm s'.1) →
  implements (upd_node i s' c) a'.
Proof.
  intros Hrf Hi Hst Hh Hc Hle ET EL ED EK Hr. pose proof (im_inv _ _ Hrf) as HI.
  pose proof (step_grows _ _ Hst) as Hgr. pose proof Hc as (_ & Ec & _ & _ & _ & Em & _).
  destruct (im_node _ _ Hrf i s Hi) as (N1 & N2 & N4 & N6 & N7 & N8).
  eapply (implements_upd c a a'); try done.
  - by eapply step_SInv.
  - intros j Hj. rewrite ET, EL. by rewrite fn_lookup_insert_ne.
  - intros; by rewrite ED, EK.
  - unfold node_im. rewrite ET, EL, ED, EK, Ec, Em, fn_lookup_insert. split_and!; try done.
    + eapply (commit_ok_grows a); try done. apply N6.
    + intros Hcd. destruct Hr as [[Hr ->]|[?|[_ ?]]]; [apply N7; congruence|congruence|].
      destruct N1 as (_ & _ & _ & Hu & _). u64.
    + intros HL. destruct Hr as [[Hr ->]|[?|[? _]]]; [|congruence..].
      destruct N8 as [N9 N10]; [congruence|]. split; [done|].
      intros p v Hv. destruct (N10 p v Hv) as [?|(P & HA & ?)]; [by left|right].
      exists P. split; [|done]. by apply (gr_acks a a' Hgr).
  - intros Hcd. destruct Hr as [[Hr ?]|[?|[_ ?]]]; [right; split_and!; congruence|congruence|by left].
  - intros t L. rewrite ED. congruence.
Qed.

Lemma spec_one a a' : spec_step a a' → spec_steps a a'.
Proof. intros Hs. eapply spec_trans; [apply spec_refl|done]. Qed.

Lemma spec_steps_trans a1 a2 a3 : spec_steps a1 a2 → spec_steps a2 a3 → spec_steps a1 a3.
Proof.
  intros Hs1 Hs2. induction Hs2 as [|? ? ? ? IH ?]; [done|]. eapply spec_trans; [by apply IH|done].
Qed.

Lemma term_step c a i s s' :
  implements c a → cl_nodes c !! i = Some s →
  healthy_at start (sp_log a i) s' → same_core s.1 s'.1 → n_currentTerm s.1 ≤ n_currentTerm s'.1 →
  (n_role s'.1 = n_role s.1 ∧ n_currentTerm s'.1 = n_currentTerm s.1 ∨ n_role s'.1 = Follower) →
  ∃ a', spec_steps a a' ∧ implements (upd_node i s' c) a'.
Proof.
  intros Hrf Hi Hh Hc Hle Hr. destruct (im_node _ _ Hrf i s Hi) as (_ & N2 & _).
  assert (Hst : spec_step a (sp_set_term i (n_currentTerm s'.1) a)) by (apply spec_term; lia).
  eexists. split; [by apply spec_one|]. eapply (implements_core c a); try done. destruct Hr; auto.
Qed.

(** A node that votes in a term, for itself or for another candidate. *)
Lemma vote_step c a i s s' :
  implements c a → cl_nodes c !! i = Some s →
  healthy_at start (sp_log a i) s' → same_core s.1 s'.1 → n_currentTerm s.1 ≤ n_currentTerm s'.1 →
  (n_role s'.1 = n_role s.1 ∧ n_currentTerm s'.1 = n_currentTerm s.1 ∨
   n_role s'.1 = Follower ∨ n_role s'.1 = Candidate ∧ n_currentTerm s.1 < n_currentTerm s'.1) →
  ∃ a', spec_steps a a' ∧ implements (upd_node i s' c) a' ∧
    sp_term a' = <[i := n_currentTerm s'.1]> (sp_term a) ∧
    (sp_lead a' (n_currentTerm s'.1) = None →
      (i, n_currentTerm s'.1, sp_log a i) ∈ sp_vrecs a') ∧ sp_log a' = sp_log a.
Proof.
  intros Hrf Hi Hh Hc Hle Hr. destruct (im_node _ _ Hrf i s Hi) as (_ & N2 & _).
  set (t := n_currentTerm s'.1) in *. destruct (sp_lead a t) as [L|] eqn:EL.
  - assert (Hst : spec_step a (sp_set_term i t a)) by (apply spec_term; lia).
    eexists. split; [by apply spec_one|]. split; [by eapply (implements_core c a)|].
    split_and!; [done| |done]. simpl. congruence.
  - assert (Hst : spec_step a (sp_add_vrec (i, t, sp_log a i) (sp_set_term i t a))) by (apply spec_vote; [lia|done]).
    eexists. split; [by apply spec_one|]. split; [by eapply (implements_core c a)|].
    split_and!; [done| |done]. intros _. simpl. by left.
Qed.

(** ** Elections *)

Definition matched c a c' : Prop := ∃ a', spec_steps a a' ∧ implements c' a'.

Lemma matched_same c a i s : implements c a → cl_nodes c !! i = Some s → matched c a (upd_node i s c).
Proof.
  intros Hrf Hi. destruct (im_node _ _ Hrf i s Hi) as (Hh & _).
  eapply (term_step c a i s); try done. by left.
Qed.

Lemma campaign_matched b c a i env s r s' :
  Inv b c → b + 1 ≤ u64_max → implements c a → cl_nodes c !! i = Some s →
  startElection env s = (Ok r, s') →
  match r with
  | None => matched c a (upd_node i s' c)
  | Some (ca, req) =>
      matched c a (add_net (map (λ p, MVoteReq i p req) (ca_pending ca))
        (add_votes [(i, ca_term ca, n_id s.1)] (upd_node i s' c)))
  end.
Proof.
  intros HI Hb Hrf Hi HE. destruct (node_facts _ _ _ _ HI Hi) as (Him & Hid & _ & HN & Hu & Hle).
  destruct (im_node _ _ Hrf i s Hi) as (Hh & _ & _).
  destruct (decide (n_role s.1 = Leader)) as [Hr|Hr].
  { rewrite startElection_leader in HE by done. simplify_eq. by eapply matched_same. }
  destruct (startElection_at start _ env s Hh Hr ltac:(lia) ltac:(apply HN)) as (s2 & Hh2 & Hc & Ht & Hr2 & HE2).
  rewrite HE in HE2. simplify_eq. simpl.
  destruct (vote_step c a i s s2 Hrf Hi Hh2 Hc ltac:(lia) ltac:(right; right; split; [done|lia]))
    as (a' & Hst & Hrf' & ET & Hvr & EL).
  exists a'. split; [done|]. apply implements_add_net.
  - rewrite Hid. apply implements_add_vote; [done|done|by rewrite ET, fn_lookup_insert|].
    simpl. rewrite lookup_insert_eq. intros s3 [= <-] _ _ Hno. exists (sp_log a i).
    split; [by apply Hvr|]. rewrite EL. by right.
  - intros m (p & -> & _)%list_elem_of_fmap. simpl. rewrite ET, fn_lookup_insert. split; [done|].
    rewrite lookup_insert_eq, EL. by intros s3 [= <-].
Qed.

Lemma vote_req_matched b c a src dst req env s r s' :
  Inv b c → implements c a → MVoteReq src dst req ∈ cl_net c → cl_nodes c !! dst = Some s →
  RequestVote env req s = (r, s') →
  matched c a (add_net (match r with Ok rep => [MVoteRep dst src (rv_Term req) rep] | Err _ => [] end)
      (add_votes (vote_of dst req r) (upd_node dst s' c))).
Proof.
  intros HI Hrf Hm Hi HE. destruct (inv_net _ _ HI _ Hm) as (Hsrc & Hu & _ & Hcand & Hnm).
  destruct (im_net _ _ Hrf _ Hm) as (Hterm & Hlog).
  destruct (im_node _ _ Hrf dst s Hi) as (Hh & _ & _).
  destruct (RequestVote_at start _ env req s Hh Hu Hnm) as (rep & s2 & HE2 & Hh2 & Hc & Ht & Hr & Hg).
  rewrite HE in HE2. simplify_eq.
  destruct (vote_step c a dst s s2 Hrf Hi Hh2 Hc ltac:(lia) ltac:(destruct Hr; auto))
    as (a' & Hst & Hrf' & ET & Hvr & EL).
  assert (Hgr : grows a a') by (eapply steps_SInv; [done|by apply im_inv in Hrf]).
  exists a'. split; [done|]. apply implements_add_net; [|by intros m ->%list_elem_of_singleton].
  unfold vote_of. destruct (rvr_VoteGranted rep) eqn:Eg; [|by apply implements_no_votes].
  destruct (Hg eq_refl) as [Hrt Hutd]. rewrite Hcand.
  apply implements_add_vote; [done|done|pose proof (gr_term _ _ Hgr src); lia|].
  simpl. intros s3 Hs3 Hcd Ht3 Hno. exists (sp_log a dst). rewrite <- Hrt in *.
  rewrite EL. split; [by apply Hvr|]. apply lookup_insert_Some in Hs3 as [[<- <-]|[Hne Hs3]].
  - by right.
  - destruct (Hlog s3 Hs3 Hcd ltac:(lia)) as [L1 L2]. rewrite L1, L2 in Hutd.
    unfold up_to_date, zlen in *. destruct Hutd as [?|[? ?]]; [by left|right]. split; [done|lia].
Qed.

(** A candidate with a quorum of votes becomes the leader of its term. *)
Lemma elect_matched b c a i n d :
  let c' := upd_node i (becomeLeaderLocked n, d) c in
  Inv b c → Inv b c' → implements c a → cl_nodes c !! i = Some (n, d) → n_role n = Candidate →
  matched c a c'.
Proof.
  intros c' HI HI' Hrf Hi Hc. destruct (im_node _ _ Hrf i _ Hi) as (Hh & N2 & N4 & N6 & N7 & _).
  cbn [fst snd] in *. destruct (node_facts _ _ _ _ HI Hi) as (Him & _).
  destruct (becomeLeader_at start _ n d Hh Hc) as (Hh' & B1 & B2 & B3 & B4 & _ & B6).
  set (n' := becomeLeaderLocked n) in *. set (t := n_currentTerm n) in *.
  assert (Hw : wins (cl_votes c) i t).
  { rewrite <- B1. apply (inv_lead _ _ HI' i (n', d)); [apply lookup_insert_eq|done]. }
  assert (Hno : sp_lead a t = None).
  { destruct (sp_lead a t) as [L|] eqn:EL; [|done]. destruct (im_lead _ _ Hrf t L EL) as (j & Hj & Hwj & _ & Hcj).
    assert (j = i) as -> by (eapply (wins_unique (cl_votes c)); [apply (inv_uniq _ _ HI)|done..]).
    by destruct (Hcj (n, d) Hi). }
  pose proof Hw as (Q & HQ1 & HQ2 & HQ3 & HQ4).
  assert (Hst : spec_step a (sp_set_lead (sp_term a i) (sp_log a i) (sp_set_elog (sp_term a i) (sp_log a i) a))).
  { apply (spec_elect i a Q); rewrite ?N2; [by apply N7|done|done|]. intros v Hv.
    destruct (im_votes _ _ Hrf v t i Him (HQ4 v Hv)) as [_ Hvr]. by apply (Hvr (n, d)). }
  eexists. split; [by apply spec_one|]. rewrite N2 in *.

  eapply (implements_upd c a _ i (n, d)); try done.
  - eapply step_SInv; [apply Hrf|done].
  - by apply step_grows.
  - intros j s2 Hne Hj HL. simpl. rewrite fn_insertZ_cases. case_decide as Hd; [|done].
    destruct (im_node _ _ Hrf j s2 Hj) as (_ & _ & _ & _ & _ & HL2).
    destruct (HL2 HL) as [[HL3 _] _]. fold t in Hd. congruence.
  - unfold node_im. cbn [fst sp_term sp_log sp_lead sp_acks sp_known sp_set_lead sp_set_elog].
    rewrite B1, B3. split_and!; try done.
    + eapply (commit_ok_grows a); [by apply step_grows|done|apply N6|done|done].
    + intros ?. congruence.
    + intros _. rewrite fn_lookup_insert, (si_known a (im_inv _ _ Hrf) _ Hno). pose proof N6 as [? _].
      split; [split; [done|lia]|]. intros p v Hv. left. by eapply B6.
  - intros ?. cbn [fst] in *. congruence.
  - intros t' L. simpl. rewrite fn_insertZ_cases. case_decide as Hd; [|congruence].
    intros _ _. subst t'. by rewrite B1.
Qed.

Lemma vote_rep_matched b c a peer i t reply ca s ca' s' :
  Inv b c → Inv b (upd_node i s' c) → implements c a → MVoteRep peer i t reply ∈ cl_net c →
  cl_nodes c !! i = Some s → handleVoteReply ca reply s = (Ok ca', s') →
  matched c a (upd_node i s' c).
Proof.
  intros HI HI' Hrf Hm Hi HE. destruct (inv_net _ _ HI _ Hm) as (_ & Hu & _).
  destruct (im_node _ _ Hrf i s Hi) as (Hh & _).
  destruct (handleVoteReply_at start _ ca reply s Hh Hu) as (ca2 & s2 & HE2 & Hh2 & Hcase).
  rewrite HE in HE2. simplify_eq.
  destruct Hcase as [->|[(Hc & Ht & Hr)|(Hr & _ & _ & _ & ->)]].
  - by eapply matched_same.
  - eapply (term_step c a i s); try done; [lia|by right].
  - destruct s as [n d]. by eapply elect_matched.
Qed.

(** ** Replication *)

Lemma sent_term_eq n l prev : log_wf n → shows_log n l → prev_term n prev = sent_term (n_logOffset n) l prev.
Proof.
  intros Hw Hl. unfold prev_term, sent_term. pose proof Hw as (Ho & _).
  destruct (entryAtLocked n prev) as [e|] eqn:He.
  - destruct (shows_entry n l prev e Hw Hl He) as (Hp & e' & He' & Ht & _). rewrite decide_True by done.
    by rewrite He', Ht.
  - case_decide as Hd; [|done]. destruct (l !! Z.to_nat (prev - 1)) as [e|] eqn:Hx; [|done].
    assert (Hs : is_Some (entryAtLocked n prev)); [|rewrite He in Hs; by destruct Hs].
    apply entryAt_is_Some; [done|]. destruct Hl as (-> & Hv & _). rewrite view_length by done.
    apply lookup_lt_Some in Hx. unfold zlen. lia.
Qed.

Lemma broadcast_matched b c a i s term reqs :
  Inv b c → implements c a → cl_nodes c !! i = Some s →
  broadcastAppendEntries s.1 = Some (term, reqs) →
  matched c a (add_net (map (λ o, MAppReq i (o_peer o) term o) reqs) c).
Proof.
  intros HI Hrf Hi HE. destruct (node_facts _ _ _ _ HI Hi) as (Him & Hid & HP & _).
  destruct (im_node _ _ Hrf i s Hi) as (Hh & N2 & N4 & N6 & N7 & N8).
  exists a. split; [apply spec_refl|]. apply implements_add_net; [done|].
  intros m (o & -> & Ho)%list_elem_of_fmap. revert HE Ho. unfold broadcastAppendEntries.
  destruct (decide (n_role s.1 = Leader)) as [HL|HL].
  2:{ rewrite bool_decide_eq_false_2 by done. simpl. intros [= <- <-] Hin. by apply elem_of_nil in Hin. }
  rewrite bool_decide_eq_true_2 by done. cbn [negb]. unfold buildAppendEntriesRequestsLocked.
  destruct (mapM _ _) as [os|] eqn:EM; [|done]. simpl. intros [= <- <-] Ho.
  apply mapM_Some in EM. apply list_elem_of_lookup in Ho as [k Hk].
  destruct (Forall2_lookup_r _ _ _ _ _ EM Hk) as (p & Hp & HB).
  apply list_elem_of_lookup_2 in Hp. destruct (peers_facts _ _ HP) as (_ & _ & Hni).
  pose proof Hh as (Hs & (Hsl & _) & _ & _ & _ & Hnx & _). pose proof Hs as (Hw & _ & Hdl).
  destruct (buildRequest_eq s.1 p Hw (Hnx p)) as (Hb & HB2). cbv zeta in *. rewrite HB in HB2.
  injection HB2 as ->. simpl. set (prev := peerNext s.1 p - 1) in *.
  destruct (N8 HL) as [[HLd _] _]. pose proof Hsl as (El & Hv & Hcl). pose proof Hw as (Ho & _).
  split_and!; [|done| |by intros ->].
  2:{ rewrite <- HP. by right. }
  exists (sp_log a i), (sp_log a i), (n_logOffset s.1). simpl. split_and!; try done; try lia.
  - apply Forall_drop. by eapply ll_log_storable.
  - by rewrite <- El.
  - by apply sent_term_eq.
Qed.

(** The merge of two good logs is the adoption of the leader's. *)
Lemma merge_adopt a (l mine : list LogEntry) p :
  good a l → good a mine → take p mine = take p l →
  take p mine ++ merge_ref (drop p mine) (drop p l) = adopt l mine.
Proof.
  intros Hl Hm. remember (length l - p)%nat as k eqn:Ek. revert p Ek.
  induction k as [k IH] using lt_wf_ind. intros p Ek Htk. unfold adopt.
  destruct (l !! p) as [e|] eqn:Ee.
  2:{ apply lookup_ge_None in Ee. rewrite (drop_ge l) by done.
      assert (Hid : merge_ref (drop p mine) [] = drop p mine) by (by destruct (drop p mine)).
      rewrite Hid, take_drop, decide_True; [done|]. rewrite (take_ge l) in Htk by done.
      rewrite <- Htk. apply prefix_take. }
  pose proof (lookup_lt_Some _ _ _ Ee) as Hlt. rewrite (drop_S l e p Ee).
  destruct (mine !! p) as [x|] eqn:Ex.
  - rewrite (drop_S mine x p Ex). cbn [merge_ref]. destruct (e_Term x =? e_Term e) eqn:Et; zbool.
    + pose proof (good_match a mine l p x e Hm Hl Ex Ee Et) as Hk.
      specialize (IH (length l - S p)%nat ltac:(lia) (S p) eq_refl Hk). fold (adopt l mine).
      rewrite <- IH, (take_S_r mine p x Ex), <- app_assoc. done.
    + rewrite decide_False, Htk, <- (drop_S l e p Ee), take_drop; [done|].
      intros Hpre. pose proof (prefix_lookup_Some _ _ _ _ Ee Hpre). congruence.
  - apply lookup_ge_None in Ex. rewrite (drop_ge mine) by done. cbn [merge_ref].
    rewrite decide_False, Htk, <- (drop_S l e p Ee), take_drop; [done|].
    intros Hpre%prefix_length. lia.
Qed.

(** What a node has committed is in the log of every leader of its term or a
    later one. *)
Lemma commit_in_lead a t t' (mine L : list LogEntry) k :
  SInv a → commit_ok a t mine k → sp_lead a t' = Some L → t ≤ t' → take (Z.to_nat k) mine `prefix_of` L.
Proof.
  intros HI [Hb [->|(t0 & P & HC & [Hle _] & HP)]] HL Ht; [apply prefix_nil|]. etrans; [exact HP|].
  destruct (decide (t0 = t')) as [->|Hne].
  - destruct HC as (_ & (L' & HL' & ?) & _). by simplify_eq.
  - eapply leader_complete; [done..|lia].
Qed.

Lemma adopt_commit a t t' (l mine L : list LogEntry) k :
  SInv a → commit_ok a t mine k → sp_lead a t' = Some L → t ≤ t' → l `prefix_of` L →
  k ≤ zlen (adopt l mine) ∧ take (Z.to_nat k) (adopt l mine) = take (Z.to_nat k) mine.
Proof.
  intros HI HC HL Ht Hl. pose proof (commit_in_lead _ _ _ _ _ _ HI HC HL Ht) as HP.
  pose proof HC as [Hb _]. unfold adopt. case_decide as Hd; [split; [lia|done]|].
  destruct (prefix_weak_total _ _ _ HP Hl) as [Hpre|Hpre].
  - pose proof (prefix_length _ _ Hpre) as Hlen. rewrite length_take in Hlen. unfold zlen in *.
    split; [lia|]. rewrite (take_prefix_of _ _ _ Hpre) by (rewrite length_take; lia).
    by rewrite take_take, Nat.min_id.
  - destruct Hd. etrans; [exact Hpre|apply prefix_take].
Qed.

(** A node that accepts [l], a log of the leader of the request's term. *)
Lemma accept_matched c a i s s' t l L k :
  implements c a → cl_nodes c !! i = Some s → sp_lead a t = Some L → l `prefix_of` L →
  zlen l + 1 < u64_max → commit_ok a t l k → n_currentTerm s.1 ≤ t →
  healthy_at start (adopt l (sp_log a i)) s' → n_currentTerm s'.1 = t →
  n_role s'.1 = Follower → n_commitIndex s'.1 = Z.max (n_commitIndex s.1) k →
  ∃ a', spec_steps a a' ∧ implements (upd_node i s' c) a' ∧ (i, t, l) ∈ sp_acks a'.
Proof.
  intros Hrf Hi HL Hl Hlen Hk Hle Hh Et Er Ec. pose proof (im_inv _ _ Hrf) as HI.
  destruct (im_node _ _ Hrf i s Hi) as (_ & N2 & N4 & N6 & _).
  assert (HS : spec_step a (sp_add_ack (i, t, l) (sp_set_log i (adopt l (sp_log a i)) (sp_set_term i t a)))).
  { by apply (spec_accept i t l L a); [lia|..]. }
  pose proof (step_grows _ _ HS) as Hgr.
  eexists. split; [by apply spec_one|]. split; [|by left].
  eapply (implements_upd c a _ i s); try done.
  - by eapply step_SInv.
  - intros j Hj. simpl. by rewrite !fn_lookup_insert_ne.
  - unfold node_im. cbn [sp_term sp_log sp_lead sp_acks sp_add_ack sp_set_log sp_set_term].
    rewrite Et, Er, !fn_lookup_insert.
    destruct (adopt_commit a _ t l (sp_log a i) L _ HI N6 HL Hle Hl) as [A1 A2].
    assert (A3 : l `prefix_of` adopt l (sp_log a i)) by (unfold adopt; by case_decide).
    split_and!; try done.
    + unfold adopt. by case_decide.
    + rewrite Ec. pose proof Hk as [? _]. pose proof (prefix_length _ _ A3). unfold zlen in *.
      destruct (Z.max_spec (n_commitIndex s.1) k) as [[? ->]|[? ->]].
      * eapply (commit_ok_grows a _ t); [done|done|unfold zlen; lia| |exact Hk].
        by apply take_prefix_of; [|lia].
      * by eapply (commit_ok_grows a).
  - congruence.
  - simpl. congruence.
Qed.

(** The follower's merge, seen through both views.  Either the request starts
    in the part the follower still has, and both logs agree up to there; or it
    starts at or below the follower's anchor, and then what the follower has
    compacted is what the leader has there. *)
Lemma merge_view a l mine off ol prev :
  good a l → good a mine → in_view off mine → in_view ol l → ol ≤ prev ≤ zlen l →
  (off < prev ∧ ol < prev ∧ take (Z.to_nat prev) mine = take (Z.to_nat prev) l ∨
   prev ≤ off ∧ (off = 0 ∨ take (Z.to_nat (off + 1)) l `prefix_of` mine)) →
  merged off prev (view off mine) (drop (Z.to_nat (prev - ol)) (view ol l)) = view off (adopt l mine).
Proof.
  intros Hgl Hgm Hv Hvl Hp Hcase. assert (0 ≤ off ∧ 0 ≤ ol) as [Hoff Hol] by (destruct Hv, Hvl; lia).
  unfold merged. cbv zeta.
  assert (Hins : ∀ p, (Z.to_nat off < p)%nat ∨ off = 0 → take p mine = take p l → (p ≤ length mine)%nat →
    view off (adopt l mine) = take (p - Z.to_nat off) (view off mine) ++ merge_ref (drop p mine) (drop p l)).
  { intros p Hpo Htk Hpl. rewrite <- (merge_adopt a l mine p) by done.
    destruct (decide (off = 0)) as [->|Hne]; [by rewrite !view_0, Nat.sub_0_r|].
    rewrite view_app by (right; rewrite zlen_take by done; lia). f_equal.
    destruct (view_cons off mine Hne Hv) as (e & He & ->). unfold view. rewrite decide_False by done.
    rewrite lookup_take_lt, He by lia. replace (p - Z.to_nat off)%nat with (S (p - Z.to_nat off - 1)) by lia.
    simpl. f_equal. rewrite skipn_firstn_comm. f_equal. lia. }
  destruct Hcase as [(Hpo & Hlo & Htk)|[Hpo Hcase]].
  - replace (Z.to_nat (off - prev)) with 0%nat by lia. rewrite drop_0.
    rewrite !view_drop by (done || right; lia).
    replace (Z.to_nat off + Z.to_nat (prev - off))%nat with (Z.to_nat prev) by lia.
    replace (Z.to_nat ol + Z.to_nat (prev - ol))%nat with (Z.to_nat prev) by lia.
    assert (Hlm : (Z.to_nat prev ≤ length mine)%nat).
    { apply (f_equal length) in Htk. rewrite !length_take in Htk. unfold zlen in Hp. lia. }
    rewrite (Hins (Z.to_nat prev)) by (done || lia). f_equal. f_equal. lia.
  - replace (Z.to_nat (prev - off)) with 0%nat by lia. rewrite take_0, drop_0, drop_drop, app_nil_l.
    destruct (decide (off = 0)) as [->|Hne].
    { replace ol with 0 in * by lia. replace prev with 0 in * by lia.
      rewrite (Hins 0%nat) by (auto with lia). by rewrite view_0, !drop_0. }
    destruct Hcase as [?|Hpre]; [done|]. destruct (view_cons off mine Hne Hv) as (e & He & Hvm).
    set (k := (Z.to_nat (prev - ol) + Z.to_nat (off - prev))%nat).
    assert (Hk : (Z.to_nat ol + k)%nat = Z.to_nat off) by lia.
    destruct (decide (zlen l ≤ off)) as [Hshort|Hlong].
    + rewrite drop_ge; [|pose proof (view_length ol l Hvl); unfold zlen in *; lia].
      rewrite take_ge in Hpre by (unfold zlen in *; lia). unfold adopt. rewrite decide_True by done.
      by destruct (view off mine).
    + destruct (lookup_lt_is_Some_2 (view ol l) k) as [x Hx];
        [pose proof (view_length ol l Hvl); unfold zlen in *; lia|].
      destruct (view_lookup ol l k x Hvl Hx) as (x' & Hx' & Ht & _). rewrite Hk in Hx'.
      assert (Hxe : mine !! Z.to_nat off = Some x').
      { eapply prefix_lookup_Some; [|exact Hpre]. rewrite lookup_take_lt by lia. done. }
      rewrite He in Hxe. injection Hxe as <-.
      rewrite (drop_S _ _ _ Hx), Hvm. cbn [merge_ref anchored e_Term]. rewrite Ht, Z.eqb_refl.
      rewrite (Hins (S (Z.to_nat off))); [|left; lia| |apply lookup_lt_Some in He; lia].
      * replace (S (Z.to_nat off) - Z.to_nat off)%nat with 1%nat by lia. rewrite Hvm. simpl. f_equal.
        f_equal. rewrite view_drop by (done || right; lia). f_equal. lia.
      * replace (Z.to_nat (off + 1)) with (S (Z.to_nat off)) in Hpre by lia.
        symmetry. rewrite (take_prefix_of _ _ _ Hpre); [by rewrite take_take, Nat.min_id|].
        rewrite length_take. unfold zlen in *. lia.
Qed.

(** If the consistency check passes, the node adopts a log [l'] of the leader
    that reaches as far as the reply will say. *)
Lemma prev_agrees a l L t0 t ol req mine s :
  SInv a → healthy_at start mine s → good a mine → commit_ok a t0 mine (n_commitIndex s.1) → t0 ≤ t →
  zlen mine + 1 < u64_max → sp_lead a t = Some L → l `prefix_of` L → in_view ol l → ol ≤ ae_PrevLogIndex req →
  zlen l + 1 < u64_max → consecutive 0 l →
  ae_Entries req = drop (Z.to_nat (ae_PrevLogIndex req - ol)) (view ol l) →
  ae_PrevLogTerm req = sent_term ol l (ae_PrevLogIndex req) → prev_matches s.1 req →
  ∃ l', l `prefix_of` l' ∧ l' `prefix_of` L ∧ zlen l' + 1 < u64_max ∧
    ae_PrevLogIndex req + zlen (ae_Entries req) = zlen l' ∧
    merged (n_logOffset s.1) (ae_PrevLogIndex req) (n_log s.1) (ae_Entries req) =
      view (n_logOffset s.1) (adopt l' mine) ∧
    in_view (n_logOffset s.1) (adopt l' mine) ∧ consecutive 0 (adopt l' mine).
Proof.
  intros HI Hh Hg HC Ht Hroom HL Hl Hvl Hop Hlb Hcl Hes Hpt Hpm.
  pose proof Hh as (Hs & (Hsl & Hac) & _). pose proof Hs as (Hw & _). pose proof Hsl as (El & Hv & Hcm).
  set (off := n_logOffset s.1) in *. set (prev := ae_PrevLogIndex req) in *.
  assert (0 ≤ off ∧ 0 ≤ ol) as [Hoff Hol] by (destruct Hv, Hvl; lia).
  assert (HgL : good a L) by apply (si_lead a HI _ _ HL).
  assert (Hgl : good a l) by (by eapply good_prefix).
  pose proof (commit_in_lead _ _ _ _ _ _ HI HC HL Ht) as HCL. pose proof HC as [Hcb _].
  assert (Hcase : prev ≤ zlen l ∧ off < prev ∧ ol < prev ∧ take (Z.to_nat prev) mine = take (Z.to_nat prev) l ∨ prev ≤ off).
  { destruct Hpm as [?|(x & Hx & Hxt)]; [by right|left]. fold prev in Hx.
    destruct (shows_entry s.1 mine prev x Hw Hsl Hx) as (Hlt & x' & Hx' & Hxt' & _). fold off in Hlt.
    destruct (Hg _ _ Hx') as (Lx & HLx & _). pose proof (lo_pos _ _ _ (si_lead a HI _ _ HLx)).
    rewrite Hpt in Hxt. unfold sent_term in Hxt. case_decide as Hd; [|lia].
    destruct (l !! Z.to_nat (prev - 1)) as [e|] eqn:He; [|lia].
    pose proof (lookup_lt_Some _ _ _ He). split_and!; try done; [unfold zlen; lia|].
    replace (Z.to_nat prev) with (S (Z.to_nat (prev - 1))) by lia. eapply (good_match a); try done. lia. }
  assert (Hadopt : ∀ l', l' `prefix_of` L → consecutive 0 l' →
    in_view off (adopt l' mine) ∧ consecutive 0 (adopt l' mine)).
  { intros l' Hl' Hcl'. destruct (adopt_commit a t0 t l' mine L _ HI HC HL Ht Hl') as [A1 _]. split.
    - destruct Hac as [?|Hc]; [by left|]. destruct Hv as [?|?]; [by left|right]. fold off in Hc. lia.
    - unfold adopt. by case_decide. }
  destruct (decide (prev ≤ zlen l)) as [Hle|Hgt].
  - exists l. destruct (Hadopt l Hl Hcl). split_and!; try done.
    + rewrite Hes. pose proof (view_length ol l Hvl). rewrite zlen_drop by (unfold zlen in *; lia). lia.
    + rewrite Hes, El. apply (merge_view a); try done.
      destruct Hcase as [(_ & ? & ? & ?)|Hpo]; [by left|right]. split; [done|].
      destruct Hac as [?|Hac]; [by left|right]. fold off in Hac.
      assert (Hm1 : take (Z.to_nat (off + 1)) mine `prefix_of` L).
      { etrans; [|exact HCL]. rewrite <- (Nat.min_l (Z.to_nat (off + 1)) (Z.to_nat (n_commitIndex s.1))) by lia.
        rewrite <- take_take. apply prefix_take. }
      destruct (prefix_weak_total _ _ _ (transitivity (prefix_take l (Z.to_nat (off + 1))) Hl) Hm1) as [Hx|Hx].
      * etrans; [exact Hx|apply prefix_take].
      * apply prefix_length_eq in Hx; [rewrite <- Hx; apply prefix_take|].
        rewrite !length_take. unfold zlen in *. lia.
  - destruct Hcase as [(? & _)|Hpo]; [lia|]. pose proof (zlen_nonneg l).
    destruct Hac as [Hz|Hac]; [fold off in Hz; lia|]. fold off in Hac.
    set (l' := take (Z.to_nat prev) L).
    assert (Hpm' : take (Z.to_nat prev) mine = l').
    { unfold l'. rewrite (take_prefix_of _ _ _ HCL) by (rewrite length_take; unfold zlen in *; lia).
      rewrite take_take. f_equal. lia. }
    assert (Hz : zlen l' = prev) by (rewrite <- Hpm', zlen_take; unfold zlen in *; lia).
    assert (Had : adopt l' mine = mine).
    { unfold adopt. rewrite decide_True; [done|]. rewrite <- Hpm'. apply prefix_take. }
    assert (Hnil : ae_Entries req = []).
    { rewrite Hes. apply drop_ge. pose proof (view_length ol l Hvl). unfold zlen in *. lia. }
    exists l'. rewrite Had, Hnil. split_and!; try done.
    + eapply prefix_length_le; [exact Hl|apply prefix_take|]. unfold zlen in *. lia.
    + apply prefix_take.
    + lia.
    + rewrite Hz. unfold zlen. simpl. lia.
    + unfold merged. rewrite drop_nil. rewrite <- El.
      replace (merge_ref _ []) with (drop (Z.to_nat (prev - off)) (n_log s.1)) by (by destruct (drop _ (n_log s.1))).
      by rewrite take_drop.
Qed.

(** A rejection only moves the node's term; an acceptance tells how far the
    node's log now is the leader's. *)
Lemma app_req_matched b c a src dst term o env s r s' :
  Inv b c → implements c a → MAppReq src dst term o ∈ cl_net c → cl_nodes c !! dst = Some s →
  AppendEntries env (o_req o) s = (r, s') →
  matched c a (add_net (match r with Ok rep => [MAppRep dst src term o rep] | Err _ => [] end)
      (upd_node dst s' c)).
Proof.
  intros HI Hrf Hm Hi HE. destruct (inv_net _ _ HI _ Hm) as (Hu & _).
  destruct (im_net _ _ Hrf _ Hm) as ((l & L & ol & HL & Hl & G1 & [G2 G3] & G4 & G5 & G6 & G7 & G8 & G9 & G10 & G11) & Ho & Hd & Hne).
  destruct (im_node _ _ Hrf dst s Hi) as (Hh & N2 & N4 & N6 & _).
  set (prev := ae_PrevLogIndex (o_req o)) in *. pose proof (zlen_nonneg l). pose proof (view_length ol l G8) as Hvl.
  assert (Hol : 0 ≤ ol) by (destruct G8; lia).
  assert (Hes : 0 ≤ zlen (ae_Entries (o_req o)) ∧
    (prev + zlen (ae_Entries (o_req o)) = zlen l ∨ zlen (ae_Entries (o_req o)) = 0)).
  { rewrite G10. unfold zlen in *. rewrite length_drop. lia. }
  assert (Hsum : is_u64 (o_prevIndex o + o_numEntries o)) by (rewrite G2, G3; destruct Hes as [? [?|?]]; u64).
  assert (Hrej : ∀ rep a' c', aer_Success rep = false → is_u64 (aer_ConflictIndex rep) →
    spec_steps a a' → implements c' a' → matched c a (add_net [MAppRep dst src term o rep] c')).
  { intros rep a' c' Hf Hci Hst Hr. exists a'. split; [done|]. apply implements_add_net; [done|].
    intros m ->%list_elem_of_singleton. simpl. split_and!; try apply Hci; try apply Hsum; try done. congruence. }
  destruct (decide (ae_Term (o_req o) < n_currentTerm s.1)) as [Hstale|Hge].
  { rewrite (AppendEntries_stale start (sp_log a dst)) in HE by done. injection HE as <- <-.
    destruct (matched_same c a dst s Hrf Hi) as (a' & ? & ?). by eapply Hrej. }
  destruct (consistencyCheck s.1 (o_req o)) as [rej|] eqn:Ecc.
  { destruct (AppendEntries_reject_at start _ env (o_req o) s Hh Hu ltac:(lia))
      as (rep & s2 & HE2 & Hf & Hci & Hh2 & Hc & Ht & Hr).
    { intros Hpm%consistencyCheck_None. congruence. }
    rewrite HE in HE2. injection HE2 as -> ->. destruct (term_step c a dst s s2) as (a' & ? & ?); try done; [lia|by right|].
    by eapply Hrej. }
  apply consistencyCheck_None in Ecc. pose proof (im_inv _ _ Hrf) as HS. rewrite G1 in *.
  destruct (prev_agrees a l L (n_currentTerm s.1) term ol (o_req o) (sp_log a dst) s)
    as (l' & P1 & P2 & P3 & P4 & P5 & P6 & P7); try done; [apply HS|lia|fold prev; lia|].
  fold prev in P4, P5.
  destruct (adopt_commit a _ term l' (sp_log a dst) L _ HS N6 HL ltac:(lia) P2) as [A1 A2].
  assert (A3 : l' `prefix_of` adopt l' (sp_log a dst)) by (unfold adopt; by case_decide).
  apply prefix_length in A3.
  destruct (AppendEntries_merge_at start (sp_log a dst) (adopt l' (sp_log a dst)) env (o_req o) s)
    as (s2 & HE2 & Hh2 & E1 & E2 & E3 & E4); try done.
  { unfold req_wf. fold prev. rewrite G1, P4. split_and!; try done; try lia. rewrite G10.
    pose proof (consecutive_drop _ _ (Z.to_nat (prev - ol)) (view_consecutive ol l G8 G5)) as Hcd.
    by replace (ol + Z.of_nat (Z.to_nat (prev - ol))) with prev in Hcd by lia. }
  { lia. }
  rewrite HE in HE2. injection HE2 as -> ->. pose proof G7 as [Hk _]. apply prefix_length in P1 as Hll.
  assert (G7' : commit_ok a term l' (ae_LeaderCommit (o_req o))).
  { eapply (commit_ok_grows a a term term l l'); [done|done|unfold zlen in *; lia| |done].
    by apply take_prefix_of; [|unfold zlen in *; lia]. }
  destruct (accept_matched c a dst s s2 term l' L (ae_LeaderCommit (o_req o)))
    as (a' & Hst & Hrf' & Hack); try done; [lia|congruence|rewrite E4; case_decide; unfold zlen in *; lia|].
  exists a'. split; [done|]. apply implements_add_net; [done|]. intros m ->%list_elem_of_singleton. simpl.
  split_and!; try apply Hsum; try done. intros _. exists l'. split; [done|]. by rewrite G2, G3.
Qed.

(** The commit rule: a majority in matchIndex has accepted the leader's log up
    to [N], whose entry is of the leader's term. *)
Lemma commit_quorum a t i peers (m : gmap string Z) log N e :
  SInv a → i :: peers ≡ₚ members → sp_lead a t = Some log → (i, t, log) ∈ sp_acks a →
  (∀ p v, m !! p = Some v → p ∈ peers ∧ (v = 0 ∨ ∃ P, (p, t, P) ∈ sp_acks a ∧ zlen P = v)) →
  match_quorum peers m N → 0 < N ≤ zlen log → log !! Z.to_nat (N - 1) = Some e → e_Term e = t →
  committed a t (take (Z.to_nat N) log).
Proof.
  intros HI HP HL Hself Hm (Q & HQ & Hq & HQm) HN He Het. destruct (peers_facts _ _ HP) as (Hlen & _ & Hni).
  assert (HQp : ∀ p, p ∈ Q → p ∈ peers).
  { intros p Hp. destruct (HQm p Hp) as (v & Hv & _). by destruct (Hm p v Hv). }
  split; [|split].
  - exists e. split; [|done]. rewrite last_lookup, length_take, lookup_take_lt by (unfold zlen in *; lia).
    rewrite <- He. f_equal. unfold zlen in *. lia.
  - exists log. split; [done|apply prefix_take].
  - exists (i :: Q). split.
    + split_and!; [apply NoDup_cons; split; [by intros ?%HQp|done]| |rewrite zlen_cons, <- Hlen; lia].
      intros x. rewrite <- HP. intros [->|?]%elem_of_cons; [by left|right; auto].
    + intros v [->|Hv]%elem_of_cons; [exists log; split; [done|apply prefix_take]|].
      destruct (HQm v Hv) as (w & Hw & Hle). destruct (Hm v w Hw) as [_ [->|(P & HA & <-)]]; [lia|].
      exists P. split; [done|]. destruct (si_acks a HI _ _ _ HA) as (_ & (L & HL' & HPL) & _). simplify_eq.
      eapply prefix_length_le; [apply prefix_take|done|]. rewrite length_take. unfold zlen in *. lia.
Qed.

(** There is one leader per term. *)
Lemma leaders_same b c (i j : string) s s2 :
  Inv b c → cl_nodes c !! i = Some s → cl_nodes c !! j = Some s2 →
  n_role s.1 = Leader → n_role s2.1 = Leader → n_currentTerm s.1 = n_currentTerm s2.1 → j = i.
Proof.
  intros HI Hi Hj Hl Hl2 Ht.
  destruct (node_facts _ _ _ _ HI Hi) as (Him & _). destruct (node_facts _ _ _ _ HI Hj) as (Hjm & _).
  apply (wins_unique (cl_votes c) j i (n_currentTerm s.1)); [apply (inv_uniq _ _ HI)|done|done| |by apply (inv_lead _ _ HI)].
  rewrite Ht. by apply (inv_lead _ _ HI).
Qed.

(** A leader that finds more of its log committed says so. *)
Lemma commit_learned a t log k k' :
  SInv a → sp_known a t ≤ k → commit_ok a t log k →
  k' = k ∨ (k < k' ≤ zlen log ∧ committed a t (take (Z.to_nat k') log)) →
  ∃ a', spec_steps a a' ∧ SInv a' ∧ grows a a' ∧ sp_term a' = sp_term a ∧ sp_log a' = sp_log a ∧
    sp_lead a' = sp_lead a ∧ sp_acks a' = sp_acks a ∧ (∀ t', t' ≠ t → sp_known a' t' = sp_known a t') ∧
    sp_known a' t ≤ k' ∧ commit_ok a' t log k'.
Proof.
  intros HI Hk Hok [->|[Hb HC]].
  { exists a. split_and!; try done. apply spec_refl. }
  assert (HS : spec_step a (sp_set_known t k' a)).
  { apply (spec_commit t k' _ a HC). unfold zlen in *. rewrite length_take. lia. }
  pose proof (step_grows _ _ HS) as Hgr. exists (sp_set_known t k' a).
  split; [by apply spec_one|]. split; [by eapply step_SInv|]. split_and!; try done; simpl.
  - intros t' Hne. by rewrite fn_lookup_insert_ne.
  - by rewrite fn_lookup_insert.
  - pose proof Hok as [? _]. split; [lia|]. right. exists t, (take (Z.to_nat k') log).
    split; [by eapply committed_grows|]. simpl. rewrite fn_lookup_insert. split; [lia|done].
Qed.

Lemma app_rep_matched b c a peer i term o reply s r s' :
  Inv b c → implements c a → MAppRep peer i term o reply ∈ cl_net c → cl_nodes c !! i = Some s →
  sendAppendEntriesAndHandle term o reply s = (r, s') → matched c a (upd_node i s' c).
Proof.
  intros HI Hrf Hm Hi HE. destruct (inv_net _ _ HI _ Hm) as (Hu & _).
  destruct (im_net _ _ Hrf _ Hm) as (Hci & Hsum & Hop & Hpm & Hpi & Hack).
  destruct (node_facts _ _ _ _ HI Hi) as (_ & _ & HP & _).
  destruct (im_node _ _ Hrf i s Hi) as (Hh & N2 & N4 & N6 & N7 & N8).
  assert (Hpp : o_peer o ∈ n_peers s.1).
  { rewrite Hop. rewrite <- HP in Hpm. by apply elem_of_cons in Hpm as [?|?]. }
  destruct (reply_at start _ term o reply s Hh Hu Hci Hsum Hpp) as (r2 & s2 & HE2 & Hh2 & Hcase).
  rewrite HE in HE2. injection HE2 as -> ->.
  destruct Hcase as [->|[(Hc & Ht & Hr)|(L1 & L2 & L3 & L4 & L5 & L6 & L7 & L8)]].
  { by eapply matched_same. }
  { eapply (term_step c a i s); try done; [lia|by right]. }
  destruct (N8 L1) as [[HL HK] Hmi]. rewrite L2 in *.
  set (log := sp_log a i) in *.
  assert (HS : spec_step a (sp_add_ack (i, term, log) (sp_set_log i (adopt log log) (sp_set_term i term a)))).
  { apply (spec_accept i term log log a); [lia|done|done]. }
  unfold adopt in HS. rewrite decide_True in HS by done.
  pose proof (step_grows _ _ HS) as Hgr. pose proof (step_SInv _ _ (im_inv _ _ Hrf) HS) as HI'.
  set (a' := sp_add_ack _ _) in *.
  assert (Hmi' : ∀ p v, n_matchIndex s2.1 !! p = Some v → v = 0 ∨ ∃ P, (p, term, P) ∈ sp_acks a' ∧ zlen P = v).
  { assert (Hold : ∀ p v, n_matchIndex s.1 !! p = Some v → v = 0 ∨ ∃ P, (p, term, P) ∈ sp_acks a' ∧ zlen P = v).
    { intros p v Hv. destruct (Hmi p v Hv) as [?|(P & HA & ?)]; [by left|right].
      exists P. split; [|done]. by apply (gr_acks a a' Hgr). }
    intros p v. destruct L7 as [->|[Hsu ->]]; [apply Hold|].
    rewrite lookup_insert_Some. intros [[<- <-]|[_ ?]]; [right|by apply Hold].
    destruct (Hack Hsu) as (P & HA & HPl). exists P. split; [|done]. rewrite Hop.
    by apply (gr_acks a a' Hgr). }
  destruct (commit_learned a' term log (n_commitIndex s.1) (n_commitIndex s2.1) HI' HK)
    as (a2 & Hst & HI2 & Hg2 & F1 & F2 & F3 & F4 & F5 & F6 & F7).
  { by eapply (commit_ok_grows a); try done; apply N6. }
  { destruct L8 as [->|(Hb & (e & He & Het) & Hq)]; [by left|right]. split; [lia|]. pose proof N6 as [? _].
    eapply (commit_quorum a' term i (n_peers s.1)); try done; [by left| |lia].
    intros p v Hv. split; [|by apply Hmi']. rewrite <- L6. by eapply Hh2. }
  exists a2. split; [eapply spec_steps_trans; [by apply spec_one|done]|].
  eapply (implements_upd c a a2 i s); try done.
  - by etrans.
  - intros j Hj. rewrite F1, F2. simpl. by rewrite !fn_lookup_insert_ne.
  - intros j s3 Hne Hj HLj. rewrite F3. split; [done|]. apply F5. intros Hd. apply Hne.
    eapply (leaders_same b c); try done. congruence.
  - unfold node_im. rewrite L3, L4, F1, F2, F3, F4. simpl. rewrite !fn_lookup_insert. by split_and!.
  - congruence.
  - rewrite F3. simpl. congruence.
Qed.

(** ** Clients and restarts *)

(** A leader that appends an entry of its term. *)
Lemma append_matched b c a i s s' cmd :
  Inv b c → implements c a → cl_nodes c !! i = Some s → n_role s.1 = Leader → fits cmd s.1 →
  healthy_at start (sp_log a i ++ [next_entry cmd s.1]) s' →
  n_currentTerm s'.1 = n_currentTerm s.1 → n_commitIndex s'.1 = n_commitIndex s.1 →
  n_matchIndex s'.1 = n_matchIndex s.1 → n_role s'.1 = Leader → matched c a (upd_node i s' c).
Proof.
  intros HI Hrf Hi HL [Hst Hroom] Hh Et Ec Em Er.
  destruct (im_node _ _ Hrf i s Hi) as (Hh0 & N2 & N4 & N6 & N7 & N8).
  destruct (N8 HL) as [[HLd HK] Hmi]. set (t := n_currentTerm s.1) in *. set (e := next_entry cmd s.1) in *.
  set (log := sp_log a i) in *.
  assert (HS : spec_step a (sp_set_lead (sp_term a i) (log ++ [e]) (sp_set_log i (log ++ [e]) a))).
  { apply (spec_append i e a); rewrite N2; done. }
  rewrite N2 in HS. pose proof (step_grows _ _ HS) as Hgr. eexists. split; [by apply spec_one|].
  assert (Hz : zlen (log ++ [e]) = zlen log + 1) by (rewrite zlen_app; done).
  assert (Hr2 : n_logOffset s.1 + zlen (n_log s.1) = zlen log).
  { pose proof Hh0 as (_ & ((El & Hv & _) & _) & _). rewrite El. by apply view_length. }
  eapply (implements_upd c a _ i s); try done.
  - eapply step_SInv; [apply Hrf|done].
  - intros j Hj. simpl. by rewrite fn_lookup_insert_ne.
  - intros j s2 Hne Hj HLj. simpl. rewrite fn_insertZ_cases. case_decide as Hd; [|done]. destruct Hne.
    by eapply (leaders_same b c).
  - unfold node_im. rewrite Et, Er, Ec, Em. simpl. rewrite !fn_lookup_insert.
    split_and!; try done; [lia|].
    pose proof N6 as [? _]. eapply (commit_ok_grows a _ t t log); try done; [lia|].
    rewrite take_app_le; [done|unfold zlen in *; lia].
  - congruence.
  - intros t' L. simpl. rewrite fn_insertZ_cases. case_decide; congruence.
Qed.

Lemma read_only_matched c a i s s' :
  implements c a → cl_nodes c !! i = Some s → s'.2 = s.2 → same_core s.1 s'.1 →
  n_currentTerm s'.1 = n_currentTerm s.1 → n_votedFor s'.1 = n_votedFor s.1 →
  n_role s'.1 = n_role s.1 → matched c a (upd_node i s' c).
Proof.
  intros Hrf Hi Hd Hc Ht Hv Hr. destruct (im_node _ _ Hrf i s Hi) as (Hh & _).
  destruct s as [n d], s' as [n' d']. simpl in *. subst d'.
  eapply (term_step c a i (n, d)); try done; [by eapply healthy_same|simpl; lia|by left].
Qed.

Lemma ignore_state {A} (m : NodeM SM D A) s : (ignore m s).2 = (m s).2.
Proof. unfold ignore, gtry. unfold_node. by destruct (m s) as [r s']. Qed.

Lemma client_matched b c a i op s r s' :
  Inv b c → implements c a → cl_nodes c !! i = Some s → client_ok op s.1 →
  run_local op s = (r, s') → matched c a (upd_node i s' c).
Proof.
  intros HI Hrf Hi Hok HE. destruct (im_node _ _ Hrf i s Hi) as (Hh & _).
  assert (Es : s' = (run_local op s).2) by (by rewrite HE). subst s'. clear HE r.
  destruct s as [n d]. cbn [fst snd] in *.
  destruct op as [cmd|cmd|index| | | | | |rep]; cbn [client_ok run_local] in *; try done;
    rewrite ?ignore_state.
  - unfold Propose. rewrite nbind_getN. cbn [fst]. destruct (decide (n_role n = Leader)) as [HL|HL].
    + rewrite bool_decide_eq_true_2 by done. cbn [negb]. destruct (append_at start _ cmd n d Hh (Hok HL)) as (d' & E & Hh').
      erewrite nbind_Ok by (unfold gtry; by rewrite E). eapply append_matched; try done. by apply Hok.
    + rewrite bool_decide_eq_false_2 by done. by eapply matched_same.
  - unfold ProposeSync_begin. rewrite nbind_getN. cbn [fst]. destruct (decide (n_role n = Leader)) as [HL|HL].
    + rewrite bool_decide_eq_true_2 by done. cbn [negb]. destruct (append_at start _ cmd n d Hh (Hok HL)) as (d' & E & Hh').
      node_step E. rewrite nbind_getN, nbind_modifyN. cbn [fst snd].
      eapply append_matched; try done. by apply Hok.
    + rewrite bool_decide_eq_false_2 by done. by eapply matched_same.
  - by apply (read_only_matched c a i (n, d)).
  - destruct (FollowerRead_state rep (n, d)) as (n' & E & Hc & Ht & Hv & Hr). rewrite E.
    by apply (read_only_matched c a i (n, d)).
Qed.

(** A process that comes up again with the log it had, some of what it had
    committed already applied. *)
Lemma restart_matched c a i s s' :
  implements c a → cl_nodes c !! i = Some s → healthy_at start (sp_log a i) s' →
  n_currentTerm s'.1 = n_currentTerm s.1 → n_role s'.1 = Follower →
  n_commitIndex s'.1 ≤ n_commitIndex s.1 → matched c a (upd_node i s' c).
Proof.
  intros Hrf Hi Hh' Et Er Ec. destruct (im_node _ _ Hrf i _ Hi) as (Hh & N2 & N4 & [N6 N6'] & _).
  exists a. split; [apply spec_refl|]. eapply (implements_upd c a a i s); try done.
  - apply Hrf.
  - pose proof Hh' as (_ & _ & _ & _ & (_ & Hb & _) & _).
    unfold node_im. rewrite Et, Er. split_and!; try done. split; [done|].
    destruct N6' as [?|(t0 & P & HC & Hle & HP)]; [left; lia|right]. exists t0, P. split; [done|]. split; [lia|].
    etrans; [|exact HP]. rewrite <- (Nat.min_l (Z.to_nat (n_commitIndex s'.1)) (Z.to_nat (n_commitIndex s.1))) by lia.
    rewrite <- take_take. apply prefix_take.
  - congruence.
  - congruence.
Qed.

(** ** Steps of running nodes *)

(** One step of the cluster in which no process starts: elections, replication
    and client operations, with messages that are handled late, repeatedly or
    never. *)
Inductive rstep : Cluster → Cluster → Prop :=
| r_timeout c i env s s' :
    cl_nodes c !! i = Some s → startElection env s = (Ok None, s') →
    rstep c (upd_node i s' c)
| r_campaign c i env s s' ca req :
    cl_nodes c !! i = Some s → startElection env s = (Ok (Some (ca, req)), s') →
    rstep c (set_campaigns (<[(i, ca_term ca) := ca]> (cl_campaigns c))
      (add_net (map (λ p, MVoteReq i p req) (ca_pending ca))
        (add_votes [(i, ca_term ca, n_id s.1)] (upd_node i s' c))))
| r_self_quorum c i t ca n d :
    cl_nodes c !! i = Some (n, d) → cl_campaigns c !! (i, t) = Some ca → n_peers n = [] →
    rstep c (upd_node i (electionSelfQuorum ca n, d) c)
| r_vote_req c src dst req env s r s' :
    MVoteReq src dst req ∈ cl_net c → cl_nodes c !! dst = Some s →
    RequestVote env req s = (r, s') →
    rstep c (add_net (match r with Ok rep => [MVoteRep dst src (rv_Term req) rep] | Err _ => [] end)
      (add_votes (vote_of dst req r) (upd_node dst s' c)))
| r_vote_rep c peer i t reply ca s ca' s' :
    MVoteRep peer i t reply ∈ cl_net c → cl_campaigns c !! (i, t) = Some ca →
    peer ∈ ca_pending ca → cl_nodes c !! i = Some s →
    handleVoteReply ca reply s = (Ok ca', s') →
    rstep c (set_campaigns (<[(i, t) := ca_drop peer ca']> (cl_campaigns c)) (upd_node i s' c))
| r_broadcast c i s term reqs :
    cl_nodes c !! i = Some s → broadcastAppendEntries s.1 = Some (term, reqs) →
    rstep c (add_net (map (λ o, MAppReq i (o_peer o) term o) reqs) c)
| r_app_req c src dst term o env s r s' :
    MAppReq src dst term o ∈ cl_net c → cl_nodes c !! dst = Some s →
    AppendEntries env (o_req o) s = (r, s') →
    rstep c (add_net (match r with Ok rep => [MAppRep dst src term o rep] | Err _ => [] end)
      (upd_node dst s' c))
| r_app_rep c peer i term o reply s r s' :
    MAppRep peer i term o reply ∈ cl_net c → cl_nodes c !! i = Some s →
    sendAppendEntriesAndHandle term o reply s = (r, s') →
    rstep c (upd_node i s' c)
| r_client c i op s r s' :
    cl_nodes c !! i = Some s → client_ok op s.1 → run_local op s = (r, s') →
    rstep c (upd_node i s' c).

Lemma rstep_step c c' : rstep c c' → step c c'.
Proof.
  intros Hs. destruct Hs.
  - by eapply step_timeout.
  - by eapply step_campaign.
  - by eapply step_self_quorum.
  - by eapply step_vote_req.
  - by eapply step_vote_rep.
  - by eapply step_broadcast.
  - by eapply step_app_req.
  - by eapply step_app_rep.
  - by eapply step_local.
Qed.

Lemma fixes_node {A} (K : D → Prop) c (i j : string) s (m : NodeM SM D A) r s' sj :
  fixes K m → cl_nodes c !! i = Some s → m s = (r, s') → <[i := s']> (cl_nodes c) !! j = Some sj →
  ∃ s0, cl_nodes c !! j = Some s0 ∧ (K s0.2 → same_place s0.1 sj.1 ∧ K sj.2).
Proof.
  intros Hm Hi E [[<- <-]|[_ Hj]]%lookup_insert_Some; [|by exists sj].
  exists s. split; [done|]. intros Hk. specialize (Hm s Hk). by rewrite E in Hm.
Qed.

(** Such a step moves no compaction point and no snapshot file. *)
Lemma rstep_node (K : D → Prop) `{!DiskFact K} c c' (j : string) s' :
  rstep c c' → cl_nodes c' !! j = Some s' →
  ∃ s, cl_nodes c !! j = Some s ∧ (K s.2 → same_place s.1 s'.1 ∧ K s'.2).
Proof.
  intros Hs Hj.
  destruct Hs as [c i env s s1 Hi HE|c i env s s1 ca req Hi HE|c i t ca n d Hi Hca Hpe
    |c src dst req env s r s1 Hm Hi HE|c peer i t reply ca s ca' s1 Hm Hca Hpe Hi HE
    |c i s term reqs Hi HE|c src dst term o env s r s1 Hm Hi HE
    |c peer i term o reply s r s1 Hm Hi HE|c i op s r s1 Hi Hok HE]; simpl in Hj.
  - eapply (fixes_node K); [apply (startElection_fixes K env)|done..].
  - eapply (fixes_node K); [apply (startElection_fixes K env)|done..].
  - apply lookup_insert_Some in Hj as [[<- <-]|[_ Hj]]; [|by exists s'].
    exists (n, d). split; [done|]. intros ?. split; [apply selfQuorum_place|done].
  - eapply (fixes_node K); [apply (RequestVote_fixes K env req)|done..].
  - eapply (fixes_node K); [apply (handleVoteReply_fixes K ca reply)|done..].
  - by exists s'.
  - eapply (fixes_node K); [apply (AppendEntries_fixes K env (o_req o))|done..].
  - eapply (fixes_node K); [apply (reply_fixes K term o reply)|done..].
  - eapply (fixes_node K); [apply (local_fixes K op)|done..]. by destruct op.
Qed.

Lemma matched_campaigns cs c a c' : matched c a c' → matched c a (set_campaigns cs c').
Proof. intros (a' & ? & ?). exists a'. split; [done|]. by apply implements_campaigns. Qed.

Lemma rstep_matched b c a c' :
  b + 1 ≤ u64_max → Inv b c → implements c a → rstep c c' → matched c a c'.
Proof.
  intros Hb HI Hrf Hs. pose proof (step_Inv _ _ _ Hb HI (rstep_step _ _ Hs)) as HI'.
  assert (HI1 : Inv (b + 1) c) by (eapply Inv_mono; [|exact HI]; lia).
  destruct Hs as [c i env s s' Hi HE|c i env s s' ca req Hi HE|c i t ca n d Hi Hca Hp
    |c src dst req env s r s' Hm Hi HE|c peer i t reply ca s ca' s' Hm Hca Hpe Hi HE
    |c i s term reqs Hi HE|c src dst term o env s r s' Hm Hi HE
    |c peer i term o reply s r s' Hm Hi HE|c i op s r s' Hi Hok HE].
  - exact (campaign_matched b c a i env s None s' HI Hb Hrf Hi HE).
  - apply matched_campaigns. exact (campaign_matched b c a i env s (Some (ca, req)) s' HI Hb Hrf Hi HE).
  - unfold electionSelfQuorum in *. destruct (_ && _) eqn:E; [|by eapply matched_same].
    zbool. by eapply (elect_matched (b + 1)).
  - by eapply vote_req_matched.
  - apply matched_campaigns. eapply (vote_rep_matched (b + 1)); try done.
    destruct HI' as [J1 J2 J3 J4 J5 J6]. split; try done. apply HI1.
  - by eapply broadcast_matched.
  - by eapply app_req_matched.
  - by eapply app_rep_matched.
  - by eapply client_matched.
Qed.

End implements.

Lemma implements_mono {SM : Type} `{StateMachine SM} {D : Type} `{Storage D} `{!VoteLaws D} `{!LogLaws D}
    `{MB : Membership} (start start' : Z → SM → Prop) (c : Cluster (SM := SM) (D := D)) a :
  (∀ b M, start b M → start' b M) → implements start c a → implements start' c a.
Proof.
  intros Hm [R1 R2 R3 R4 R5]. split; try done. intros i s Hi. destruct (R2 i s Hi) as (Hh & HR).
  split; [|done]. by eapply healthy_at_mono.
Qed.
