(* ===== verification/RaftRefine.v ===== *)
(** * The nodes implement the specification

    Runs of the cluster on healthy disks and without snapshots: proposals,
    elections, replication, lost, late and repeated messages, and crashes with
    restart between critical sections.  Every such step is matched by steps of
    RaftSpec ([refines]), which carries log matching, leader completeness and
    the agreement of the state machines over to the code. *)

From Stdlib Require Import Strings.Byte.
From stdpp Require Import functions.
From S2P Require Import Prelude Pb Fs Persistence SnapshotFile Storage RaftNode RaftElection.
From S2P Require Import RaftReplication RaftLog RaftCommit RaftReadIndex RaftVotes RaftCompaction.
From S2P Require Import RaftCluster RaftSafety RaftSpec RaftViews RaftHealthy RaftAnchors RaftImplements.
Import SnapshotFile.

Section refine.
Context {SM : Type} `{StateMachine SM} {D : Type} `{Storage D} `{!VoteLaws D} `{!LogLaws D}.
Context `{GF : Codec File} `{MB : Membership} `{!MembershipOk}.
Variable sm0 : SM.
Implicit Types (n : Node SM) (d : D) (s : Node SM * D) (c : Cluster (SM := SM) (D := D)) (a : Spec).

(** ** Healthy runs *)

Inductive hstep : Cluster → Cluster → Prop :=
| h_run c c' : rstep c c' → hstep c c'
| h_restart c i n d env cfg n' d' :
    cl_nodes c !! i = Some (n, d) → same_config cfg n →
    cfg_LocalSnapshot cfg = None → cfg_StateMachine cfg = sm0 →
    NewNode env cfg d = (Ok n', d') →
    hstep c (set_campaigns (filter (λ kv, kv.1.1 ≠ i) (cl_campaigns c)) (upd_node i (n', d') c)).

Definition hinit c : Prop :=
  init c ∧ ∀ i s, cl_nodes c !! i = Some s →
    healthy sm0 s ∧ n_log s.1 = [] ∧ n_commitIndex s.1 = 0 ∧ no_callers s.1.

Inductive hreach : nat → Cluster → Prop :=
| hreach_init c : hinit c → hreach 0 c
| hreach_step k c c' : hreach k c → hstep c c' → hreach (S k) c'.

Inductive hsteps : nat → Cluster → Cluster → Prop :=
| hsteps_refl c : hsteps 0 c c
| hsteps_step k c c' c'' : hsteps k c c' → hstep c' c'' → hsteps (S k) c c''.

(** A healthy step is a step of the cluster of RaftCluster. *)
Lemma hstep_step c c' : hstep c c' → step c c'.
Proof.
  intros [c1 c2 Hr|]; [by apply rstep_step|]. eapply (step_restart _ _ _ _ _ _ _ ltac:(done)); [done|done|by eapply boots_up].
Qed.

Lemma hreach_reach k c : hreach k c → reach k c.
Proof.
  induction 1 as [c [Hc _]|k c c' _ IH Hs]; [by constructor|].
  econstructor; [done|by apply hstep_step].
Qed.

Lemma hsteps_steps k c c' : hsteps k c c' → steps k c c'.
Proof. induction 1; econstructor; eauto using hstep_step. Qed.

(** ** Without compaction *)

(** No node has compacted anything. *)
Definition plain c : Prop := ∀ i s, cl_nodes c !! i = Some s → n_logOffset s.1 = 0.

Definition refines c a : Prop := implements (from_scratch sm0) c a ∧ plain c.

(** The abstract state shows the node as it is. *)
Definition node_rf a (i : string) s : Prop :=
  healthy sm0 s ∧ sp_term a i = n_currentTerm s.1 ∧ sp_log a i = n_log s.1 ∧
  zlen (n_log s.1) + 1 < u64_max ∧ Forall ll_storable (n_log s.1) ∧
  commit_ok a (n_currentTerm s.1) (n_log s.1) (n_commitIndex s.1) ∧
  (n_role s.1 = Candidate → 0 < n_currentTerm s.1) ∧
  (n_role s.1 = Leader →
    (sp_lead a (n_currentTerm s.1) = Some (n_log s.1) ∧
     sp_known a (n_currentTerm s.1) ≤ n_commitIndex s.1) ∧
    ∀ p v, n_matchIndex s.1 !! p = Some v →
      v = 0 ∨ ∃ P, (p, n_currentTerm s.1, P) ∈ sp_acks a ∧ zlen P = v).

Lemma rf_inv c a : refines c a → SInv a.
Proof. intros [Hi _]. by eapply im_inv. Qed.

Lemma rf_node c a : refines c a → ∀ i s, cl_nodes c !! i = Some s → node_rf a i s.
Proof.
  intros [Him Hp] i s Hi. destruct (im_node _ _ _ Him i s Hi) as (N1 & N2 & N4 & N6 & N7 & N8).
  destruct (healthy_at_plain _ _ _ N1 (Hp i s Hi)) as [El Hh].
  unfold node_rf. rewrite El in *. split_and!; try done. destruct Hh as ((_ & _ & Hl) & _).
  by eapply ll_log_storable.
Qed.

Lemma plain_upd c i s : plain c → n_logOffset s.1 = 0 → plain (upd_node i s c).
Proof. intros Hp Ho j s2. simpl. intros [[<- <-]|[_ ?]]%lookup_insert_Some; eauto. Qed.

Lemma hstep_plain c c' a : refines c a → hstep c c' → plain c'.
Proof.
  intros Hrf Hs. pose proof Hrf as [_ Hp]. destruct Hs as [c c' Hs|c i n d env cfg n' d' Hi Hcfg Hsn Hsm HE].
  - intros i s' Hi'. destruct (rstep_node (λ _, True) c c' i s' Hs Hi') as (s & Hi & Hk).
    destruct (Hk I) as [[-> _] _]. by eapply Hp.
  - apply (plain_upd c i (n', d')); [done|]. destruct (rf_node _ _ Hrf i _ Hi) as (Hh & _).
    by destruct (restart_healthy sm0 env cfg n d n' d' Hh Hcfg Hsn Hsm HE) as ((_ & Ho & _) & _).
Qed.

(** One step of the cluster, some steps of the specification. *)
Definition refined a c' : Prop := ∃ a', spec_steps a a' ∧ refines c' a'.

(** ** The simulation *)

Lemma hstep_matched b c a c' :
  b + 1 ≤ u64_max → Inv b c → refines c a → hstep c c' → refined a c'.
Proof.
  intros Hb HI Href Hs. pose proof (hstep_plain _ _ _ Href Hs) as Hplain.
  enough (Hm : matched (from_scratch sm0) c a c') by (destruct Hm as (a' & ? & ?); by exists a').
  pose proof Href as [Hrf _]. destruct Hs as [c c' Hs|c i n d env cfg n' d' Hi Hcfg Hsn Hsm HE].
  { by eapply rstep_matched. }
  apply matched_campaigns. destruct (rf_node _ _ Href i _ Hi) as (Hh & _ & El & _).
  destruct (restart_healthy sm0 env cfg n d n' d' Hh Hcfg Hsn Hsm HE) as (Hh' & El' & Et & Er & Ec).
  cbn [fst] in El. eapply restart_matched; try done; cbn [fst].
  - rewrite El, <- El'. by apply (proj1 (healthy_iff _ (n', d'))).
  - rewrite Ec. apply Hh.
Qed.

(** The specification's initial state. *)
Definition spec0 : Spec := MkSpec (λ _, 0) (λ _, []) (λ _, None) (λ _, []) [] [] (λ _, 0).

Lemma init_refines c : hinit c → refines c spec0.
Proof.
  intros [(Hn & Hc & Hnet & Hv) Hh]. split.
  2:{ intros i s Hi. destruct (Hh i s Hi) as ((_ & Ho & _) & _). done. }
  split.
  - split; simpl; [done|done|intros v e Hin|intros v t P Hin|intros v t l Hin|done]; by apply elem_of_nil in Hin.
  - intros i s Hi. destruct (Hh i s Hi) as (Hhe & El & Ec & _). destruct (Hn i s Hi) as (_ & _ & _ & _ & _ & Ht & Hr).
    apply healthy_iff in Hhe as [_ Hhe]. rewrite El in Hhe.
    unfold node_im. simpl. rewrite Ec, Ht, Hr. split_and!; try done. by split; [|left].
  - rewrite Hv. intros v t i _ Hin. by apply elem_of_nil in Hin.
  - done.
  - rewrite Hnet. intros m Hin. by apply elem_of_nil in Hin.
Qed.

Lemma hreach_hsteps j k c c' : hreach j c → hsteps k c c' → hreach (j + k) c'.
Proof.
  intros Hr Hs. induction Hs as [c|k c c' c'' _ IH Hs]; [by rewrite Nat.add_0_r|].
  rewrite Nat.add_succ_r. econstructor; eauto.
Qed.

Lemma hsteps_matched j k c c' a :
  hreach j c → hsteps k c c' → Z.of_nat (j + k) ≤ u64_max → refines c a → refined a c'.
Proof.
  intros Hr Hs. induction Hs as [c|k c c' c'' Hks IH Hs]; intros Hk Hrf.
  - exists a. split; [apply spec_refl|done].
  - destruct (IH Hr ltac:(lia) Hrf) as (a1 & Ha & Hrf1).
    pose proof (reach_Inv _ _ (hreach_reach _ _ (hreach_hsteps _ _ _ _ Hr Hks)) ltac:(lia)) as HI.
    destruct (hstep_matched (Z.of_nat (j + k)) c' a1 c'') as (a' & Ha' & ?); [lia|done..|].
    exists a'. split; [|done]. by eapply spec_steps_trans.
Qed.

Lemma hreach_matched k c :
  hreach k c → Z.of_nat k ≤ u64_max → ∃ a, spec_steps spec0 a ∧ refines c a.
Proof.
  induction 1 as [c Hc|k c c' Hr IH Hs]; intros Hk.
  - exists spec0. split; [apply spec_refl|by apply init_refines].
  - destruct (IH ltac:(lia)) as (a & Ha & Hrf).
    destruct (hsteps_matched k 1 c c' a Hr) as (a' & Ha' & ?); [|lia|done|].
    { econstructor; [constructor|done]. }
    exists a'. split; [|done]. by eapply spec_steps_trans.
Qed.

(** A run of the nodes and the runs of the specification beside it. *)
Lemma run_matched j k c c' :
  hreach j c → hsteps k c c' → Z.of_nat (j + k) ≤ u64_max →
  ∃ a a', spec_steps spec0 a ∧ spec_steps a a' ∧ grows a a' ∧ refines c a ∧ refines c' a'.
Proof.
  intros Hr Hs Hk. destruct (hreach_matched j c Hr ltac:(lia)) as (a & Ha & Hrf).
  destruct (hsteps_matched j k c c' a Hr Hs Hk Hrf) as (a' & Ha' & Hrf').
  exists a, a'. split_and!; try done. eapply steps_SInv; [done|by eapply rf_inv].
Qed.

(** ** What the specification gives the nodes *)

(** The abstract state [a] shows the terms, logs, leaders and committed
    prefixes of the nodes of [c]. *)
Definition shows a c : Prop :=
  ∀ i s, cl_nodes c !! i = Some s →
    sp_term a i = n_currentTerm s.1 ∧ sp_log a i = n_log s.1 ∧
    (n_role s.1 = Leader → sp_lead a (n_currentTerm s.1) = Some (n_log s.1)) ∧
    0 ≤ n_commitIndex s.1 ≤ zlen (n_log s.1) ∧
    (n_commitIndex s.1 = 0 ∨ ∃ t P, committed a t P ∧
       (t ≤ n_currentTerm s.1 ∧ n_commitIndex s.1 ≤ sp_known a t) ∧
       take (Z.to_nat (n_commitIndex s.1)) (n_log s.1) `prefix_of` P).

Lemma refines_shows c a : refines c a → shows a c.
Proof.
  intros Hrf i s Hi. destruct (rf_node _ _ Hrf i s Hi) as (_ & N2 & N3 & _ & _ & [N6 N6'] & _ & N8).
  split_and!; try done; [|lia..]. intros HL. by apply N8.
Qed.

Lemma prefixes_agree {A} (l l' P P' : list A) k k' :
  take k l `prefix_of` P → take k' l' `prefix_of` P' → P `prefix_of` P' ∨ P' `prefix_of` P →
  (k ≤ length l)%nat → (k' ≤ length l')%nat → (k ≤ k')%nat → take k l = take k l'.
Proof.
  intros Hp Hp' Hor Hl Hl' Hk.
  assert (HX : ∃ X, take k l `prefix_of` X ∧ take k' l' `prefix_of` X).
  { destruct Hor; [exists P'|exists P]; split; try done; by etrans. }
  destruct HX as (X & HX1 & HX2).
  assert (Hpre : take k l `prefix_of` take k' l').
  { eapply prefix_length_le; [done..|]. rewrite !length_take. lia. }
  apply (take_prefix_of k) in Hpre; [|rewrite length_take; lia].
  rewrite !take_take in Hpre. rewrite Nat.min_id, Nat.min_l in Hpre by lia. done.
Qed.

(** Two nodes, at the same or at different times, agree up to the smaller of
    their commit indices. *)
Lemma logs_agree j k c c' (i i' : string) s s' :
  hreach j c → hsteps k c c' → Z.of_nat (j + k) ≤ u64_max →
  cl_nodes c !! i = Some s → cl_nodes c' !! i' = Some s' →
  let m := Z.to_nat (Z.min (n_commitIndex s.1) (n_commitIndex s'.1)) in
  healthy sm0 s ∧ healthy sm0 s' ∧ take m (n_log s.1) = take m (n_log s'.1).
Proof.
  intros Hr Hs Hk Hi Hi'. cbv zeta. destruct (run_matched j k c c' Hr Hs Hk) as (a & a' & _ & _ & Hgr & Hrf & Hrf').
  destruct (rf_node _ _ Hrf i s Hi) as (Hh & _ & _ & _ & _ & [Hb Hc] & _).
  destruct (rf_node _ _ Hrf' i' s' Hi') as (Hh' & _ & _ & _ & _ & [Hb' Hc'] & _).
  split; [done|]. split; [done|].
  destruct Hc as [E|(t & P & HC & _ & HP)]; [by rewrite E, Z.min_l by lia|].
  destruct Hc' as [E|(t' & P' & HC' & _ & HP')]; [by rewrite E, Z.min_r by lia|].
  apply (committed_grows a a') in HC; [|done].
  pose proof (committed_agree a' t t' P P' (rf_inv _ _ Hrf') HC HC') as Hor. unfold zlen in *.
  destruct (Z.min_spec (n_commitIndex s.1) (n_commitIndex s'.1)) as [[? ->]|[? ->]].
  - eapply (prefixes_agree _ _ P P'); [done..|lia|lia|lia].
  - symmetry. eapply (prefixes_agree _ _ P' P); [done..|tauto|lia|lia|lia].
Qed.

Lemma hreach_healthy k c (i : string) s :
  hreach k c → Z.of_nat k ≤ u64_max → cl_nodes c !! i = Some s → healthy sm0 s.
Proof.
  intros Hr Hk Hi. destruct (hreach_matched k c Hr Hk) as (a & _ & Hrf). by apply (rf_node _ _ Hrf i s Hi).
Qed.

(** C2.  The nodes implement the abstract Raft of RaftSpec: every run of the
    cluster on healthy disks without snapshots, whatever messages are lost,
    delayed or repeated and whichever nodes restart, is matched by a run of
    the specification that shows the terms, logs, leaders and committed
    prefixes of the nodes, at every state the run passes through. *)
Theorem nodes_refine_spec j k c c' :
  hreach j c → hsteps k c c' → Z.of_nat (j + k) ≤ u64_max →
  ∃ a a', spec_steps spec0 a ∧ spec_steps a a' ∧ shows a c ∧ shows a' c'.
Proof.
  intros Hr Hs Hk. destruct (run_matched j k c c' Hr Hs Hk) as (a & a' & Ha & Ha' & _ & Hrf & Hrf').
  exists a, a'. split_and!; auto using refines_shows.
Qed.

(** C11.  Every node stays well formed, in every state a run on healthy disks
    reaches: log.dat and state.json hold what memory holds; the log has the
    indices 1, 2, ... with terms that are positive, never decrease and never
    exceed the node's; lastApplied equals commitIndex and lies in the log; the
    state machine is the committed prefix applied in order; and every counter
    fits its uint64, nextIndex and a leader's matchIndex included. *)
Theorem nodes_stay_wellformed k c (i : string) s :
  hreach k c → Z.of_nat k ≤ u64_max → cl_nodes c !! i = Some s →
  synced s ∧ disk_vote s = Some (n_currentTerm s.1, n_votedFor s.1) ∧
  is_u64 (n_currentTerm s.1) ∧ zlen (n_log s.1) < u64_max ∧
  (∀ x e, n_log s.1 !! x = Some e →
    e_Index e = Z.of_nat x + 1 ∧ 0 < e_Term e ≤ n_currentTerm s.1 ∧
    ∀ y e', n_log s.1 !! y = Some e' → (x ≤ y)%nat → e_Term e ≤ e_Term e') ∧
  n_lastApplied s.1 = n_commitIndex s.1 ∧ 0 ≤ n_commitIndex s.1 ≤ zlen (n_log s.1) ∧
  n_stateMachine s.1 = apply_all (take (Z.to_nat (n_commitIndex s.1)) (n_log s.1)) sm0 ∧
  (∀ p v, n_nextIndex s.1 !! p = Some v → is_u64 v) ∧
  (n_role s.1 = Leader → ∀ p v, n_matchIndex s.1 !! p = Some v → 0 ≤ v ≤ zlen (n_log s.1)).
Proof.
  intros Hr Hk Hi. destruct (hreach_matched k c Hr Hk) as (a & _ & Hrf). pose proof (rf_inv _ _ Hrf) as HI.
  destruct (rf_node _ _ Hrf i s Hi) as (Hh & N2 & N3 & N4 & _ & _ & _ & N8).
  destruct Hh as (Hs & Ho & Hd & Hu & (A1 & A2 & A3) & Hm & _).
  assert (Hg : good a (n_log s.1)) by (rewrite <- N3; apply HI).
  split_and!; try done; [lia| |lia|lia|].
  - intros x e He. destruct Hs as ((_ & _ & Hc) & _). rewrite Ho in Hc. rewrite (Hc x e He).
    split; [lia|]. split.
    + destruct (Hg x e He) as (L & HL & _). pose proof (lo_pos _ _ _ (si_lead a HI _ _ HL)).
      pose proof (si_terms a HI i e) as Ht. rewrite N3, N2 in Ht.
      specialize (Ht ltac:(by eapply list_elem_of_lookup_2)). lia.
    + intros y e' He' Hle. by eapply good_sorted.
  - intros HL p v Hv. destruct (N8 HL) as [[HLd _] Hmi]. pose proof (zlen_nonneg (n_log s.1)).
    destruct (Hmi p v Hv) as [->|(P & HA & <-)]; [lia|].
    destruct (si_acks a HI _ _ _ HA) as (_ & (L & HL' & HP) & _). rewrite HLd in HL'. injection HL' as <-.
    apply prefix_length in HP. unfold zlen. lia.
Qed.

(** C10.  Log matching, in runs on healthy disks without compaction, snapshots
    and catch-up: if the logs of two nodes have an entry with the same index and
    term, they are identical up to that entry. *)
Theorem log_matching k c (i i' : string) s s' (x : nat) e e' :
  hreach k c → Z.of_nat k ≤ u64_max → cl_nodes c !! i = Some s → cl_nodes c !! i' = Some s' →
  n_log s.1 !! x = Some e → n_log s'.1 !! x = Some e' → e_Term e = e_Term e' →
  take (S x) (n_log s.1) = take (S x) (n_log s'.1).
Proof.
  intros Hr Hk Hi Hi' He He' Ht. destruct (hreach_matched k c Hr Hk) as (a & _ & Hrf).
  destruct (rf_node _ _ Hrf i s Hi) as (_ & _ & E & _). destruct (rf_node _ _ Hrf i' s' Hi') as (_ & _ & E' & _).
  pose proof (rf_inv _ _ Hrf) as HI. rewrite <- E, <- E' in *. eapply good_match; [apply HI|apply HI|done..].
Qed.

(** C8.  Leader completeness, in runs on healthy disks without compaction,
    snapshots and catch-up: whatever a node has committed is in the log of every
    node that leads, then or later, a term not below that node's. *)
Theorem leader_completeness j k c c' (i i' : string) s s' :
  hreach j c → hsteps k c c' → Z.of_nat (j + k) ≤ u64_max →
  cl_nodes c !! i = Some s → cl_nodes c' !! i' = Some s' →
  n_role s'.1 = Leader → n_currentTerm s.1 ≤ n_currentTerm s'.1 →
  take (Z.to_nat (n_commitIndex s.1)) (n_log s.1) `prefix_of` n_log s'.1.
Proof.
  intros Hr Hs Hk Hi Hi' HL Ht. destruct (run_matched j k c c' Hr Hs Hk) as (a & a' & _ & _ & Hgr & Hrf & Hrf').
  destruct (rf_node _ _ Hrf i s Hi) as (_ & _ & _ & _ & _ & Hc & _).
  destruct (rf_node _ _ Hrf' i' s' Hi') as (_ & _ & _ & _ & _ & _ & _ & HL'). destruct (HL' HL) as [[HLd _] _].
  eapply (commit_in_lead a'); [by eapply rf_inv| |exact HLd|exact Ht].
  eapply (commit_ok_grows a); [done|reflexivity|apply Hc|done|exact Hc].
Qed.

(** C7.  State machine safety, in runs on healthy disks without compaction,
    snapshots and catch-up: the logs of two nodes, at the same or at different
    times, agree up to the smaller of their commit indices, and nodes that have
    applied the same number of entries have the same state machine.  In
    particular no node loses or changes an entry it has committed in such a run;
    compaction_keeps_committed says what is left of this with compaction. *)
Theorem state_machine_safety j k c c' (i i' : string) s s' :
  hreach j c → hsteps k c c' → Z.of_nat (j + k) ≤ u64_max →
  cl_nodes c !! i = Some s → cl_nodes c' !! i' = Some s' →
  let m := Z.to_nat (Z.min (n_commitIndex s.1) (n_commitIndex s'.1)) in
  take m (n_log s.1) = take m (n_log s'.1) ∧
  (n_lastApplied s.1 = n_lastApplied s'.1 → n_stateMachine s.1 = n_stateMachine s'.1).
Proof.
  intros Hr Hs Hk Hi Hi'. destruct (logs_agree j k c c' i i' s s' Hr Hs Hk Hi Hi') as (Hh & Hh' & Hlog).
  cbv zeta in *. split; [done|]. destruct Hh as (_ & _ & _ & _ & (A1 & _ & A2) & _).
  destruct Hh' as (_ & _ & _ & _ & (A1' & _ & A2') & _). rewrite A1, A1', A2, A2'.
  intros E. rewrite E, Z.min_id in Hlog. by rewrite E, Hlog.
Qed.

End refine.
