(* ===== verification/RaftCompacting.v ===== *)
(** * Runs in which nodes compact their logs and restart from snapshots

    The cluster of RaftImplements, and besides: a node compacts its log with a
    snapshot it is given (ConfirmCompaction at the leader, the poll of every
    node), and a process that starts looks for its newest snapshot file,
    restores the state machine from it and builds its log around it.  Which
    snapshots there are is a parameter here; Backup gets them from the service.

    A snapshot need not be the state after exactly the entries it covers: the
    catalog serves the replica of the service as it is, which may have applied
    more.  [sound] is what is asked of it: a machine that starts from it and
    goes on is right once it has applied what the replica had.  Disks are
    healthy; catch-up, which replaces a log by a snapshot beyond it, is left out
    (catchUp_forgets shows why).  Every such run still implements RaftSpec. *)

From Stdlib Require Import Strings.Byte.
From stdpp Require Import functions.
From S2P Require Import Prelude Pb Fs Persistence SnapshotFile Storage SnapStorage RaftNode RaftElection.
From S2P Require Import RaftReplication RaftLog RaftCommit RaftSnapshot RaftReadIndex RaftVotes RaftCompaction.
From S2P Require Import RaftCluster RaftSafety RaftSpec RaftViews RaftHealthy RaftAnchors RaftImplements RaftRefine.
Import SnapshotFile.

Section compacting.
Context {SM : Type} `{StateMachine SM} {D : Type} `{Storage D} `{!VoteLaws D} `{LL : !LogLaws D} `{!SnapLaws D}.
Context `{GF : Codec File} `{MB : Membership} `{!MembershipOk}.
Variable sm0 : SM.
Implicit Types (n : Node SM) (d : D) (s : Node SM * D) (c : Cluster (SM := SM) (D := D)) (a : Spec).

(** ** Steps *)

(** An operation that compacts, with one of the snapshots [taken]. *)
Definition compacts (taken : list File) (op : LocalOp) : Prop :=
  match op with
  | OpConfirmCompaction req => ∀ f, Decode (ca_StateMachineSnapshot req) = Some f → f ∈ taken
  | OpPollCompact _ fetch => ∀ f, fetch = Some f → f ∈ taken
  | _ => False
  end.

(** The state machine a starting process has restored. *)
Definition restored_from (found : option (File * Path)) : SM :=
  match found with Some (f, _) => sm_Restore (f_State f) sm0 | None => sm0 end.

Inductive cstep (taken : list File) : Cluster → Cluster → Prop :=
| c_run c c' : rstep c c' → cstep taken c c'
| c_compact c i op s r s' :
    cl_nodes c !! i = Some s → compacts taken op → run_local op s = (r, s') →
    cstep taken c (upd_node i s' c)
| c_restart c i n d found env cfg n' d' :
    cl_nodes c !! i = Some (n, d) → same_config cfg n →
    st_Latest (n_dataDir n) d = (Ok found, d) →
    cfg_LocalSnapshot cfg = fst <$> found → cfg_StateMachine cfg = restored_from found →
    NewNode env cfg d = (Ok n', d') →
    cstep taken c
      (set_campaigns (filter (λ kv, kv.1.1 ≠ i) (cl_campaigns c)) (upd_node i (n', d') c)).

(** Fresh nodes: nothing on disk. *)
Definition cinit c : Prop :=
  hinit sm0 c ∧
  ∀ i s, cl_nodes c !! i = Some s → n_currentSnapshotPath s.1 = None ∧ sl_files (n_dataDir s.1) s.2 [].

Lemma cstep_step taken c c' : cstep taken c c' → step c c'.
Proof.
  intros Hs. destruct Hs; [by apply rstep_step|by eapply step_local|].
  eapply (step_restart _ _ _ _ _ _ _ ltac:(done)); [done|done|by eapply boots_up].
Qed.

Lemma cstep_Inv b taken c c' : b + 1 ≤ u64_max → Inv b c → cstep taken c c' → Inv (b + 1) c'.
Proof. intros Hb HI Hs%cstep_step. by eapply step_Inv. Qed.

(** ** The snapshots *)

(** A machine that begins with [M] after [b] entries and applies those that
    follow, up to the end of some committed log of at most [top] entries, ends
    as if it had applied all of them. *)
Definition sound a (top b : Z) (M : SM) : Prop :=
  ∃ t P, commit_ok a t P (zlen P) ∧ 0 ≤ b ≤ zlen P ∧ zlen P ≤ top ∧
    apply_all (drop (Z.to_nat b) P) M = apply_all P sm0.

(** The entry [x] with term [y] is committed. *)
Definition committed_at a (x y : Z) : Prop :=
  0 < x ∧ ∃ t Q e, commit_ok a t Q (zlen Q) ∧ zlen Q = x ∧ last Q = Some e ∧ e_Term e = y.

Definition file_ok a (top : Z) (f : File) : Prop :=
  committed_at a (f_LastIncludedIndex f) (f_LastIncludedTerm f) ∧
  sound a top (f_LastIncludedIndex f) (sm_Restore (f_State f) sm0) ∧
  ll_file f ∧ ll_storable (anchor_of f).

(** How nodes begin: from nothing, or from a snapshot. *)
Definition start_of (taken : list File) (b : Z) (M : SM) : Prop :=
  from_scratch sm0 b M ∨
  1 < b ∧ ∃ f, f ∈ taken ∧ f_LastIncludedIndex f = b ∧ M = sm_Restore (f_State f) sm0.

(** What a node's directory holds: nothing before its first compaction, then
    the snapshot of its anchor. *)
Definition dir_ok (taken : list File) s : Prop :=
  n_logOffset s.1 = 0 ∧ n_currentSnapshotPath s.1 = None ∧ sl_files (n_dataDir s.1) s.2 [] ∨
  ∃ f, f ∈ taken ∧ f_LastIncludedIndex f = n_logOffset s.1 + 1 ∧ 0 < n_logOffset s.1 ∧
    n_currentSnapshotPath s.1 = Some (n_dataDir s.1, FileName (f_LastIncludedIndex f)) ∧
    sl_files (n_dataDir s.1) s.2 [f].

Record site_ok (taken : list File) (top : Z) c a : Prop := {
  so_impl : implements (start_of taken) c a;
  so_files : ∀ f, f ∈ taken → file_ok a top f;
  so_dirs : ∀ i s, cl_nodes c !! i = Some s → dir_ok taken s
}.

Lemma sound_grows a a' top b M : grows a a' → sound a top b M → sound a' top b M.
Proof.
  intros Hgr (t & P & HC & Hf). exists t, P. split; [|done]. by eapply (commit_ok_grows a a' t t P P).
Qed.

Lemma sound_mono a top top' b M : top ≤ top' → sound a top b M → sound a top' b M.
Proof. intros Ht (t & P & HC & Hb & Hz & Hap). exists t, P. split_and!; try done; lia. Qed.

Lemma committed_at_grows a a' x y : grows a a' → committed_at a x y → committed_at a' x y.
Proof.
  intros Hgr (Hx & t & Q & e & HC & Hf). split; [done|]. exists t, Q, e. split; [|done].
  by eapply (commit_ok_grows a a' t t Q Q).
Qed.

Lemma file_ok_grows a a' top f : grows a a' → file_ok a top f → file_ok a' top f.
Proof. intros Hgr (F1 & F2 & F3). split_and!; [by eapply committed_at_grows|by eapply sound_grows|apply F3..]. Qed.

Lemma file_ok_mono a top top' f : top ≤ top' → file_ok a top f → file_ok a top' f.
Proof. intros Ht (F1 & F2 & F3). split_and!; [done|by eapply sound_mono|apply F3..]. Qed.

(** A committed prefix that is not longer than what a node has committed is
    what the node has there. *)
Lemma commit_prefix a t t' (l P : list LogEntry) k :
  SInv a → commit_ok a t l k → commit_ok a t' P (zlen P) → zlen P ≤ k → take (length P) l = P.
Proof.
  intros HI [Hb HC] [Hb' HC'] Hle. destruct HC' as [E|(t1 & P1 & HC1 & _ & HP1)].
  { unfold zlen in E. destruct P; [done|]. simpl in E. lia. }
  destruct HC as [->|(t2 & P2 & HC2 & _ & HP2)].
  { unfold zlen in *. destruct P; [done|]. simpl in *. lia. }
  assert (El : Z.to_nat (zlen P) = length P) by (unfold zlen; lia). rewrite El in HP1.
  pose proof (prefixes_agree P l P1 P2 (length P) (Z.to_nat k) HP1 HP2) as Hag.
  rewrite firstn_all in Hag. symmetry. apply Hag; [by eapply committed_agree|unfold zlen in *; lia..].
Qed.

(** Where a sound machine is right. *)
Lemma sound_right a top b M t (l : list LogEntry) k :
  SInv a → sound a top b M → commit_ok a t l k → top ≤ k →
  b ≤ k ∧ apply_all (slice b k l) M = apply_all (take (Z.to_nat k) l) sm0.
Proof.
  intros HI (t' & P & HP & Hb & Hz & Hap) HC Hk. split; [lia|].
  pose proof (commit_prefix a t t' l P k HI HC HP ltac:(lia)) as Htk.
  assert (Hs : take (Z.to_nat k) l = P ++ slice (zlen P) k l).
  { rewrite <- Htk at 1. unfold slice, zlen. rewrite skipn_firstn_comm, Nat2Z.id.
    rewrite take_take_drop. f_equal. unfold zlen in *. lia. }
  unfold slice at 1. rewrite Hs, drop_app_le by (unfold zlen in *; lia).
  by rewrite !apply_all_app, Hap.
Qed.

(** A committed log and what makes a machine sound are parts of one log. *)
Lemma sound_covers a top b M t (Q : list LogEntry) :
  SInv a → sound a top b M → commit_ok a t Q (zlen Q) →
  ∃ t' R, commit_ok a t' R (zlen R) ∧ 0 ≤ b ≤ zlen R ∧ zlen R ≤ Z.max top (zlen Q) ∧ Q `prefix_of` R ∧
    apply_all (drop (Z.to_nat b) R) M = apply_all R sm0.
Proof.
  intros HI Hsd HQ. pose proof Hsd as (t' & P & HP & Hb & Hz & Hap).
  destruct (decide (zlen Q ≤ zlen P)) as [Hle|Hle].
  - exists t', P. split_and!; try done; [lia..|].
    rewrite <- (commit_prefix a t' t P Q (zlen P) HI HP HQ Hle). apply prefix_take.
  - exists t, Q. split_and!; try done; [lia..|].
    assert (Hs : sound a (zlen P) b M) by (by exists t', P).
    destruct (sound_right a (zlen P) b M t Q (zlen Q) HI Hs HQ ltac:(lia)) as [_ Hr].
    unfold slice in Hr. by rewrite firstn_all2 in Hr by (unfold zlen; lia).
Qed.

Lemma file_at_node a top t l k f :
  SInv a → commit_ok a t l k → file_ok a top f → f_LastIncludedIndex f ≤ k →
  0 < f_LastIncludedIndex f ∧ ∃ e, l !! Z.to_nat (f_LastIncludedIndex f - 1) = Some e ∧
    e_Term e = f_LastIncludedTerm f.
Proof.
  intros HI HC ((Hpos & t' & P & e & HP & Hz & Hl & Ht) & _) Hle. rewrite <- Hz in *.
  pose proof (commit_prefix a t t' l P k HI HC HP Hle) as Htk. split; [done|]. exists e. split; [|done].
  rewrite last_lookup in Hl. rewrite <- Htk, lookup_take_Some in Hl. destruct Hl as [Hl _].
  rewrite length_take in Hl. rewrite <- Hl. f_equal. unfold zlen in *. destruct HC as [? _]. unfold zlen in *. lia.
Qed.

(** ** Compaction *)

(** A compacting operation does nothing, or compacts with a taken snapshot that
    lies between the compaction point and lastApplied. *)
Lemma compacts_cases taken op s r s' :
  log_wf s.1 → compacts taken op → run_local op s = (r, s') →
  s' = s ∨ ∃ f, f ∈ taken ∧ n_logOffset s.1 + 1 < f_LastIncludedIndex f ≤ n_lastApplied s.1 ∧
    s' = (compactLocked f s).2.
Proof.
  intros Hw Hop HE. assert (Es : s' = (run_local op s).2) by (by rewrite HE). subst s'. clear HE r.
  assert (Hoff : wrap64 (n_logOffset s.1 + 1) = n_logOffset s.1 + 1).
  { destruct Hw as (? & ? & _). pose proof (zlen_nonneg (n_log s.1)). apply wrap64_small. u64. }
  destruct op as [| | |req|target fetch| | | |]; try done; cbn [run_local compacts] in *.
  - rewrite ignore_state. unfold ConfirmCompaction. rewrite nbind_getN. cbv zeta. rewrite Hoff.
    destruct (_ <=? _) eqn:E1; [by left|]. destruct (_ <? _) eqn:E2; [by left|].
    destruct (Decode _) as [f|] eqn:Ed; [|by left]. destruct (_ =? _) eqn:E3; [|by left]. zbool.
    right. exists f. split_and!; [by apply Hop|lia|lia|done].
  - unfold pollCompact. destruct fetch as [f|]; [|by left]. destruct (_ =? _) eqn:E1; [|by left]. zbool. cbn [negb].
    rewrite nbind_getN. rewrite Hoff. destruct (_ && _) eqn:E2; [|by left]. zbool.
    right. exists f. split_and!; [by apply Hop|lia|lia|]. unfold gtry. unfold_node.
    by destruct (compactLocked f s) as [[] ?].
Qed.

Lemma compact_vote f s :
  path_ok s.1 → vl_vote (n_dataDir s.1) (compactLocked f s).2.2 = vl_vote (n_dataDir s.1) s.2.
Proof.
  intros Hp. unfold compactLocked. rewrite nbind_getN. cbv zeta. destruct (entryAtLocked _ _); [|done].
  destruct s as [n d]. cbn [fst snd] in *. set (dir := n_dataDir n) in *.
  pose proof (vl_write dir f d) as Kw. pose proof (vl_write_path dir f d) as Kp.
  destruct (st_WriteFile dir f d) as [[p|e] d1] eqn:E1; cbn [snd] in Kw.
  2:{ erewrite nbind_Err; [|unfold liftD; cbn [snd]; by rewrite E1]. done. }
  erewrite nbind_Ok; [|unfold liftD; cbn [snd]; by rewrite E1].
  assert (Hr : ∃ n2 d2, replaceSnapshotFileLocked p (n, d1) = (Ok tt, (n2, d2)) ∧ vl_vote dir d2 = vl_vote dir d1).
  { unfold replaceSnapshotFileLocked. rewrite nbind_getN. cbv zeta. rewrite nbind_modifyN. cbn [fst snd].
    unfold path_ok in Hp. destruct (n_currentSnapshotPath n) as [q|]; [|by do 2 eexists].
    destruct (decide _); [by do 2 eexists|]. destruct Hp as [j ->]. pose proof (vl_remove dir j d1) as Kr.
    unfold gtry. unfold_node. fold dir. destruct (st_Remove _ d1) as [[] d2]; do 2 eexists; by split. }
  destruct Hr as (n2 & d2 & Er & K2). node_step Er. rewrite <- Kw, <- K2. clear Er K2 Kw Kp.
  set (kept := _ :: _). pose proof (vl_rewrite dir kept d2) as K3.
  destruct (st_RewriteLog dir kept d2) as [[[]|e] d3] eqn:E3; cbn [snd] in K3.
  - erewrite nbind_Ok; [|unfold liftD; cbn [snd]; by rewrite E3]. done.
  - erewrite nbind_Err; [|unfold liftD; cbn [snd]; by rewrite E3]. done.
Qed.

Lemma drop_index_one i f : f_LastIncludedIndex f ≠ i → drop_index i [f] = [f].
Proof. intros Hne. unfold drop_index. by rewrite filter_cons_True. Qed.

Lemma drop_index_same f : drop_index (f_LastIncludedIndex f) [f] = [].
Proof. unfold drop_index. rewrite filter_cons_False; [done|]. by intros ?. Qed.

(** The directory afterwards: the new snapshot and nothing else. *)
Lemma compact_files taken f e s :
  synced s → dir_ok taken s → ll_file f → ll_storable (anchor_of f) → is_u64 (f_LastIncludedIndex f) →
  n_logOffset s.1 + 1 < f_LastIncludedIndex f → is_u64 (n_logOffset s.1 + 1) →
  entryAtLocked s.1 (f_LastIncludedIndex f) = Some e →
  sl_files (n_dataDir s.1) (compactLocked f s).2.2 [f].
Proof.
  destruct s as [n d]. intros (Hw & Hq & Hl) Hdir Hf Hst Hu Hlt Huo He. unfold dir_ok in Hdir. cbn [fst snd] in *.
  set (dir := n_dataDir n) in *.
  destruct (ll_write dir f _ d Hq Hl Hf) as (d1 & E1 & Hq1 & Hl1).
  unfold compactLocked. rewrite nbind_getN. cbv zeta. cbn [fst]. rewrite He. fold dir.
  erewrite nbind_Ok; [|unfold liftD; cbn [snd]; by rewrite E1].
  assert (Hr : ∃ n2 d2, replaceSnapshotFileLocked (dir, FileName (f_LastIncludedIndex f)) (n, d1) =
      (Ok tt, (n2, d2)) ∧ sl_files dir d2 [f]).
  { unfold replaceSnapshotFileLocked. rewrite nbind_getN. cbv zeta. rewrite nbind_modifyN. cbn [fst snd].
    destruct Hdir as [(Ho & -> & Hs)|(g & _ & Hg & Hpos & -> & Hs)]; fold dir in Hs.
    - do 2 eexists. split; [done|]. exact (sl_write dir [] f d d1 _ Hq Hf Hu Hs E1).
    - cbn [fst] in *. assert (Hug : is_u64 (f_LastIncludedIndex g)) by (by rewrite Hg).
      pose proof (sl_write dir [g] f d d1 _ Hq Hf Hu Hs E1) as Hs1. rewrite drop_index_one in Hs1 by lia.
      rewrite decide_False.
      2:{ intros E%(f_equal snd). apply (f_equal sscanf_snapshot) in E. cbn [snd] in E.
          rewrite !sscanf_name in E by done. injection E as E. lia. }
      destruct (ll_remove dir (f_LastIncludedIndex g) _ d1 Hq1 Hl1) as (d2 & E2 & Hq2 & Hl2).
      pose proof (sl_remove dir _ _ d1 Hq1 Hug Hs1) as Hs2. rewrite E2 in Hs2. cbn [snd] in Hs2.
      do 2 eexists. split; [unfold gtry; unfold_node; by rewrite E2|].
      unfold drop_index in Hs2. rewrite filter_cons_True in Hs2 by lia.
      rewrite filter_cons_False in Hs2 by (intros ?; done). done. }
  destruct Hr as (n2 & d2 & Er & Hs2). node_step Er. set (kept := _ :: _).
  pose proof (sl_rewrite dir dir [f] kept d2 Hs2) as Hs3.
  destruct (st_RewriteLog dir kept d2) as [[[]|er] d3] eqn:E3; cbn [snd] in Hs3.
  - erewrite nbind_Ok; [|unfold liftD; cbn [snd]; by rewrite E3]. done.
  - erewrite nbind_Err; [|unfold liftD; cbn [snd]; by rewrite E3]. done.
Qed.

(** The node afterwards: the same whole log, compacted further. *)
Lemma compact_at start l f e s :
  healthy_at start l s → path_ok s.1 → ll_file f → ll_storable (anchor_of f) →
  n_logOffset s.1 + 1 < f_LastIncludedIndex f ≤ n_lastApplied s.1 →
  l !! Z.to_nat (f_LastIncludedIndex f - 1) = Some e → e_Term e = f_LastIncludedTerm f →
  ∃ d', let n' := set_logOffset (f_LastIncludedIndex f - 1)
      (set_log (compacted (n_logOffset s.1) (n_log s.1) f)
        (set_currentSnapshotPath (Some (n_dataDir s.1, FileName (f_LastIncludedIndex f))) s.1)) in
    compactLocked f s = (Ok tt, (n', d')) ∧ healthy_at start l (n', d') ∧
    is_Some (entryAtLocked s.1 (f_LastIncludedIndex f)).
Proof.
  intros Hh Hp Hf Hst Hb He Ht. pose proof Hh as (Hs & (Hsl & Hac) & Hd & Hu & (Ha & Hcb & b0 & M & Hst0 & Hb0 & Hbo & Hsm) & Hm).
  pose proof Hs as (Hw & _). pose proof Hsl as (El & Hv & Hcl). pose proof (view_length _ _ Hv) as Hvl.
  rewrite <- El in Hvl. set (t := f_LastIncludedIndex f) in *.
  destruct (proj2 (entryAt_is_Some s.1 t Hw) ltac:(lia)) as [x Hx].
  destruct (compact_quiet f x s Hs Hp Hf Hst Hx) as (d' & E & Hq' & Hl'). fold t in E.
  pose proof (compact_vote f s Hp) as Hvt. rewrite E in Hvt. cbn [snd] in Hvt.
  exists d'. cbv zeta. split; [done|]. split; [|by rewrite Hx].
  assert (Hanch : anchor_of f = anchored e).
  { unfold anchor_of, anchored. rewrite Ht, (Hcl _ _ He). fold t. f_equal.
    assert (0 ≤ n_logOffset s.1) by (destruct Hw; lia). lia. }
  assert (Hcv : compacted (n_logOffset s.1) (n_log s.1) f = view (t - 1) l).
  { unfold compacted. fold t. rewrite Hanch, El.
    replace (t - n_logOffset s.1) with (t - 1 + 1 - n_logOffset s.1) by lia.
    apply view_compact; [done|lia|done]. }
  assert (Hwf : wf_log (t - 1) (compacted (n_logOffset s.1) (n_log s.1) f)).
  { apply compacted_wf; [done|fold t; lia]. }
  unfold healthy_at, synced, log_wf, shows_log, anchor_committed, disk_vote.
  cbn [fst snd n_log n_logOffset n_dataDir n_currentTerm n_votedFor n_commitIndex set_logOffset set_log
    set_currentSnapshotPath]. destruct Hw as (? & _).
  split_and!; try done; [right; lia|right; lia|rewrite Hvt; exact Hd|].
  split; [done|]. split; [done|]. exists b0, M. simpl.
  split; [done|]. split; [done|]. split; [lia|exact Hsm].
Qed.

Lemma implements_same start c a i s s' :
  implements start c a → cl_nodes c !! i = Some s → healthy_at start (sp_log a i) s' →
  n_currentTerm s'.1 = n_currentTerm s.1 → n_role s'.1 = n_role s.1 →
  n_commitIndex s'.1 = n_commitIndex s.1 → n_matchIndex s'.1 = n_matchIndex s.1 →
  implements start (upd_node i s' c) a.
Proof.
  intros Him Hi Hh Et Er Ec Em. destruct (im_node _ _ _ Him i s Hi) as (_ & N2 & N4 & N6 & N7 & N8).
  eapply (implements_upd start c a a i s); try done.
  - apply Him.
  - unfold node_im. rewrite Et, Er, Ec, Em. by split_and!.
  - rewrite Er, Et. by right.
  - congruence.
Qed.

(** ** Restart *)

(** Starting changes neither the vote nor the snapshot files, and begins without
    leader state. *)
Lemma NewNode_keeps env (cfg : Config SM) d n' d' dir fs :
  NewNode env cfg d = (Ok n', d') → sl_files dir d fs →
  sl_files dir d' fs ∧ n_nextIndex n' = ∅ ∧ n_matchIndex n' = ∅.
Proof.
  unfold NewNode. cbv zeta. intros E Hs.
  apply bind_inv in E as [([t0 v0] & d0 & E0 & E)|(? & _ & ?)]; [|done].
  apply bind_inv in E as [(lg & d3 & E3 & E)|(? & _ & ?)]; [|done].
  pose proof (sl_load dir (cfg_DataDir cfg) fs d Hs) as Hs0. rewrite E0 in Hs0.
  pose proof (sl_read dir (cfg_DataDir cfg) fs d0 Hs0) as Hs3. rewrite E3 in Hs3.
  destruct (initial_log cfg lg) as [[[? ?] ?] ?]. by injection E as <- <-.
Qed.

Lemma NewNode_path env (cfg : Config SM) d n' d' :
  NewNode env cfg d = (Ok n', d') → cfg_LocalSnapshot cfg = None →
  n_currentSnapshotPath n' = None ∧ n_dataDir n' = cfg_DataDir cfg.
Proof.
  unfold NewNode. cbv zeta. intros [([t v] & d1 & _ & E)|(e & _ & ?)]%bind_inv; [|done].
  apply bind_inv in E as [(log & d2 & _ & E)|(e & _ & ?)]; [|done]. intros Hsn.
  unfold initial_log in E. cbv zeta in E. rewrite Hsn in E. by destruct log; injection E as <- _.
Qed.

(** A node that has compacted comes back with its log, and with its snapshot
    applied. *)
Lemma restart_at start env (cfg : Config SM) l f e n d n' d' :
  healthy_at start l (n, d) → same_config cfg n → sl_files (n_dataDir n) d [f] →
  cfg_LocalSnapshot cfg = Some f → cfg_StateMachine cfg = sm_Restore (f_State f) sm0 →
  f_LastIncludedIndex f = n_logOffset n + 1 → 0 < n_logOffset n →
  l !! Z.to_nat (n_logOffset n) = Some e → e_Term e = f_LastIncludedTerm f →
  start (n_logOffset n + 1) (sm_Restore (f_State f) sm0) →
  NewNode env cfg d = (Ok n', d') →
  healthy_at start l (n', d') ∧ n_logOffset n' = n_logOffset n ∧ n_dataDir n' = n_dataDir n ∧
  n_currentTerm n' = n_currentTerm n ∧ n_role n' = Follower ∧
  n_commitIndex n' = n_logOffset n + 1 ∧
  n_currentSnapshotPath n' = Some (n_dataDir n', FileName (f_LastIncludedIndex f)) ∧
  sl_files (n_dataDir n') d' [f].
Proof.
  intros Hh (_ & _ & Ecd & _) Hfs Hsn Hsm Hidx Hpos He Ht Hst E.
  pose proof Hh as (Hs & (Hsl & Hac) & Hd & Hu & (Ha & Hcb & _) & _).
  pose proof Hs as (Hw & Hq & Hl). pose proof Hsl as (El & Hv & Hcl). unfold disk_vote in Hd.
  cbn [fst snd] in *. rewrite <- Ecd in *. set (dir := cfg_DataDir cfg) in *. set (off := n_logOffset n) in *.
  pose proof (view_length _ _ Hv) as Hvl. rewrite <- El in Hvl.
  destruct (st_LoadState dir d) as [[[t1 v1]|er] d1] eqn:EL.
  2:{ unfold NewNode in E. cbv zeta in E. by erewrite bind_Err in E by exact EL. }
  destruct (NewNode_quiet env cfg d _ t1 v1 d1 Hq Hl EL)
    as (n2 & d2 & E2 & Hq2 & Hl2 & Hdir & Ht2 & Hvf & Hr & Hc & Hsm2 & _ & _ & Hi).
  rewrite E in E2. injection E2 as <- <-. fold dir in Hl2, Hdir.
  assert (Hoc : off < n_commitIndex n) by (unfold anchor_committed in Hac; cbn [fst] in Hac; fold off in Hac; lia).
  rewrite (initial_log_snapshot cfg f off) in Hi by (done || lia). fold dir in Hi. injection Hi as Hi1 Hi2 Hi3 Hi4.
  assert (Hcv : compacted off (n_log n) f = n_log n).
  { destruct (view_cons off l ltac:(lia) Hv) as (x & Hx & Hxv). rewrite Hx in He. injection He as ->.
    unfold compacted. rewrite El, Hxv, Hidx. replace (Z.to_nat (off + 1 - off)) with 1%nat by lia. simpl. f_equal.
    unfold anchor_of, anchored. rewrite Ht, Hidx, (Hcl _ _ Hx). f_equal. lia. }
  rewrite Hcv in Hi1. rewrite Hidx in Hi2, Hi3. replace (off + 1 - 1) with off in Hi2 by lia.
  pose proof (vl_load _ _ _ _ _ EL) as [HL _]. rewrite Hd in HL. injection HL as <- <-.
  assert (Hv2 : vl_vote dir d' = vl_vote dir d).
  { destruct (boots_vote cfg d (n', d') (boots_up cfg env d n' d' E)) as (Hb & _). exact Hb. }
  destruct (NewNode_keeps env cfg d n' d' dir [f] E Hfs) as (Hfs' & M1 & M2).
  split; [|split_and!; try done; [by rewrite Hc, <- Hi3|by rewrite <- Hi4, Hdir|by rewrite Hdir]].
  unfold healthy_at, synced, log_wf, shows_log, anchor_committed, applied_at, maps_ok, disk_vote. cbn [fst snd].
  rewrite <- Hi1, <- Hi2, Hc, <- Hi3, Hdir, Ht2, Hvf, M1, M2.
  split_and!; try done; try lia; [by rewrite Hv2|]. exists (off + 1), (sm_Restore (f_State f) sm0).
  rewrite <- Hi2, Hc, <- Hi3, Hsm2, Hsm. split; [done|]. split; [lia|]. split; [lia|]. unfold slice.
  by rewrite drop_ge by (rewrite length_take; lia).
Qed.


(** ** The simulation *)

Lemma dir_ok_mono taken taken' s : taken ⊆ taken' → dir_ok taken s → dir_ok taken' s.
Proof. intros Hsub [?|(f & Hf & ?)]; [by left|right]. exists f. split; [by apply Hsub|done]. Qed.

Lemma start_of_mono taken taken' b M : taken ⊆ taken' → start_of taken b M → start_of taken' b M.
Proof.
  intros Hsub [?|(Hb & f & Hf & ?)]; [by left|right]. split; [done|]. exists f. split; [by apply Hsub|done].
Qed.

(** More snapshots to choose from. *)
Lemma site_ok_more taken taken' top top' c a :
  site_ok taken top c a → taken ⊆ taken' → top ≤ top' → (∀ f, f ∈ taken' → file_ok a top' f) →
  site_ok taken' top' c a.
Proof.
  intros [Him Hfl Hdr] Hsub Ht Hok. split; [|done|].
  - eapply implements_mono; [|exact Him]. intros b M. by apply start_of_mono.
  - intros i s Hi. eapply dir_ok_mono; [exact Hsub|by eapply Hdr].
Qed.

Lemma rstep_dirs taken c c' :
  rstep c c' → (∀ i s, cl_nodes c !! i = Some s → dir_ok taken s) →
  ∀ i s, cl_nodes c' !! i = Some s → dir_ok taken s.
Proof.
  intros Hs Hd i s' Hi'. destruct (rstep_node (λ _, True) c c' i s' Hs Hi') as (s & Hi & _).
  assert (Hk : ∀ fs, sl_files (n_dataDir s.1) s.2 fs →
    same_place s.1 s'.1 ∧ sl_files (n_dataDir s.1) s'.2 fs).
  { intros fs Hfs. destruct (rstep_node (λ d, sl_files (n_dataDir s.1) d fs) c c' i s' Hs Hi') as (s0 & Hi0 & Hk).
    rewrite Hi in Hi0. injection Hi0 as <-. by apply Hk. }
  destruct (Hd i s Hi) as [(? & ? & Hfs)|(f & Hf & ? & ? & ? & Hfs)];
    destruct (Hk _ Hfs) as [(P1 & P2 & P3) Hfs']; unfold dir_ok; rewrite P1, P2, P3; [by left|right].
  by exists f.
Qed.

Lemma upd_dirs taken c i s' :
  (∀ j s, cl_nodes c !! j = Some s → dir_ok taken s) → dir_ok taken s' →
  ∀ j s, cl_nodes (upd_node i s' c) !! j = Some s → dir_ok taken s.
Proof. intros Hd Hs j s. simpl. intros [[<- <-]|[_ ?]]%lookup_insert_Some; eauto. Qed.

Lemma compact_site taken top c a b i op s r s' :
  Inv b c → site_ok taken top c a → cl_nodes c !! i = Some s → compacts taken op →
  run_local op s = (r, s') → site_ok taken top (upd_node i s' c) a.
Proof.
  intros HI [Him Hfl Hdr] Hi Hop HE.
  destruct (im_node _ _ _ Him i s Hi) as (Hh & _ & _ & HC & _). pose proof Hh as ((Hw & _) & _).
  destruct (compacts_cases taken op s r s' Hw Hop HE) as [->|(f & Hf & Hb & ->)].
  { split; [by eapply (implements_same _ c a i s)|done|apply upd_dirs; eauto]. }
  destruct (inv_nodes _ _ HI i s Hi) as [(_ & _ & _ & _ & _ & Hp & _) _].
  pose proof (Hfl f Hf) as Hfo. pose proof Hfo as (_ & _ & Hlf & Hst).
  pose proof Hh as (Hs & _ & _ & _ & (Ha & Hcb & _) & _). pose proof (healthy_at_room _ _ _ Hh).
  destruct (file_at_node a _ _ _ _ f (im_inv _ _ _ Him) HC Hfo ltac:(lia)) as (Hpos & e & He & Ht).
  destruct (compact_at _ (sp_log a i) f e s Hh Hp Hlf Hst Hb He Ht) as (d' & E & Hh' & x & Hx). cbv zeta in *.
  assert (0 ≤ n_logOffset s.1) by (destruct Hw; lia).
  pose proof (compact_files taken f x s Hs (Hdr i s Hi) Hlf Hst ltac:(u64) ltac:(lia) ltac:(u64) Hx) as Hfs.
  rewrite E in Hfs |- *. cbn [snd] in Hfs |- *. split; [by eapply (implements_same _ c a i s)|done|].
  apply upd_dirs; [done|]. right. exists f. simpl. split_and!; try done; lia.
Qed.

(** A node that has compacted nothing has started from nothing. *)
Lemma plain_start taken l s :
  healthy_at (start_of taken) l s → n_logOffset s.1 = 0 → healthy_at (from_scratch sm0) l s.
Proof.
  intros (F1 & F2 & F3 & F4 & (F5 & F6 & b & M & Hst & Hb & Hbo & Hm) & F7) Ho.
  repeat (split; [done|]). split; [|done]. split; [done|]. split; [done|]. exists b, M.
  split; [|done]. destruct Hst as [?|(? & _)]; [done|lia].
Qed.

Lemma restart_site taken top c a i n d found env cfg n' d' :
  site_ok taken top c a → cl_nodes c !! i = Some (n, d) → same_config cfg n →
  st_Latest (n_dataDir n) d = (Ok found, d) →
  cfg_LocalSnapshot cfg = fst <$> found → cfg_StateMachine cfg = restored_from found →
  NewNode env cfg d = (Ok n', d') →
  ∃ a', spec_steps a a' ∧ implements (start_of taken) (upd_node i (n', d') c) a' ∧ dir_ok taken (n', d').
Proof.
  intros [Him Hfl Hdr] Hi Hcfg HL Hsn Hsm HE.
  destruct (im_node _ _ _ Him i _ Hi) as (Hh & _ & _ & HC & _). pose proof Hh as (Hs & _ & _ & _ & (Ha & Hcb & _) & _).
  pose proof Hs as (_ & Hq & _). cbn [fst snd] in *.
  destruct (Hdr i _ Hi) as [(Ho & _ & Hfs)|(f & Hf & Hidx & Hpos & Hpath & Hfs)]; cbn [fst snd] in *.
  - rewrite (sl_latest_none _ _ Hq Hfs) in HL. injection HL as <-. simpl in Hsn, Hsm.
    destruct (healthy_at_plain _ _ _ (plain_start _ _ _ Hh Ho) Ho) as [El Hp]. cbn [fst] in El.
    destruct (restart_healthy sm0 env cfg n d n' d' Hp Hcfg Hsn Hsm HE) as (Hh' & El' & Et & Er & Ec).
    destruct (restart_matched (start_of taken) c a i (n, d) (n', d')) as (a' & Hst & Him'); try done; cbn [fst].
    { rewrite El, <- El'. apply (healthy_at_mono (from_scratch sm0)); [by left|].
      by apply (proj1 (healthy_iff _ (n', d'))). }
    { rewrite Ec. lia. }
    exists a'. split_and!; try done. left. cbn [fst snd]. pose proof Hcfg as (_ & _ & Ecd & _).
    destruct (NewNode_keeps env cfg d n' d' _ [] HE Hfs) as [Hfs' _].
    destruct (NewNode_path env cfg d n' d' HE Hsn) as [-> ->]. rewrite Ecd. split_and!; try done. apply Hh'.
  - rewrite (sl_latest _ _ _ Hq Hfs) in HL. injection HL as <-. simpl in Hsn, Hsm.
    assert (Hoc : n_logOffset n < n_commitIndex n).
    { destruct Hh as (_ & (_ & Hac) & _). unfold anchor_committed in Hac. cbn [fst] in Hac. lia. }
    destruct (file_at_node a _ _ _ _ f (im_inv _ _ _ Him) HC (Hfl f Hf) ltac:(lia)) as (_ & e & He & Ht).
    rewrite Hidx in He. replace (n_logOffset n + 1 - 1) with (n_logOffset n) in He by lia.
    assert (Hst0 : start_of taken (n_logOffset n + 1) (sm_Restore (f_State f) sm0)).
    { right. split; [lia|]. by exists f. }
    destruct (restart_at _ env cfg _ f e n d n' d' Hh Hcfg Hfs Hsn Hsm Hidx Hpos He Ht Hst0 HE)
      as (Hh' & Ho & Hdd & Et & Er & Ec & Hp & Hfs').
    destruct (restart_matched (start_of taken) c a i (n, d) (n', d')) as (a' & Hst & Him'); try done; cbn [fst]; [lia|].
    exists a'. split_and!; try done. right. exists f. cbn [fst snd]. rewrite Ho. done.
Qed.

Lemma cstep_matched b taken top c a c' :
  b + 1 ≤ u64_max → Inv b c → site_ok taken top c a → cstep taken c c' →
  ∃ a', spec_steps a a' ∧ site_ok taken top c' a'.
Proof.
  intros Hb HI Hok Hs. pose proof Hok as [Him Hfl Hdr].
  assert (Hfg : ∀ a', spec_steps a a' → ∀ f, f ∈ taken → file_ok a' top f).
  { intros a' Hst f Hf. eapply file_ok_grows; [|by apply Hfl]. eapply steps_SInv; [done|apply Him]. }
  destruct Hs as [c c' Hr|c i op s r s' Hi Hop HE|c i n d found env cfg n' d' Hi Hcfg HL Hsn Hsm HE].
  - destruct (rstep_matched _ b c a c' Hb HI Him Hr) as (a' & Hst & Him'). exists a'. split; [done|].
    split; [done|by apply Hfg|by eapply rstep_dirs].
  - exists a. split; [apply spec_refl|]. by eapply compact_site.
  - destruct (restart_site taken top c a i n d found env cfg n' d' Hok Hi Hcfg HL Hsn Hsm HE) as (a' & Hst & Him' & Hd').
    exists a'. split; [done|]. split; [by apply implements_campaigns|by apply Hfg|].
    exact (upd_dirs taken c i _ Hdr Hd').
Qed.

Lemma init_site c : cinit c → site_ok [] 0 c spec0.
Proof.
  intros (Hc & Hd). destruct (init_refines sm0 _ Hc) as [Him Hp]. split.
  - eapply implements_mono; [|exact Him]. by left.
  - intros f Hf. by apply elem_of_nil in Hf.
  - intros i s Hi. left. destruct (Hd i s Hi). split_and!; try done. by eapply Hp.
Qed.

(** ** What the specification gives compacting nodes *)

(** The state machine is the whole log up to the commit index, applied. *)
Definition machine_exact (l : list LogEntry) n : Prop :=
  n_stateMachine n = apply_all (take (Z.to_nat (n_commitIndex n)) l) sm0.

Lemma machine_right taken top c a i s :
  site_ok taken top c a → cl_nodes c !! i = Some s →
  n_logOffset s.1 = 0 ∨ top ≤ n_lastApplied s.1 → machine_exact (sp_log a i) s.1.
Proof.
  intros [Him Hfl _] Hi Hor. destruct (im_node _ _ _ Him i s Hi) as (Hh & _ & _ & HC & _).
  pose proof Hh as (_ & _ & _ & _ & (Ha & _ & b & M & Hst & Hb & Hbo & Hm) & _).
  unfold machine_exact. rewrite Hm. destruct Hst as [[-> ->]|(Hlt & f & Hf & <- & ->)]; [done|].
  destruct Hor as [Ho|Ho]; [lia|]. destruct (Hfl f Hf) as (_ & Hsd & _).
  eapply (sound_right a top); [apply Him|done|done|lia].
Qed.

(** The abstract state shows the nodes: each holds its whole log from its
    compaction point on, that point lies below the commit index, and the state
    machine is the rest of the committed prefix applied on top of where the node
    began; it is the whole committed prefix applied if the node has compacted
    nothing or has applied [top] entries. *)
Definition site_shows (taken : list File) (top : Z) a c : Prop :=
  ∀ i s, cl_nodes c !! i = Some s →
    let l := sp_log a i in
    let k := n_commitIndex s.1 in
    sp_term a i = n_currentTerm s.1 ∧
    n_log s.1 = view (n_logOffset s.1) l ∧ lastLogIndexLocked s.1 = zlen l ∧
    (n_logOffset s.1 = 0 ∨ 0 < n_logOffset s.1 < k) ∧
    (n_role s.1 = Leader → sp_lead a (n_currentTerm s.1) = Some l) ∧
    n_lastApplied s.1 = k ∧ 0 ≤ k ≤ zlen l ∧ machine_from (start_of taken) l s.1 ∧
    (n_logOffset s.1 = 0 ∨ top ≤ k → machine_exact l s.1) ∧
    (k = 0 ∨ ∃ t P, committed a t P ∧ (t ≤ n_currentTerm s.1 ∧ k ≤ sp_known a t) ∧
       take (Z.to_nat k) l `prefix_of` P).

Lemma site_ok_shows taken top c a : site_ok taken top c a → site_shows taken top a c.
Proof.
  intros Hok i s Hi. pose proof Hok as [Him _ _].
  destruct (im_node _ _ _ Him i s Hi) as (Hh & N2 & _ & [_ N6] & _ & N8).
  pose proof (healthy_at_last _ _ _ Hh) as Hlast.
  pose proof Hh as (Hs & ((El & Hv & _) & Hac) & _ & _ & (Ha & Hb & Hsm) & _). cbv zeta.
  split_and!; try done; try lia.
  - destruct Hv as [?|?]; [by left|]. destruct Hac as [?|?]; [by left|right; lia].
  - intros HL. by apply N8.
  - intros Hor. eapply machine_right; [done|done|]. by rewrite Ha.
Qed.

(** The entry at [x] is the anchor of a compacted log. *)
Definition is_anchor n (x : Z) : Prop := 0 < n_logOffset n ∧ x = n_logOffset n + 1.

(** Two nodes, at the same or at different times, would have the same whole log
    up to the smaller of their commit indices. *)
Lemma whole_logs_agree start start' c a c' a' (i i' : string) s s' :
  implements start c a → implements start' c' a' → grows a a' →
  cl_nodes c !! i = Some s → cl_nodes c' !! i' = Some s' →
  let m := Z.to_nat (Z.min (n_commitIndex s.1) (n_commitIndex s'.1)) in
  take m (sp_log a i) = take m (sp_log a' i') ∧
  (n_role s'.1 = Leader → n_currentTerm s.1 ≤ n_currentTerm s'.1 →
   take (Z.to_nat (n_commitIndex s.1)) (sp_log a i) `prefix_of` sp_log a' i').
Proof.
  intros Him Him' Hgr Hi Hi'. cbv zeta. destruct (im_node _ _ _ Him i s Hi) as (Hh & _ & _ & HC & _).
  pose proof (im_inv _ _ _ Him') as HI'.
  destruct (im_node _ _ _ Him' i' s' Hi') as (Hh' & _ & _ & HC' & _ & HL').
  assert (HC1 : commit_ok a' (n_currentTerm s.1) (sp_log a i) (n_commitIndex s.1)).
  { pose proof HC as [? _]. eapply (commit_ok_grows a); try done. lia. }
  split.
  - destruct HC1 as [Hb1 [E|(t & P & HP & _ & HPl)]]; [by rewrite E, Z.min_l by (destruct HC'; lia)|].
    destruct HC' as [Hb2 [E|(t' & P' & HP' & _ & HPl')]]; [by rewrite E, Z.min_r by lia|].
    pose proof (committed_agree a' t t' P P' HI' HP HP') as Hor. unfold zlen in *.
    destruct (Z.min_spec (n_commitIndex s.1) (n_commitIndex s'.1)) as [[? ->]|[? ->]].
    + eapply (prefixes_agree _ _ P P'); [done..|lia|lia|lia].
    + symmetry. eapply (prefixes_agree _ _ P' P); [done..|tauto|lia|lia|lia].
  - intros HL Ht. destruct (HL' HL) as [[HLd _] _]. by eapply (commit_in_lead a').
Qed.

Lemma shown_entry start l s x e :
  healthy_at start l s → entryAtLocked s.1 x = Some e →
  0 < x ∧ ∃ e0, l !! Z.to_nat (x - 1) = Some e0 ∧ e_Term e0 = e_Term e ∧ (¬ is_anchor s.1 x → e0 = e).
Proof.
  intros (Hs & (Hl & _) & _) He. pose proof Hs as (Hw & _).
  destruct (shows_entry s.1 l x e Hw Hl He) as (Hlt & e0 & He0 & Ht & Hsame).
  destruct Hw as (? & _). split; [lia|]. exists e0. split_and!; try done. intros Hna. apply Hsame.
  unfold is_anchor in Hna. lia.
Qed.

(** Where both still have a committed entry, it is the same. *)
Lemma entries_agree start start' c a c' a' (i i' : string) s s' x e e' :
  implements start c a → implements start' c' a' → grows a a' →
  cl_nodes c !! i = Some s → cl_nodes c' !! i' = Some s' →
  x ≤ n_commitIndex s.1 → x ≤ n_commitIndex s'.1 →
  entryAtLocked s.1 x = Some e → entryAtLocked s'.1 x = Some e' →
  e_Term e = e_Term e' ∧ (¬ is_anchor s.1 x → ¬ is_anchor s'.1 x → e = e').
Proof.
  intros Him Him' Hgr Hi Hi' Hx Hx' He He'.
  destruct (whole_logs_agree _ _ _ _ _ _ _ _ _ _ Him Him' Hgr Hi Hi') as [Hm _]. cbv zeta in Hm.
  destruct (im_node _ _ _ Him i s Hi) as (Hh & _). destruct (im_node _ _ _ Him' i' s' Hi') as (Hh' & _).
  destruct (shown_entry _ _ s x e Hh He) as (Hp & e0 & L0 & T0 & S0).
  destruct (shown_entry _ _ s' x e' Hh' He') as (_ & e1 & L1 & T1 & S1).
  assert (e0 = e1) as ->.
  { apply (f_equal (lookup (Z.to_nat (x - 1)))) in Hm. rewrite !lookup_take_lt in Hm by lia. congruence. }
  split; [congruence|]. intros Ha Ha'. rewrite <- (S0 Ha). by rewrite <- (S1 Ha').
Qed.

(** A later leader has what was committed, or has compacted past it. *)
Lemma leader_keeps start start' c a c' a' (i i' : string) s s' :
  implements start c a → implements start' c' a' → grows a a' →
  cl_nodes c !! i = Some s → cl_nodes c' !! i' = Some s' →
  n_role s'.1 = Leader → n_currentTerm s.1 ≤ n_currentTerm s'.1 →
  n_commitIndex s.1 ≤ lastLogIndexLocked s'.1 ∧
  ∀ x e, x ≤ n_commitIndex s.1 → entryAtLocked s.1 x = Some e → ¬ is_anchor s.1 x →
    entryAtLocked s'.1 x = Some e ∨ x ≤ n_logOffset s'.1 + 1 ≤ n_lastApplied s'.1.
Proof.
  intros Him Him' Hgr Hi Hi' Hrole Ht.
  destruct (whole_logs_agree _ _ _ _ _ _ _ _ _ _ Him Him' Hgr Hi Hi') as [_ HL]. specialize (HL Hrole Ht).
  destruct (im_node _ _ _ Him i s Hi) as (Hh & _). destruct (im_node _ _ _ Him' i' s' Hi') as (Hh' & _).
  pose proof Hh as (_ & _ & _ & _ & (_ & B1 & _) & _).
  pose proof Hh' as (Hs' & (Hl' & Hac') & _ & _ & (A2 & B2 & _) & _). pose proof Hs' as (Hw' & _). split.
  - rewrite (healthy_at_last _ _ _ Hh'). apply prefix_length in HL. rewrite length_take in HL. unfold zlen in *. lia.
  - intros x e Hx He Hna. destruct (shown_entry _ _ s x e Hh He) as (Hp & e0 & L0 & _ & S0).
    rewrite (S0 Hna) in L0. clear S0 e0.
    assert (L1 : sp_log a' i' !! Z.to_nat (x - 1) = Some e).
    { eapply prefix_lookup_Some; [|exact HL]. rewrite lookup_take_lt by lia. done. }
    unfold anchor_committed in Hac'.
    destruct (decide (n_logOffset s'.1 = 0 ∨ n_logOffset s'.1 + 1 < x)) as [Hd|Hd]; [left|right; lia].
    by rewrite (shows_lookup s'.1 (sp_log a' i')).
Qed.

End compacting.
