(* ===== verification/Backup.v ===== *)
(** * The nodes and the Snapshot & Backup service together

    The cluster of RaftCompacting, whose snapshots are now those the catalog of
    SnapshotService serves.  A node answers GetLogStatus and StreamLogRange when
    it likes, and the service uses the answers in a tick, which may get stuck in
    a command, be aborted or publish; leaders may know more or less than those
    before.  At every moment the catalog serves the replica as it is, with the
    boundary of the last cycle that committed: during a cycle, and after one that
    did not commit, the map is newer than the boundary.  The nodes compact with
    whatever was served at some time, and restart from it.  The service may
    restart from its own directory.

    What is asked of a run: disks are healthy, the ranges streamed are committed
    (uncommitted_entry_published shows what happens otherwise), and no node
    catches up from a snapshot beyond its log (catchUp_forgets).  That no node
    has compacted past what the service holds, which SnapshotService has to
    assume of the leaders, is proved here. *)

From Stdlib Require Import Strings.Byte.
From S2P Require Import Prelude Pb Fs Persistence SnapshotFile Storage SnapStorage RaftNode RaftElection.
From S2P Require Import RaftReplication RaftLog RaftCommit KV RaftSnapshot RaftReadIndex SnapshotService RaftVotes.
From S2P Require Import RaftCompaction RaftCluster RaftSafety RaftSpec RaftViews RaftHealthy RaftAnchors.
From S2P Require Import RaftImplements RaftRefine RaftCompacting.
Import SnapshotFile.
Import SnapshotService.

Section backup.
Context `{CC : Codec KVCommand} `{GF : Codec File}.
Context {D : Type} `{Storage D} `{!VoteLaws D} `{LL : !LogLaws D} `{!SnapLaws D}.
Context `{MB : Membership} `{!MembershipOk}.
Implicit Types (n : Node KV) (d : D) (s : Store) (a : Spec) (c : Cluster (SM := KV) (D := D)).

(** ** Steps *)

(** The cluster; the files the catalog has served or could have served so far;
    the service with its disk; the answers it has been sent; and the highest
    index it has applied entries up to. *)
Record System : Type := MkSystem {
  sy_cluster : Cluster (SM := KV) (D := D);
  sy_taken : list File;
  sy_service : Compactor * D;
  sy_statuses : list LogStatusReply;
  sy_streams : list (Z * Z * list LogEntry);
  sy_top : Z
}.

(** What a tick hears comes from the nodes. *)
Definition answered (env : CycleEnv) (statuses : list LogStatusReply)
    (streams : list (Z * Z * list LogEntry)) : Prop :=
  (∀ status, ce_GetLogStatus env = Some status → status ∈ statuses) ∧
  (∀ from to es, ce_StreamLogRange env from to = Some es → (from, to, es) ∈ streams).

(** How far entries have been applied, after a tick. *)
Definition reached (r : result CycleOutcome) (env : CycleEnv) (top : Z) : Z :=
  match r with
  | Ok (CycleApplyFailed | CycleAborted | CycleCommitFailed | CycleUnconfirmed _ | CycleComplete _) =>
      Z.max top (sees env top)
  | _ => top
  end.

(** What the catalog serves while the store is [s]. *)
Definition shown s (taken : list File) : list File :=
  match Store_File s with Some f => f :: taken | None => taken end.

(** What it serves in the course of a tick: the entries applied under the old
    boundary, then the store the tick leaves. *)
Definition shown_by_tick s s' (taken : list File) : list File :=
  shown s' (shown (set_state (s_state s') s) taken).

Inductive sys_step : System → System → Prop :=
| b_nodes c c' taken x sts strs top :
    cstep New taken c c' →
    sys_step (MkSystem c taken x sts strs top) (MkSystem c' taken x sts strs top)
| b_status c taken x sts strs top i ns :
    cl_nodes c !! i = Some ns →
    sys_step (MkSystem c taken x sts strs top) (MkSystem c taken x (GetLogStatus ns.1 :: sts) strs top)
| b_stream c taken x sts strs top i ns from to :
    cl_nodes c !! i = Some ns → to ≤ n_commitIndex ns.1 →
    Forall (λ e, ll_storable (anchored e)) (StreamLogRange ns.1 from to) →
    sys_step (MkSystem c taken x sts strs top)
      (MkSystem c taken x sts ((from, to, StreamLogRange ns.1 from to) :: strs) top)
| b_tick c taken x sts strs top env r x' :
    answered env sts strs → Tick env x = (r, x') →
    sys_step (MkSystem c taken x sts strs top)
      (MkSystem c (shown_by_tick (cp_store x.1) (cp_store x'.1) taken) x' sts strs (reached r env top))
| b_restart c taken cp d sts strs top s' d' :
    NewStore (s_dataDir (cp_store cp)) d = (Ok s', d') →
    sys_step (MkSystem c taken (cp, d) sts strs top)
      (MkSystem c (shown s' taken) (NewCompactor s' (cp_cfg cp), d') sts strs top).

(** Fresh nodes, and a service started on a directory without snapshots. *)
Definition sys_init (Y : System) : Prop :=
  cinit New (sy_cluster Y) ∧ sy_taken Y = [] ∧ sy_statuses Y = [] ∧ sy_streams Y = [] ∧ sy_top Y = 0 ∧
  ∃ dir cfg d es s, ll_quiet d ∧ ll_log dir d es ∧ sl_files dir d [] ∧
    NewStore dir d = (Ok s, (sy_service Y).2) ∧ (sy_service Y).1 = NewCompactor s cfg.

Inductive sys_steps : nat → System → System → Prop :=
| sys_refl Y : sys_steps 0 Y Y
| sys_more k Y Y' Y'' : sys_steps k Y Y' → sys_step Y' Y'' → sys_steps (S k) Y Y''.

Definition sys_reach (k : nat) (Y : System) : Prop := ∃ Y0, sys_init Y0 ∧ sys_steps k Y0 Y.

Lemma sys_steps_app k m Y Y' Y'' : sys_steps k Y Y' → sys_steps m Y' Y'' → sys_steps (m + k) Y Y''.
Proof. intros Hk. induction 1; [done|]. by eapply sys_more; [apply IHsys_steps|]. Qed.

(** ** Applying streamed entries *)

(** The replica is sound ([sound] of RaftCompacting): entries it applies a
    second time, or that go beyond its boundary, do no harm in the end. *)

Lemma replay_entries (A B : list LogEntry) (M : KV) :
  apply_all (A ++ B) (apply_all A M) = apply_all (A ++ B) M.
Proof. rewrite !apply_all_cmds. unfold cmds_of. rewrite omap_app. apply replay_cmds. Qed.

(** Part of what follows the boundary is applied, the boundary stays. *)
Lemma sound_replay a top b M t Q A :
  SInv a → sound New a top b M → commit_ok a t Q (zlen Q) → A `prefix_of` drop (Z.to_nat b) Q →
  sound New a (Z.max top (zlen Q)) b (apply_all A M).
Proof.
  intros HI Hs HQ HA. destruct (sound_covers New a top b M t Q HI Hs HQ) as (t' & R & HR & Hb & Hz & [B ->] & Hap).
  exists t', (Q ++ B). repeat (split; [lia || done|]). rewrite <- Hap, drop_app.
  destruct HA as [C ->]. rewrite <- app_assoc. apply replay_entries.
Qed.

(** All of a committed range is applied, and the boundary moves to its end. *)
Lemma sound_advance a top b M t Q :
  SInv a → sound New a top b M → commit_ok a t Q (zlen Q) → b ≤ zlen Q →
  sound New a (Z.max top (zlen Q)) (zlen Q) (apply_all (drop (Z.to_nat b) Q) M).
Proof.
  intros HI Hs HQ Hle. destruct (sound_covers New a top b M t Q HI Hs HQ) as (t' & R & HR & Hb & Hz & [B ->] & Hap).
  exists t', (Q ++ B). pose proof (zlen_nonneg Q). pose proof (zlen_nonneg B). rewrite zlen_app in *.
  repeat (split; [lia || done|]). rewrite <- Hap.
  replace (Z.to_nat (zlen Q)) with (length Q) by (unfold zlen; lia).
  rewrite drop_app_length, drop_app_le by (unfold zlen in *; lia). by rewrite apply_all_app.
Qed.

(** ** Invariant *)

(** The boundary and the highest index applied are those of committed entries. *)
Definition top_ok a (top : Z) : Prop :=
  ∃ t P, commit_ok a t P (zlen P) ∧ zlen P = top ∧ top < u64_max.

(** The directory of the service: the file of the boundary and nothing else. *)
Definition store_dir (taken : list File) s d : Prop :=
  (ll_quiet d ∧ ∃ es, ll_log (s_dataDir s) d es) ∧
  (s_lastIncludedIndex s = 0 ∧ taken = [] ∧ s_available s = false ∧ s_currentPath s = None ∧
     sl_files (s_dataDir s) d [] ∨
   ∃ f, f ∈ taken ∧ f_LastIncludedIndex f = s_lastIncludedIndex s ∧
     f_LastIncludedTerm f = s_lastIncludedTerm s ∧ s_available s = true ∧
     s_currentPath s = Some (s_dataDir s, FileName (f_LastIncludedIndex f)) ∧
     sl_files (s_dataDir s) d [f]).

(** A streamed range: the end of a committed prefix. *)
Definition stream_ok a (lb : Z) (x : Z * Z * list LogEntry) : Prop :=
  let '(from, to, es) := x in
  lb < from → from ≤ to →
  ∃ t Q, commit_ok a t Q (zlen Q) ∧ zlen Q = to ∧ to < u64_max ∧ consecutive 0 Q ∧ es = range Q from to ∧
    Forall (λ e, ll_storable (anchored e)) es.

Record sys_ok (Y : System) a : Prop := {
  yo_site : site_ok New (sy_taken Y) (sy_top Y) (sy_cluster Y) a;
  yo_top : top_ok a (sy_top Y);
  yo_store : sound New a (sy_top Y) (s_lastIncludedIndex (cp_store (sy_service Y).1))
    (s_state (cp_store (sy_service Y).1));
  yo_dir : store_dir (sy_taken Y) (cp_store (sy_service Y).1) (sy_service Y).2;
  yo_behind : ∀ f, f ∈ sy_taken Y →
    f_LastIncludedIndex f ≤ s_lastIncludedIndex (cp_store (sy_service Y).1);
  yo_statuses : ∀ st, st ∈ sy_statuses Y →
    ls_FirstIndex st ≤ s_lastIncludedIndex (cp_store (sy_service Y).1) + 1;
  yo_streams : ∀ x, x ∈ sy_streams Y → stream_ok a (s_lastIncludedIndex (cp_store (sy_service Y).1)) x
}.

Ltac sys_simpl :=
  cbn [sy_cluster sy_taken sy_service sy_statuses sy_streams sy_top fst snd] in *.

Lemma yo_bounds Y a :
  sys_ok Y a → 0 ≤ s_lastIncludedIndex (cp_store (sy_service Y).1) ≤ sy_top Y ∧ sy_top Y < u64_max.
Proof.
  intros HY. destruct (yo_store _ _ HY) as (t & P & _ & Hb & Hz & _).
  destruct (yo_top _ _ HY) as (t' & P' & _ & _ & ?). lia.
Qed.

Lemma top_ok_grows a a' top : grows a a' → top_ok a top → top_ok a' top.
Proof. intros Hgr (t & P & HC & Hs). exists t, P. split; [|done]. by eapply (commit_ok_grows a a' t t P P). Qed.

Lemma top_ok_max a top t Q :
  top_ok a top → commit_ok a t Q (zlen Q) → zlen Q < u64_max → top_ok a (Z.max top (zlen Q)).
Proof.
  intros Ht HQ Hm. destruct (Z.max_spec top (zlen Q)) as [[_ ->]|[_ ->]]; [|done]. by exists t, Q.
Qed.

Lemma stream_ok_grows a a' lb x : grows a a' → stream_ok a lb x → stream_ok a' lb x.
Proof.
  destruct x as [[from to] es]. intros Hgr Hx Hf Ht. destruct (Hx Hf Ht) as (t & Q & HC & Hs).
  exists t, Q. split; [|done]. by eapply (commit_ok_grows a a' t t Q Q).
Qed.

Lemma stream_ok_mono a lb lb' x : lb ≤ lb' → stream_ok a lb x → stream_ok a lb' x.
Proof. destruct x as [[from to] es]. intros Hle Hx Hf Ht. apply Hx; lia. Qed.

(** No node has compacted past the boundary. *)
Lemma node_behind Y a i ns :
  sys_ok Y a → cl_nodes (sy_cluster Y) !! i = Some ns →
  0 ≤ n_logOffset ns.1 ∧
  (n_logOffset ns.1 = 0 ∨ n_logOffset ns.1 + 1 ≤ s_lastIncludedIndex (cp_store (sy_service Y).1)).
Proof.
  intros HY Hi. destruct (yo_site _ _ HY) as [_ _ Hd].
  destruct (Hd i ns Hi) as [(-> & _)|(f & Hf & Hx & Hp & _)]; [lia|]. pose proof (yo_behind _ _ HY f Hf). lia.
Qed.

Lemma status_first n lb :
  0 ≤ n_logOffset n → n_logOffset n = 0 ∨ n_logOffset n + 1 ≤ lb → 0 ≤ lb < u64_max →
  ls_FirstIndex (GetLogStatus n) ≤ lb + 1.
Proof.
  intros Hoff Hn Hlb. unfold GetLogStatus. cbn [ls_FirstIndex]. destruct (0 <? _); [|lia].
  rewrite wrap64_small; [lia|]. u64.
Qed.

(** What a node streams. *)
Lemma node_streams Y a i ns from to :
  sys_ok Y a → cl_nodes (sy_cluster Y) !! i = Some ns → to ≤ n_commitIndex ns.1 →
  Forall (λ e, ll_storable (anchored e)) (StreamLogRange ns.1 from to) →
  stream_ok a (s_lastIncludedIndex (cp_store (sy_service Y).1)) (from, to, StreamLogRange ns.1 from to).
Proof.
  intros HY Hi Hto Hes Hf Hft. destruct (node_behind _ _ _ _ HY Hi) as [Hoff Hb].
  destruct (yo_bounds _ _ HY) as [Hlb _].
  pose proof (so_impl _ _ _ _ _ (yo_site _ _ HY)) as Him.
  destruct (im_node _ _ _ Him i ns Hi) as (Hh & _ & _ & HC & _). set (l := sp_log a i) in *.
  pose proof (healthy_at_room _ _ _ Hh) as Hroom.
  pose proof Hh as (Hs & (Hsl & _) & _ & _ & (_ & Hcb & _) & _). pose proof Hs as (Hw & _).
  pose proof Hsl as (El & Hv & Hcl). pose proof (view_length _ _ Hv) as Hvl. rewrite <- El in Hvl.
  assert (Hz : zlen (take (Z.to_nat to) l) = to) by (rewrite zlen_take; unfold zlen in *; lia).
  exists (n_currentTerm ns.1), (take (Z.to_nat to) l). split_and!; try done; try lia.
  - rewrite Hz. split; [lia|]. destruct HC as [_ [?|(t0 & P0 & HC & Hle & HP)]]; [lia|right].
    exists t0, P0. split; [done|]. split; [lia|]. rewrite take_take, Nat.min_id. etrans; [|exact HP].
    rewrite <- (Nat.min_l (Z.to_nat to) (Z.to_nat (n_commitIndex ns.1))) by lia.
    rewrite <- take_take. apply prefix_take.
  - by apply consecutive_take.
  - destruct (StreamLogRange_exact ns.1 from to Hw ltac:(lia) ltac:(lia)) as [-> _].
    rewrite (shows_segment ns.1 l) by (done || lia). unfold range. rewrite skipn_firstn_comm, take_take.
    f_equal. lia.
Qed.


(** ** The service's steps *)

(** Every snapshot can be encoded. *)
Hypothesis files : ∀ f : File, ll_file f.

Lemma restore_snapshot (kv : KV) : Restore (Snapshot kv) New = kv.
Proof. unfold Restore, Snapshot. rewrite !copy_map_id. by destruct kv. Qed.

(** What the catalog serves is fit for compaction. *)
Lemma shown_ok a top taken s d f :
  (∀ g, g ∈ taken → file_ok New a top g) → store_dir taken s d →
  sound New a top (s_lastIncludedIndex s) (s_state s) → f ∈ shown s taken →
  file_ok New a top f ∧ (f ∈ taken ∨ f_LastIncludedIndex f = s_lastIncludedIndex s).
Proof.
  intros Hok [_ Hd] Hs. unfold shown, Store_File. destruct Hd as [(_ & _ & -> & _)|(g & Hg & Ei & Et & -> & _)]; simpl.
  { intros Hf. by auto. }
  intros [->|Hf]%elem_of_cons; [|by auto]. split; [|by right]. destruct (Hok g Hg) as (F1 & _ & _ & F4).
  unfold anchor_of in F4. rewrite Ei, Et in F1, F4.
  split_and!; [exact F1|by cbn [f_State f_LastIncludedIndex sm_Restore KV_StateMachine]; rewrite restore_snapshot|apply files|exact F4].
Qed.

Lemma shown_dir taken s d : store_dir taken s d → store_dir (shown s taken) s d.
Proof.
  intros Hd. pose proof Hd as [Hq Hc]. unfold shown, Store_File.
  destruct Hc as [(? & ? & Ha & ?)|(g & Hg & Ei & Et & Ha & ?)]; rewrite Ha; [done|].
  split; [done|right]. exists g. split; [by right|done].
Qed.

Lemma shown_sub s taken : taken ⊆ shown s taken.
Proof. unfold shown. destruct (Store_File s); set_solver. Qed.

(** The replica changes under its boundary, and the catalog serves it. *)
Lemma store_moves c taken x sts strs top top' a cp' d' :
  sys_ok (MkSystem c taken x sts strs top) a →
  s_lastIncludedIndex (cp_store cp') = s_lastIncludedIndex (cp_store x.1) → store_dir taken (cp_store cp') d' →
  sound New a top' (s_lastIncludedIndex (cp_store cp')) (s_state (cp_store cp')) → top_ok a top' → top ≤ top' →
  sys_ok (MkSystem c (shown (cp_store cp') taken) (cp', d') sts strs top') a.
Proof.
  intros [Hsite Ht Hso Hsd Hbe Hss Hsr] Hlb Hd Hs Ht' Hle. simpl in *. rewrite <- Hlb in *.
  assert (Hok : ∀ f, f ∈ taken → file_ok New a top' f).
  { intros f Hf. eapply file_ok_mono; [exact Hle|by apply (so_files _ _ _ _ _ Hsite)]. }
  split; simpl; try done.
  - eapply site_ok_more; [done|apply shown_sub|done|]. intros f Hf. by eapply shown_ok.
  - by apply shown_dir.
  - intros f Hf. destruct (shown_ok a top' taken _ d' f Hok Hd Hs Hf) as [_ [Hf'| ->]]; [by apply Hbe|lia].
Qed.

(** Publishing on a healthy disk: the new file takes the place of the old. *)
Lemma commit_dir taken s d i t :
  store_dir taken s d → 0 ≤ s_lastIncludedIndex s < i → is_u64 i →
  let f := MkFile (Snapshot (s_state s)) i t in
  ∃ s' d', Store_Commit i t (s, d) = (Ok f, (s', d')) ∧ store_dir (f :: taken) s' d'.
Proof.
  intros [(Hq & es & Hl) Hd] Hi Hu f. set (dir := s_dataDir s) in *.
  destruct (ll_write dir f es d Hq Hl (files f)) as (d1 & E1 & Hq1 & Hl1).
  unfold Store_Commit. fold f dir. rewrite E1.
  eexists _, _. split; [done|]. unfold store_dir.
  cbn [s_dataDir s_lastIncludedIndex s_lastIncludedTerm s_available s_currentPath].
  destruct Hd as [(_ & _ & _ & -> & Hs)|(g & _ & Hg & _ & _ & -> & Hs)];
    pose proof (sl_write dir _ f d d1 _ Hq (files f) Hu Hs E1) as Hs1.
  - split; [by eauto|right]. exists f. split_and!; [by left|done..].
  - rewrite decide_False.
    2:{ intros E%(f_equal snd). apply (f_equal sscanf_snapshot) in E. cbn [snd] in E.
        rewrite !sscanf_name in E by (cbn [f_LastIncludedIndex f] || rewrite ?Hg; u64). injection E as E.
        simpl in E. lia. }
    destruct (ll_remove dir (f_LastIncludedIndex g) es d1 Hq1 Hl1) as (d2 & E2 & Hq2 & Hl2).
    rewrite drop_index_one in Hs1 by (simpl; lia).
    pose proof (sl_remove dir _ (f_LastIncludedIndex g) d1 Hq1 ltac:(rewrite Hg; u64) Hs1) as Hs2.
    rewrite E2 in Hs2 |- *. cbn [snd] in Hs2 |- *. split; [by eauto|right]. exists f.
    split_and!; [by left|done|done|done|done|]. unfold drop_index in Hs2.
    rewrite filter_cons_True in Hs2 by (simpl; lia). rewrite filter_cons_False in Hs2 by (intros ?; done). done.
Qed.

(** The boundary moves to a committed entry whose snapshot the replica is. *)
Lemma store_commits c taken cp d sts strs top a i t res s' d' cp' :
  let s := cp_store cp in
  sys_ok (MkSystem c taken (cp, d) sts strs top) a → s_lastIncludedIndex s < i ≤ top →
  committed_at a i t → ll_storable (anchored (MkLogEntry t i [])) → sound New a top i (s_state s) →
  Store_Commit i t (s, d) = (res, (s', d')) → cp_store cp' = s' →
  is_ok res ∧ sys_ok (MkSystem c (shown s' taken) (cp', d') sts strs top) a.
Proof.
  intros s HY Hi Hc Hst Hs. pose proof (yo_bounds _ _ HY) as Hb. cbn [sy_service fst cp_store sy_top] in Hb.
  pose proof HY as [Hsite Ht Hso Hsd Hbe Hss Hsr]. sys_simpl. fold s in Hsd, Hbe, Hss, Hsr, Hb.
  destruct (commit_dir taken s d i t Hsd ltac:(lia) ltac:(u64)) as (s2 & d2 & E2 & Hd2).
  rewrite E2. intros [= <- <- <-] E. split; [done|].
  apply Store_Commit_cases in E2 as (_ & HF & HS & HI2). set (f := MkFile (Snapshot (s_state s)) i t) in *.
  assert (HF' : Store_File s2 = Some f) by (rewrite HF; unfold f, Snapshot; by rewrite copy_map_id).
  assert (Hshow : shown s2 taken = f :: taken) by (unfold shown; by rewrite HF').
  rewrite Hshow. clear Hshow HF. split; simpl; rewrite ?E, ?HI2, ?HS; try done.
  - eapply site_ok_more; [done|set_solver|done|]. intros g [->|Hg]%elem_of_cons; [|by apply (so_files _ _ _ _ _ Hsite)].
    split_and!; [exact Hc| |apply files|exact Hst].
    cbn [f f_State f_LastIncludedIndex sm_Restore KV_StateMachine]. by rewrite restore_snapshot.
  - intros g [->|Hg]%elem_of_cons; [simpl; lia|]. pose proof (Hbe g Hg). lia.
  - intros st Hst'. pose proof (Hss st Hst'). lia.
  - intros y Hy. eapply stream_ok_mono; [|by apply Hsr]. lia.
Qed.

(** What a cycle is sent. *)
Lemma streamed a s to e es :
  stream_ok a (s_lastIncludedIndex s) (s_lastIncludedIndex s + 1, to, e :: es) →
  0 ≤ s_lastIncludedIndex s → s_lastIncludedIndex s + 1 ≤ to →
  let le := List.last (e :: es) e in
  ∃ t Q, commit_ok a t Q (zlen Q) ∧ zlen Q = to ∧ to < u64_max ∧
    e :: es = drop (Z.to_nat (s_lastIncludedIndex s)) Q ∧
    e_Index le = to ∧ committed_at a to (e_Term le) ∧ ll_storable (anchored le).
Proof.
  intros Hstr Hlb Hle le. destruct (Hstr ltac:(lia) Hle) as (t & Q & HQ & Hz & Hmax & Hcons & Hes & Hall).
  pose proof (last_range Q (s_lastIncludedIndex s + 1) to e es ltac:(lia) ltac:(lia) (eq_sym Hes)) as Hlast.
  fold le in Hlast. exists t, Q. split_and!; try done.
  - rewrite Hes. unfold range. rewrite firstn_all2; [f_equal; lia|]. rewrite length_drop. unfold zlen in *. lia.
  - rewrite (Hcons _ _ Hlast). lia.
  - split; [lia|]. exists t, Q, le. split_and!; try done. rewrite last_lookup, <- Hlast. f_equal. unfold zlen in *. lia.
  - pose proof (last_list_last e e es) as Hl. fold le in Hl. apply last_Some_elem_of in Hl.
    rewrite Forall_forall in Hall. by apply Hall.
Qed.

Lemma set_state_id s : set_state (s_state s) s = s.
Proof. by destruct s. Qed.

(** A tick that does not commit. *)
Lemma tick_stays c taken cp d sts strs top top' a kv cp' :
  let s := cp_store cp in
  sys_ok (MkSystem c taken (cp, d) sts strs top) a → cp_store cp' = set_state kv s →
  sound New a top' (s_lastIncludedIndex s) kv → top_ok a top' → top ≤ top' →
  sys_ok (MkSystem c (shown_by_tick s (cp_store cp') taken) (cp', d) sts strs top') a.
Proof.
  intros s HY E Hs Ht Hle. unfold shown_by_tick.
  assert (HY1 : sys_ok (MkSystem c (shown (cp_store cp') taken) (cp', d) sts strs top') a).
  { eapply store_moves; try done; rewrite E; [done|exact (yo_dir _ _ HY)|done]. }
  replace (set_state (s_state (cp_store cp')) s) with (cp_store cp') by (by rewrite E).
  eapply store_moves; [exact HY1|done|exact (yo_dir _ _ HY1)|exact (yo_store _ _ HY1)|done|done].
Qed.

Lemma tick_system c taken cp d sts strs top env r cp' d' a :
  sys_ok (MkSystem c taken (cp, d) sts strs top) a → answered env sts strs →
  Tick env (cp, d) = (r, (cp', d')) →
  sys_ok (MkSystem c (shown_by_tick (cp_store cp) (cp_store cp') taken) (cp', d') sts strs
    (reached r env top)) a.
Proof.
  intros HY [Hans1 Hans2] HE. pose proof HY as [Hsite Ht Hso Hsd Hbe Hss Hsr]. simpl in *.
  pose proof (yo_bounds _ _ HY) as Hb. cbn [sy_service fst sy_top] in Hb. set (s := cp_store cp) in *.
  assert (Hsame : ∀ cp1, cp_store cp1 = s →
    sys_ok (MkSystem c (shown_by_tick s (cp_store cp1) taken) (cp1, d) sts strs top) a).
  { intros cp1 E. eapply (tick_stays c taken cp d sts strs top top a (s_state s)); try done.
    by rewrite set_state_id. }
  apply Tick_cycle in HE as [(-> & -> & ->)|(leader & status & s' & Est & _ & ER & ->)]; [by apply Hsame|].
  apply cycle_effect in ER as [(-> & -> & [-> | ->])|(e & es & Hle & Es & HE)];
    [by apply Hsame|by apply Hsame| |fold s; u64|by apply Hss, Hans1].
  assert (Hsees : sees env top = ls_LastIndex status) by (unfold sees; by rewrite Est).
  fold s in Hle, Es, HE. set (to := ls_LastIndex status) in *. set (lb := s_lastIncludedIndex s) in *.
  destruct (streamed a s to e es (Hsr _ (Hans2 _ _ _ Es)) ltac:(lia) Hle)
    as (t & Q & HQ & Hz & Hmax & Hes & Hidx & Hcom & Hstor). fold lb in Hes.
  pose proof (im_inv _ _ _ (so_impl _ _ _ _ _ Hsite)) as HI.
  cbv zeta in HE. set (le := List.last (e :: es) e) in *. rewrite Hidx in HE.
  assert (Htop : top_ok a (Z.max top to)) by (rewrite <- Hz in *; by eapply top_ok_max).
  assert (Hpart : ∀ A, A `prefix_of` e :: es → sound New a (Z.max top to) lb (apply_all A (s_state s))).
  { intros A HA. rewrite <- Hz. eapply sound_replay; try done. by rewrite <- Hes. }
  destruct HE as [(_ & -> & -> & j & ->)|[(-> & -> & ->)|(res & HC & Hr)]].
  - unfold reached. rewrite Hsees. eapply tick_stays; try done; [|lia]. apply Hpart, prefix_take.
  - unfold reached. rewrite Hsees. eapply tick_stays; try done; [|lia]. by apply Hpart.
  - set (s1 := set_state (apply_all (e :: es) (s_state s)) s) in *.
    pose (cp1 := MkCompactor (cp_cfg cp) s1 false).
    assert (HY1 : sys_ok (MkSystem c (shown s1 taken) (cp1, d) sts strs (Z.max top to)) a).
    { apply (store_moves c taken (cp, d) sts strs top (Z.max top to) a cp1 d); try done; [by apply Hpart|lia]. }
    destruct (store_commits c (shown s1 taken) cp1 d sts strs (Z.max top to) a to (e_Term le) res s' d'
      (MkCompactor (cp_cfg cp) s' false) HY1) as [Hok HY2]; try done; [cbn [cp1 s1 cp_store set_state s_lastIncludedIndex]; lia|unfold anchored in *; by rewrite Hidx in Hstor| |].
    { cbn [cp1 cp_store s1 set_state s_state]. rewrite Hes, <- Hz. eapply sound_advance; try done. lia. }
    apply Store_Commit_cases in HC. destruct res as [f|]; [|done]. destruct HC as (_ & _ & HS & _).
    assert (Hre : reached r env top = Z.max top to) by (unfold reached; destruct Hr as [-> | ->]; by rewrite Hsees).
    rewrite Hre. unfold shown_by_tick. cbn [cp_store]. by rewrite HS.
Qed.

(** The service restarted: its replica is that of its last file. *)
Lemma restart_system c taken cp d sts strs top s' d' a :
  sys_ok (MkSystem c taken (cp, d) sts strs top) a → NewStore (s_dataDir (cp_store cp)) d = (Ok s', d') →
  sys_ok (MkSystem c (shown s' taken) (NewCompactor s' (cp_cfg cp), d') sts strs top) a.
Proof.
  intros HY HN. pose proof (yo_bounds _ _ HY) as Hb.
  pose proof HY as [Hsite Ht Hso [(Hq & es & Hl) Hd] Hbe Hss Hsr]. sys_simpl. set (s := cp_store cp) in *.
  unfold NewStore in HN. destruct Hd as [(Hz & Htk & _ & _ & Hs)|(f & Hf & Ei & Et & _ & _ & Hs)].
  - erewrite bind_Ok in HN by (by apply sl_latest_none). injection HN as <- <-.
    apply (store_moves c taken (cp, d) sts strs top top a (NewCompactor _ (cp_cfg cp)) d);
      cbn [NewCompactor cp_store s_lastIncludedIndex s_state fst]; try done.
    + split; [by eauto|by left].
    + exists 0, []. split; [split; [by unfold zlen|by left]|]. split; [by unfold zlen|].
      split; [unfold zlen; simpl; lia|done].
  - erewrite bind_Ok in HN by (by apply sl_latest). injection HN as <- <-.
    destruct (so_files _ _ _ _ _ Hsite f Hf) as (_ & Hsd & _).
    apply (store_moves c taken (cp, d) sts strs top top a (NewCompactor _ (cp_cfg cp)) d);
      cbn [NewCompactor cp_store s_lastIncludedIndex s_state fst]; try done.
    split; [by eauto|right]. by exists f.
Qed.

(** ** Every run *)

Lemma sys_step_cluster Y Y' :
  sys_step Y Y' → cstep New (sy_taken Y) (sy_cluster Y) (sy_cluster Y') ∨ sy_cluster Y' = sy_cluster Y.
Proof. destruct 1; simpl; by auto. Qed.

Lemma sys_step_Inv b Y Y' :
  b + 1 ≤ u64_max → Inv b (sy_cluster Y) → sys_step Y Y' → Inv (b + 1) (sy_cluster Y').
Proof.
  intros Hb HI [Hs| ->]%sys_step_cluster; [by eapply (cstep_Inv New)|]. eapply Inv_mono; [|done]. lia.
Qed.

Lemma init_system Y : sys_init Y → sys_ok Y spec0 ∧ Inv 0 (sy_cluster Y).
Proof.
  destruct Y as [c taken [cp d'] sts strs top].
  intros (Hc & E1 & E2 & E3 & E4 & dir & cfg & d & es & s & Hq & Hl & Hs & HN & E5).
  sys_simpl. subst. unfold NewStore in HN. erewrite bind_Ok in HN by (by apply sl_latest_none). injection HN as <- <-.
  assert (Hnil : commit_ok spec0 0 [] (zlen [])) by (split; [by unfold zlen|by left]).
  split; [split; simpl|by apply init_Inv, Hc].
  - by apply init_site.
  - by exists 0, [].
  - exists 0, []. by split_and!.
  - split; [by eauto|left]. by split_and!.
  - by intros f Hf%elem_of_nil.
  - by intros st Hst%elem_of_nil.
  - by intros x Hx%elem_of_nil.
Qed.

Lemma sys_step_matched b Y Y' a :
  b + 1 ≤ u64_max → Inv b (sy_cluster Y) → sys_ok Y a → sys_step Y Y' →
  ∃ a', spec_steps a a' ∧ sys_ok Y' a'.
Proof.
  intros Hb HI HY Hs. pose proof HY as [Hsite Ht Hso Hsd Hbe Hss Hsr].
  destruct Hs as [c c' taken x sts strs top Hs|c taken x sts strs top i ns Hi|c taken x sts strs top i ns from to Hi Hto Hes
    |c taken [cp d] sts strs top env r [cp' d'] Hans HE|c taken cp d sts strs top s' d' HN]; sys_simpl.
  - destruct (cstep_matched New b taken top c a c' Hb HI Hsite Hs) as (a' & Hst & Hsite').
    assert (Hgr : grows a a') by (eapply steps_SInv; [done|apply Hsite]). exists a'. split; [done|].
    split; sys_simpl; try done; [by eapply top_ok_grows|by eapply sound_grows|].
    intros y Hy. eapply stream_ok_grows; [done|by apply Hsr].
  - exists a. split; [apply spec_refl|]. split; sys_simpl; try done.
    intros st [->|Hst]%elem_of_cons; [|by apply Hss]. destruct (node_behind _ _ _ _ HY Hi) as [Hoff Hn].
    pose proof (yo_bounds _ _ HY). sys_simpl. apply status_first; [done|done|lia].
  - exists a. split; [apply spec_refl|]. split; sys_simpl; try done.
    intros y [->|Hy]%elem_of_cons; [|by apply Hsr]. by eapply (node_streams _ a i ns from to HY).
  - exists a. split; [apply spec_refl|]. by eapply tick_system.
  - exists a. split; [apply spec_refl|]. by eapply restart_system.
Qed.

Lemma sys_steps_matched k Y Y' b a :
  sys_steps k Y Y' → b + Z.of_nat k ≤ u64_max → Inv b (sy_cluster Y) → sys_ok Y a →
  Inv (b + Z.of_nat k) (sy_cluster Y') ∧ ∃ a', spec_steps a a' ∧ sys_ok Y' a'.
Proof.
  induction 1 as [Y|k Y Y' Y'' _ IH Hs]; intros Hk HI HY.
  - rewrite Z.add_0_r. split; [done|]. exists a. split; [apply spec_refl|done].
  - destruct (IH ltac:(lia) HI HY) as (HI' & a' & Ha' & HY').
    replace (b + Z.of_nat (S k)) with (b + Z.of_nat k + 1) by lia. split; [eapply sys_step_Inv; [lia|done|done]|].
    destruct (sys_step_matched (b + Z.of_nat k) Y' Y'' a' ltac:(lia) HI' HY' Hs) as (a'' & Ha'' & HY'').
    exists a''. split; [by eapply spec_steps_trans|done].
Qed.

Lemma sys_reach_matched k Y :
  sys_reach k Y → Z.of_nat k ≤ u64_max →
  Inv (Z.of_nat k) (sy_cluster Y) ∧ ∃ a, spec_steps spec0 a ∧ sys_ok Y a.
Proof.
  intros (Y0 & [HY HI]%init_system & Hs) Hk. exact (sys_steps_matched k Y0 Y 0 spec0 Hs ltac:(lia) HI HY).
Qed.




(** The node has compacted nothing, or has applied all the service ever had. *)
Definition settled (Y : System) n : Prop := n_logOffset n = 0 ∨ sy_top Y ≤ n_lastApplied n.

(** C4.  Compaction keeps what is committed, in the runs of
    [backed_up_cluster_refines_spec]: healthy disks, only committed ranges
    streamed to the service, no catch-up.  Take two nodes, at the same or at
    different times.  If they have applied as many entries and each has compacted
    nothing or has applied all the service ever had, their state machines are
    equal.  A committed entry that both still have is the same at both, up to
    the command that an anchor has lost.  And a node that leads a term not
    earlier still has every entry that was committed before, or has applied it
    and compacted past it. *)
Theorem compaction_keeps_committed k m Y Y' (i i' : string) ns ns' :
  sys_reach k Y → sys_steps m Y Y' → Z.of_nat k + Z.of_nat m ≤ u64_max →
  cl_nodes (sy_cluster Y) !! i = Some ns → cl_nodes (sy_cluster Y') !! i' = Some ns' →
  (n_lastApplied ns.1 = n_lastApplied ns'.1 → settled Y ns.1 → settled Y' ns'.1 →
   n_stateMachine ns.1 = n_stateMachine ns'.1) ∧
  (∀ x e e', x ≤ n_commitIndex ns.1 → x ≤ n_commitIndex ns'.1 →
     entryAtLocked ns.1 x = Some e → entryAtLocked ns'.1 x = Some e' →
     e_Term e = e_Term e' ∧ (¬ is_anchor ns.1 x → ¬ is_anchor ns'.1 x → e = e')) ∧
  (n_role ns'.1 = Leader → n_currentTerm ns.1 ≤ n_currentTerm ns'.1 →
   n_commitIndex ns.1 ≤ lastLogIndexLocked ns'.1 ∧
   ∀ x e, x ≤ n_commitIndex ns.1 → entryAtLocked ns.1 x = Some e → ¬ is_anchor ns.1 x →
     entryAtLocked ns'.1 x = Some e ∨ x ≤ n_logOffset ns'.1 + 1 ≤ n_lastApplied ns'.1).
Proof.
  intros Hr Hs Hk Hi Hi'. destruct (sys_reach_matched k Y Hr ltac:(lia)) as (HI & a & _ & HY).
  destruct (sys_steps_matched m Y Y' _ a Hs Hk HI HY) as (_ & a' & Ha & HY').
  pose proof (yo_site _ _ HY) as Hsite. pose proof (yo_site _ _ HY') as Hsite'.
  pose proof (so_impl _ _ _ _ _ Hsite) as Him. pose proof (so_impl _ _ _ _ _ Hsite') as Him'.
  assert (Hgr : grows a a') by (eapply steps_SInv; [done|apply Him]). split_and!.
  - intros Hla Hse Hse'. rewrite (machine_right New _ _ _ a i ns Hsite Hi Hse).
    rewrite (machine_right New _ _ _ a' i' ns' Hsite' Hi' Hse').
    destruct (whole_logs_agree _ _ _ _ _ _ _ _ _ _ Him Him' Hgr Hi Hi') as [Hm _].
    destruct (im_node _ _ _ Him i ns Hi) as (Hh & _). destruct (im_node _ _ _ Him' i' ns' Hi') as (Hh' & _).
    destruct Hh as (_ & _ & _ & _ & (A1 & _) & _). destruct Hh' as (_ & _ & _ & _ & (A2 & _) & _).
    assert (Ec : n_commitIndex ns.1 = n_commitIndex ns'.1) by lia.
    cbv zeta in Hm. rewrite Ec, Z.min_id in Hm. by rewrite Ec, Hm.
  - intros x e e'. by eapply (entries_agree _ _ _ _ _ _ _ _ _ _ x e e' Him Him' Hgr).
  - by eapply (leader_keeps _ _ _ _ _ _ _ _ _ _ Him Him' Hgr).
Qed.

End backup.
