(* ===== verification/RaftReads.v ===== *)
(** * Reads are linearizable

    Read-Index (readindex.go) on top of the simulation of RaftRefine: when the
    leader that grants a read index has committed an entry of its own term,
    the index covers everything any node had committed when the request came
    in, and a node that has applied up to it answers from a state at least
    that new.  The condition is needed: [new_leader_stale_read_index] of
    Findings is what happens without it. *)

From Stdlib Require Import Strings.Byte.
From S2P Require Import Prelude Pb Fs Persistence SnapshotFile Storage RaftNode RaftElection.
From S2P Require Import RaftReplication RaftLog RaftCommit RaftReadIndex RaftVotes RaftCompaction.
From S2P Require Import RaftCluster RaftSafety RaftSpec RaftHealthy RaftImplements RaftRefine.
Import SnapshotFile.

Section reads.
Context {SM : Type} `{StateMachine SM} {D : Type} `{Storage D} `{!VoteLaws D} `{!LogLaws D}.
Context `{GF : Codec File} `{MB : Membership} `{!MembershipOk}.
Variable sm0 : SM.
Implicit Types (n : Node SM) (d : D) (s : Node SM * D) (c : Cluster (SM := SM) (D := D)) (a : Spec).

(** The leader's last committed entry is of its own term. *)
Definition own_term_committed n : Prop :=
  ∃ e, n_log n !! Z.to_nat (n_commitIndex n - 1) = Some e ∧ e_Term e = n_currentTerm n ∧
    0 < n_commitIndex n.

(** In the [k] steps from [c] to [c'], peer [p] handled an AppendEntries of
    leader [i] and term [t] and answered [rep]. *)
Definition answered (i : string) (t : Z) (k : nat) c c' (p : string) (rep : AppendEntriesReply) : Prop :=
  ∃ k1 k2 c1 o env s1 s2,
    (k1 + S k2 = k)%nat ∧ hsteps sm0 k1 c c1 ∧ MAppReq i p t o ∈ cl_net c1 ∧
    cl_nodes c1 !! p = Some s1 ∧ AppendEntries env (o_req o) s1 = (Ok rep, s2) ∧
    hsteps sm0 k2 (add_net [MAppRep p i t o rep] (upd_node p s2 c1)) c'.

(** Whoever answered in term [t] was in no later term before. *)
Lemma answered_term i t j k c c' p rep a :
  hreach sm0 j c → Z.of_nat (j + k) ≤ u64_max → refines sm0 c a →
  answered i t k c c' p rep → sp_term a p ≤ aer_Term rep.
Proof.
  intros Hr Hk Hrf (k1 & k2 & c1 & o & env & s1 & s2 & Ek & Hs1 & Hm & Hp & HE & Hs2).
  set (c2 := add_net _ _) in *.
  assert (Hs : hsteps sm0 (S k1) c c2).
  { eapply hsteps_step; [done|]. by apply h_run, (r_app_req c1 i p t o env s1 (Ok rep) s2). }
  destruct (hsteps_matched sm0 j (S k1) c c2 a Hr Hs ltac:(lia) Hrf) as (a2 & Ha & Hrf2).
  destruct (steps_SInv a a2 Ha (rf_inv _ _ _ Hrf)) as [_ Hgr].
  destruct (rf_node _ _ _ Hrf2 p s2) as (_ & E & _); [apply lookup_insert_eq|].
  rewrite (AppendEntries_reply_term _ _ _ _ _ HE), <- E. apply (gr_term _ _ Hgr).
Qed.

(** A leader with a committed entry of its own term, and a majority in no
    later term: nobody has committed more. *)
Lemma commit_covered c a i s Q t l k :
  refines sm0 c a → cl_nodes c !! i = Some s → n_role s.1 = Leader → own_term_committed s.1 →
  quorum Q → (∀ p, p ∈ Q → sp_term a p ≤ n_currentTerm s.1) →
  commit_ok a t l k → k ≤ n_commitIndex s.1.
Proof.
  intros Hrf Hi HL (e & He & Het & Hpos) HQ Hle [Hb [->|(t0 & P & HC & [_ Hkn] & HP)]]; [lia|].
  pose proof (rf_inv _ _ _ Hrf) as HI.
  destruct (rf_node _ _ _ Hrf i s Hi) as (_ & _ & _ & _ & _ & _ & _ & N8). destruct (N8 HL) as [[HLd HK] _].
  destruct (Z.lt_trichotomy t0 (n_currentTerm s.1)) as [Hlt|[->|Hgt]]; [|lia|].
  - pose proof (leader_complete a t0 P _ _ HI HC HLd Hlt) as HPL.
    pose proof (prefix_length _ _ HP) as Hlen. rewrite length_take in Hlen. unfold zlen in *.
    destruct (decide (k ≤ n_commitIndex s.1)) as [|Hn]; [done|exfalso].
    destruct HC as ((x & Hx & Hxt) & _). rewrite last_lookup in Hx.
    pose proof (prefix_lookup_Some _ _ _ _ Hx HPL) as Hx'.
    assert (Hg : good a (n_log s.1)) by (apply (si_lead a HI _ _ HLd)).
    pose proof (good_sorted a _ _ _ _ _ HI Hg He Hx' ltac:(lia)). lia.
  - destruct HC as (_ & (L & HL0 & _) & _). destruct (lo_votes _ _ _ (si_lead a HI _ _ HL0)) as (Qv & HQv & Hv).
    destruct (quorums_meet _ _ HQ HQv) as (v & Hv1 & Hv2). destruct (Hv v Hv2) as (lv & Hr & _).
    destruct (si_vrecs a HI _ _ _ Hr) as (? & _). specialize (Hle v Hv1). lia.
Qed.

(** A granted read index comes with a majority, leader included, that was in
    no later term when the request came in. *)
Lemma granted_quorum j k c c' i s others events rr s' a :
  hreach sm0 j c → Z.of_nat (j + k) ≤ u64_max → refines sm0 c a → cl_nodes c !! i = Some s →
  RequestReadIndex others events s = (Ok rr, s') → rir_Ok rr = true →
  n_peers (others s).2.1 = n_peers s.1 →
  (∀ p rep, RoundReply p (Some rep) ∈ events → answered i (n_currentTerm s.1) k c c' p rep) →
  n_role s.1 = Leader ∧ rir_ReadIndex rr = n_commitIndex s.1 ∧
  ∃ Q, quorum Q ∧ ∀ p, p ∈ Q → sp_term a p ≤ n_currentTerm s.1.
Proof.
  intros Hr Hk Hrf Hi HR Hok Hpe Hans.
  pose proof (reach_Inv _ _ (hreach_reach _ _ _ Hr) ltac:(lia)) as HI.
  destruct (node_facts _ _ _ _ HI Hi) as (Him & _ & HP & _). destruct (peers_facts _ _ HP) as (Hlen & Hnd & Hni).
  destruct (read_index_quorum others events s rr s' HR Hok) as (HL & Hrr & _ & _ & Q & HQ & Hsub & Hq & Hack).
  { by rewrite Hpe. }
  rewrite Hpe in *. split; [done|]. split; [done|]. exists (i :: Q). split.
  - split_and!; [apply NoDup_cons; split; [by intros ?%Hsub|done]| |rewrite zlen_cons, <- Hlen; lia].
    intros x. rewrite <- HP. intros [->|?]%elem_of_cons; [by left|right; auto].
  - intros p [->|Hp]%elem_of_cons.
    + destruct (rf_node _ _ _ Hrf i s Hi) as (_ & -> & _). done.
    + destruct (Hack p Hp) as (rep & Hin & _ & <-). by eapply answered_term, Hans.
Qed.

(** C9.  Linearizable reads, in runs on healthy disks without snapshots.  A leader that has committed an entry of its own
    term grants a read index only after a round of AppendEntries answered by a
    majority; if the answers were given after the request came in, the index
    covers everything any node had committed then, and the state machine of a
    node that has applied up to it is the state of any node at that time with
    further entries applied: the read misses no acknowledged write. *)
Theorem linearizable_read j k c c' (i : string) s others events rr s' (f : string) sf (v : string) sv :
  hreach sm0 j c → hsteps sm0 k c c' → Z.of_nat (j + k) ≤ u64_max →
  cl_nodes c !! i = Some s → own_term_committed s.1 →
  RequestReadIndex others events s = (Ok rr, s') → rir_Ok rr = true →
  n_peers (others s).2.1 = n_peers s.1 →
  (∀ p rep, RoundReply p (Some rep) ∈ events → answered i (n_currentTerm s.1) k c c' p rep) →
  cl_nodes c' !! f = Some sf → rir_ReadIndex rr ≤ n_lastApplied sf.1 →
  cl_nodes c !! v = Some sv →
  n_commitIndex sv.1 ≤ rir_ReadIndex rr ∧
  ∃ later, n_stateMachine sf.1 = apply_all later (n_stateMachine sv.1) ∧
    take (Z.to_nat (n_lastApplied sf.1)) (n_log sf.1) =
    take (Z.to_nat (n_commitIndex sv.1)) (n_log sv.1) ++ later.
Proof.
  intros Hr Hs Hk Hi Hown HR Hok Hpe Hans Hf Happ Hv.
  destruct (hreach_matched sm0 j c Hr ltac:(lia)) as (a & _ & Hrf).
  destruct (granted_quorum j k c c' i s others events rr s' a) as (HL & Hrr & Q & HQ & Hle); try done.
  destruct (rf_node _ _ _ Hrf v sv Hv) as (_ & _ & _ & _ & _ & HC & _).
  pose proof (commit_covered c a i s Q _ _ _ Hrf Hi HL Hown HQ Hle HC) as Hcov. rewrite <- Hrr in Hcov.
  split; [done|]. pose proof HC as [Hb _].
  destruct (logs_agree sm0 j k c c' v f sv sf Hr Hs Hk Hv Hf) as (Hh & Hhf & Hlog). cbv zeta in Hlog.
  destruct Hh as (_ & _ & _ & _ & (A1 & _ & A2) & _). destruct Hhf as (_ & _ & _ & _ & (B1 & _ & B2) & _).
  rewrite Z.min_l in Hlog by lia. set (x := Z.to_nat (n_commitIndex sv.1)) in *.
  exists (drop x (take (Z.to_nat (n_commitIndex sf.1)) (n_log sf.1))).
  assert (Hsplit : take (Z.to_nat (n_commitIndex sf.1)) (n_log sf.1) =
    take x (n_log sv.1) ++ drop x (take (Z.to_nat (n_commitIndex sf.1)) (n_log sf.1))).
  { rewrite <- (take_drop x) at 1. f_equal. rewrite take_take, Hlog. f_equal. lia. }
  split; [|by rewrite B1]. by rewrite B2, Hsplit, apply_all_app, A2, <- Hsplit.
Qed.

End reads.
