(* ===== verification/RaftStays.v ===== *)
(** * Walking through a node operation

    [stays R m]: whatever [m] does, returned or failed, it takes the node to an
    [R]-related one.  For a preorder [R] the claim goes down an operation's
    text line by line ([stays_tac]); what is left are the changes of the node
    that [R] is about. *)

From Stdlib Require Import Strings.Byte.
From S2P Require Import Prelude Fs Persistence SnapshotFile Storage RaftNode.

Section stays.
Context {SM : Type} {D : Type} (R : Node SM → Node SM → Prop) `{!PreOrder R}.

Definition stays {A} (m : NodeM SM D A) : Prop := ∀ s, R s.1 (m s).2.1.

Lemma stays_ret {A} (x : A) : stays (mret x).
Proof. intros s. by simpl. Qed.

Lemma stays_fail {A} e : stays (gfail e : NodeM SM D A).
Proof. intros s. by simpl. Qed.

Lemma stays_bind {A B} (m : NodeM SM D A) (f : A → NodeM SM D B) :
  stays m → (∀ x, stays (f x)) → stays (m ≫= f).
Proof.
  intros Hm Hf s. specialize (Hm s). unfold mbind, GoM_bind.
  destruct (m s) as [[x|e] s']; simpl in *; [|done]. etrans; [done|apply Hf].
Qed.

Lemma stays_getN {A} (f : Node SM → NodeM SM D A) :
  (∀ s, R s.1 (f s.1 s).2.1) → stays (getN ≫= f).
Proof. intros Hf s. apply Hf. Qed.

Lemma stays_getN_any {A} (f : Node SM → NodeM SM D A) : (∀ n, stays (f n)) → stays (getN ≫= f).
Proof. intros Hf s. apply Hf. Qed.

Lemma stays_gtry {A} (m : NodeM SM D A) : stays m → stays (gtry m).
Proof. intros Hm s. specialize (Hm s). unfold gtry. by destruct (m s). Qed.

Lemma stays_modify (f : Node SM → Node SM) : (∀ n, R n (f n)) → stays (modifyN f).
Proof. intros Hf s. apply Hf. Qed.

Lemma stays_liftD {A} (m : GoM D A) : stays (liftD m).
Proof. intros [n d]. unfold liftD. simpl. by destruct (m d). Qed.

Lemma stays_persist `{Storage D} : stays persistStateLocked.
Proof. unfold persistStateLocked. apply stays_getN_any. intros. apply stays_liftD. Qed.

End stays.

Create HintDb staysdb.
#[export] Hint Resolve stays_ret stays_fail stays_liftD stays_persist : staysdb.

Ltac stays_tac :=
  repeat first
    [ solve [eauto with staysdb typeclass_instances]
    | apply stays_getN_any; intros ?
    | apply stays_gtry
    | apply stays_modify; intros ?
    | apply stays_bind; [typeclasses eauto| |intros ?]
    | match goal with
      | |- stays _ (match ?x with _ => _ end) => destruct x
      | |- stays _ (if ?x then _ else _) => destruct x
      end ].
