(* ===== verification/RaftAcks.v ===== *)
(** * Acknowledged writes

    What happens to the caller of ProposeSync (replication.go): its channel
    stays empty as long as the node leads the term of the proposal and the
    entry is not applied, gets the error of abortPendingWaitersLocked when the
    node steps down, and gets nil only when the entry is committed.  With the
    simulation of RaftRefine: a write that was acknowledged is in the log of
    every later leader and is never replaced in any node. *)

From Stdlib Require Import Strings.Byte.
From S2P Require Import Prelude Pb Fs Persistence SnapshotFile Storage RaftNode RaftElection.
From S2P Require Import RaftReplication RaftLog RaftCommit RaftReadIndex RaftVotes RaftCompaction.
From S2P Require Import RaftCluster RaftSafety RaftSpec RaftHealthy RaftAnchors RaftImplements RaftRefine RaftStays.
Import SnapshotFile.

Section acks.
Context {SM : Type} `{StateMachine SM} {D : Type} `{Storage D} `{!VoteLaws D} `{!LogLaws D}.
Context `{GF : Codec File} `{MB : Membership} `{!MembershipOk}.
Variable sm0 : SM.
Implicit Types (n : Node SM) (d : D) (s : Node SM * D) (c : Cluster (SM := SM) (D := D)) (a : Spec).

(** ** Waiting callers *)

(** Only a leader has callers waiting, each for an entry that is in the log
    and not applied yet. *)
Definition waiting_ok n : Prop :=
  waiters_wf n ∧ (n_role n ≠ Leader → n_waiters n = ∅) ∧
  ∀ i ch, n_waiters n !! i = Some ch → n_lastApplied n < i ≤ zlen (n_log n).

(** Nobody is served or dropped, and the leader goes on. *)
Definition keeps_waiters n n' : Prop :=
  n_waiters n' = n_waiters n ∧ n_chans n' = n_chans n ∧ n_nextChan n' = n_nextChan n ∧
  n_role n' = n_role n ∧ n_currentTerm n' = n_currentTerm n ∧ n_lastApplied n' = n_lastApplied n ∧
  n_log n `prefix_of` n_log n'.

(** Every caller is sent an error. *)
Definition aborts_waiters n n' : Prop :=
  n_waiters n' = ∅ ∧ n_nextChan n' = n_nextChan n ∧
  (∀ i ch, n_waiters n !! i = Some ch → ∃ err l, n_chans n' !! ch = Some (Some err :: l)) ∧
  ∀ ch, (∀ i, n_waiters n !! i ≠ Some ch) → n_chans n' !! ch = n_chans n !! ch.

(** The callers of the entries up to the commit index are sent nil. *)
Definition releases_waiters n n' : Prop :=
  n_role n' = n_role n ∧ n_currentTerm n' = n_currentTerm n ∧ n_log n' = n_log n ∧
  n_nextChan n' = n_nextChan n ∧ n_lastApplied n' = n_commitIndex n' ∧ waiters_wf n' ∧
  (∀ i, n_waiters n' !! i = if decide (i ≤ n_commitIndex n') then None else n_waiters n !! i) ∧
  ∀ ch, (∀ i, n_waiters n !! i ≠ Some ch) → n_chans n' !! ch = n_chans n !! ch.

Definition calm_waiters n n' : Prop :=
  waiting_ok n → waiting_ok n' ∧ (keeps_waiters n n' ∨ aborts_waiters n n').

Lemma keeps_ok n n' : keeps_waiters n n' → waiting_ok n → waiting_ok n'.
Proof.
  intros (E1 & E2 & E3 & E4 & _ & E5 & Hp) (Hw & Hr & Hb). unfold waiting_ok, waiters_wf.
  rewrite E1, E2, E3, E4, E5. split; [done|]. split; [done|]. intros i ch Hi.
  specialize (Hb i ch Hi). apply prefix_length in Hp. unfold zlen in *. lia.
Qed.

Lemma aborts_ok n n' : aborts_waiters n n' → waiting_ok n → waiting_ok n'.
Proof.
  intros (E1 & E2 & Hs & Ho) ((W1 & W2 & W3) & _ & _). unfold waiting_ok, waiters_wf. rewrite E1, E2.
  split; [|split; [done|intros i ch; by rewrite lookup_empty]].
  split; [intros i j ch; by rewrite lookup_empty|]. split; [intros i ch; by rewrite lookup_empty|].
  intros ch Hch. destruct (decide (map_Exists (λ _ x, x = ch) (n_waiters n))) as [(i & x & Hi & ->)|Hn].
  - by eapply W2.
  - apply W3. rewrite <- Ho; [done|]. intros i Hi. apply Hn. by exists i, ch.
Qed.

Lemma calm_keeps n n' : keeps_waiters n n' → calm_waiters n n'.
Proof. intros Hk Hw. split; [by eapply keeps_ok|by left]. Qed.

Lemma calm_aborts n n' : aborts_waiters n n' → calm_waiters n n'.
Proof. intros Hk Hw. split; [by eapply aborts_ok|by right]. Qed.

#[export] Instance calm_waiters_preorder : PreOrder calm_waiters.
Proof.
  split; [intros n; apply calm_keeps; by split_and!|]. intros n1 n2 n3 H12 H23 Hw.
  destruct (H12 Hw) as [Hw2 C12]. destruct (H23 Hw2) as [Hw3 C23]. split; [done|].
  destruct C12 as [K12|(A1 & A2 & A3 & A4)], C23 as [K23|(B1 & B2 & B3 & B4)].
  - left. unfold keeps_waiters in *. destruct_and?. split_and!; try congruence. by etrans.
  - right. destruct K12 as (E1 & E2 & E3 & _). split_and!; [done|congruence| |].
    + intros i ch Hi. apply (B3 i). by rewrite E1.
    + intros ch Hn. rewrite B4, E2; [done|]. by rewrite E1.
  - right. destruct K23 as (E1 & E2 & E3 & _). split_and!; [congruence|congruence| |].
    + intros i ch Hi. rewrite E2. by eapply A3.
    + intros ch Hn. rewrite E2. by apply A4.
  - right. assert (Hs : ∀ ch, n_chans n3 !! ch = n_chans n2 !! ch).
    { intros ch. apply B4. intros i. by rewrite A1, lookup_empty. }
    split_and!; [done|congruence| |].
    + intros i ch Hi. rewrite Hs. by eapply A3.
    + intros ch Hn. rewrite Hs. by apply A4.
Qed.

(** With nobody waiting, most changes leave the channels alone. *)
Definition idle n n' : Prop :=
  n_waiters n = ∅ → n_waiters n' = ∅ ∧ n_chans n' = n_chans n ∧ n_nextChan n' = n_nextChan n.

#[export] Instance idle_preorder : PreOrder idle.
Proof.
  split; [by intros n|]. intros n1 n2 n3 H12 H23 Hn. destruct (H12 Hn) as (E1 & E2 & E3).
  destruct (H23 E1) as (F1 & F2 & F3). split_and!; congruence.
Qed.

Lemma idle_aborts n n' : n_waiters n = ∅ → idle n n' → aborts_waiters n n'.
Proof.
  intros Hn Hi. destruct (Hi Hn) as (E1 & E2 & E3). split_and!; [done|done| |].
  - intros i ch. by rewrite Hn, lookup_empty.
  - intros ch _. by rewrite E2.
Qed.

Lemma aborts_idle n1 n2 n3 : aborts_waiters n1 n2 → idle n2 n3 → aborts_waiters n1 n3.
Proof.
  intros (A1 & A2 & A3 & A4) Hi. destruct (Hi A1) as (E1 & E2 & E3). unfold aborts_waiters.
  rewrite E2. split_and!; [done|congruence|done|done].
Qed.

Lemma abort_aborts err n : waiters_wf n → aborts_waiters n (abortPendingWaitersLocked err n).
Proof.
  intros (_ & W2 & _). unfold abortPendingWaitersLocked.
  set (r := map_fold _ n (n_waiters n)).
  assert (HF : ∃ C, r = set_chans C n ∧
    (∀ ch, (∀ i, n_waiters n !! i ≠ Some ch) → C !! ch = n_chans n !! ch) ∧
    (∀ i ch, n_waiters n !! i = Some ch → n_chans n !! ch = None → ∃ l, C !! ch = Some (Some err :: l))).
  { apply (map_fold_weak_ind (λ r m, ∃ C, r = set_chans C n ∧
      (∀ ch, (∀ i, m !! i ≠ Some ch) → C !! ch = n_chans n !! ch) ∧
      (∀ i ch, m !! i = Some ch → n_chans n !! ch = None → ∃ l, C !! ch = Some (Some err :: l)))).
    - exists (n_chans n). split; [by destruct n|]. split; [done|]. intros i ch. by rewrite lookup_empty.
    - intros i x m r0 Hi (C & -> & HC1 & HC2). eexists. split; [reflexivity|].
      cbn [n_chans chan_send set_chans]. split.
      + intros ch Hn. rewrite lookup_insert_ne.
        * apply HC1. intros j Hj. apply (Hn j). rewrite lookup_insert_ne; [done|]. congruence.
        * intros ->. by apply (Hn i), lookup_insert_eq.
      + intros j ch Hj Hc. destruct (decide (ch = x)) as [->|Hne].
        * rewrite lookup_insert_eq. destruct (decide (map_Exists (λ _ y, y = x) m)) as [(k & y & Hk & ->)|Hn].
          -- destruct (HC2 k x Hk Hc) as [l ->]. by eexists.
          -- rewrite HC1, Hc; [by eexists|]. intros k Hk. apply Hn. by exists k, x.
        * rewrite lookup_insert_ne by done. apply lookup_insert_Some in Hj as [[_ ?]|[_ Hj]]; [done|by eapply HC2]. }
  destruct HF as (C & -> & HC1 & HC2). unfold aborts_waiters. simpl. split_and!; [done|done| |done].
  intros i ch Hi. destruct (HC2 i ch Hi) as [l Hl]; [by eapply W2|]. by eexists _, _.
Qed.

(** Stepping down. *)
Lemma setRole_aborts r n : r ≠ Leader → waiting_ok n → aborts_waiters n (setRoleLocked r n).
Proof.
  intros Hr (Hw & Hl & _). unfold setRoleLocked. destruct (decide (n_role n = Leader)) as [HL|HL].
  - rewrite bool_decide_eq_true_2 by done. rewrite bool_decide_eq_false_2 by done. cbn [andb negb].
    exact (abort_aborts ErrLeadershipLost n Hw).
  - rewrite bool_decide_eq_false_2 by done. cbn [andb]. apply idle_aborts; [by apply Hl|done].
Qed.

(** ** Operations, one line at a time *)

Lemma observe_calm t : stays calm_waiters (observeTermLocked t).
Proof.
  apply stays_getN. intros [n d]. cbn [fst]. destruct (_ <=? _); [done|].
  rewrite nbind_modifyN. cbn [fst snd]. etrans; [|eapply (stays_bind calm_waiters); [|intros ?]]; stays_tac.
  intros Hw. assert (HA : aborts_waiters n (setRoleLocked Follower (set_votedFor "" (set_currentTerm t n)))).
  { by apply (setRole_aborts Follower (set_votedFor "" (set_currentTerm t n))). }
  split; [by eapply aborts_ok|by right].
Qed.
#[local] Hint Resolve observe_calm : staysdb.

(** Changes of votes, timers and indices. *)
Lemma calm_same n n' :
  n_waiters n' = n_waiters n → n_chans n' = n_chans n → n_nextChan n' = n_nextChan n →
  n_role n' = n_role n → n_currentTerm n' = n_currentTerm n → n_lastApplied n' = n_lastApplied n →
  n_log n' = n_log n → calm_waiters n n'.
Proof. intros ? ? ? ? ? ? E. apply calm_keeps. split_and!; try done. by rewrite E. Qed.
#[local] Hint Extern 2 (calm_waiters _ _) => by apply calm_same : staysdb.

(** A node that does not lead has nobody waiting. *)
Lemma calm_not_leader n n' : n_role n ≠ Leader → idle n n' → calm_waiters n n'.
Proof.
  intros Hr Hi Hw. pose proof Hw as (_ & Hl & _).
  pose proof (idle_aborts n n' (Hl Hr) Hi) as HA. split; [by eapply aborts_ok|by right].
Qed.

Lemma RequestVote_calm env req : stays calm_waiters (RequestVote env req).
Proof. unfold RequestVote. stays_tac. Qed.

Lemma becomeLeader_calm n : calm_waiters n (becomeLeaderLocked n).
Proof.
  unfold becomeLeaderLocked. destruct (bool_decide _) eqn:E; cbn [negb]; [|done]. zbool.
  apply calm_not_leader; [congruence|done].
Qed.
#[local] Hint Resolve becomeLeader_calm : staysdb.

Lemma handleVoteReply_calm ca reply : stays calm_waiters (handleVoteReply ca reply).
Proof. unfold handleVoteReply. stays_tac. Qed.

Lemma startElection_calm env : stays calm_waiters (startElection env).
Proof.
  unfold startElection. apply stays_getN. intros [n d]. cbn [fst].
  destruct (bool_decide _) eqn:E; [done|]. zbool. rewrite nbind_modifyN. cbn [fst snd].
  etrans; [|apply (stays_bind calm_waiters); [stays_tac|intros ?; stays_tac]].
  apply calm_not_leader; [done|]. unfold setRoleLocked. by rewrite bool_decide_eq_false_2.
Qed.

Lemma apply_loop_idle fuel n : idle n (apply_loop fuel n).
Proof.
  revert n. induction fuel as [|fuel IH]; intros n; cbn [apply_loop]; [done|].
  destruct (_ <? _); [|done]. cbv zeta. destruct (entryAtLocked _ _) as [e|]; [|done]. intros Hn.
  cbn [n_waiters set_stateMachine set_lastApplied]. rewrite Hn, lookup_empty.
  edestruct IH as (E1 & E2 & E3); [|split_and!; [exact E1|exact E2|exact E3]]. exact Hn.
Qed.

Lemma applyCommitted_idle n : idle n (applyCommittedLocked n).
Proof.
  unfold applyCommittedLocked. cbv zeta. destruct (_ <? _); [|apply apply_loop_idle].
  intros Hn. by apply apply_loop_idle.
Qed.

Lemma set_commit_idle v n : idle n (applyCommittedLocked (set_commitIndex v n)).
Proof. intros Hn. exact (applyCommitted_idle (set_commitIndex v n) Hn). Qed.
#[local] Hint Resolve set_commit_idle : staysdb.
#[local] Hint Extern 2 (idle _ _) => done : staysdb.

Lemma merge_idle prev es : stays idle (mergeEntriesLocked prev es).
Proof. unfold mergeEntriesLocked. stays_tac. Qed.
#[local] Hint Resolve merge_idle : staysdb.

Lemma AppendEntries_calm env req : stays calm_waiters (AppendEntries env req).
Proof.
  unfold AppendEntries. apply stays_getN_any. intros n0. apply stays_bind; [typeclasses eauto|stays_tac|].
  intros _. apply stays_getN. intros [n d]. cbn [fst]. destruct (_ <? _); [done|].
  rewrite nbind_modifyN. cbn [fst snd]. set (n1 := resetElectionDeadlineLocked _ _).
  intros Hw. assert (HA : aborts_waiters n n1) by (by apply (setRole_aborts Follower n)).
  match goal with |- waiting_ok (?m (n1, d)).2.1 ∧ _ => assert (Hi : stays idle m) end.
  { stays_tac. }
  pose proof (aborts_idle _ _ _ HA (Hi (n1, d))) as HA'. split; [by eapply aborts_ok|by right].
Qed.

Lemma appendLocal_calm cmd : stays calm_waiters (appendLocalLocked cmd).
Proof.
  unfold appendLocalLocked. stays_tac. apply calm_keeps. split_and!; try done. by apply prefix_app_r.
Qed.
#[local] Hint Resolve appendLocal_calm : staysdb.

Lemma Propose_calm cmd : stays calm_waiters (Propose cmd).
Proof. unfold Propose. stays_tac. Qed.

(** ** What can happen to one caller *)

(** A step of the code as the callers of ProposeSync see it. *)
Inductive waiter_step n : Node SM → Prop :=
| ws_calm n' : calm_waiters n n' → waiter_step n n'
| ws_release n' : waiting_ok n' → releases_waiters n n' → waiter_step n n'
| ws_add n1 i :
    calm_waiters n n1 → n_role n1 = Leader → n_lastApplied n1 < i ≤ zlen (n_log n1) → n_waiters n1 !! i = None →
    waiter_step n (set_waiters (<[i := n_nextChan n1]> (n_waiters n1)) (set_nextChan (S (n_nextChan n1)) n1))
| ws_cancel i : waiter_step n (ProposeSync_cancel i n).

Lemma waiter_step_ok n n' : waiting_ok n → waiter_step n n' → waiting_ok n'.
Proof.
  intros Hw Hs. destruct Hs as [n' Hc|n' Hw' _|n1 i Hc Hr Hb Hi|i]; [by apply Hc|done| |].
  - destruct (Hc Hw) as [(Hw1 & Hl1 & Hb1) _]. split; [by apply add_waiter_wf|]. split; [done|].
    simpl. intros j ch. rewrite lookup_insert_Some. intros [[<- _]|[_ Hj]]; [done|by eapply Hb1].
  - destruct Hw as ((W1 & W2 & W3) & Hl & Hb). unfold waiting_ok, waiters_wf. simpl. split_and!; try done.
    + intros j j' ch. rewrite !lookup_delete_Some. intros [_ ?] [_ ?]. by eapply W1.
    + intros j ch. rewrite lookup_delete_Some. intros [_ ?]. by eapply W2.
    + intros Hr. by rewrite Hl, delete_empty.
    + intros j ch. rewrite lookup_delete_Some. intros [_ ?]. by eapply Hb.
Qed.

(** One proposal: its index, its channel, its term and its entry. *)
Section proposal.
Variables (idx : Z) (ch : nat) (t : Z) (e : LogEntry).

Definition pending n : Prop :=
  n_waiters n !! idx = Some ch ∧ n_role n = Leader ∧ n_currentTerm n = t ∧
  n_log n !! Z.to_nat (idx - 1) = Some e.

(** The caller has been answered or has gone; nil was sent only if [A]. *)
Definition settled (A : Prop) n : Prop :=
  (∀ j, n_waiters n !! j ≠ Some ch) ∧ (ch < n_nextChan n)%nat ∧ (ProposeSync_poll ch n = Some None → A).

Lemma settled_same A n n' :
  settled A n → n_chans n' !! ch = n_chans n !! ch → (n_nextChan n ≤ n_nextChan n')%nat →
  (∀ j, n_waiters n' !! j ≠ Some ch) → settled A n'.
Proof.
  intros (_ & Hlt & Hp) Hc Hle Hn. unfold settled, ProposeSync_poll in *. rewrite Hc. split_and!; [done|lia|done].
Qed.

Lemma calm_track A n n' :
  waiting_ok n → calm_waiters n n' → pending n ∨ settled A n → pending n' ∨ settled A n'.
Proof.
  intros Hw Hc Ht. destruct (Hc Hw) as [_ [(E1 & E2 & E3 & E4 & E5 & E6 & Hp)|(A1 & A2 & A3 & A4)]].
  - destruct Ht as [(P1 & P2 & P3 & P4)|Hs]; [left|right].
    + split_and!; try congruence. by eapply prefix_lookup_Some.
    + apply (settled_same A n); [done|by rewrite E2|by rewrite E3|rewrite E1; apply Hs].
  - right. assert (Hnone : ∀ j, n_waiters n' !! j ≠ Some ch) by (intros j; by rewrite A1, lookup_empty).
    destruct Ht as [(P1 & _)|Hs].
    + destruct Hw as ((_ & W2 & _) & _). destruct (W2 _ _ P1) as [_ ?]. destruct (A3 _ _ P1) as (err & l & Hl).
      split_and!; [done|by rewrite A2|]. unfold ProposeSync_poll. by rewrite Hl.
    + apply (settled_same A n); [done|apply A4, Hs|by rewrite A2|done].
Qed.

Lemma release_track A n n' :
  waiting_ok n → releases_waiters n n' → pending n ∨ settled A n →
  (idx ≤ n_commitIndex n' → n_currentTerm n' = t → n_log n' !! Z.to_nat (idx - 1) = Some e → A) →
  pending n' ∨ settled A n'.
Proof.
  intros ((W1 & W2 & _) & _) (R1 & R2 & R3 & R4 & _ & _ & R5 & R6) Ht HA.
  assert (Hsub : ∀ j x, n_waiters n' !! j = Some x → n_waiters n !! j = Some x).
  { intros j x. rewrite R5. by case_decide. }
  destruct Ht as [(P1 & P2 & P3 & P4)|Hs].
  - destruct (decide (idx ≤ n_commitIndex n')) as [Hle|Hgt].
    + right. split_and!.
      * intros j Hj. pose proof (W1 _ _ _ P1 (Hsub _ _ Hj)) as <-. rewrite R5, decide_True in Hj by done. done.
      * rewrite R4. by eapply W2.
      * intros _. apply HA; congruence.
    + left. split_and!; try congruence. by rewrite R5, decide_False.
  - right. pose proof Hs as (Hn & _). apply (settled_same A n); [done|by apply R6|by rewrite R4|].
    intros j Hj%Hsub. by eapply Hn.
Qed.

Lemma cancel_track A n i :
  waiting_ok n → pending n ∨ settled A n → pending (ProposeSync_cancel i n) ∨ settled A (ProposeSync_cancel i n).
Proof.
  intros ((W1 & W2 & _) & _) [(P1 & P2 & P3 & P4)|Hs].
  - destruct (decide (i = idx)) as [->|Hne].
    + right. destruct (W2 _ _ P1) as [Hc ?]. split_and!; [|done|].
      * intros j. simpl. rewrite lookup_delete_Some. intros [Hne Hj]. by pose proof (W1 _ _ _ P1 Hj).
      * unfold ProposeSync_poll. simpl. by rewrite Hc.
    + left. unfold pending. simpl. by rewrite lookup_delete_ne.
  - right. apply (settled_same A n); [done..|]. intros j. simpl. rewrite lookup_delete_Some.
    intros [_ Hj]. by apply Hs in Hj.
Qed.

Lemma step_track A n n' :
  waiting_ok n → waiter_step n n' → pending n ∨ settled A n →
  (idx ≤ n_commitIndex n' → n_currentTerm n' = t → n_log n' !! Z.to_nat (idx - 1) = Some e → A) →
  pending n' ∨ settled A n'.
Proof.
  intros Hw Hs Ht HA. destruct Hs as [n' Hc|n' _ Hr|n1 i Hc Hr Hb Hi|i].
  - by eapply calm_track.
  - by eapply release_track.
  - destruct (calm_track A n n1 Hw Hc Ht) as [(P1 & P2 & P3 & P4)|Hst].
    + left. unfold pending. simpl. rewrite lookup_insert_ne by congruence. done.
    + right. pose proof Hst as (Hn & Hlt & _). apply (settled_same A n1); [done|done|simpl; lia|].
      intros j. simpl. rewrite lookup_insert_Some. intros [[_ ?]|[_ Hj]]; [lia|by apply (Hn j)].
  - by apply cancel_track.
Qed.

End proposal.

(** ** Steps of the cluster *)

Lemma no_callers_ok n : no_callers n → waiting_ok n.
Proof.
  intros (Hw & Hc & _). unfold waiting_ok, waiters_wf. rewrite Hw, Hc.
  split_and!; try done; intros *; rewrite ?lookup_empty; done.
Qed.

(** Applying the newly committed entries serves their callers. *)
Lemma advance_releases n N :
  log_wf n → n_logOffset n = 0 → n_lastApplied n = n_commitIndex n → waiting_ok n →
  0 ≤ n_commitIndex n ≤ N → N ≤ zlen (n_log n) →
  let n' := applyCommittedLocked (set_commitIndex N n) in waiting_ok n' ∧ releases_waiters n n'.
Proof.
  intros Hw Ho Ha (Hwf & Hl & Hb) HN Hle. cbv zeta. set (m := set_commitIndex N n).
  assert (Hap : applicable m) by (unfold applicable, m; simpl; split_and!; [done|lia|lia]).
  rewrite (applyCommitted_eq m Hap) by (unfold m; simpl; lia). cbv zeta.
  set (seg := segment m _ _). set (n' := set_applyWake _ _).
  assert (Hsh : n_role n' = n_role n ∧ n_currentTerm n' = n_currentTerm n ∧ n_log n' = n_log n ∧
    n_nextChan n' = n_nextChan n ∧ n_lastApplied n' = N ∧ n_commitIndex n' = N ∧
    n_waiters n' = n_waiters (notify_all seg m) ∧ n_chans n' = n_chans (notify_all seg m)).
  { unfold n'. destruct (notify_all_shape seg m) as (W & C & ->). by split_and!. }
  destruct Hsh as (S1 & S2 & S3 & S4 & S5 & S6 & S7 & S8).
  assert (Hwt : ∀ i, n_waiters n' !! i = if decide (i ≤ N) then None else n_waiters n !! i).
  { intros i. rewrite S7, notify_all_waiters. change (n_waiters m) with (n_waiters n).
    pose proof (segment_indices m (n_lastApplied m) (n_commitIndex m) i (proj1 Hap)) as Hi.
    unfold m in Hi at 2 3 4 5 6 7 8. simpl in Hi. fold m in Hi.
    destruct (decide (i ∈ e_Index <$> seg)) as [Hin|Hin].
    - apply Hi in Hin; [|lia..]. by rewrite decide_True by lia.
    - case_decide as Hd; [|done]. destruct (n_waiters n !! i) as [ch|] eqn:E; [|done].
      destruct Hin. apply Hi; [lia|lia|]. specialize (Hb _ _ E). lia. }
  assert (Hwf' : waiters_wf n').
  { assert (S9 : n_nextChan (notify_all seg m) = n_nextChan n) by (by destruct (notify_all_shape seg m) as (W & C & ->)).
    pose proof (notify_all_wf seg m Hwf) as HW. unfold waiters_wf in *. by rewrite S7, S8, S4, <- S9. }
  split.
  - split_and!; [done| |].
    + rewrite S1. intros Hr. apply map_eq. intros i. rewrite Hwt, Hl by done. rewrite lookup_empty. by case_decide.
    + intros i ch. rewrite Hwt, S3, S5. case_decide; [done|]. intros Hi. specialize (Hb _ _ Hi). lia.
  - unfold releases_waiters. rewrite S6. split_and!; try done. intros ch Hn. rewrite S8.
    by rewrite notify_all_chan_other.
Qed.

Lemma record_match_fields p v n :
  let n' := record_match p v n in
  keeps_waiters n n' ∧ n_log n' = n_log n ∧ n_logOffset n' = n_logOffset n ∧ n_commitIndex n' = n_commitIndex n.
Proof.
  unfold record_match, keeps_waiters. cbv zeta. destruct (_ <? v), (_ <? v +u 1); by split_and!.
Qed.

Lemma releases_keeps n n1 n' :
  keeps_waiters n n1 → n_log n1 = n_log n → releases_waiters n1 n' → releases_waiters n n'.
Proof.
  intros (E1 & E2 & E3 & E4 & E5 & _) El. unfold releases_waiters. by rewrite E1, E2, E3, E4, E5, El.
Qed.

Lemma reply_waiters term o reply s :
  healthy sm0 s → waiting_ok s.1 → waiter_step s.1 (sendAppendEntriesAndHandle term o reply s).2.1.
Proof.
  destruct s as [n d]. cbn [fst]. intros Hh Hw. unfold sendAppendEntriesAndHandle. rewrite nbind_getN. cbn [fst].
  destruct (_ || _); [apply ws_calm; reflexivity|].
  assert (Hbind : ∀ {A B} (m : NodeM SM D A) (g : A → B) s, ((x ← m; mret (g x)) s).2 = (m s).2).
  { intros A B m g s. unfold_node. by destruct (m s) as [[x|e] s']. }
  rewrite Hbind. clear Hbind. unfold handleAppendEntriesReplyLocked. rewrite nbind_getN. cbn [fst].
  destruct (_ <? _); [|destruct (aer_Success reply)].
  - apply ws_calm. assert (HS : stays calm_waiters (gtry (observeTermLocked (aer_Term reply));; mret tt)) by stays_tac.
    exact (HS (n, d)).
  - rewrite !nbind_modifyN. cbn [fst snd].
    change (waiter_step n (maybeAdvanceCommitIndexLocked (record_match (o_peer o) (o_prevIndex o +u o_numEntries o) n))).
    destruct (record_match_fields (o_peer o) (o_prevIndex o +u o_numEntries o) n) as (Hk & El & Eo & Ec).
    set (n1 := record_match _ _ n) in *. destruct Hh as (Hs & Ho & _ & _ & (Ha & Hb & _) & _). cbn [fst snd] in *.
    assert (Hw1 : log_wf n1) by (unfold log_wf; rewrite El, Eo; apply Hs). pose proof Hw1 as (_ & Hr1 & _).
    unfold maybeAdvanceCommitIndexLocked. rewrite lastLogIndex_spec by done. rewrite Eo, Ho in Hr1 |- *. rewrite El in Hr1 |- *. rewrite Z.add_0_l in Hr1 |- *.
    pose proof (find_commit_spec n1 (zlen (n_log n)) (Z.to_nat (zlen (n_log n) - n_commitIndex n1)) ltac:(lia)) as Hf.
    destruct (find_commit _ _ _) as [N|]; [|apply ws_calm; by apply calm_keeps].
    destruct Hf as (HN & _). destruct (advance_releases n1 N) as [G1 G2]; try done.
    + congruence.
    + destruct Hk as (_ & _ & _ & _ & _ & -> & _). congruence.
    + by eapply keeps_ok.
    + lia.
    + rewrite El. lia.
    + apply ws_release; [done|]. by eapply releases_keeps.
  - apply ws_calm. by apply calm_same.
Qed.

Lemma begin_waiters cmd s :
  healthy sm0 s → waiting_ok s.1 → (n_role s.1 = Leader → fits cmd s.1) →
  waiter_step s.1 (ProposeSync_begin cmd s).2.1 ∧
  ∀ i t ch, (ProposeSync_begin cmd s).1 = Ok (i, t, ch) →
    0 < i ∧ pending i ch t (MkLogEntry t i cmd) (ProposeSync_begin cmd s).2.1.
Proof.
  destruct s as [n d]. cbn [fst]. intros Hh Hw Hf. unfold ProposeSync_begin. rewrite nbind_getN. cbn [fst].
  destruct (decide (n_role n = Leader)) as [HL|HL].
  2:{ rewrite bool_decide_eq_false_2 by done. cbn [negb]. split; [apply ws_calm; simpl; reflexivity|done]. }
  rewrite bool_decide_eq_true_2 by done. cbn [negb].
  destruct (append_healthy sm0 cmd n d Hh (Hf HL)) as (d' & E). node_step E. rewrite nbind_getN, nbind_modifyN.
  cbn [fst snd]. set (n1 := set_log _ n). set (i := zlen (n_log n) + 1).
  destruct Hh as (_ & _ & _ & _ & (Ha & Hb & _) & _). cbn [fst] in *. pose proof (zlen_nonneg (n_log n)).
  assert (Hi : n_waiters n1 !! i = None).
  { destruct (n_waiters n1 !! i) as [ch|] eqn:Ei; [|done]. destruct Hw as (_ & _ & Hw).
    specialize (Hw i ch Ei). unfold i in Hw. lia. }
  split.
  - apply (ws_add n n1 i); [|done| |done].
    + apply calm_keeps. split_and!; try done. by apply prefix_app_r.
    + unfold n1, i. simpl. rewrite zlen_app. unfold zlen in *. simpl. lia.
  - intros i0 t0 ch0 [= <- <- <-]. split; [unfold i; lia|]. unfold pending. simpl.
    rewrite lookup_insert_eq. split_and!; try done. unfold i. replace (Z.to_nat (zlen (n_log n) + 1 - 1)) with (length (n_log n)) by (unfold zlen; lia).
    by rewrite list_lookup_middle.
Qed.

Lemma client_waiters op s :
  healthy sm0 s → waiting_ok s.1 → client_ok op s.1 → waiter_step s.1 (run_local op s).2.1.
Proof.
  intros Hh Hw Hok. destruct op as [cmd|cmd|index| | | | | |rep]; cbn [client_ok run_local] in *; try done;
    rewrite ?ignore_state.
  - apply ws_calm, Propose_calm.
  - by apply begin_waiters.
  - apply ws_cancel.
  - apply ws_calm. assert (HS : stays calm_waiters (FollowerLinearizableRead rep (mret tt) [] : NodeM SM D unit)).
    { unfold FollowerLinearizableRead, waitForApplied. stays_tac. }
    exact (HS s).
Qed.

(** The process of node [i] is started anew. *)
Definition restarts (i : string) c c' : Prop :=
  ∃ n d env cfg s', cl_nodes c !! i = Some (n, d) ∧ same_config cfg n ∧
    NewNode env cfg d = (Ok s'.1, s'.2) ∧ cl_nodes c' !! i = Some s'.

(** Steps during which the process of node [i] lives on. *)
Inductive hsteps_up (i : string) : nat → Cluster → Cluster → Prop :=
| up_refl c : hsteps_up i 0 c c
| up_step k c c' c'' :
    hsteps_up i k c c' → hstep sm0 c' c'' → ¬ restarts i c' c'' → hsteps_up i (S k) c c''.

Lemma up_hsteps i k c c' : hsteps_up i k c c' → hsteps sm0 k c c'.
Proof. induction 1; econstructor; eauto. Qed.

Lemma upd_waiters c (i j : string) s s' x :
  cl_nodes c !! i = Some s → <[j := x]> (cl_nodes c) !! i = Some s' →
  (j = i → waiter_step s.1 x.1) → waiter_step s.1 s'.1.
Proof.
  intros Hi [[-> <-]|[_ Hi']]%lookup_insert_Some Hx; [by apply Hx|]. simplify_eq. apply ws_calm. reflexivity.
Qed.

(** Everything a node does, except starting anew, is such a step. *)
Lemma hstep_waiters c c' (i : string) s s' :
  healthy sm0 s → waiting_ok s.1 → hstep sm0 c c' →
  cl_nodes c !! i = Some s → cl_nodes c' !! i = Some s' → restarts i c c' ∨ waiter_step s.1 s'.1.
Proof.
  intros Hh Hw Hs Hi Hi'.
  assert (Hst : ∀ {A} (m : NodeM SM D A) r x j sj, stays calm_waiters m → cl_nodes c !! j = Some sj →
    m sj = (r, x) → j = i → waiter_step s.1 x.1).
  { intros A m r x j sj Hm Hj E ->. simplify_eq. apply ws_calm. specialize (Hm s). by rewrite E in Hm. }
  destruct Hs as [? ? [c j env sj s2 Hj HE|c j env sj s2 ca req Hj HE|c j t ca n d Hj Hca Hp
    |c src j req env sj r s2 Hm Hj HE|c peer j t reply ca sj ca' s2 Hm Hca Hpe Hj HE
    |c j sj term reqs Hj HE|c src j term o env sj r s2 Hm Hj HE
    |c peer j term o reply sj r s2 Hm Hj HE|c j op sj r s2 Hj Hok HE]
    |c j n d env cfg n' d' Hj Hcfg Hsn Hsm HE]; simpl in Hi'.
  1-5, 7-9: right; eapply (upd_waiters c i j); [exact Hi|exact Hi'|].
  - eapply Hst; [apply (startElection_calm env)|done..].
  - eapply Hst; [apply (startElection_calm env)|done..].
  - intros ->. rewrite Hj in Hi. injection Hi as <-. cbn [fst]. apply ws_calm.
    unfold electionSelfQuorum. destruct (_ && _); [apply becomeLeader_calm|reflexivity].
  - eapply Hst; [apply (RequestVote_calm env req)|done..].
  - eapply Hst; [apply (handleVoteReply_calm ca reply)|done..].
  - eapply Hst; [apply (AppendEntries_calm env (o_req o))|done..].
  - intros ->. rewrite Hj in Hi. injection Hi as <-. pose proof (reply_waiters term o reply sj Hh Hw) as HR.
    by rewrite HE in HR.
  - intros ->. rewrite Hj in Hi. injection Hi as <-. pose proof (client_waiters op sj Hh Hw Hok) as HR.
    by rewrite HE in HR.
  - right. rewrite Hi in Hi'. injection Hi' as <-. apply ws_calm. reflexivity.
  - destruct (decide (j = i)) as [->|Hne]; [left|right; eapply (upd_waiters c i j); [exact Hi|exact Hi'|done]].
    exists n, d, env, cfg, (n', d'). split_and!; try done. simpl. by rewrite lookup_insert_eq in Hi' |- *.
Qed.

(** A process that has just started follows. *)
Lemma leader_not_restarted (i : string) c c' s :
  cl_nodes c' !! i = Some s → n_role s.1 = Leader → ¬ restarts i c c'.
Proof.
  intros Hi HL (n & d & env & cfg & s' & _ & _ & E & Hi'). rewrite Hi in Hi'. injection Hi' as <-.
  apply NewNode_no_callers in E as (_ & _ & ?). congruence.
Qed.

(** No step makes a node appear. *)
Lemma hstep_node c c' (i : string) s :
  hstep sm0 c c' → cl_nodes c' !! i = Some s → is_Some (cl_nodes c !! i).
Proof.
  intros [c1 c2 Hr|]; simpl.
  - intros Hi. destruct (rstep_node (λ _, True) c1 c2 i s Hr Hi) as (s0 & ? & _). by eauto.
  - rewrite lookup_insert_Some. intros [[<- _]|[_ ?]]; by eauto.
Qed.

Lemma hreach_waiting k c (i : string) s :
  hreach sm0 k c → Z.of_nat k ≤ u64_max → cl_nodes c !! i = Some s → waiting_ok s.1.
Proof.
  intros Hr. revert s. induction Hr as [c [_ Hc]|k c c' Hr IH Hs]; intros s Hk Hi.
  { destruct (Hc i s Hi) as (_ & _ & _ & Hn). by apply no_callers_ok. }
  destruct (hstep_node c c' i s Hs Hi) as [s0 Hi0].
  pose proof (hreach_healthy sm0 k c i s0 Hr ltac:(lia) Hi0) as Hh. specialize (IH s0 ltac:(lia) Hi0).
  destruct (hstep_waiters c c' i s0 s Hh IH Hs Hi0 Hi) as [(n & d & env & cfg & s2 & _ & _ & E & Hi2)|Hw].
  - rewrite Hi in Hi2. injection Hi2 as <-. by eapply no_callers_ok, NewNode_no_callers.
  - by eapply waiter_step_ok.
Qed.

(** ** Runs *)

(** Entry [e] at index [idx] is committed in a term up to [t]. *)
Definition has_entry a (t idx : Z) (e : LogEntry) : Prop :=
  ∃ t0 P, committed a t0 P ∧ t0 ≤ t ∧ P !! Z.to_nat (idx - 1) = Some e.

Lemma has_entry_grows a a' t idx e : grows a a' → has_entry a t idx e → has_entry a' t idx e.
Proof. intros Hgr (t0 & P & HC & ? & ?). exists t0, P. split; [by eapply committed_grows|done]. Qed.

(** What a node has committed. *)
Lemma commit_ok_entry a t l k idx e :
  commit_ok a t l k → 0 < idx ≤ k → l !! Z.to_nat (idx - 1) = Some e → has_entry a t idx e.
Proof.
  intros [Hb [->|(t0 & P & HC & [Ht _] & HP)]] Hi He; [lia|]. exists t0, P. split_and!; [done|done|].
  eapply prefix_lookup_Some; [|exact HP]. rewrite lookup_take_lt by lia. done.
Qed.

Lemma up_track i j k c c' a s s' idx ch t e :
  hreach sm0 j c → Z.of_nat (j + k) ≤ u64_max → hsteps_up i k c c' → refines sm0 c a → 0 < idx →
  cl_nodes c !! i = Some s → pending idx ch t e s.1 → cl_nodes c' !! i = Some s' →
  ∃ a', refines sm0 c' a' ∧ (pending idx ch t e s'.1 ∨ settled ch (has_entry a' t idx e) s'.1).
Proof.
  intros Hr Hk Hs. revert s' Hk. induction Hs as [c|k c c' c'' Hup IH Hs Hno]; intros s'' Hk Hrf Hpos Hi Hp Hi''.
  { simplify_eq. exists a. split; [done|by left]. }
  destruct (hstep_node c' c'' i s'' Hs Hi'') as [s' Hi'].
  destruct (IH Hr s' ltac:(lia) Hrf Hpos Hi Hp Hi') as (a1 & Hrf1 & Ht).
  pose proof (hreach_hsteps sm0 j k c c' Hr (up_hsteps _ _ _ _ Hup)) as Hr1.
  pose proof (reach_Inv _ _ (hreach_reach sm0 _ _ Hr1) ltac:(lia)) as HI.
  destruct (hstep_matched sm0 (Z.of_nat (j + k)) c' a1 c'' ltac:(lia) HI Hrf1 Hs) as (a2 & Hst & Hrf2).
  destruct (steps_SInv a1 a2 Hst (rf_inv _ _ _ Hrf1)) as [_ Hgr]. exists a2. split; [done|].
  pose proof (hreach_healthy sm0 _ c' i s' Hr1 ltac:(lia) Hi') as Hh.
  pose proof (hreach_waiting _ c' i s' Hr1 ltac:(lia) Hi') as Hw.
  destruct (hstep_waiters c' c'' i s' s'' Hh Hw Hs Hi' Hi'') as [?|Hws]; [done|].
  apply (step_track idx ch t e (has_entry a2 t idx e) s'.1); [done|done| |].
  - destruct Ht as [?|(S1 & S2 & S3)]; [by left|right]. split_and!; [done|done|].
    intros Hpo. by eapply has_entry_grows, S3.
  - intros Hle Ht0 He. destruct (rf_node _ _ _ Hrf2 i s'' Hi'') as (_ & _ & _ & _ & _ & HC & _).
    rewrite Ht0 in HC. eapply commit_ok_entry; [exact HC|lia|done].
Qed.

(** A committed entry is where it was in every log that is committed that far
    and in the logs of later leaders. *)
Lemma has_entry_elsewhere c a t idx e (v : string) s :
  refines sm0 c a → has_entry a t idx e → 0 < idx → cl_nodes c !! v = Some s →
  (idx ≤ n_commitIndex s.1 → n_log s.1 !! Z.to_nat (idx - 1) = Some e) ∧
  (n_role s.1 = Leader → t ≤ n_currentTerm s.1 → n_log s.1 !! Z.to_nat (idx - 1) = Some e).
Proof.
  intros Hrf (t0 & P & HC & Ht & HP) Hpos Hv. pose proof (rf_inv _ _ _ Hrf) as HI.
  destruct (rf_node _ _ _ Hrf v s Hv) as (_ & _ & _ & _ & _ & HCv & _ & HLv). split.
  - intros Hle. pose proof HCv as [Hb _]. unfold zlen in Hb.
    destruct (lookup_lt_is_Some_2 (n_log s.1) (Z.to_nat (idx - 1)) ltac:(lia)) as [e' He'].
    destruct (commit_ok_entry _ _ _ _ idx e' HCv ltac:(lia) He') as (t1 & P1 & HC1 & _ & HP1).
    rewrite He'. destruct (committed_agree a _ _ _ _ HI HC HC1) as [Hp|Hp].
    + pose proof (prefix_lookup_Some _ _ _ _ HP Hp). congruence.
    + pose proof (prefix_lookup_Some _ _ _ _ HP1 Hp). congruence.
  - intros HL Hle. destruct (HLv HL) as [[HLd _] _]. eapply prefix_lookup_Some; [exact HP|].
    destruct (decide (t0 = n_currentTerm s.1)) as [->|Hne].
    + destruct HC as (_ & (L & HL' & HPL) & _). by simplify_eq.
    + eapply leader_complete; [done..|lia].
Qed.

Lemma entry_survives q m c c' a t idx e (v : string) s :
  hreach sm0 q c → refines sm0 c a → has_entry a t idx e → 0 < idx →
  hsteps sm0 m c c' → Z.of_nat (q + m) ≤ u64_max → cl_nodes c' !! v = Some s →
  (idx ≤ n_commitIndex s.1 → n_log s.1 !! Z.to_nat (idx - 1) = Some e) ∧
  (n_role s.1 = Leader → t ≤ n_currentTerm s.1 → n_log s.1 !! Z.to_nat (idx - 1) = Some e).
Proof.
  intros Hr Hrf HE Hpos Hs Hk Hv. destruct (hsteps_matched sm0 _ m c c' a Hr Hs ltac:(lia) Hrf) as (a2 & Hst & Hrf2).
  destruct (steps_SInv a a2 Hst (rf_inv _ _ _ Hrf)) as [_ Hgr].
  eapply has_entry_elsewhere; [exact Hrf2| |done|done]. by eapply has_entry_grows.
Qed.

(** The entry of a caller that has received nil is committed. *)
Lemma acked_entry j k c c1 (i : string) s s0 s1 idx t ch cmd :
  hreach sm0 j c → cl_nodes c !! i = Some s → (n_role s.1 = Leader → fits cmd s.1) →
  ProposeSync_begin cmd s = (Ok (idx, t, ch), s0) →
  hsteps_up i k (upd_node i s0 c) c1 → cl_nodes c1 !! i = Some s1 →
  ProposeSync_poll ch s1.1 = Some None → Z.of_nat (S j + k) ≤ u64_max →
  0 < idx ∧ hreach sm0 (S j + k) c1 ∧ ∃ a, refines sm0 c1 a ∧ has_entry a t idx (MkLogEntry t idx cmd).
Proof.
  intros Hr Hi Hf HE Hup Hi1 Hpoll Hk.
  pose proof (hreach_healthy sm0 j c i s Hr ltac:(lia) Hi) as Hh.
  pose proof (hreach_waiting j c i s Hr ltac:(lia) Hi) as Hw.
  destruct (begin_waiters cmd s Hh Hw Hf) as [_ Hp]. rewrite HE in Hp. cbn [fst snd] in Hp.
  destruct (Hp _ _ _ eq_refl) as [Hpos Hp0].
  assert (Hr0 : hreach sm0 (S j) (upd_node i s0 c)).
  { eapply hreach_step; [done|]. apply h_run. eapply (r_client c i (OpProposeSync cmd) s (Ok tt) s0); [done|exact Hf|].
    cbn [run_local]. unfold ignore, gtry. unfold_node. by rewrite HE. }
  destruct (hreach_matched sm0 _ _ Hr0 ltac:(lia)) as (a0 & _ & Hrf0).
  destruct (up_track i (S j) k _ c1 a0 s0 s1 idx ch t (MkLogEntry t idx cmd) Hr0 ltac:(lia) Hup Hrf0 Hpos)
    as (a1 & Hrf1 & Ht); [simpl; apply lookup_insert_eq|done|done|].
  pose proof (hreach_hsteps sm0 _ _ _ _ Hr0 (up_hsteps _ _ _ _ Hup)) as Hr1.
  split; [done|]. split; [done|]. exists a1. split; [done|].
  destruct Ht as [(P1 & _)|(_ & _ & HA)]; [|by apply HA].
  destruct (hreach_waiting _ c1 i s1 Hr1 ltac:(lia) Hi1) as ((_ & W2 & _) & _).
  destruct (W2 _ _ P1) as [Hc _]. unfold ProposeSync_poll in Hpoll. by rewrite Hc in Hpoll.
Qed.

(** C6.  An acknowledged write is not lost, in runs on healthy disks in which no
    node compacts its log, installs a snapshot or catches up from one: when
    ProposeSync has appended a command at a leader and its channel later delivers
    nil, from then on every node that has committed that far, and every node that
    leads the same or a later term, has exactly that entry at that index,
    whatever messages are lost, delayed or repeated and whichever nodes restart
    afterwards. *)
Theorem acked_write_survives j k m c c1 c2 (i : string) s s0 s1 idx t ch cmd (v : string) sv :
  hreach sm0 j c → cl_nodes c !! i = Some s → (n_role s.1 = Leader → fits cmd s.1) →
  ProposeSync_begin cmd s = (Ok (idx, t, ch), s0) →
  hsteps_up i k (upd_node i s0 c) c1 → cl_nodes c1 !! i = Some s1 →
  ProposeSync_poll ch s1.1 = Some None →
  hsteps sm0 m c1 c2 → Z.of_nat (S j + k + m) ≤ u64_max → cl_nodes c2 !! v = Some sv →
  let e := MkLogEntry t idx cmd in
  (idx ≤ n_commitIndex sv.1 → n_log sv.1 !! Z.to_nat (idx - 1) = Some e) ∧
  (n_role sv.1 = Leader → t ≤ n_currentTerm sv.1 → n_log sv.1 !! Z.to_nat (idx - 1) = Some e).
Proof.
  intros Hr Hi Hf HE Hup Hi1 Hpoll Hs Hk Hv.
  destruct (acked_entry j k c c1 i s s0 s1 idx t ch cmd Hr Hi Hf HE Hup Hi1 Hpoll ltac:(lia)) as (Hpos & Hr1 & a & Hrf & Ha).
  by eapply entry_survives.
Qed.

End acks.
