(* ===== verification/RaftTickers.v ===== *)
(** * The background loops of a node

    Start, Stop, electionTicker, heartbeatTicker (node.go) and
    snapshotPollLoop (snapshotcatchup.go).  [Proc] is a node with a clock and
    the control state of its three goroutines; every critical section of a
    loop is one event, and RPC handlers, replies and client calls happen in
    between.  In particular electionTicker reads role and deadline under the
    mutex, releases it, and calls startElection later.

    A select takes a tick or, once Stop has closed stopCh, may return; Go does
    not prefer one over the other, and neither do the events.  The RaftCluster
    and RaftRefine steps let elections and broadcasts happen at any moment, so
    they contain every behaviour of these loops; what is shown here is when
    the loops act. *)

From Stdlib Require Import Strings.Byte.
From S2P Require Import Prelude Pb Fs Persistence SnapshotFile Storage RaftNode RaftElection.
From S2P Require Import RaftReplication RaftSnapshot RaftCommit RaftReadIndex RaftVotes RaftCluster RaftStays.
Import SnapshotFile.

(** fnvHash: FNV-1a, 32 bits, which seeds a node's random source. *)
Definition fnv_offset : Z := 2166136261.
Definition fnv_prime : Z := 16777619.
Definition fnv_step (h : Z) (b : byte) : Z :=
  (Z.lxor h (Z.of_N (Byte.to_N b)) * fnv_prime) mod 2 ^ 32.
Definition fnvHash (s : string) : Z :=
  foldl fnv_step fnv_offset (String.list_byte_of_string s).

Inductive LoopState (A : Type) : Type :=
| NotStarted
| Launched
| Waiting
| Acting (a : A)
| Returned.
Arguments NotStarted {_}.
Arguments Launched {_}.
Arguments Waiting {_}.
Arguments Acting {_} _.
Arguments Returned {_}.

(** time.NewTicker panics unless the interval is positive. *)
Definition NewTicker (interval : Z) : bool := 0 <? interval.

(** Between the sections of electionTicker's body: the values read under the
    mutex, or the campaign of a cluster of one. *)
Inductive ElectPC : Type :=
| ERead (role : Role) (elapsed timeout : Z)
| ESelf (ca : Campaign).

(** Between the sections of snapshotPollOnce. *)
Inductive PollPC : Type :=
| PAsk
| PFetch (action : PollAction)
| PRestore (file : File) (newPath : Path)
| PInstall (file : File) (newPath : Path).

Inductive LoopName : Type := LElect | LBeat | LPoll.

Section tickers.
Context {SM : Type} `{StateMachine SM} {D : Type} `{Storage D} `{GF : Codec File}.

(** What a process has sent: vote requests, AppendEntries. *)
Inductive Out : Type :=
| OutCampaign (ca : Campaign) (req : RequestVoteRequest)
| OutAppend (term : Z) (reqs : list outgoingAppendEntries).

Record Loops : Type := MkLoops {
  l_stopOnce : bool;
  l_stopCh : bool;
  l_elect : LoopState ElectPC;
  l_beat : LoopState bool;
  l_poll : LoopState PollPC
}.

Record Proc : Type := MkProc {
  pr_now : Z;
  pr_s : Node SM * D;
  pr_catalog : bool;
  pr_loops : Loops;
  pr_sent : list Out;
  pr_crashed : bool
}.

Implicit Types (p : Proc) (l : Loops) (n : Node SM) (s : Node SM * D).

Definition set_now (x : Z) p : Proc := MkProc x (pr_s p) (pr_catalog p) (pr_loops p) (pr_sent p) (pr_crashed p).
Definition set_s (x : Node SM * D) p : Proc := MkProc (pr_now p) x (pr_catalog p) (pr_loops p) (pr_sent p) (pr_crashed p).
Definition set_loops (x : Loops) p : Proc := MkProc (pr_now p) (pr_s p) (pr_catalog p) x (pr_sent p) (pr_crashed p).
Definition emit (o : Out) p : Proc := MkProc (pr_now p) (pr_s p) (pr_catalog p) (pr_loops p) (pr_sent p ++ [o]) (pr_crashed p).
Definition crash p : Proc := MkProc (pr_now p) (pr_s p) (pr_catalog p) (pr_loops p) (pr_sent p) true.

Definition set_elect (x : LoopState ElectPC) l : Loops := MkLoops (l_stopOnce l) (l_stopCh l) x (l_beat l) (l_poll l).
Definition set_beat (x : LoopState bool) l : Loops := MkLoops (l_stopOnce l) (l_stopCh l) (l_elect l) x (l_poll l).
Definition set_poll (x : LoopState PollPC) l : Loops := MkLoops (l_stopOnce l) (l_stopCh l) (l_elect l) (l_beat l) x.

(** A freshly built node whose loops have not been started. *)
Definition NewProc (now : Z) (catalog : bool) s : Proc :=
  MkProc now s catalog (MkLoops false false NotStarted NotStarted NotStarted) [] false.

(** Start: the go statements. *)
Definition Start p : Proc :=
  let l := set_beat Launched (set_elect Launched (pr_loops p)) in
  set_loops (if pr_catalog p then set_poll Launched l else l) p.

(** close(n.stopCh): [None] for the panic of closing it twice. *)
Definition close_stopCh l : option Loops :=
  if l_stopCh l then None else Some (MkLoops (l_stopOnce l) true (l_elect l) (l_beat l) (l_poll l)).

(** stopOnce.Do runs its argument for the first caller only. *)
Definition Stop p : option Proc :=
  let l := pr_loops p in
  if l_stopOnce l then Some p else
  l' ← close_stopCh (MkLoops true (l_stopCh l) (l_elect l) (l_beat l) (l_poll l));
  Some (set_loops l' p).

(** The interval each loop gives its ticker. *)
Definition interval (k : LoopName) n : Z :=
  match k with
  | LElect => n_tick n
  | LBeat => HeartbeatInterval (n_timing n)
  | LPoll => PollInterval (n_snapshotCfg n)
  end.

(** A goroutine's first line. *)
Definition launched {A} (ok : bool) (st : LoopState A) (upd : LoopState A → Loops) p : option Proc :=
  match st with
  | Launched => Some (if ok then set_loops (upd Waiting) p else crash p)
  | _ => None
  end.

Definition launch (k : LoopName) p : option Proc :=
  let l := pr_loops p in
  let ok := NewTicker (interval k (pr_s p).1) in
  match k with
  | LElect => launched ok (l_elect l) (λ x, set_elect x l) p
  | LBeat => launched ok (l_beat l) (λ x, set_beat x l) p
  | LPoll => launched ok (l_poll l) (λ x, set_poll x l) p
  end.

(** [case <-n.stopCh: return] *)
Definition returns {A} (stopCh : bool) (st : LoopState A) (upd : LoopState A → Loops) p : option Proc :=
  match st with
  | Waiting => if stopCh then Some (set_loops (upd Returned) p) else None
  | _ => None
  end.

Definition stop_seen (k : LoopName) p : option Proc :=
  let l := pr_loops p in
  match k with
  | LElect => returns (l_stopCh l) (l_elect l) (λ x, set_elect x l) p
  | LBeat => returns (l_stopCh l) (l_beat l) (λ x, set_beat x l) p
  | LPoll => returns (l_stopCh l) (l_poll l) (λ x, set_poll x l) p
  end.

(** [case <-t.C:] with the first section of the body. *)
Definition electionTicker_read p : option Proc :=
  let l := pr_loops p in
  let n := (pr_s p).1 in
  match l_elect l with
  | Waiting => Some (set_loops (set_elect
      (Acting (ERead (n_role n) (pr_now p - n_lastHeartbeat n) (n_electionTimeout n))) l) p)
  | _ => None
  end.

(** The rest of the body, one critical section at a time. *)
Definition electionTicker_act (env : Env) p : option Proc :=
  let l := pr_loops p in
  match l_elect l with
  | Acting (ERead role elapsed timeout) =>
      if negb (bool_decide (role = Leader)) && (timeout <=? elapsed) then
        let '(r, s') := startElection env (pr_s p) in
        let p := set_s s' p in
        match r with
        | Ok (Some (ca, req)) =>
            let p := emit (OutCampaign ca req) p in
            Some (set_loops (set_elect
              (if ca_quorum ca <=? ca_votes ca then Acting (ESelf ca) else Waiting) l) p)
        | _ => Some (set_loops (set_elect Waiting l) p)
        end
      else Some (set_loops (set_elect Waiting l) p)
  | Acting (ESelf ca) =>
      Some (set_loops (set_elect Waiting l)
        (set_s (electionSelfQuorum ca (pr_s p).1, (pr_s p).2) p))
  | _ => None
  end.

Definition heartbeatTicker_read p : option Proc :=
  let l := pr_loops p in
  match l_beat l with
  | Waiting => Some (set_loops (set_beat (Acting (heartbeatDue (pr_s p).1)) l) p)
  | _ => None
  end.

Definition heartbeatTicker_act p : option Proc :=
  let l := pr_loops p in
  match l_beat l with
  | Acting true =>
      match broadcastAppendEntries (pr_s p).1 with
      | None => Some (crash p)
      | Some (_, []) => Some (set_loops (set_beat Waiting l) p)
      | Some (term, reqs) => Some (set_loops (set_beat Waiting l) (emit (OutAppend term reqs) p))
      end
  | Acting false => Some (set_loops (set_beat Waiting l) p)
  | _ => None
  end.

Definition snapshotPollLoop_read p : option Proc :=
  let l := pr_loops p in
  match l_poll l with
  | Waiting => Some (set_loops (set_poll (Acting PAsk) l) p)
  | _ => None
  end.

(** snapshotPollOnce section by section: the catalog's answer, the fetched
    file. *)
Definition snapshotPollLoop_act (info : option SnapshotInfo) (fetch : option File) p : option Proc :=
  let l := pr_loops p in
  let goto st s := Some (set_loops (set_poll st l) (set_s s p)) in
  let s := pr_s p in
  match l_poll l with
  | Acting PAsk =>
      match snapshotPollDecide info s.1 with
      | PollNothing => goto Waiting s
      | a => goto (Acting (PFetch a)) s
      end
  | Acting (PFetch (PollCompact target)) => goto Waiting (pollCompact target fetch s).2
  | Acting (PFetch (PollCatchUp _)) =>
      match fetch with
      | None => goto Waiting s
      | Some file =>
          match catchUp_disk file s with
          | (Err _, s') => goto Waiting s'
          | (Ok newPath, s') => goto (Acting (PRestore file newPath)) s'
          end
      end
  | Acting (PFetch PollNothing) => goto Waiting s
  | Acting (PRestore file newPath) => goto (Acting (PInstall file newPath)) (catchUp_restore file s).2
  | Acting (PInstall file newPath) => goto Waiting (catchUp_install file newPath s).2
  | _ => None
  end.

(** Everything else that takes the mutex: the two handlers, replies of peers,
    and the calls of RaftCluster's [LocalOp]. *)
Inductive NodeOp : Type :=
| RoRequestVote (req : RequestVoteRequest)
| RoAppendEntries (req : AppendEntriesRequest)
| RoVoteReply (ca : Campaign) (reply : RequestVoteReply)
| RoAppendReply (term : Z) (o : outgoingAppendEntries) (reply : AppendEntriesReply)
| RoLocal (op : LocalOp).

Definition run_op (env : Env) (op : NodeOp) : NodeM SM D unit :=
  match op with
  | RoRequestVote req => ignore (RequestVote env req)
  | RoAppendEntries req => ignore (AppendEntries env req)
  | RoVoteReply ca reply => ignore (handleVoteReply ca reply)
  | RoAppendReply term o reply => ignore (sendAppendEntriesAndHandle term o reply)
  | RoLocal op => run_local op
  end.

Inductive Event : Type :=
| EvElapse (d : Z)
| EvStop
| EvLaunch (k : LoopName)
| EvStopSeen (k : LoopName)
| EvTick (k : LoopName)
| EvElect (rnd : Z → Z)
| EvBeat
| EvPoll (info : option SnapshotInfo) (fetch : option File)
| EvOp (rnd : Z → Z) (op : NodeOp).

Definition tick (k : LoopName) p : option Proc :=
  match k with
  | LElect => electionTicker_read p
  | LBeat => heartbeatTicker_read p
  | LPoll => snapshotPollLoop_read p
  end.

(** One event; [None] when it cannot happen now. *)
Definition exec (ev : Event) p : option Proc :=
  if pr_crashed p then None else
  match ev with
  | EvElapse d => if 0 <=? d then Some (set_now (pr_now p + d) p) else None
  | EvStop => Some (default (crash p) (Stop p))
  | EvLaunch k => launch k p
  | EvStopSeen k => stop_seen k p
  | EvTick k => tick k p
  | EvElect rnd => electionTicker_act (MkEnv (pr_now p) rnd) p
  | EvBeat => heartbeatTicker_act p
  | EvPoll info fetch => snapshotPollLoop_act info fetch p
  | EvOp rnd op => Some (set_s (run_op (MkEnv (pr_now p) rnd) op (pr_s p)).2 p)
  end.

Fixpoint run (evs : list Event) p : option Proc :=
  match evs with
  | [] => Some p
  | ev :: evs => exec ev p ≫= run evs
  end.

Lemma run_app evs1 evs2 p : run (evs1 ++ evs2) p = run evs1 p ≫= run evs2.
Proof.
  revert p. induction evs1 as [|ev evs1 IH]; intros p; [done|]. simpl.
  destruct (exec ev p); [apply IH|done].
Qed.

(** An invariant of every event is one of every run. *)
Lemma run_ind (ok : Event → Prop) (P : Proc → Prop) evs p p' :
  (∀ ev q q', ok ev → P q → exec ev q = Some q' → P q') →
  Forall ok evs → run evs p = Some p' → P p → P p'.
Proof.
  intros HP Hok. revert p. induction Hok as [|ev evs Hev _ IH]; intros p; simpl; [by intros [= ->]|].
  destruct (exec ev p) as [q|] eqn:E; [|done]. intros Hr Hp. eapply IH; [done|]. by eapply HP.
Qed.

(** ** The election deadline *)

(** [n_lastHeartbeat] never falls below a moment it has reached, and the
    timeout stays in the configured range. *)
Definition in_range n : Prop :=
  ElectionTimeoutMin (n_timing n) ≤ n_electionTimeout n ∧
  (ElectionTimeoutMin (n_timing n) < ElectionTimeoutMax (n_timing n) →
    n_electionTimeout n < ElectionTimeoutMax (n_timing n)).

Definition later (now : Z) n n' : Prop :=
  n_timing n' = n_timing n ∧ (n_lastHeartbeat n ≤ now → n_lastHeartbeat n ≤ n_lastHeartbeat n' ≤ now) ∧
  (in_range n → in_range n').

#[export] Instance later_preorder now : PreOrder (later now).
Proof.
  split; [intros n; split_and!; [done|lia|done]|].
  intros n1 n2 n3 (T1 & L1 & R1) (T2 & L2 & R2). split_and!; [congruence| |by auto].
  intros Hl. destruct (L1 Hl). destruct L2; lia.
Qed.

Definition draws (rnd : Z → Z) : Prop := ∀ span, 0 < span → 0 ≤ rnd span < span.

(** The deadline is not touched. *)
Lemma later_same now n n' :
  n_timing n' = n_timing n → n_lastHeartbeat n' = n_lastHeartbeat n →
  n_electionTimeout n' = n_electionTimeout n → later now n n'.
Proof. intros E1 E2 E3. unfold later, in_range. rewrite E1, E2, E3. split_and!; [done|lia|done]. Qed.

Lemma later_reset now rnd n : draws rnd → later now n (resetElectionDeadlineLocked (MkEnv now rnd) n).
Proof.
  intros Hd. unfold later, in_range, resetElectionDeadlineLocked. cbn. split_and!; [done|lia|].
  intros _. pose proof (Hd (ElectionTimeoutMax (n_timing n) - ElectionTimeoutMin (n_timing n))).
  destruct (0 <? _) eqn:E; zbool; lia.
Qed.

Definition same_deadline n n' : Prop :=
  n_timing n' = n_timing n ∧ n_lastHeartbeat n' = n_lastHeartbeat n ∧
  n_electionTimeout n' = n_electionTimeout n.

Lemma abort_deadline err n : same_deadline n (abortPendingWaitersLocked err n).
Proof.
  unfold abortPendingWaitersLocked.
  apply (map_fold_weak_ind (λ r _, same_deadline n (set_waiters ∅ r))); [done|].
  by intros i x m r _ Hr.
Qed.

Lemma setRole_deadline r n : same_deadline n (setRoleLocked r n).
Proof.
  unfold setRoleLocked. cbv zeta. destruct (_ && _); [|done]. apply (abort_deadline ErrLeadershipLost n).
Qed.

Lemma apply_loop_deadline fuel n : same_deadline n (apply_loop fuel n).
Proof.
  revert n. induction fuel as [|fuel IH]; intros n; cbn [apply_loop]; [done|].
  destruct (_ <? _); [|done]. cbv zeta. destruct (entryAtLocked _ _) as [e|]; [|done].
  destruct (n_waiters _ !! _) as [ch|]; (edestruct IH as (E1 & E2 & E3); split_and!; [exact E1|exact E2|exact E3]).
Qed.

Lemma applyCommitted_deadline n : same_deadline n (applyCommittedLocked n).
Proof.
  unfold applyCommittedLocked. cbv zeta. destruct (apply_loop_deadline (Z.to_nat (n_commitIndex n - n_lastApplied n)) n) as (?&?&?).
  by destruct (_ <? _).
Qed.

Lemma same_later now n n0 n' : same_deadline n0 n' → same_deadline n n0 → later now n n'.
Proof. intros (E1 & E2 & E3) (F1 & F2 & F3). apply later_same; congruence. Qed.

Lemma maybeAdvance_later now n n0 : same_deadline n0 n → later now n0 (maybeAdvanceCommitIndexLocked n).
Proof.
  intros Hs. unfold maybeAdvanceCommitIndexLocked. cbv zeta. destruct (find_commit _ _ _); [|by eapply same_later].
  eapply same_later; [apply applyCommitted_deadline|by destruct Hs as (?&?&?)].
Qed.

#[local] Hint Extern 2 (later _ _ _) => by apply later_same : staysdb.
#[local] Hint Extern 2 (same_deadline _ _) => done : staysdb.
#[local] Hint Resolve later_reset maybeAdvance_later : staysdb.

Section ops.
Variables (now : Z) (rnd : Z → Z).
Hypothesis Hd : draws rnd.
#[local] Notation env := (MkEnv now rnd).

Lemma later_from n n1 n' : same_deadline n n1 → later now n1 n' → later now n n'.
Proof. intros Hs. etrans; [|done]. by eapply same_later. Qed.

Lemma observe_later t : stays (D := D) (later now) (observeTermLocked t).
Proof.
  unfold observeTermLocked. stays_tac. eapply same_later; [apply setRole_deadline|done].
Qed.
#[local] Hint Resolve observe_later : staysdb.

Lemma RequestVote_later req : stays (D := D) (later now) (RequestVote env req).
Proof. unfold RequestVote. stays_tac. Qed.

Lemma startElection_later : stays (D := D) (later now) (startElection env).
Proof.
  unfold startElection. stays_tac. destruct (setRole_deadline Candidate n0) as (E1 & E2 & E3).
  by apply later_same.
Qed.

Lemma becomeLeader_later n : later now n (becomeLeaderLocked n).
Proof. unfold becomeLeaderLocked. by destruct (bool_decide _); apply later_same. Qed.
#[local] Hint Resolve becomeLeader_later : staysdb.

Lemma handleVoteReply_later ca reply : stays (D := D) (later now) (handleVoteReply ca reply).
Proof. unfold handleVoteReply. stays_tac. Qed.

Lemma merge_later prev es : stays (D := D) (later now) (mergeEntriesLocked prev es).
Proof. unfold mergeEntriesLocked. stays_tac. Qed.
#[local] Hint Resolve merge_later : staysdb.

Lemma setCommit_later v n : later now n (applyCommittedLocked (set_commitIndex v n)).
Proof. eapply same_later; [apply applyCommitted_deadline|done]. Qed.
#[local] Hint Resolve setCommit_later : staysdb.

Lemma AppendEntries_later req : stays (D := D) (later now) (AppendEntries env req).
Proof.
  unfold AppendEntries. stays_tac.
  eapply later_from; [|by apply later_reset]. apply (setRole_deadline Follower n1).
Qed.

Lemma appendLocal_later cmd : stays (D := D) (later now) (appendLocalLocked cmd).
Proof. unfold appendLocalLocked. stays_tac. Qed.
#[local] Hint Resolve appendLocal_later : staysdb.

Lemma handleAppendReply_later peer prev num reply :
  stays (D := D) (later now) (handleAppendEntriesReplyLocked peer prev num reply).
Proof.
  unfold handleAppendEntriesReplyLocked. stays_tac; by destruct (_ <? _); apply later_same.
Qed.
#[local] Hint Resolve handleAppendReply_later : staysdb.

Lemma replace_later path : stays (D := D) (later now) (replaceSnapshotFileLocked path).
Proof. unfold replaceSnapshotFileLocked. stays_tac. Qed.
#[local] Hint Resolve replace_later : staysdb.

Lemma compact_later file : stays (D := D) (later now) (compactLocked file).
Proof. unfold compactLocked. stays_tac. Qed.
#[local] Hint Resolve compact_later : staysdb.

Lemma pollCompact_later target fetch : stays (D := D) (later now) (pollCompact target fetch).
Proof. unfold pollCompact. stays_tac. Qed.

Lemma catchUp_disk_later file : stays (D := D) (later now) (catchUp_disk file).
Proof. unfold catchUp_disk. stays_tac. Qed.

Lemma catchUp_restore_later file : stays (D := D) (later now) (catchUp_restore file).
Proof. unfold catchUp_restore. stays_tac. Qed.

Lemma catchUp_install_later file path : stays (D := D) (later now) (catchUp_install file path).
Proof. unfold catchUp_install. stays_tac; by destruct (_ <? _); apply later_same. Qed.
#[local] Hint Resolve pollCompact_later catchUp_disk_later catchUp_restore_later catchUp_install_later : staysdb.

Lemma run_local_later op : stays (D := D) (later now) (run_local op).
Proof.
  destruct op; simpl; unfold ignore, Propose, ProposeSync_begin, ConfirmCompaction, FollowerLinearizableRead; stays_tac.
Qed.

#[local] Hint Resolve RequestVote_later AppendEntries_later handleVoteReply_later run_local_later : staysdb.

Lemma run_op_later op : stays (D := D) (later now) (run_op env op).
Proof.
  destruct op; simpl; unfold ignore, sendAppendEntriesAndHandle; stays_tac.
Qed.

End ops.

(** ** When elections start *)

Definition ev_draws (ev : Event) : Prop :=
  match ev with
  | EvElect rnd | EvOp rnd _ => draws rnd
  | _ => True
  end.

(** Control events leave clock, node and network alone; the election loop
    changes only by its own events. *)
Definition control (ev : Event) : bool :=
  match ev with
  | EvStop | EvLaunch _ | EvStopSeen _ | EvTick _ => true
  | _ => false
  end.

Definition same_proc p p' : Prop :=
  pr_now p' = pr_now p ∧ pr_s p' = pr_s p ∧ pr_sent p' = pr_sent p.

Ltac split_loops k :=
  destruct k; [destruct (l_elect _) eqn:EL|destruct (l_beat _) eqn:EL|destruct (l_poll _) eqn:EL]; try done.

Lemma exec_control ev p p' : control ev = true → exec ev p = Some p' → same_proc p p'.
Proof.
  intros Hc. unfold exec. destruct (pr_crashed p); [done|].
  destruct ev as [d| |k|k|k|rnd| |info fetch|rnd op]; try done; clear Hc; intros E.
  - injection E as <-. by destruct p as [now s cat [[] [] e b q] out cr].
  - unfold launch, launched in E. cbv zeta in E. split_loops k; injection E as <-; by destruct (NewTicker _).
  - unfold stop_seen, returns in E. cbv zeta in E. split_loops k; destruct (l_stopCh _); try done; by injection E as <-.
  - unfold tick, electionTicker_read, heartbeatTicker_read, snapshotPollLoop_read in E. cbv zeta in E.
    split_loops k; by injection E as <-.
Qed.

Lemma poll_act_later now info fetch p p' :
  snapshotPollLoop_act info fetch p = Some p' →
  later now (pr_s p).1 (pr_s p').1 ∧ pr_now p' = pr_now p ∧ pr_sent p' = pr_sent p ∧
  l_elect (pr_loops p') = l_elect (pr_loops p).
Proof.
  unfold snapshotPollLoop_act. cbv zeta. intros E.
  destruct (l_poll _) as [| | |[|[|u|u]|f q|f q]|]; try done.
  - destruct (snapshotPollDecide _ _); by injection E as <-.
  - by injection E as <-.
  - destruct fetch as [f|]; [|by injection E as <-].
    pose proof (catchUp_disk_later now f (pr_s p)) as HL.
    destruct (catchUp_disk _ _) as [[q|e] s']; by injection E as <-.
  - injection E as <-. split; [apply (pollCompact_later now u fetch (pr_s p))|done].
  - injection E as <-. split; [apply (catchUp_restore_later now f (pr_s p))|done].
  - injection E as <-. split; [apply (catchUp_install_later now f q (pr_s p))|done].
Qed.

Lemma beat_act_same p p' :
  heartbeatTicker_act p = Some p' →
  pr_now p' = pr_now p ∧ pr_s p' = pr_s p ∧ l_elect (pr_loops p') = l_elect (pr_loops p) ∧
  (pr_sent p' = pr_sent p ∨ ∃ t reqs, pr_sent p' = pr_sent p ++ [OutAppend t reqs]).
Proof.
  unfold heartbeatTicker_act. cbv zeta. intros E.
  destruct (l_beat _) as [| | |[]|]; try done; [|injection E as <-; by eauto].
  destruct (broadcastAppendEntries _) as [[t [|r rs]]|]; injection E as <-; split_and!; try done; eauto.
Qed.

Lemma elect_act_later env p p' :
  draws (env_Int63n env) → env_now env = pr_now p → electionTicker_act env p = Some p' →
  later (pr_now p) (pr_s p).1 (pr_s p').1 ∧ pr_now p' = pr_now p.
Proof.
  intros Hd Hn. unfold electionTicker_act. cbv zeta. intros E.
  destruct (l_elect _) as [| | |[role el to|ca]|]; try done.
  - destruct (_ && _); [|by injection E as <-]. destruct env as [now rnd]. simpl in *. subst now.
    pose proof (startElection_later (pr_now p) rnd Hd (pr_s p)) as HL.
    destruct (startElection _ _) as [[[[ca req]|]|e] s']; by injection E as <-.
  - injection E as <-. simpl. split; [|done]. unfold electionSelfQuorum. destruct (_ && _); [|done].
    apply becomeLeader_later.
Qed.

(** Clocks and deadlines only move forward. *)
Lemma exec_later ev p p' :
  exec ev p = Some p' → ev_draws ev →
  later (pr_now p') (pr_s p).1 (pr_s p').1 ∧ pr_now p ≤ pr_now p'.
Proof.
  destruct (control ev) eqn:Hc.
  { intros (-> & -> & _)%exec_control _; done. }
  unfold exec. destruct (pr_crashed p); [done|]. intros E Hd.
  destruct ev as [d| |k|k|k|rnd| |info fetch|rnd op]; try done; simpl in *.
  - destruct (0 <=? d) eqn:E0; [|done]. zbool. injection E as <-. simpl. split; [done|lia].
  - by destruct (elect_act_later (MkEnv (pr_now p) rnd) _ _ Hd eq_refl E) as [HL ->].
  - by apply beat_act_same in E as (-> & -> & _).
  - destruct (poll_act_later (pr_now p) _ _ _ _ E) as (HL & -> & _). done.
  - injection E as <-. split; [by apply (run_op_later (pr_now p) rnd Hd op (pr_s p))|simpl; lia].
Qed.

(** The electionTicker holds values on which it will call startElection. *)
Definition elect_pending p : bool :=
  match l_elect (pr_loops p) with
  | Acting (ERead role elapsed timeout) => negb (bool_decide (role = Leader)) && (timeout <=? elapsed)
  | _ => false
  end.

Definition is_campaign (o : Out) : Prop :=
  match o with OutCampaign _ _ => True | OutAppend _ _ => False end.

#[export] Instance is_campaign_dec o : Decision (is_campaign o).
Proof. destruct o; apply _. Defined.

Definition campaigns p : list Out := filter is_campaign (pr_sent p).

(** Only a pending decision starts a campaign, and only a tick at a passed
    deadline makes one pending. *)
Lemma exec_elect ev p p' :
  exec ev p = Some p' → elect_pending p = false →
  campaigns p' = campaigns p ∧
  (elect_pending p' = true → electionDue (pr_now p) (pr_s p).1 = true).
Proof.
  intros E0 Hp. destruct (control ev) eqn:Hc.
  { pose proof (exec_control _ _ _ Hc E0) as (_ & _ & Hs). split; [unfold campaigns; by rewrite Hs|].
    unfold exec in E0. destruct (pr_crashed p); [done|]. destruct ev as [d| |k|k|k|rnd| |info fetch|rnd op]; try done.
    - injection E0 as <-. destruct p as [now s cat [[] [] e b q] out cr]; unfold elect_pending in *; cbn in *; by rewrite Hp.
    - unfold launch, launched in E0. cbv zeta in E0. unfold elect_pending in *.
      split_loops k; injection E0 as <-; destruct (NewTicker _); cbn; try done; try rewrite EL; intros; try done; rewrite Hp in *; done.
    - unfold stop_seen, returns in E0. cbv zeta in E0. unfold elect_pending in *.
      split_loops k; destruct (l_stopCh _); try done; injection E0 as <-; cbn; try done; congruence.
    - unfold tick, electionTicker_read, heartbeatTicker_read, snapshotPollLoop_read in E0. cbv zeta in E0.
      unfold elect_pending in *. split_loops k; injection E0 as <-; cbn; try done; congruence. }
  unfold exec in E0. destruct (pr_crashed p); [done|].
  destruct ev as [d| |k|k|k|rnd| |info fetch|rnd op]; try done; simpl in *.
  - destruct (0 <=? d); [|done]. injection E0 as <-. split; [done|]. unfold elect_pending in *. simpl. congruence.
  - unfold electionTicker_act, elect_pending in *. cbv zeta in E0.
    destruct (l_elect _) as [| | |[role el to|ca]|]; try done; [rewrite Hp in E0|]; by injection E0 as <-.
  - apply beat_act_same in E0 as (_ & _ & El & Hs). unfold elect_pending, campaigns in *. rewrite El.
    split; [|congruence]. destruct Hs as [->|(t & reqs & ->)]; [done|]. by rewrite filter_app, app_nil_r.
  - destruct (poll_act_later 0 _ _ _ _ E0) as (_ & _ & Hs & El). unfold elect_pending, campaigns in *.
    rewrite Hs, El. split; [done|congruence].
  - injection E0 as <-. split; [done|]. unfold elect_pending in *. simpl. congruence.
Qed.

(** The event is an AppendEntries of a leader this node accepts. *)
Definition hears (ev : Event) p : bool :=
  match ev with
  | EvOp rnd (RoAppendEntries req) =>
      (n_currentTerm (pr_s p).1 <=? ae_Term req) &&
      match (AppendEntries (MkEnv (pr_now p) rnd) req (pr_s p)).1 with Ok _ => true | Err _ => false end
  | _ => false
  end.

(** Along the run the leader was last heard at most [gap] ago; [heard] is when
    that was before the run. *)
Fixpoint hearing (gap heard : Z) (evs : list Event) p : Prop :=
  match evs with
  | [] => True
  | ev :: evs =>
      match exec ev p with
      | None => True
      | Some p' =>
          let heard' := if hears ev p then pr_now p else heard in
          pr_now p' ≤ heard' + gap ∧ hearing gap heard' evs p'
      end
  end.

#[export] Instance same_deadline_preorder : PreOrder same_deadline.
Proof.
  split; [done|]. intros n1 n2 n3 (E1 & E2 & E3) (F1 & F2 & F3). split_and!; congruence.
Qed.

Lemma set_commit_deadline v n : same_deadline n (applyCommittedLocked (set_commitIndex v n)).
Proof. destruct (applyCommitted_deadline (set_commitIndex v n)) as (?&?&?). done. Qed.
#[local] Hint Resolve set_commit_deadline : staysdb.

Lemma merge_deadline prev es : stays (D := D) same_deadline (mergeEntriesLocked prev es).
Proof. unfold mergeEntriesLocked. stays_tac. Qed.
#[local] Hint Resolve merge_deadline : staysdb.

Lemma hears_resets rnd req p :
  hears (EvOp rnd (RoAppendEntries req)) p = true →
  n_lastHeartbeat (AppendEntries (MkEnv (pr_now p) rnd) req (pr_s p)).2.1 = pr_now p.
Proof.
  unfold hears. rewrite andb_true_iff, Z.leb_le. intros [Ht Hok]. revert Hok.
  unfold AppendEntries. rewrite nbind_getN. set (env := MkEnv _ _).
  match goal with |- context[(?o ≫= _) (pr_s p)] => set (ob := o) end.
  assert (Hob : (∃ b s1, ob (pr_s p) = (Ok b, s1) ∧ n_currentTerm s1.1 = ae_Term req) ∨ ∃ e s1, ob (pr_s p) = (Err e, s1)).
  { unfold ob, observeTermLocked. destruct (_ <? _) eqn:E; [|zbool; left; eexists _, _; split; [reflexivity|lia]].
    rewrite nbind_getN. destruct (_ <=? _) eqn:E'; [zbool; lia|]. rewrite nbind_modifyN.
    destruct (setRole_shape Follower (set_votedFor "" (set_currentTerm (ae_Term req) (pr_s p).1))) as (W & C & ->).
    unfold persistStateLocked. unfold_node. destruct (st_SaveState _ _ _ _) as [[[]|e] d1]; [left|right; eauto].
    by eexists _, _. }
  destruct Hob as [(b & s1 & Hb & Hs1)|(e & s1 & Hb)]; node_step Hb; [|done].
  rewrite nbind_getN. rewrite (proj2 (Z.ltb_ge _ _)) by lia. rewrite nbind_modifyN. intros _.
  match goal with |- context[?m (?n1, ?d)] => assert (Hi : stays same_deadline m) by stays_tac;
    destruct (Hi (n1, d)) as (_ & -> & _) end.
  done.
Qed.

(** A node that hears from its leader at least every [gap], less than the
    minimum election timeout, never campaigns. *)
Lemma hearing_no_campaign gap heard evs p p' :
  gap < ElectionTimeoutMin (n_timing (pr_s p).1) → in_range (pr_s p).1 →
  heard ≤ n_lastHeartbeat (pr_s p).1 ≤ pr_now p → pr_now p ≤ heard + gap → elect_pending p = false →
  Forall ev_draws evs → hearing gap heard evs p → run evs p = Some p' →
  campaigns p' = campaigns p ∧ electionDue (pr_now p') (pr_s p').1 = false.
Proof.
  intros Hg Hr Hh Hn Hp Hd. revert heard p Hg Hr Hh Hn Hp.
  assert (Hdue : ∀ heard p, gap < ElectionTimeoutMin (n_timing (pr_s p).1) → in_range (pr_s p).1 →
    heard ≤ n_lastHeartbeat (pr_s p).1 → pr_now p ≤ heard + gap → electionDue (pr_now p) (pr_s p).1 = false).
  { intros heard p Hg [Hr _] Hh Hn. unfold electionDue. rewrite (proj2 (Z.leb_gt _ _)) by lia. apply andb_false_r. }
  induction Hd as [|ev evs Hev _ IH]; intros heard p Hg Hr Hh Hn Hp; cbn [run hearing].
  - intros _ [= ->]. split; [done|]. by apply (Hdue heard); try apply Hh.
  - destruct (exec ev p) as [q|] eqn:E; [|done]. intros [Hq Hc] Hrun.
    destruct (exec_later _ _ _ E Hev) as ((Et & El & Er) & Hnow).
    destruct (exec_elect _ _ _ E Hp) as [Ec Ep]. destruct (El ltac:(lia)) as [El1 El2].
    edestruct (IH (if hears ev p then pr_now p else heard) q) as [Ec' Hd']; try done.
    + by rewrite Et.
    + by apply Er.
    + split; [|done]. destruct (hears ev p) eqn:Eh; [|lia].
      destruct ev as [| | | | | | | |rnd [|req| | |]]; try done.
      pose proof (hears_resets _ _ _ Eh) as Hres. unfold exec in E. destruct (pr_crashed p); [done|].
      injection E as <-. simpl. unfold ignore, gtry. unfold_node.
      destruct (AppendEntries _ _ _) as [r s1]. simpl in *. lia.
    + destruct (elect_pending q); [|done]. rewrite (Hdue heard p) in Ep by (done || lia). by discriminate Ep.
    + split; [congruence|done].
Qed.

(** The values electionTicker has read stay until it acts on them. *)
Definition is_elect (ev : Event) : bool := match ev with EvElect _ => true | _ => false end.

Lemma exec_elect_pc ev p p' a :
  is_elect ev = false → l_elect (pr_loops p) = Acting a → exec ev p = Some p' → l_elect (pr_loops p') = Acting a.
Proof.
  intros He Hl. unfold exec. destruct (pr_crashed p); [done|]. intros E.
  destruct ev as [d| |k|k|k|rnd| |info fetch|rnd op]; try done; simpl in *.
  - destruct (0 <=? d); [|done]. by injection E as <-.
  - injection E as <-. by destruct p as [now s cat [[] [] e b q] out cr].
  - unfold launch, launched in E. cbv zeta in E. rewrite Hl in E.
    destruct k; [done|destruct (l_beat _)|destruct (l_poll _)]; try done;
      injection E as <-; by destruct (NewTicker _).
  - unfold stop_seen, returns in E. cbv zeta in E. rewrite Hl in E.
    destruct k; [done|destruct (l_beat _)|destruct (l_poll _)]; try done;
      destruct (l_stopCh _); try done; by injection E as <-.
  - unfold tick, electionTicker_read, heartbeatTicker_read, snapshotPollLoop_read in E. cbv zeta in E. rewrite Hl in E.
    destruct k; [done|destruct (l_beat _)|destruct (l_poll _)]; try done; by injection E as <-.
  - by apply beat_act_same in E as (_ & _ & -> & _).
  - by apply (poll_act_later 0) in E as (_ & _ & _ & ->).
  - by injection E as <-.
Qed.

Lemma run_elect_pc evs p p' a :
  Forall (λ ev, is_elect ev = false) evs → l_elect (pr_loops p) = Acting a → run evs p = Some p' →
  l_elect (pr_loops p') = Acting a.
Proof.
  intros Hf Ha Hr. refine (run_ind _ (λ p, l_elect (pr_loops p) = Acting a) _ _ _ _ Hf Hr Ha).
  intros ev q q' He Hq. by apply exec_elect_pc.
Qed.

(** startElection on a node that does not lead: the campaign of the next
    term, or, when the new term cannot be stored, nothing is sent. *)
Lemma startElection_campaigns env s :
  n_role s.1 ≠ Leader →
  (∃ ca req s', startElection env s = (Ok (Some (ca, req)), s') ∧ ca_pending ca = n_peers s.1 ∧
     rv_CandidateId req = n_id s.1 ∧ rv_Term req = n_currentTerm s.1 +u 1 ∧
     n_currentTerm s'.1 = n_currentTerm s.1 +u 1 ∧ n_votedFor s'.1 = n_id s.1 ∧ n_role s'.1 = Candidate) ∨
  (∃ e d', st_SaveState (n_dataDir s.1) (n_currentTerm s.1 +u 1) (n_id s.1) s.2 = (Err e, d') ∧
     (startElection env s).1 = Ok None).
Proof.
  destruct s as [n d]. simpl. intros Hr. unfold startElection. rewrite nbind_getN. cbn [fst].
  rewrite bool_decide_eq_false_2 by done. rewrite nbind_modifyN. cbn [fst snd].
  destruct (setRole_shape Candidate n) as (W & C & ->).
  unfold gtry, persistStateLocked. unfold_node. cbn.
  destruct (st_SaveState _ _ _ _) as [[[]|e] d']; [left|right; by eauto].
  by eexists _, _, _.
Qed.

(** When nothing has been heard for the maximum election timeout, the next
    tick decides for an election and electionTicker starts it, whatever else
    the node does before it gets to it. *)
Lemma silence_campaign p :
  pr_crashed p = false → l_elect (pr_loops p) = Waiting → n_role (pr_s p).1 ≠ Leader →
  in_range (pr_s p).1 → ElectionTimeoutMin (n_timing (pr_s p).1) < ElectionTimeoutMax (n_timing (pr_s p).1) →
  n_lastHeartbeat (pr_s p).1 + ElectionTimeoutMax (n_timing (pr_s p).1) ≤ pr_now p →
  ∃ p1, exec (EvTick LElect) p = Some p1 ∧
    ∀ mid p2 rnd, Forall (λ ev, is_elect ev = false) mid → run mid p1 = Some p2 → pr_crashed p2 = false →
      n_role (pr_s p2).1 ≠ Leader →
      ∃ p3, exec (EvElect rnd) p2 = Some p3 ∧
        ((∃ ca req, pr_sent p3 = pr_sent p2 ++ [OutCampaign ca req] ∧ ca_pending ca = n_peers (pr_s p2).1 ∧
            rv_CandidateId req = n_id (pr_s p2).1 ∧ rv_Term req = n_currentTerm (pr_s p2).1 +u 1) ∨
         (∃ e d', st_SaveState (n_dataDir (pr_s p2).1) (n_currentTerm (pr_s p2).1 +u 1)
            (n_id (pr_s p2).1) (pr_s p2).2 = (Err e, d'))).
Proof.
  intros Hc Hw Hr [_ Hi] Hm Hs. specialize (Hi Hm). eexists. split.
  { unfold exec. rewrite Hc. simpl. unfold electionTicker_read. cbv zeta. by rewrite Hw. }
  intros mid p2 rnd Hmid Hrun Hc2 Hr2. eapply run_elect_pc in Hrun; [|done|reflexivity].
  unfold exec. rewrite Hc2. unfold electionTicker_act. cbv zeta. rewrite Hrun.
  rewrite bool_decide_eq_false_2 by done. rewrite (proj2 (Z.leb_le _ _)) by lia. cbn [negb andb].
  destruct (startElection_campaigns (MkEnv (pr_now p2) rnd) (pr_s p2) Hr2)
    as [(ca & req & s' & -> & Hp & Hid & Ht & _)|(e & d' & He & Hn)].
  - eexists. split; [reflexivity|]. left. by exists ca, req.
  - destruct (startElection _ _) as [r s']. simpl in Hn. subst r. eexists. split; [reflexivity|]. right. eauto.
Qed.

(** ** A process from its start *)

(** [p] is a node built by NewNode with timing [t] and started, some events
    later. *)
Definition lives (t : TimingConfig) p : Prop :=
  ∃ env cfg (d : D) n d' catalog evs,
    draws (env_Int63n env) ∧ cfg_Timing cfg = t ∧ NewNode env cfg d = (Ok n, d') ∧ Forall ev_draws evs ∧
    run evs (Start (NewProc (env_now env) catalog (n, d'))) = Some p.

Lemma NewNode_deadline env cfg (d : D) n d' :
  draws (env_Int63n env) → NewNode env cfg d = (Ok n, d') →
  n_timing n = cfg_Timing cfg ∧ n_lastHeartbeat n = env_now env ∧ in_range n.
Proof.
  intros Hd. unfold NewNode. unfold mbind, mret, GoM_bind, GoM_ret.
  destruct (st_LoadState _ d) as [[[t v]|e] d1]; [|done].
  destruct (st_ReadAllLogEntries _ d1) as [[log|e] d2]; [|done].
  destruct (initial_log cfg log) as [[[lg off] app] path]. intros [= <- <-]. destruct env as [now rnd].
  split; [done|]. split; [done|]. simpl in Hd.
  unfold in_range, resetElectionDeadlineLocked. cbn.
  pose proof (Hd (ElectionTimeoutMax (cfg_Timing cfg) - ElectionTimeoutMin (cfg_Timing cfg))).
  destruct (0 <? _) eqn:E; zbool; lia.
Qed.

Lemma lives_ind t (P : Proc → Prop) p :
  (∀ env cfg (d : D) n d' catalog, draws (env_Int63n env) → cfg_Timing cfg = t → NewNode env cfg d = (Ok n, d') →
     P (Start (NewProc (env_now env) catalog (n, d')))) →
  (∀ ev q q', ev_draws ev → P q → exec ev q = Some q' → P q') →
  lives t p → P p.
Proof.
  intros H0' Hstep (env & cfg & d & n & d' & cat & evs & Hd & Ht & Hn & Hev & Hrun).
  eapply (run_ind ev_draws P); [exact Hstep|exact Hev|exact Hrun|]. by eapply H0'.
Qed.

Lemma lives_timed t p :
  lives t p → n_timing (pr_s p).1 = t ∧ n_lastHeartbeat (pr_s p).1 ≤ pr_now p ∧ in_range (pr_s p).1.
Proof.
  apply (lives_ind t (λ p, n_timing (pr_s p).1 = t ∧ n_lastHeartbeat (pr_s p).1 ≤ pr_now p ∧ in_range (pr_s p).1)).
  - intros env cfg d n d' cat Hd Ht Hn. destruct (NewNode_deadline _ _ _ _ _ Hd Hn) as (E1 & E2 & E3).
    simpl. split_and!; [congruence|lia|done].
  - intros ev q q' Hev (E1 & E2 & E3) E. destruct (exec_later _ _ _ E Hev) as ((F1 & F2 & F3) & Hnow).
    destruct (F2 ltac:(lia)). split_and!; [congruence|lia|by apply F3].
Qed.

(** The stop channel is closed by the first Stop and by nothing else. *)
Lemma exec_stop ev p p' :
  exec ev p = Some p' → l_stopCh (pr_loops p) = l_stopOnce (pr_loops p) →
  l_stopCh (pr_loops p') = l_stopOnce (pr_loops p') ∧
  (l_stopCh (pr_loops p) = true → l_stopCh (pr_loops p') = true) ∧
  (ev = EvStop → pr_crashed p' = false ∧ l_stopCh (pr_loops p') = true ∧ pr_s p' = pr_s p).
Proof.
  intros E Hs. unfold exec in E. destruct (pr_crashed p) eqn:Hc; [done|].
  destruct ev as [d| |k|k|k|rnd| |info fetch|rnd op]; simpl in *.
  - destruct (0 <=? d); [|done]. by injection E as <-.
  - injection E as <-. destruct p as [now s cat [[] [] e b q] out cr]; simpl in *; by subst.
  - unfold launch, launched in E. cbv zeta in E. split_loops k; injection E as <-; by destruct (NewTicker _).
  - unfold stop_seen, returns in E. cbv zeta in E. split_loops k; destruct (l_stopCh _) eqn:E'; try done; injection E as <-; cbn; (split_and!; [congruence|done|done]).
  - unfold tick, electionTicker_read, heartbeatTicker_read, snapshotPollLoop_read in E. cbv zeta in E.
    split_loops k; by injection E as <-.
  - unfold electionTicker_act in E. cbv zeta in E. destruct (l_elect _) as [| | |[role el to|ca]|]; try done.
    + destruct (_ && _); [|by injection E as <-].
      destruct (startElection _ _) as [[[[ca req]|]|e] s']; by injection E as <-.
    + by injection E as <-.
  - unfold heartbeatTicker_act in E. cbv zeta in E.
    destruct (l_beat _) as [| | |[]|]; try done; [|by injection E as <-].
    destruct (broadcastAppendEntries _) as [[u [|r rs]]|]; by injection E as <-.
  - unfold snapshotPollLoop_act in E. cbv zeta in E.
    destruct (l_poll _) as [| | |[|[|u|u]|f q|f q]|]; try done; try by injection E as <-.
    + destruct (snapshotPollDecide _ _); by injection E as <-.
    + destruct fetch as [f|]; [|by injection E as <-].
      destruct (catchUp_disk _ _) as [[q|e] s']; by injection E as <-.
  - by injection E as <-.
Qed.

Lemma lives_stop t p : lives t p → l_stopCh (pr_loops p) = l_stopOnce (pr_loops p).
Proof.
  apply (lives_ind t (λ p, l_stopCh (pr_loops p) = l_stopOnce (pr_loops p))); [by intros env cfg d n d' []|]. intros ev q q' _ Hq E. by apply (exec_stop _ _ _ E Hq).
Qed.

(** Stop can be called at any time and as often as one likes: it closes the
    channel once and never panics; the channel stays closed, and a loop that
    waits in its select can return. *)
Lemma Stop_safe t p :
  lives t p → pr_crashed p = false →
  ∃ p', exec EvStop p = Some p' ∧ exec EvStop p' = Some p' ∧ pr_crashed p' = false ∧ pr_s p' = pr_s p ∧
    ∀ evs q, Forall ev_draws evs → run evs p' = Some q →
      l_stopCh (pr_loops q) = true ∧
      (pr_crashed q = false → l_elect (pr_loops q) = Waiting → is_Some (exec (EvStopSeen LElect) q)) ∧
      (pr_crashed q = false → l_beat (pr_loops q) = Waiting → is_Some (exec (EvStopSeen LBeat) q)) ∧
      (pr_crashed q = false → l_poll (pr_loops q) = Waiting → is_Some (exec (EvStopSeen LPoll) q)).
Proof.
  intros Hl Hc. pose proof (lives_stop _ _ Hl) as Hs. destruct (exec EvStop p) as [p'|] eqn:E.
  2: { unfold exec in E. by rewrite Hc in E. }
  destruct (exec_stop _ _ _ E Hs) as (Hs' & _ & He). destruct (He eq_refl) as (Hc' & Hch & Hsame).
  exists p'. split; [done|]. split.
  { unfold exec. rewrite Hc'. unfold Stop. cbv zeta. by rewrite <-Hs', Hch. }
  split; [done|]. split; [done|]. intros evs q Hev Hr.
  assert (Hq : l_stopCh (pr_loops q) = l_stopOnce (pr_loops q) ∧ l_stopCh (pr_loops q) = true).
  { refine (run_ind ev_draws (λ q, l_stopCh (pr_loops q) = l_stopOnce (pr_loops q) ∧ l_stopCh (pr_loops q) = true)
      evs p' q _ Hev Hr (conj Hs' Hch)). intros ev q1 q2 _ [H1 H2] E2. destruct (exec_stop _ _ _ E2 H1) as (? & Hk & _).
    split; [done|by apply Hk]. }
  destruct Hq as [_ Hq]. split; [done|].
  unfold exec, stop_seen, returns. cbv zeta. rewrite Hq. split_and!; intros -> ->; by eexists.
Qed.

(** The sections of snapshotPollLoop's body, nothing in between, are
    snapshotPollOnce. *)
Lemma pollLoop_once info fetch p :
  pr_crashed p = false → l_poll (pr_loops p) = Waiting →
  ∃ k p', run (EvTick LPoll :: replicate k (EvPoll info fetch)) p = Some p' ∧
    l_poll (pr_loops p') = Waiting ∧
    pr_s p' = (snapshotPollOnce info fetch (mret tt) (mret tt) (mret tt) (pr_s p)).2.
Proof.
  intros Hc Hw. destruct p as [now s cat [so sc e b q] out cr]. simpl in *. subst cr q.
  unfold snapshotPollOnce. rewrite nbind_getN. destruct (snapshotPollDecide info s.1) as [|u|u] eqn:Ed.
  - exists 1%nat. eexists. cbn. rewrite Ed. split_and!; reflexivity.
  - rewrite nbind_ret. destruct fetch as [file|]; cbn [catchUpFromSnapshot].
    + unfold gtry. destruct (catchUp_disk file s) as [[path|er] s1] eqn:Ec.
      * exists 4%nat. eexists. cbn. rewrite Ed. cbn. rewrite Ec. cbn. split_and!; [reflexivity..|].
        unfold catchUp_restore. unfold_node. by rewrite Ec.
      * exists 2%nat. eexists. cbn. rewrite Ed. cbn. rewrite Ec. cbn. split_and!; [reflexivity..|].
        unfold_node. by rewrite Ec.
    + exists 2%nat. eexists. cbn. rewrite Ed. cbn. split_and!; reflexivity.
  - exists 2%nat. eexists. cbn. rewrite Ed. cbn. split_and!; [reflexivity..|]. by rewrite nbind_ret.
Qed.

End tickers.

(** FNV-1a on the published test vectors. *)
Example fnvHash_vectors :
  fnvHash "" = 0x811c9dc5 ∧ fnvHash "a" = 0xe40c292c ∧ fnvHash "foobar" = 0xbf9cf968.
Proof. by vm_compute. Qed.
