(* ===== verification/Harness.v ===== *)
(** * internal/raft/harness: the in-process network and cluster

    The tests' fake network with its fault-injection filters, the cluster
    builder and the fake snapshot catalog.  The Go code keeps pointers to the
    nodes in two maps; here the network holds the nodes' states, each with its
    own data directory.  A test that drives nodes over this network makes
    steps of RaftCluster, so what is proved of that cluster holds of it. *)

From Stdlib Require Import Strings.Byte DecimalString DecimalN.
From S2P Require Import Prelude Pb Fs Persistence SnapshotFile Storage RaftNode RaftElection.
From S2P Require Import RaftReplication RaftLog RaftCommit RaftSnapshot RaftReadIndex RaftVotes.
From S2P Require Import RaftCluster RaftSafety RaftSpec RaftHealthy RaftImplements RaftRefine.
Import SnapshotFile.

Module Harness.

(** ** network.go *)

Inductive MessageKind : Type := KindRequestVote | KindAppendEntries | KindReadIndex.

(** from, to, kind to (dropRequest, dropReply, delay). *)
Definition Filter : Type := string → string → MessageKind → bool * bool * Z.

Definition errDropped : goerr := ErrMsg "harness: message dropped".

(** [ctxDone]: the caller's context ends before the delay is over. *)
Definition wait (ctxDone : bool) (d : Z) : option goerr := if ctxDone then Some ErrCtxDone else None.

Definition Disconnected (ids : list string) : Filter := λ from to _,
  let set := list_to_set ids : gset string in
  (bool_decide (from ∈ set) || bool_decide (to ∈ set), false, 0).

Definition DropReplyFrom (id : string) : Filter := λ from _ _, (false, bool_decide (from = id), 0).

Section network.
Context {SM : Type} `{StateMachine SM} {D : Type} `{Storage D} `{GF : Codec File}.

Record Network : Type := MkNetwork {
  net_nodes : gmap string (Node SM * D);
  net_filter : option Filter
}.

Definition NewNetwork : Network := MkNetwork ∅ None.
Definition Register (id : string) (s : Node SM * D) (net : Network) : Network :=
  MkNetwork (<[id := s]> (net_nodes net)) (net_filter net).
Definition SetFilter (f : option Filter) (net : Network) : Network := MkNetwork (net_nodes net) f.
Definition route (to : string) (net : Network) : option (Node SM * D) * option Filter :=
  (net_nodes net !! to, net_filter net).

(** The node, dropReq, dropReply and delay of a message. *)
Definition check (from peerID : string) (kind : MessageKind) (net : Network) :
    option (Node SM * D) * bool * bool * Z :=
  let '(n, filter) := route peerID net in
  match n with
  | None => (None, true, false, 0)
  | Some s =>
      match filter with
      | None => (Some s, false, false, 0)
      | Some f => let '(dropReq, dropReply, delay) := f from peerID kind in
          (Some s, dropReq, dropReply, delay)
      end
  end.

(** The three Send methods of fakeTransport differ in kind and handler only. *)
Definition send {A} (kind : MessageKind) (handler : NodeM SM D A) (from peerID : string)
    (ctxDone : bool) (net : Network) : result A * Network :=
  let '(node, dropReq, dropReply, delay) := check from peerID kind net in
  match node with
  | None => (Err errDropped, net)
  | Some s =>
      if dropReq then (Err errDropped, net) else
      match (if 0 <? delay then wait ctxDone delay else None) with
      | Some err => (Err err, net)
      | None =>
          let '(reply, s') := handler s in
          let net' := Register peerID s' net in
          (if dropReply then Err errDropped else reply, net')
      end
  end.

Definition SendRequestVote (env : Env) (from peerID : string) (req : RequestVoteRequest) :=
  send KindRequestVote (RequestVote env req) from peerID.
Definition SendAppendEntries (env : Env) (from peerID : string) (req : AppendEntriesRequest) :=
  send KindAppendEntries (AppendEntries env req) from peerID.
(** [others] and [events]: what happens at the leader while it reconfirms. *)
Definition SendReadIndex (from peerID : string) (req : ReadIndexRequest)
    (others : NodeM SM D unit) (events : list RoundEvent) :=
  send KindReadIndex (RequestReadIndex others events) from peerID.

(** ** snapshotcatalog.go *)

Record FakeSnapshotCatalog : Type := MkFake {
  fk_available : bool;
  fk_file : File;
  fk_fetchErr : option goerr;
  fk_infoErr : option goerr
}.

Definition SetSnapshot (file : File) (f : FakeSnapshotCatalog) : FakeSnapshotCatalog :=
  MkFake true file (fk_fetchErr f) (fk_infoErr f).
Definition SetFetchErr (err : option goerr) (f : FakeSnapshotCatalog) : FakeSnapshotCatalog :=
  MkFake (fk_available f) (fk_file f) err (fk_infoErr f).
Definition Fake_GetLatestSnapshotInfo (f : FakeSnapshotCatalog) : result SnapshotInfo :=
  match fk_infoErr f with
  | Some err => Err err
  | None => Ok (MkSnapshotInfo (f_LastIncludedIndex (fk_file f)) (f_LastIncludedTerm (fk_file f))
      (fk_available f))
  end.
Definition Fake_FetchSnapshot (f : FakeSnapshotCatalog) : result File :=
  match fk_fetchErr f with Some err => Err err | None => Ok (fk_file f) end.

(** ** Every delivery is a step of the cluster *)

Lemma send_cases {A} kind (handler : NodeM SM D A) from peerID ctxDone net r net' :
  send kind handler from peerID ctxDone net = (r, net') →
  (net' = net ∧ ∃ e, r = Err e) ∨
  ∃ s reply s', net_nodes net !! peerID = Some s ∧ handler s = (reply, s') ∧
    net_nodes net' = <[peerID := s']> (net_nodes net) ∧ (r = reply ∨ ∃ e, r = Err e).
Proof.
  unfold send, check, route. destruct (net_nodes net !! peerID) as [s|] eqn:Es; [|intros; simplify_eq; eauto].
  destruct (match net_filter net with None => _ | Some f => _ end) as [[[node dr] dp] dl] eqn:Ef.
  assert (node = Some s) as -> by (destruct (net_filter net) as [f|]; [|congruence];
    destruct (f from peerID kind) as [[? ?] ?]; congruence).
  destruct dr; [intros; simplify_eq; eauto|].
  destruct (if 0 <? dl then _ else _); [intros; simplify_eq; eauto|].
  destruct (handler s) as [reply s'] eqn:Eh. intros [= <- <-]. right. exists s, reply, s'.
  split_and!; try done. destruct dp; eauto.
Qed.

(** An isolated node exchanges nothing. *)
Lemma send_disconnected {A} kind (handler : NodeM SM D A) ids from to ctxDone net :
  net_filter net = Some (Disconnected ids) → from ∈ ids ∨ to ∈ ids →
  send kind handler from to ctxDone net = (Err errDropped, net).
Proof.
  intros Hf Hin. unfold send, check, route. destruct (net_nodes net !! to) as [s|]; [|done].
  rewrite Hf. unfold Disconnected.
  assert (E : bool_decide (from ∈ (list_to_set ids : gset string)) ||
    bool_decide (to ∈ (list_to_set ids : gset string)) = true); [|by rewrite E].
  apply orb_true_iff. rewrite !bool_decide_eq_true, !elem_of_list_to_set. done.
Qed.

(** A lost reply: the node handles the request, the sender cannot tell. *)
Lemma send_dropped_reply {A} kind (handler : NodeM SM D A) from to ctxDone net s :
  net_filter net = Some (DropReplyFrom from) → net_nodes net !! to = Some s →
  send kind handler from to ctxDone net = (Err errDropped, Register to (handler s).2 net).
Proof.
  intros Hf Hs. unfold send, check, route. rewrite Hs, Hf. unfold DropReplyFrom.
  rewrite bool_decide_eq_true_2 by done. simpl. by destruct (handler s).
Qed.

Context `{MB : Membership} `{!VoteLaws D}.
Implicit Types c : Cluster (SM := SM) (D := D).

(** C37.  The tests' network is sound for the cluster model: whatever the
    filters, delays and contexts do, sending a request that is in the
    cluster's network either delivers nothing and reports an error, or is a
    step of the cluster, and a reply that comes back is in its network.  With
    Disconnected nothing passes to or from the given nodes; with
    DropReplyFrom the request is handled but the sender gets an error. *)
Theorem harness_is_cluster_network c net env (from to : string) ctxDone :
  net_nodes net = cl_nodes c →
  (∀ req r net', MVoteReq from to req ∈ cl_net c →
     SendRequestVote env from to req ctxDone net = (r, net') →
     (net' = net ∧ ∃ e, r = Err e) ∨
     ∃ c', step c c' ∧ cl_nodes c' = net_nodes net' ∧
       ∀ reply, r = Ok reply → MVoteRep to from (rv_Term req) reply ∈ cl_net c') ∧
  (∀ term o r net', MAppReq from to term o ∈ cl_net c →
     SendAppendEntries env from to (o_req o) ctxDone net = (r, net') →
     (net' = net ∧ ∃ e, r = Err e) ∨
     ∃ c', step c c' ∧ cl_nodes c' = net_nodes net' ∧
       ∀ reply, r = Ok reply → MAppRep to from term o reply ∈ cl_net c') ∧
  (∀ ids A kind (handler : NodeM SM D A), net_filter net = Some (Disconnected ids) →
     from ∈ ids ∨ to ∈ ids → send kind handler from to ctxDone net = (Err errDropped, net)) ∧
  (∀ A kind (handler : NodeM SM D A) s, net_filter net = Some (DropReplyFrom from) →
     net_nodes net !! to = Some s →
     send kind handler from to ctxDone net = (Err errDropped, Register to (handler s).2 net)).
Proof.
  intros Hn. split_and!; [| |intros; by eapply send_disconnected|intros; by apply send_dropped_reply].
  - intros req r net' Hm [?|(s & reply & s' & Hs & Hh & Hn' & Hr)]%send_cases; [by left|right].
    rewrite Hn in Hs, Hn'. eexists. split; [by eapply step_vote_req|]. split; [by rewrite Hn'|].
    intros rep ->. destruct Hr as [<-|[? ?]]; [|done]. by left.
  - intros term o r net' Hm [?|(s & reply & s' & Hs & Hh & Hn' & Hr)]%send_cases; [by left|right].
    rewrite Hn in Hs, Hn'. eexists. split; [by eapply step_app_req|]. split; [by rewrite Hn'|].
    intros rep ->. destruct Hr as [<-|[? ?]]; [|done]. by left.
Qed.

End network.

(** ** cluster.go *)

(** What the callback records: the messages applied so far.  The harness's
    nodes have no snapshots, so there is nothing to restore. *)
#[export] Instance applied_log : StateMachine (list ApplyMsg) := {|
  sm_ApplyFn msg applied := applied ++ [msg];
  sm_Restore _ applied := applied
|}.

Definition millisecond : Z := 1000000.
Definition FastTiming : TimingConfig :=
  MkTimingConfig (60 * millisecond) (120 * millisecond) (15 * millisecond).

(** Sprintf("node-%d", i+1) *)
Definition node_id (i : nat) : string := "node-" +:+ format_uint (Z.of_nat i + 1).

Section cluster.
Context {D : Type} `{Storage D} `{GF : Codec File}.

#[local] Notation HNode := (Node (list ApplyMsg) * D)%type.

Record HCluster : Type := MkHCluster {
  hc_Net : Network (SM := list ApplyMsg) (D := D);
  hc_IDs : list string
}.

Definition peersOf (id : string) (c : HCluster) : list string := filter (λ other, other ≠ id) (hc_IDs c).

Definition node_config (id dir : string) (timing : TimingConfig) (c : HCluster) : Config (list ApplyMsg) :=
  MkConfig id id dir (peersOf id c) timing (5 * millisecond) 0 (MkSnapshotConfig 0 0) None [].

(** [disk]: the state of the storage a directory is on. *)
Definition addNode (env : Env) (dataDir : string → string) (disk : string → D) (timing : TimingConfig)
    (id : string) (c : HCluster) : result HCluster :=
  match NewNode env (node_config id (dataDir id) timing c) (disk id) with
  | (Err e, _) => Err e
  | (Ok n, d) => Ok (MkHCluster (Register id (n, d) (hc_Net c)) (hc_IDs c))
  end.

Fixpoint addNodes (env : Env) (dataDir : string → string) (disk : string → D) (timing : TimingConfig)
    (ids : list string) (c : HCluster) : result HCluster :=
  match ids with
  | [] => Ok c
  | id :: rest =>
      match addNode env dataDir disk timing id c with
      | Err e => Err e
      | Ok c' => addNodes env dataDir disk timing rest c'
      end
  end.

Definition NewCluster (n : Z) (env : Env) (dataDir : string → string) (disk : string → D)
    (timing : TimingConfig) : result HCluster :=
  let ids := node_id <$> seq 0 (Z.to_nat n) in
  addNodes env dataDir disk timing ids (MkHCluster NewNetwork ids).

Definition hc_Nodes (c : HCluster) : gmap string HNode := net_nodes (hc_Net c).

(** A copy of what node [id] has applied. *)
Definition Applied (id : string) (c : HCluster) : list ApplyMsg :=
  match hc_Nodes c !! id with Some s => n_stateMachine s.1 | None => [] end.

Definition leader_term (s : HNode) : option Z :=
  if bool_decide (n_role s.1 = Leader) then Some (n_currentTerm s.1) else None.
Definition Leaders (c : HCluster) : gmap string Z := omap leader_term (hc_Nodes c).

(** One look of the polling loop. *)
Definition single_leader (c : HCluster) : option (string * Z) :=
  match map_to_list (Leaders c) with [x] => Some x | _ => None end.

(** [polls]: the cluster as each poll before the deadline finds it. *)
Fixpoint WaitForLeader (polls : list HCluster) : option (string * Z) :=
  match polls with
  | [] => None
  | c :: rest => match single_leader c with Some x => Some x | None => WaitForLeader rest end
  end.

(** ** A new cluster is an initial state *)

Lemma format_uint_inj x y : 0 ≤ x → 0 ≤ y → format_uint x = format_uint y → x = y.
Proof.
  intros Hx Hy Hs. unfold format_uint in Hs.
  apply (f_equal NilEmpty.uint_of_string) in Hs. rewrite !DecimalString.NilEmpty.usu in Hs.
  injection Hs as Hs. apply DecimalN.Unsigned.to_uint_inj in Hs. lia.
Qed.

Lemma node_id_inj : Inj (=) (=) node_id.
Proof.
  intros i j Hij. unfold node_id in Hij. apply (inj (String.app "node-")) in Hij.
  apply format_uint_inj in Hij; lia.
Qed.

Lemma node_ids_nodup n : NoDup (node_id <$> seq 0 n).
Proof. apply NoDup_fmap; [apply node_id_inj|apply NoDup_seq]. Qed.

Lemma peersOf_perm (ids : list string) id :
  NoDup ids → id ∈ ids → id :: filter (λ other, other ≠ id) ids ≡ₚ ids.
Proof.
  intros Hnd Hin. apply list_elem_of_split in Hin as (l1 & l2 & ->).
  apply NoDup_app in Hnd as (_ & Hd & Hn2). apply NoDup_cons in Hn2 as [Hn2 _].
  rewrite filter_app, filter_cons_False by (intros Hc; by apply Hc).
  rewrite !filter_all; [apply Permutation_middle|..]; apply Forall_forall; intros x Hx ->.
  - done.
  - apply (Hd id Hx). by left.
Qed.

Context `{!VoteLaws D} `{!LogLaws D}.

(** Every node is its own address. *)
Definition members_of (ids : list string) : Membership := {| members := ids; id_of := λ i, i |}.

(** A fresh directory: nothing but empty files. *)
Definition fresh (dir : string) (d : D) : Prop :=
  ll_quiet d ∧ ll_log dir d [] ∧ vl_vote dir d = Some (0, "").

Definition start_ok (ids : list string) (id : string) (s : HNode) : Prop :=
  id ∈ ids ∧ n_address s.1 = id ∧ n_id s.1 = id ∧ id :: n_peers s.1 ≡ₚ ids ∧ NI s ∧
  n_currentTerm s.1 = 0 ∧ n_role s.1 = Follower ∧ healthy [] s ∧ n_log s.1 = [] ∧ n_commitIndex s.1 = 0 ∧
  no_callers s.1.

Lemma addNode_ok env dataDir disk timing id c c' :
  NoDup (hc_IDs c) → id ∈ hc_IDs c → fresh (dataDir id) (disk id) ∧ vl_name id →
  addNode env dataDir disk timing id c = Ok c' →
  hc_IDs c' = hc_IDs c ∧ ∃ s, hc_Nodes c' = <[id := s]> (hc_Nodes c) ∧ start_ok (hc_IDs c) id s.
Proof.
  intros Hnd Hin [(Hq & Hl & Hv) Hname]. unfold addNode. set (cfg := node_config _ _ _ _).
  destruct (NewNode env cfg (disk id)) as [[n|e] d] eqn:E; [|done]. intros [= <-]. split; [done|].
  exists (n, d). split; [done|].
  destruct (NewNode_healthy [] env cfg [] 0 "" (disk id) n d) as (Hh & El & Et & Ev & Er & Ec); try done.
  destruct (boots_vote cfg (disk id) (n, d) (boots_up cfg env (disk id) n d E))
    as (B1 & B2 & B3 & B4 & B5 & B6 & B7 & B8 & B9). cbn [fst snd] in *.
  split_and!; try done.
  - cbn [fst]. rewrite B6. by apply peersOf_perm.
  - unfold NI, disk_vote. cbn [fst snd]. rewrite B5. split_and!; [rewrite Et; u64|done|done|by rewrite B3|].
    exists 0, "". rewrite B1, B2, Et, Ev. split_and!; [done|lia|lia|by left].
  - exact (NewNode_no_callers _ _ _ _ _ E).
Qed.

Lemma addNodes_ok env dataDir disk timing ids c c' :
  NoDup (hc_IDs c) → ids ⊆ hc_IDs c → (∀ id, id ∈ ids → fresh (dataDir id) (disk id) ∧ vl_name id) →
  addNodes env dataDir disk timing ids c = Ok c' →
  hc_IDs c' = hc_IDs c ∧
  (∀ id s, hc_Nodes c' !! id = Some s → start_ok (hc_IDs c) id s ∨ hc_Nodes c !! id = Some s) ∧
  ∀ id, id ∈ ids ∨ is_Some (hc_Nodes c !! id) → is_Some (hc_Nodes c' !! id).
Proof.
  revert c. induction ids as [|id ids IH]; intros c Hnd Hsub Hf; cbn [addNodes].
  { intros [= <-]. split_and!; [done|auto|]. intros id [Hin|?]; [by apply elem_of_nil in Hin|done]. }
  destruct (addNode env dataDir disk timing id c) as [c1|e] eqn:E1; [|done].
  destruct (addNode_ok _ _ _ _ id _ _ Hnd ltac:(apply Hsub; by left) (Hf id ltac:(by left)) E1) as (Ei & s & Es & Hs).
  intros E. destruct (IH c1) as (J1 & J2 & J3); try done.
  { by rewrite Ei. }
  { rewrite Ei. set_solver. }
  { intros; apply Hf. by right. }
  rewrite Ei, Es in *. split_and!; [done| |].
  - intros k s2 Hk. destruct (J2 k s2 Hk) as [?|Hk']; [by left|].
    apply lookup_insert_Some in Hk' as [[<- <-]|[_ ?]]; auto.
  - intros k Hk. apply J3. destruct (decide (k = id)) as [->|Hne]; [right; by rewrite lookup_insert_eq|].
    rewrite lookup_insert_ne by done. destruct Hk as [[?|?]%elem_of_cons|?]; [done|auto|auto].
Qed.

Definition as_cluster (c : HCluster) : Cluster (SM := list ApplyMsg) (D := D) :=
  MkCluster (hc_Nodes c) ∅ [] [].

(** NewCluster on fresh directories gives an initial state of the cluster
    model: n nodes with distinct identities, each knowing exactly the others
    as its peers, in term 0 with empty logs and nothing applied. *)
Theorem NewCluster_initial n env dataDir disk timing c :
  (∀ id, id ∈ node_id <$> seq 0 (Z.to_nat n) → fresh (dataDir id) (disk id) ∧ vl_name id) →
  NewCluster n env dataDir disk timing = Ok c →
  hc_IDs c = node_id <$> seq 0 (Z.to_nat n) ∧
  (∀ id, id ∈ hc_IDs c ↔ is_Some (hc_Nodes c !! id)) ∧
  (∀ id, id ∈ hc_IDs c → id :: peersOf id c ≡ₚ hc_IDs c) ∧
  @MembershipOk (members_of (hc_IDs c)) ∧
  @hinit _ _ D _ _ _ (members_of (hc_IDs c)) [] (as_cluster c).
Proof.
  intros Hf E. set (ids := node_id <$> seq 0 (Z.to_nat n)) in *.
  pose proof (node_ids_nodup (Z.to_nat n) : NoDup ids) as Hnd.
  destruct (addNodes_ok env dataDir disk timing ids (MkHCluster NewNetwork ids) c Hnd) as (Ei & J2 & J3); try done.
  cbn [hc_IDs] in *. rewrite Ei.
  assert (Hst : ∀ id s, hc_Nodes c !! id = Some s → start_ok ids id s).
  { intros id s Hs. destruct (J2 id s Hs) as [?|Hn]; [done|]. by apply (lookup_empty_Some (M := gmap string) id s) in Hn. }
  split_and!; [done| | | |].
  - intros id. split; [auto|]. intros [s Hs]. by destruct (Hst id s Hs).
  - intros id Hin. unfold peersOf. rewrite Ei. by apply peersOf_perm.
  - split; [done|done|]. intros i (k & -> & _)%list_elem_of_fmap. done.
  - split; [split_and!; [|done..]|].
    + intros id s Hs. destruct (Hst id s Hs) as (S1 & S2 & S3 & S4 & S5 & S6 & S7 & _). by split_and!.
    + intros id s Hs. destruct (Hst id s Hs) as (_ & _ & _ & _ & _ & _ & _ & S8 & S9 & S10). done.
Qed.

End cluster.

(** ** What the tests check: applied sequences agree *)

Section applied.
Context {D : Type} `{Storage D} `{!VoteLaws D} `{!LogLaws D} `{GF : Codec File}.
Context `{MB : Membership} `{!MembershipOk}.

Definition as_msg (e : LogEntry) : ApplyMsg := MkApplyMsg (e_Index e) (e_Term e) (e_Command e).

Lemma apply_all_msgs (es : list LogEntry) (l : list ApplyMsg) : apply_all es l = l ++ (as_msg <$> es).
Proof.
  revert l. induction es as [|e es IH]; intros l; [by rewrite app_nil_r|].
  unfold apply_all in *. cbn [foldl]. rewrite IH. cbn. by rewrite <- app_assoc.
Qed.

(** In every run of a harness cluster on healthy disks, the sequences two
    nodes have handed to their callbacks, at the same or at different times,
    are prefixes of one another, and each is the committed prefix of its
    node's log. *)
Theorem applied_sequences_agree j k (c c' : Cluster (SM := list ApplyMsg) (D := D)) (i i' : string) s s' :
  hreach [] j c → hsteps [] k c c' → Z.of_nat (j + k) ≤ u64_max →
  cl_nodes c !! i = Some s → cl_nodes c' !! i' = Some s' →
  n_stateMachine s.1 = as_msg <$> take (Z.to_nat (n_commitIndex s.1)) (n_log s.1) ∧
  (n_stateMachine s.1 `prefix_of` n_stateMachine s'.1 ∨ n_stateMachine s'.1 `prefix_of` n_stateMachine s.1).
Proof.
  intros Hr Hs Hk Hi Hi'. destruct (logs_agree [] j k c c' i i' s s' Hr Hs Hk Hi Hi') as (Hh & Hh' & Hlog).
  destruct Hh as (_ & _ & _ & _ & (_ & Hb & Ha) & _). destruct Hh' as (_ & _ & _ & _ & (_ & Hb' & Ha') & _).
  rewrite Ha, Ha', !apply_all_msgs, !app_nil_l. split; [done|].
  assert (Hpre : ∀ x y (l l' : list LogEntry), x ≤ y → take (Z.to_nat x) l = take (Z.to_nat x) l' →
    as_msg <$> take (Z.to_nat x) l `prefix_of` as_msg <$> take (Z.to_nat y) l').
  { intros x y l l' Hxy ->. rewrite !fmap_take.
    replace (take (Z.to_nat x) _) with (take (Z.to_nat x) (take (Z.to_nat y) (as_msg <$> l')))
      by (rewrite take_take; f_equal; lia). apply prefix_take. }
  destruct (Z.min_spec (n_commitIndex s.1) (n_commitIndex s'.1)) as [[? E]|[? E]]; rewrite E in Hlog.
  - left. apply Hpre; [lia|done].
  - right. apply Hpre; [lia|done].
Qed.

End applied.

End Harness.
