(* ===== verification/RaftExamples.v ===== *)
(** * A concrete cluster of three

    Three nodes on in-memory files, used to run the definitions and to show
    that the hypotheses of the cluster theorems can hold: node a campaigns, b
    grants its vote, and a becomes leader of term 1. *)

From Stdlib Require Import Strings.Byte.
From S2P Require Import Prelude Pb Fs Persistence SnapshotFile Codecs Storage RaftNode KV.
From S2P Require Import RaftElection RaftReplication RaftSnapshot RaftReadIndex RaftVotes.
From S2P Require Import RaftCluster RaftSafety.
Import Persistence SnapshotFile Concrete.

Module Trio.

#[export] Instance trio : Membership := {|
  members := ["a"; "b"; "c"];
  id_of a := "id-" +:+ a
|}.

#[export] Instance trio_ok : MembershipOk.
Proof.
  constructor.
  - apply (bool_decide_unpack (NoDup ["a"; "b"; "c"])). by vm_compute.
  - intros i j _ _. simpl. intros [= ?]. done.
  - done.
Qed.

Definition env : Env := MkEnv 5 (λ _, 3).
Definition cfg (i : string) (peers : list string) : Config KV :=
  MkConfig (id_of i) i ("data-" +:+ i) peers (MkTimingConfig 10 20 5) 0 0
    (MkSnapshotConfig 0 0) None New.
Definition empty_disk : World := MkWorld ∅ ∅ [].

Definition boot (i : string) (peers : list string) : result (Node KV) * World :=
  NewNode env (cfg i peers) empty_disk.

Definition sa : Node KV * World := (get_ok (A := Node KV) (boot "a" ["b"; "c"]).1, (boot "a" ["b"; "c"]).2).
Definition sb : Node KV * World := (get_ok (A := Node KV) (boot "b" ["a"; "c"]).1, (boot "b" ["a"; "c"]).2).
Definition sc : Node KV * World := (get_ok (A := Node KV) (boot "c" ["a"; "b"]).1, (boot "c" ["a"; "b"]).2).

Definition c0 : Cluster :=
  MkCluster (<["a" := sa]> (<["b" := sb]> (<["c" := sc]> ∅))) ∅ [] [].

Definition campaign : option (Campaign * RequestVoteRequest) := get_ok (A := option (Campaign * RequestVoteRequest)) (startElection env sa).1.
Definition ca : Campaign := match campaign with Some x => x.1 | None => MkCampaign 0 0 0 [] end.
Definition req : RequestVoteRequest :=
  match campaign with Some x => x.2 | None => MkRequestVoteRequest 0 "" 0 0 end.
Definition sa1 : Node KV * World := (startElection env sa).2.
Definition c1 : Cluster :=
  set_campaigns (<[("a", ca_term ca) := ca]> (cl_campaigns c0))
    (add_net (map (λ p, MVoteReq "a" p req) (ca_pending ca))
      (add_votes [("a", ca_term ca, n_id sa.1)] (upd_node "a" sa1 c0))).

Definition rb : result RequestVoteReply := (RequestVote env req sb).1.
Definition sb2 : Node KV * World := (RequestVote env req sb).2.
Definition c2 : Cluster :=
  add_net (match rb with Ok rep => [MVoteRep "b" "a" (rv_Term req) rep] | Err _ => [] end)
    (add_votes (vote_of "b" req rb) (upd_node "b" sb2 c1)).

Definition ca3 : Campaign := get_ok (A := Campaign) (handleVoteReply ca (get_ok (A := RequestVoteReply) rb) sa1).1.
Definition sa3 : Node KV * World := (handleVoteReply ca (get_ok (A := RequestVoteReply) rb) sa1).2.
Definition c3 : Cluster :=
  set_campaigns (<[("a", ca_term ca) := ca_drop "b" ca3]> (cl_campaigns c2)) (upd_node "a" sa3 c2).

Lemma init_c0 : init c0.
Proof.
  assert (Hni : ∀ s : Node KV * World, n_currentTerm s.1 = 0 → n_currentSnapshotPath s.1 = None →
    disk_vote s = Some (0, "") → vl_name (n_votedFor s.1) → vl_name (n_id s.1) → NI s).
  { intros s Ht Hp Hd Hv Hid. unfold NI, path_ok. rewrite Ht, Hp. split_and!; [u64|done|done|done|].
    exists 0, "". split_and!; auto; lia. }
  split; [|done]. repeat apply map_Forall_insert_2; [..|apply map_Forall_empty];
    split_and!; try (by vm_compute); try (apply Hni; by vm_compute).
  - by repeat constructor.
  - by repeat constructor.
  - apply perm_swap.
  - by repeat constructor.
  - apply (Permutation_cons_append ["a"; "b"] "c").
Qed.

Lemma step_01 : step c0 c1.
Proof. apply (step_campaign c0 "a" env sa sa1 ca req); by vm_compute. Qed.

Lemma step_12 : step c1 c2.
Proof.
  apply (step_vote_req c1 "a" "b" req env sb rb sb2); [|by vm_compute..].
  vm_compute. by constructor.
Qed.

Lemma step_23 : step c2 c3.
Proof.
  apply (step_vote_rep c2 "b" "a" (ca_term ca) (get_ok (A := RequestVoteReply) rb) ca sa1 ca3 sa3); [|by vm_compute| |by vm_compute..].
  - vm_compute. by constructor.
  - vm_compute. by constructor.
Qed.

Lemma reach_c1 : reach 1 c1.
Proof. econstructor; [|apply step_01]. econstructor. apply init_c0. Qed.

Lemma reach_c3 : reach 3 c3.
Proof. econstructor; [|apply step_23]. econstructor; [apply reach_c1|apply step_12]. Qed.

Lemma steps_13 : steps 2 c1 c3.
Proof. econstructor; [|apply step_23]. econstructor; [constructor|apply step_12]. Qed.

End Trio.

Import Trio.

(** Node a leads term 1 in a reachable cluster, so nobody else does. *)
Lemma election_safety_witness :
  reach 3 c3 ∧ n_role sa3.1 = Leader ∧ n_currentTerm sa3.1 = 1 ∧
  ∀ i s, cl_nodes c3 !! i = Some s → n_role s.1 = Leader → n_currentTerm s.1 = 1 → "a" = i.
Proof.
  assert (Hr : n_role sa3.1 = Leader) by (vm_compute; reflexivity).
  assert (Ht : n_currentTerm sa3.1 = 1) by (vm_compute; reflexivity).
  split; [apply reach_c3|]. split; [exact Hr|]. split; [exact Ht|]. intros i s Hi Hrole Hterm.
  apply (election_safety 3 0 c3 c3 "a" i sa3 s);
    [apply reach_c3|constructor|vm_compute; discriminate|vm_compute; reflexivity
    |exact Hi|exact Hr|exact Hrole|congruence].
Defined.

(** a's vote for itself in term 1, two steps later. *)
Lemma vote_durable_witness :
  ∃ s, cl_nodes c3 !! "a" = Some s ∧ promised s 1 "id-a".
Proof.
  apply (vote_durable 1 2 c1 c3 "a" 1 "id-a");
    [apply reach_c1|apply steps_13|by vm_compute|vm_compute; by constructor].
Defined.
