(* ===== verification/Examples.v ===== *)
(** * Runs of the definitions on concrete inputs

    Starting from the cluster of RaftExamples: a proposes a command, b takes
    it, a commits and applies it, the log is compacted, nodes restart.  Each
    run also shows that the hypotheses of a theorem can hold together.  The
    checks are boolean functions, so that they evaluate. *)

From Stdlib Require Import Strings.Byte.
From S2P Require Import Prelude Pb Fs Persistence SnapshotFile Codecs Storage RaftNode KV.
From S2P Require Import RaftElection RaftReplication RaftLog RaftCommit RaftSnapshot.
From S2P Require Import RaftReadIndex KVServer SnapshotService RaftVotes RaftCompaction.
From S2P Require Import RaftCluster RaftSafety RaftExamples.
Import Persistence SnapshotFile Concrete Trio.

#[local] Instance disk_laws : LogLaws World := FileLogLaws state_codec_total.

(** ** Boolean forms of the invariants *)

Definition u64_b (z : Z) : bool := (0 <=? z) && (z <=? u64_max).

Definition storable_b (e : LogEntry) : bool :=
  u64_b (e_Term e) && u64_b (e_Index e) &&
  match codec_enc e with Some b => zlen b <? 4294967296 | None => false end.

Fixpoint consecutive_b (off : Z) (log : list LogEntry) : bool :=
  match log with
  | [] => true
  | e :: rest => (e_Index e =? off + 1) && consecutive_b (off + 1) rest
  end.

Definition wf_log_b (off : Z) (log : list LogEntry) : bool :=
  (0 <=? off) && (off + zlen log <? u64_max) && consecutive_b off log.

Definition synced_b (s : Node KV * World) : bool :=
  wf_log_b (n_logOffset s.1) (n_log s.1) && bool_decide (w_faults s.2 = []) &&
  forallb storable_b (n_log s.1) &&
  bool_decide (log_bytes (n_log s.1) = Some (default [] (w_files s.2 !! logPath (n_dataDir s.1)))).

Lemma u64_b_ok z : u64_b z = true → is_u64 z.
Proof. unfold u64_b, is_u64. intros. zbool. lia. Qed.

Lemma storable_b_ok e : storable_b e = true → storable e.
Proof.
  unfold storable_b, storable. intros E. apply andb_true_iff in E as [E Hl].
  apply andb_true_iff in E as [Ht Hi]. split; [split; by apply u64_b_ok|].
  destruct (codec_enc e) as [b|]; [|done]. exists b. zbool. done.
Qed.

Lemma all_storable es : forallb storable_b es = true → Forall storable es.
Proof.
  induction es as [|e es IH]; simpl; [done|]. intros [? ?]%andb_true_iff.
  constructor; [by apply storable_b_ok|auto].
Qed.

Lemma consecutive_b_ok off log : consecutive_b off log = true → consecutive off log.
Proof.
  revert off. induction log as [|e log IH]; intros off; simpl; [intros; apply consecutive_nil|].
  intros [? ?]%andb_true_iff. zbool. apply consecutive_cons. auto.
Qed.

Lemma wf_log_b_ok off log : wf_log_b off log = true → wf_log off log.
Proof.
  unfold wf_log_b, wf_log. intros E. apply andb_true_iff in E as [E Hc]. zbool.
  split_and!; [done..|by apply consecutive_b_ok].
Qed.

Lemma synced_b_ok s : synced_b s = true → synced s.
Proof.
  unfold synced_b. intros E. apply andb_true_iff in E as [E Hb]. apply andb_true_iff in E as [E Hs].
  apply andb_true_iff in E as [Hw Hq]. zbool. split; [by apply wf_log_b_ok|]. split; [done|].
  split; [by apply all_storable|done].
Qed.

Lemma ll_storable_b e : storable_b e = true → ll_storable e.
Proof. exact (storable_b_ok e). Qed.

Lemma all_u64 (m : gmap string Z) :
  forallb (λ kv, u64_b kv.2) (map_to_list m) = true → ∀ p v, m !! p = Some v → is_u64 v.
Proof.
  intros Ha p v Hv. apply elem_of_map_to_list in Hv. revert Ha Hv.
  induction (map_to_list m) as [|[q x] l IH]; simpl; [intros _ Hin; by apply elem_of_nil in Hin|].
  intros [? ?]%andb_true_iff [[= -> ->]|?]%elem_of_cons; [by apply u64_b_ok|auto].
Qed.

(** ** A command through the cluster *)

Definition cmd1 : list byte := Eval vm_compute in
  match codec_enc (MkKVCommand KVCommand_PUT "color" "blue") with Some b => b | None => [] end.

(** The leader a of term 1 takes a command. *)
Definition La : Node KV * World := Eval vm_compute in sa3.
Definition La1 : Node KV * World := Eval vm_compute in (ProposeSync_begin cmd1 La).2.

Lemma no_waiters (n : Node KV) : n_waiters n = ∅ → n_chans n = ∅ → waiters_wf n.
Proof.
  intros E1 E2. unfold waiters_wf. rewrite E1, E2. split_and!; intros *; rewrite ?lookup_empty; done || by intros [? ?].
Qed.

Lemma La_wf : waiters_wf La.1.
Proof. apply no_waiters; by vm_compute. Qed.

Lemma ProposeSync_correct_witness :
  ∃ ch s', ProposeSync_begin cmd1 La = (Ok (1, 1, ch), s') ∧ synced s' ∧
    n_log s'.1 = n_log La.1 ++ [MkLogEntry 1 1 cmd1] ∧
    entryAtLocked s'.1 1 = Some (MkLogEntry 1 1 cmd1) ∧
    n_waiters s'.1 !! 1 = Some ch ∧ ProposeSync_poll ch s'.1 = None ∧ waiters_wf s'.1.
Proof.
  assert (Hs : synced La) by (apply synced_b_ok; by vm_compute).
  assert (He : ll_storable (MkLogEntry 1 1 cmd1)) by (apply ll_storable_b; by vm_compute).
  assert (Hl : lastLogIndexLocked La.1 = 0) by (by vm_compute).
  assert (Hr : n_role La.1 = Leader) by (by vm_compute).
  assert (Ht : n_currentTerm La.1 = 1) by (by vm_compute).
  assert (Hw : n_waiters La.1 !! 1 = None) by (by vm_compute).
  pose proof (ProposeSync_correct cmd1 La Hs La_wf) as Hp. cbv zeta in Hp.
  rewrite Hl, Ht in Hp. specialize (Hp He ltac:(unfold u64_max; lia) Hw).
  by rewrite (decide_True _ _ Hr) in Hp.
Defined.

(** Its request to b, and b's state after it. *)
Definition reqs1 : list outgoingAppendEntries := Eval vm_compute in
  match broadcastAppendEntries La1.1 with Some (_, l) => l | None => [] end.
Definition req_b : AppendEntriesRequest := Eval vm_compute in
  match reqs1 with o :: _ => o_req o | [] => MkAppendEntriesRequest 0 "" 0 0 [] 0 end.
Definition Fb : Node KV * World := Eval vm_compute in sb2.
Definition sb3 : Node KV * World := Eval vm_compute in (AppendEntries env req_b Fb).2.

Lemma broadcast_total_witness :
  ∃ reqs, broadcastAppendEntries La1.1 = Some (1, reqs) ∧ o_peer <$> reqs = ["b"; "c"].
Proof.
  destruct (broadcast_total La1.1) as (reqs & H1 & H2 & _).
  - apply wf_log_b_ok. by vm_compute.
  - apply all_u64. by vm_compute.
  - by vm_compute.
  - exists reqs. split; [exact H1|exact H2].
Defined.

Lemma req_b_wf : req_wf req_b.
Proof.
  split_and!; [by vm_compute..|apply consecutive_b_ok; by vm_compute|apply all_storable; by vm_compute].
Qed.

Lemma AppendEntries_accept_witness :
  ∃ s', AppendEntries env req_b Fb = (Ok (MkAppendEntriesReply 1 true 0 0), s') ∧
    n_log s'.1 = [MkLogEntry 1 1 cmd1].
Proof.
  destruct (AppendEntries_accept env req_b Fb) as (s' & E & _ & Hl & _).
  - apply synced_b_ok. by vm_compute.
  - apply req_b_wf.
  - by vm_compute.
  - left. by vm_compute.
  - exists s'. split; [exact E|]. rewrite Hl. by vm_compute.
Defined.

(** A request from a leader of term 0 is refused. *)
Lemma AppendEntries_refuse_witness :
  let stale := MkAppendEntriesRequest 0 "c" 0 0 [] 0 in
  ∃ reply s', AppendEntries env stale sb3 = (Ok reply, s') ∧ aer_Success reply = false ∧ s' = sb3.
Proof.
  destruct (AppendEntries_refuse env (MkAppendEntriesRequest 0 "c" 0 0 [] 0) sb3)
    as (reply & s' & E & Hf & _ & _ & _ & _ & _ & _ & _ & Hs).
  - apply synced_b_ok. by vm_compute.
  - by vm_compute.
  - by vm_compute.
  - left. by vm_compute.
  - exists reply, s'. split; [exact E|]. split; [exact Hf|]. apply Hs. by vm_compute.
Defined.

(** b has voted in term 1 and has a longer log: c's bid for term 1 fails. *)
Lemma RequestVote_correct_witness :
  let bid := MkRequestVoteRequest 1 "id-c" 0 0 in
  ∃ reply s', RequestVote env bid sb3 = (Ok reply, s') ∧ rvr_VoteGranted reply = false.
Proof.
  destruct (RequestVote_correct env (MkRequestVoteRequest 1 "id-c" 0 0) sb3)
    as (reply & s' & E & _ & _ & _ & _ & _ & Hg & _).
  - apply synced_b_ok. by vm_compute.
  - by vm_compute.
  - by vm_compute.
  - exists reply, s'. split; [exact E|]. destruct (rvr_VoteGranted reply) eqn:Eg; [|done].
    destruct (proj1 Hg eq_refl) as (_ & _ & [Hlt|[Heq _]]); [by vm_compute in Hlt|by vm_compute in Heq].
Defined.

(** b's acknowledgement commits entry 1 at the leader. *)
Definition ack_b : AppendEntriesReply := MkAppendEntriesReply 1 true 0 0.
Definition La2n : Node KV := Eval vm_compute in
  set_nextIndex (<["b" := 2]> (n_nextIndex La1.1))
    (set_matchIndex (<["b" := 1]> (n_matchIndex La1.1)) La1.1).

Lemma commit_rule_witness :
  n_commitIndex (maybeAdvanceCommitIndexLocked La2n) = 1 ∧
  (n_commitIndex La2n < 1 ∧ quorumSize (zlen (n_peers La2n) + 1) ≤ 1 + zlen (holders La2n 1)).
Proof.
  assert (E : n_commitIndex (maybeAdvanceCommitIndexLocked La2n) = 1) by (by vm_compute).
  split; [exact E|].
  destruct (commit_rule La2n) as [[Hx|[Hlt [_ Hq]]] _].
  - apply wf_log_b_ok. by vm_compute.
  - by vm_compute.
  - rewrite E in Hx. by vm_compute in Hx.
  - rewrite E in Hlt, Hq. split; [exact Hlt|exact Hq].
Defined.

(** Applying it stores the value and wakes the client. *)
Definition La3n : Node KV := Eval vm_compute in set_commitIndex 1 La2n.

Lemma La1_wf : waiters_wf La1.1.
Proof.
  assert (E : La1.1 = let n := set_log [MkLogEntry 1 1 cmd1] La.1 in
    set_waiters (<[1 := n_nextChan n]> (n_waiters n)) (set_nextChan (S (n_nextChan n)) n))
    by (by vm_compute).
  rewrite E. apply add_waiter_wf; [exact La_wf|by vm_compute].
Qed.

Lemma applyCommitted_correct_witness :
  let n' := applyCommittedLocked La3n in
  n_lastApplied n' = 1 ∧ Get "color" (n_stateMachine n') = ("blue", true) ∧
  ∀ ch, n_waiters La3n !! 1 = Some ch → ProposeSync_poll ch n' = Some None.
Proof.
  destruct (applyCommitted_correct La3n) as (H1 & _ & H3 & H4 & _).
  - split; [apply wf_log_b_ok; by vm_compute|]. split; by vm_compute.
  - exact La1_wf.
  - by vm_compute.
  - cbv zeta. split; [exact H1|]. split; [rewrite H3; by vm_compute|].
    intros ch Hch. apply (H4 1 ch Hch). by vm_compute.
Defined.

(** ** Compaction and restart *)

(** The leader after commit and apply, with its disk. *)
Definition La4 : Node KV * World := Eval vm_compute in (applyCommittedLocked La3n, La1.2).
(** A second command, committed and applied too. *)
Definition La5 : Node KV * World := Eval vm_compute in
  let s := (ProposeSync_begin cmd1 La4).2 in
  (applyCommittedLocked (set_commitIndex 2 s.1), s.2).

Definition snap2 : File := MkFile {[ "color" := "blue" ]} 2 1.
Definition ack2 : CompactionAck := Eval vm_compute in
  MkCompactionAck 2 (match Encode snap2 with Some b => b | None => [] end).

Lemma ConfirmCompaction_correct_witness :
  ∃ s', ConfirmCompaction ack2 La5 = (Ok tt, s') ∧ n_logOffset s'.1 = 1 ∧
    entryAtLocked s'.1 2 = Some (MkLogEntry 1 2 []) ∧ ConfirmCompaction ack2 s' = (Ok tt, s').
Proof.
  assert (Hs : synced La5) by (apply synced_b_ok; by vm_compute).
  assert (Hp : path_ok La5.1) by (by vm_compute).
  assert (Hl : n_lastApplied La5.1 = 2) by (by vm_compute).
  assert (Ho : n_logOffset La5.1 = 0) by (by vm_compute).
  assert (Hz : zlen (n_log La5.1) = 2) by (by vm_compute).
  assert (Hd : Decode (ca_StateMachineSnapshot ack2) = Some snap2) by (by vm_compute).
  assert (Hf : ll_file snap2) by (by eexists).
  assert (Ha : ll_storable (anchor_of snap2)) by (apply ll_storable_b; by vm_compute).
  pose proof (ConfirmCompaction_correct ack2 La5 Hs Hp ltac:(lia)) as Hc. cbv zeta in Hc.
  change (ca_TruncatedUpToIndex ack2) with 2 in Hc. rewrite Hd, Hl, Ho in Hc.
  rewrite decide_False in Hc by lia. change (f_LastIncludedIndex snap2) with 2 in Hc.
  rewrite decide_True in Hc by lia.
  destruct (Hc Hf Ha) as (s' & E & _ & _ & Hoff & _ & _ & _ & Hent & _ & Hid).
  exists s'. split; [exact E|]. split; [exact Hoff|]. split; [exact Hent|exact Hid].
Defined.

(** Restart after a crash that left the snapshot written and log.dat not yet
    rewritten. *)
Definition cfg_snap : Config KV :=
  MkConfig "id-a" "a" "data-a" ["b"; "c"] (MkTimingConfig 10 20 5) 0 0 (MkSnapshotConfig 0 0)
    (Some snap2) (Restore (f_State snap2) New).

Lemma restart_recovers_witness :
  ∃ n d', NewNode env cfg_snap La5.2 = (Ok n, d') ∧ n_log n = [MkLogEntry 1 2 []] ∧
    n_lastApplied n = 2.
Proof.
  assert (Hs : synced La5) by (apply synced_b_ok; by vm_compute).
  destruct Hs as (Hw & Hq & Hlg).
  assert (HL : st_LoadState (cfg_DataDir cfg_snap) La5.2 = (Ok (1, "id-a"), La5.2)) by (by vm_compute).
  destruct (restart_recovers env cfg_snap La5.2 0 (n_log La5.1) 1 "id-a" La5.2)
    as (n & d' & E & _ & _ & _ & _ & _ & _ & _ & H1 & H2 & H3).
  - exact Hw.
  - change (cfg_LocalSnapshot cfg_snap) with (Some snap2). cbv beta match.
    split; [by vm_compute|]. left. by apply log_rereads.
  - exact HL.
  - exists n, d'. split; [exact E|]. split; [rewrite H1; by vm_compute|exact H3].
Defined.

(** The leader streams its second entry. *)
Lemma StreamLogRange_exact_witness :
  zlen (StreamLogRange La5.1 2 2) = 1 ∧ StreamLogRange La5.1 2 2 = segment La5.1 1 2.
Proof.
  assert (Hs : synced La5) by (apply synced_b_ok; by vm_compute).
  destruct Hs as (Hw & _ & _).
  assert (Ho : n_logOffset La5.1 = 0) by (by vm_compute).
  assert (Hz : zlen (n_log La5.1) = 2) by (by vm_compute).
  destruct (StreamLogRange_exact La5.1 2 2 Hw) as (E & _ & L); [lia|lia|].
  split; [apply L; lia|exact E].
Defined.

(** A node two entries ahead of the snapshot forgets the second one. *)
Definition snap1 : File := MkFile {[ "color" := "blue" ]} 1 1.

Lemma catchUp_forgets_witness :
  ∃ s', catchUpFromSnapshot (Some snap1) (mret tt) (mret tt) La5 = (Ok tt, s') ∧
    n_log s'.1 = [MkLogEntry 1 1 []] ∧ zlen (n_log La5.1) = 2.
Proof.
  assert (Hs : synced La5) by (apply synced_b_ok; by vm_compute).
  destruct (catchUp_forgets snap1 La5) as (s' & E & _ & Hl & _).
  - exact Hs.
  - by vm_compute.
  - by eexists.
  - apply ll_storable_b. by vm_compute.
  - by vm_compute.
  - exists s'. split; [exact E|]. split; [exact Hl|by vm_compute].
Defined.

(** ** Reads and writes through the service *)

Definition round_ok : list (RoundEvent (SM := KV) (D := World)) := [RoundReply "b" (Some ack_b)].

Lemma read_index_quorum_witness :
  n_role La5.1 = Leader ∧ ∃ Q, NoDup Q ∧ Q ⊆ ["b"; "c"] ∧
    ∀ p, p ∈ Q → acked_round round_ok 1 p.
Proof.
  destruct (read_index_quorum (mret tt) round_ok La5 (MkReadIndexReply true 2 "")
    (RequestReadIndex (mret tt) round_ok La5).2) as (Hl & _ & _ & _ & Q & H1 & H2 & _ & H4).
  - by vm_compute.
  - done.
  - apply (bool_decide_unpack (NoDup ["b"; "c"])). by vm_compute.
  - split; [exact Hl|]. exists Q. split; [exact H1|]. split; [exact H2|exact H4].
Defined.

(** The write of a client of leader a, until b's acknowledgement comes in. *)
Definition until_ack : NodeM KV World unit :=
  sendAppendEntriesAndHandle 1 (MkOutgoing "b" req_b 0 1) ack_b;; mret tt.
Definition after_write : Node KV * World := Eval vm_compute in
  (KVServer.write KVCommand_PUT "color" "blue" until_ack false La).2.

Lemma write_ack_witness :
  KVServer.write KVCommand_PUT "color" "blue" until_ack false La =
    (Ok (MkWriteReply true "" 1), after_write) ∧
  n_role La.1 = Leader.
Proof.
  assert (E : KVServer.write KVCommand_PUT "color" "blue" until_ack false La =
    (Ok (MkWriteReply true "" 1), after_write)) by (by vm_compute).
  split; [exact E|]. destruct (KVServer.write_ack _ _ _ _ _ _ _ _ E) as [Hok _].
  destruct (Hok eq_refl) as [Hl _]. exact Hl.
Defined.

(** b, asked for the value before it has applied the entry, waits for it. *)
Definition heartbeat_b : AppendEntriesRequest := MkAppendEntriesRequest 1 "a" 1 1 [] 1.
Definition wake_b : NodeM KV World unit := AppendEntries env heartbeat_b;; mret tt.

Lemma follower_get_witness :
  ∃ s', KVServer.Server_Get "color" (mret tt) (Some (MkReadIndexReply true 1 "")) (mret tt) [Some wake_b]
      (mret tt) sb3 = (Ok (MkGetReply true "blue" "" true), s') ∧ 1 ≤ n_lastApplied s'.1.
Proof.
  pose proof (KVServer.follower_get "color" (mret tt) (Some (MkReadIndexReply true 1 "")) (mret tt) [Some wake_b]
    (mret tt) sb3) as HG.
  destruct (KVServer.Server_Get _ _ _ _ _ _ sb3) as [res s'] eqn:E. exists s'.
  assert (Er : res = Ok (MkGetReply true "blue" "" true)) by (vm_compute in E; by injection E as <- _).
  subst res. split; [done|]. destruct HG as (r & [= <-] & _ & _ & Hb).
  destruct Hb as [Hl|[Hl|(rep & s2 & [= <-] & _ & Hle & -> & _)]];
    [by vm_compute in Hl|by vm_compute in Hl|exact Hle].
Defined.

(** ** The snapshot service *)

Import SnapshotService.

Definition store2 : SnapshotService.Store :=
  SnapshotService.MkStore "snap" (MkKV {[ "color" := "blue" ]}) 2 1 true None.

Lemma fetch_roundtrip_witness :
  ∃ cs, SnapshotService.FetchSnapshot store2 = Some cs ∧
    SnapshotService.Client_FetchSnapshot
      ((SnapshotService.RecvChunk <$> cs) ++ [SnapshotService.RecvEOF]) = Some snap2.
Proof.
  destruct (SnapshotService.FetchSnapshot store2) as [cs|] eqn:E; [|by vm_compute in E].
  exists cs. split; [done|].
  apply (SnapshotService.fetch_roundtrip (λ _, True) store2 snap2 cs); [apply _|by vm_compute|done|exact E].
Defined.

(** One cycle against the leader above, from an empty store. *)
Definition hist2 : list LogEntry := Eval vm_compute in n_log La5.1.
Definition cycle_env : SnapshotService.CycleEnv :=
  SnapshotService.MkCycleEnv (Some (MkClusterView "a" [] [])) (Some (GetLogStatus La5.1))
    (λ from to, Some (SnapshotService.range hist2 from to)) (Some (MkClusterView "a" [] []))
    (λ _ _, true).
Definition store0 : SnapshotService.Store := SnapshotService.MkStore "snap" New 0 0 false None.

(** The leader changes during the first cycle, the second one completes. *)
Definition aborted_env : SnapshotService.CycleEnv :=
  SnapshotService.MkCycleEnv (ce_view cycle_env) (ce_GetLogStatus cycle_env) (ce_StreamLogRange cycle_env)
    (Some (MkClusterView "b" [] [])) (ce_ConfirmCompaction cycle_env).
Definition two_ticks : list SnapshotService.CycleEnv := [aborted_env; cycle_env].
Definition snap_cfg : SnapshotService.Config := SnapshotService.MkConfig 5000000000 0 90 2000000000.
Definition snap_start : Compactor * World := (NewCompactor store0 snap_cfg, empty_disk).

Lemma service_snapshots_exact_witness :
  ∃ t1 t2, Compactor_Run two_ticks snap_start = Some [t1; t2] ∧
    t1.1.2 = Ok CycleAborted ∧ t2.1.2 = Ok (CycleComplete 2) ∧ file_exact hist2 2 (cp_store t2.2.1).
Proof.
  destruct (Compactor_Run two_ticks snap_start) as [ticks|] eqn:E; [|by vm_compute in E].
  assert (HT : Forall (tick_exact hist2) ticks).
  { eapply (service_snapshots_exact hist2 snap_cfg two_ticks "snap" empty_disk empty_disk store0).
    - repeat constructor; by eexists.
    - apply consecutive_b_ok; by vm_compute.
    - apply Z.ltb_lt; vm_compute; reflexivity.
    - vm_compute; reflexivity.
    - vm_compute; reflexivity.
    - split; [split; [|by intros from to es [= <-]]|split; [split; [|by intros from to es [= <-]]|exact I]];
        intros st [= <-]; split; [|split| |split]; apply Z.leb_le; vm_compute; reflexivity.
    - exact E. }
  unfold two_ticks, Compactor_Run, run_ticks in E. destruct (Tick aborted_env snap_start) as [r1 x1] eqn:E1.
  destruct (Tick cycle_env x1) as [r2 x2] eqn:E2.
  destruct (_ <=? _); [done|]. injection E as <-. exists (aborted_env, r1, x1), (cycle_env, r2, x2).
  assert (R1 : r1 = Ok CycleAborted) by (vm_compute in E1; by injection E1 as <- _).
  assert (R2 : r2 = Ok (CycleComplete 2)).
  { vm_compute in E1. injection E1 as _ <-. vm_compute in E2. by injection E2 as <- _. }
  apply Forall_cons in HT as [_ [HT _]%Forall_cons]. subst r1 r2. destruct x2 as [c2 d2].
  destruct HT as (_ & _ & _ & HT). split_and!; done.
Defined.

(** ** Files *)

(** An append whose second record is cut after three bytes. *)
Definition e1 : LogEntry := MkLogEntry 1 1 cmd1.
Definition e2 : LogEntry := MkLogEntry 1 2 cmd1.
Definition torn_disk : World :=
  MkWorld ∅ ∅ [NoFault; NoFault; NoFault; FailPartial 3].

Lemma append_crash_safe_witness :
  ∃ k w'', ReadAllLogEntries "d" (arm [] (AppendLogEntries "d" [e1; e2] torn_disk).2) =
      (Ok ([] ++ take k [e1; e2]), w'') ∧ (AppendLogEntries "d" [e1; e2] torn_disk).1 = Err ErrIO.
Proof.
  assert (Hd : log_holds torn_disk "d" []) by (split; [constructor|by vm_compute]).
  assert (Hs : Forall storable [e1; e2]) by (apply all_storable; by vm_compute).
  destruct (append_crash_safe "d" [] [e1; e2] torn_disk (AppendLogEntries "d" [e1; e2] torn_disk).1
    (AppendLogEntries "d" [e1; e2] torn_disk).2 Hd Hs) as (k & w'' & E & _).
  - by destruct (AppendLogEntries "d" [e1; e2] torn_disk).
  - exists k, w''. split; [exact E|by vm_compute].
Defined.

Lemma rewrites_atomic_witness :
  let '(r, w') := RewriteLog "d" [e1] torn_disk in
  log_holds w' "d" (if is_ok r then [e1] else []).
Proof.
  assert (Hd : log_holds torn_disk "d" []) by (split; [constructor|by vm_compute]).
  assert (Hs : Forall storable [e1]) by (apply all_storable; by vm_compute).
  destruct (rewrites_atomic "d" [] [e1] 1 "x" torn_disk Hd Hs ltac:(by vm_compute) ltac:(by vm_compute)) as [Hr _].
  exact Hr.
Defined.

(** A directory with one good snapshot. *)
Definition snap_disk : World := Eval vm_compute in (WriteFile "d" snap2 empty_disk).2.

Lemma Latest_highest_witness :
  Latest "d" snap_disk = (Ok (Some (snap2, ("d", "snapshot-2.dat"))), snap_disk) ∧
  ∀ n' i', is_Some (w_files snap_disk !! (("d", n') : Path)) → sscanf_snapshot n' = Some i' → i' ≤ 2.
Proof.
  assert (E : Latest "d" snap_disk = (Ok (Some (snap2, ("d", "snapshot-2.dat"))), snap_disk))
    by (by vm_compute).
  split; [exact E|].
  pose proof (Latest_highest "d" snap_disk ltac:(by vm_compute)
    ltac:(apply (bool_decide_unpack ("d" ∈ w_dirs snap_disk)); by vm_compute)) as Hl.
  rewrite E in Hl. destruct Hl as (_ & n & i & data & [= <-] & _ & _ & Hi & Hmax).
  vm_compute in Hi. injection Hi as <-. exact Hmax.
Defined.
