(* ===== verification/HarnessExamples.v ===== *)
(** * The harness at work

    Three nodes built by NewCluster on empty directories, and a's vote
    requests of RaftExamples sent over the fake network. *)

From Stdlib Require Import Strings.Byte.
From S2P Require Import Prelude Pb Fs Persistence SnapshotFile Codecs Storage RaftNode KV.
From S2P Require Import RaftElection RaftReplication RaftLog RaftCommit RaftReadIndex RaftVotes.
From S2P Require Import RaftCluster RaftSafety RaftHealthy RaftImplements RaftRefine Harness RaftExamples Examples.
Import Persistence SnapshotFile Concrete Trio Harness.

#[local] Instance harness_laws : LogLaws World := FileLogLaws state_codec_total.

Definition data_dir (id : string) : string := "data-" +:+ id.

Definition built : result (HCluster (D := World)) :=
  NewCluster 3 env data_dir (λ _, empty_disk) FastTiming.

Definition three : HCluster (D := World) :=
  match built with Ok c => c | Err _ => MkHCluster NewNetwork [] end.

Lemma empty_fresh id :
  id ∈ node_id <$> seq 0 3 → fresh (data_dir id) empty_disk ∧ vl_name id.
Proof.
  intros Hid. split; [split_and!; [done|split; [constructor|done]|done]|].
  assert (Hall : Forall (vl_name (D := World)) (node_id <$> seq 0 3)) by (repeat constructor).
  rewrite Forall_forall in Hall. by apply Hall.
Qed.

(** Three fresh nodes, node-1 with peers node-2 and node-3. *)
Lemma NewCluster_initial_witness :
  hc_IDs three = ["node-1"; "node-2"; "node-3"] ∧ peersOf "node-1" three = ["node-2"; "node-3"] ∧
  @hinit _ _ World _ _ _ (members_of (hc_IDs three)) [] (as_cluster three).
Proof.
  assert (Hb : built = Ok three) by (vm_compute; reflexivity).
  destruct (NewCluster_initial 3 env data_dir (λ _, empty_disk) FastTiming three) as (E & _ & _ & _ & Hi);
    [intros id; apply empty_fresh|exact Hb|].
  split; [rewrite E; vm_compute; reflexivity|]. split; [vm_compute; reflexivity|exact Hi].
Defined.

(** The network of the cluster after a's campaign. *)
Definition net1 (f : option Filter) : Network (SM := KV) (D := World) := MkNetwork (cl_nodes c1) f.

(** Without a filter b's vote comes back and is in the cluster's network after
    the step; with b cut off nothing happens. *)
Lemma harness_network_witness :
  (SendRequestVote env "a" "b" req false (net1 None)).1 = Ok (MkRequestVoteReply 1 true) ∧
  (∃ c', step c1 c' ∧ MVoteRep "b" "a" (rv_Term req) (MkRequestVoteReply 1 true) ∈ cl_net c') ∧
  SendRequestVote env "a" "b" req false (net1 (Some (Disconnected ["b"]))) =
    (Err errDropped, net1 (Some (Disconnected ["b"]))).
Proof.
  assert (Hr : (SendRequestVote env "a" "b" req false (net1 None)).1 = Ok (MkRequestVoteReply 1 true))
    by (vm_compute; reflexivity).
  assert (Hm : MVoteReq "a" "b" req ∈ cl_net c1) by (vm_compute; by constructor).
  split; [exact Hr|]. split.
  - destruct (harness_is_cluster_network c1 (net1 None) env "a" "b" false eq_refl) as (Hv & _).
    destruct (Hv req _ _ Hm (surjective_pairing _)) as [[_ [e He]]|(c' & Hs & _ & Hrep)].
    + rewrite Hr in He. discriminate He.
    + exists c'. split; [exact Hs|]. apply Hrep. exact Hr.
  - destruct (harness_is_cluster_network c1 (net1 (Some (Disconnected ["b"]))) env "a" "b" false eq_refl)
      as (_ & _ & Hd & _).
    apply (Hd ["b"]); [reflexivity|right; by left].
Defined.

(** ** WaitForLeader does not look at the other nodes' terms *)

(** node-1 leads term 1, node-2 is already in term 2. *)
Definition split_cluster : HCluster (D := World) :=
  MkHCluster (MkNetwork
    (alter (λ s, (set_currentTerm 2 s.1, s.2)) "node-2"
      (alter (λ s, (becomeLeaderLocked (startElection env s).2.1, (startElection env s).2.2)) "node-1"
        (hc_Nodes three))) None) (hc_IDs three).

Lemma wait_for_leader_ignores_terms :
  WaitForLeader [split_cluster] = Some ("node-1", 1) ∧
  ∃ s, hc_Nodes split_cluster !! "node-2" = Some s ∧ n_currentTerm s.1 = 2.
Proof.
  split; [vm_compute; reflexivity|]. eexists. split; [vm_compute; reflexivity|]. reflexivity.
Qed.
