(* ===== verification/RaftRun.v ===== *)
(** * A run of the cluster of three

    The run of RaftExamples goes on: a takes a command, b accepts it, a
    commits it and tells b; then b is elected for term 2 with a's vote.  It
    shows that the hypotheses of the theorems of RaftRefine and RaftReads hold together. *)

From Stdlib Require Import Strings.Byte.
From S2P Require Import Prelude Pb Fs Persistence SnapshotFile Codecs Storage RaftNode KV.
From S2P Require Import RaftElection RaftReplication RaftLog RaftCommit RaftSnapshot RaftReadIndex.
From S2P Require Import RaftVotes RaftCluster RaftSafety RaftSpec RaftHealthy RaftImplements RaftRefine RaftReads RaftAcks RaftCatchUp.
From S2P Require Import RaftExamples Examples.
Import Persistence SnapshotFile Concrete Trio.

#[local] Instance run_laws : LogLaws World := FileLogLaws state_codec_total.

Module Run.

Notation Cl := (Cluster (SM := KV) (D := World)).

Definition ok_or {A} (x : A) (r : result A) : A := match r with Ok y => y | Err _ => x end.

(** a takes a command and broadcasts it. *)
Definition a4 : Node KV * World := Eval vm_compute in (ProposeSync_begin cmd1 sa3).2.
Definition c4 : Cl := upd_node "a" a4 c3.
Definition reqs (s : Node KV * World) : list outgoingAppendEntries :=
  match broadcastAppendEntries s.1 with Some (_, l) => l | None => [] end.
Definition bcast (i : string) (s : Node KV * World) (c : Cl) : Cl :=
  add_net (map (λ o, MAppReq i (o_peer o) (n_currentTerm s.1) o) (reqs s)) c.
Definition c5 : Cl := bcast "a" a4 c4.

Definition o0 : outgoingAppendEntries := MkOutgoing "" (MkAppendEntriesRequest 0 "" 0 0 [] 0) 0 0.
Definition to_b (s : Node KV * World) : outgoingAppendEntries :=
  match reqs s with o :: _ => o | [] => o0 end.

(** b accepts, a commits. *)
Definition r6 : result AppendEntriesReply := Eval vm_compute in (AppendEntries env (o_req (to_b a4)) sb2).1.
Definition b6 : Node KV * World := Eval vm_compute in (AppendEntries env (o_req (to_b a4)) sb2).2.
Definition deliver (o : outgoingAppendEntries) (r : result AppendEntriesReply) (s : Node KV * World)
    (c : Cl) : Cl :=
  add_net (match r with Ok rep => [MAppRep "b" "a" 1 o rep] | Err _ => [] end) (upd_node "b" s c).
Definition c6 : Cl := deliver (to_b a4) r6 b6 c5.
Definition rep6 : AppendEntriesReply := Eval vm_compute in ok_or (MkAppendEntriesReply 0 false 0 0) r6.
Definition h7 : result bool * (Node KV * World) := sendAppendEntriesAndHandle 1 (to_b a4) rep6 a4.
Definition a7 : Node KV * World := Eval vm_compute in h7.2.
Definition c7 : Cl := upd_node "a" a7 c6.

(** The next heartbeat carries the commit index. *)
Definition c8 : Cl := bcast "a" a7 c7.
Definition r9 : result AppendEntriesReply := Eval vm_compute in (AppendEntries env (o_req (to_b a7)) b6).1.
Definition b9 : Node KV * World := Eval vm_compute in (AppendEntries env (o_req (to_b a7)) b6).2.
Definition c9 : Cl := deliver (to_b a7) r9 b9 c8.

(** b is elected for term 2. *)
Definition campaign10 : option (Campaign * RequestVoteRequest) := Eval vm_compute in
  ok_or None (startElection env b9).1.
Definition ca10 : Campaign := Eval vm_compute in match campaign10 with Some x => x.1 | None => ca end.
Definition req10 : RequestVoteRequest := Eval vm_compute in match campaign10 with Some x => x.2 | None => req end.
Definition b10 : Node KV * World := Eval vm_compute in (startElection env b9).2.
Definition c10 : Cl :=
  set_campaigns (<[("b", ca_term ca10) := ca10]> (cl_campaigns c9))
    (add_net (map (λ p, MVoteReq "b" p req10) (ca_pending ca10))
      (add_votes [("b", ca_term ca10, n_id b9.1)] (upd_node "b" b10 c9))).
Definition r11 : result RequestVoteReply := Eval vm_compute in (RequestVote env req10 a7).1.
Definition a11 : Node KV * World := Eval vm_compute in (RequestVote env req10 a7).2.
Definition c11 : Cl :=
  add_net (match r11 with Ok rep => [MVoteRep "a" "b" (rv_Term req10) rep] | Err _ => [] end)
    (add_votes (vote_of "a" req10 r11) (upd_node "a" a11 c10)).
Definition rep11 : RequestVoteReply := Eval vm_compute in ok_or (MkRequestVoteReply 0 false) r11.
Definition ca12 : Campaign := Eval vm_compute in ok_or ca10 (handleVoteReply ca10 rep11 b10).1.
Definition b12 : Node KV * World := Eval vm_compute in (handleVoteReply ca10 rep11 b10).2.
Definition c12 : Cl :=
  set_campaigns (<[("b", ca_term ca10) := ca_drop "a" ca12]> (cl_campaigns c11)) (upd_node "b" b12 c11).


Lemma hinit_c0 : hinit New c0.
Proof.
  split; [apply init_c0|].
  assert (Hh : ∀ s, synced_b s = true → n_logOffset s.1 = 0 → disk_vote s = Some (0, "") →
    n_currentTerm s.1 = 0 → n_votedFor s.1 = "" → n_commitIndex s.1 = 0 → n_lastApplied s.1 = 0 →
    n_log s.1 = [] → n_stateMachine s.1 = New → n_nextIndex s.1 = ∅ → n_matchIndex s.1 = ∅ →
    n_waiters s.1 = ∅ → n_chans s.1 = ∅ → n_role s.1 = Follower →
    healthy New s ∧ n_log s.1 = [] ∧ n_commitIndex s.1 = 0 ∧ no_callers s.1).
  { intros s Hs Ho Hd Ht Hv Hc Ha Hl Hm Hn Hx Hwt Hch Hro. split; [|done]. unfold healthy, applied, maps_ok.
    rewrite Ht, Hv, Hc, Ha, Hl, Hm, Hn, Hx. split_and!; try done. by apply synced_b_ok. }
  intros i s. unfold c0. cbn [cl_nodes]. rewrite !lookup_insert_Some, lookup_empty.
  intros [[_ <-]|[_ [[_ <-]|[_ [[_ <-]|[_ ?]]]]]]; [apply Hh; vm_compute; reflexivity..|done].
Qed.

Lemma rstep_01 : rstep c0 c1.
Proof. apply (r_campaign c0 "a" env sa sa1 ca req); vm_compute; reflexivity. Qed.

Lemma rstep_12 : rstep c1 c2.
Proof. apply (r_vote_req c1 "a" "b" req env sb rb sb2); [vm_compute; by constructor|vm_compute; reflexivity..]. Qed.

Lemma rstep_23 : rstep c2 c3.
Proof.
  apply (r_vote_rep c2 "b" "a" (ca_term ca) (get_ok (A := RequestVoteReply) rb) ca sa1 ca3 sa3);
    [vm_compute; by constructor|vm_compute; reflexivity|vm_compute; by constructor|vm_compute; reflexivity..].
Qed.

Lemma rstep_34 : rstep c3 c4.
Proof.
  apply (r_client c3 "a" (OpProposeSync cmd1) sa3 (Ok tt) a4); [by vm_compute| |by vm_compute].
  intros _. split; [apply ll_storable_b; by vm_compute|by vm_compute].
Qed.

Lemma rstep_45 : rstep c4 c5.
Proof. apply (r_broadcast c4 "a" a4 1 (reqs a4)); vm_compute; reflexivity. Qed.

Lemma rstep_56 : rstep c5 c6.
Proof.
  apply (r_app_req c5 "a" "b" 1 (to_b a4) env sb2 r6 b6); [vm_compute; by constructor|vm_compute; reflexivity..].
Qed.

Lemma rstep_67 : rstep c6 c7.
Proof.
  apply (r_app_rep c6 "b" "a" 1 (to_b a4) rep6 a4 h7.1 a7); [vm_compute; by constructor|vm_compute; reflexivity..].
Qed.

Lemma rstep_78 : rstep c7 c8.
Proof. apply (r_broadcast c7 "a" a7 1 (reqs a7)); vm_compute; reflexivity. Qed.

Lemma rstep_89 : rstep c8 c9.
Proof.
  apply (r_app_req c8 "a" "b" 1 (to_b a7) env b6 r9 b9); [vm_compute; by constructor|vm_compute; reflexivity..].
Qed.

Lemma rstep_9_10 : rstep c9 c10.
Proof. apply (r_campaign c9 "b" env b9 b10 ca10 req10); vm_compute; reflexivity. Qed.

Lemma rstep_10_11 : rstep c10 c11.
Proof. apply (r_vote_req c10 "b" "a" req10 env a7 r11 a11); [vm_compute; by constructor|vm_compute; reflexivity..]. Qed.

Lemma rstep_11_12 : rstep c11 c12.
Proof.
  apply (r_vote_rep c11 "a" "b" (ca_term ca10) rep11 ca10 b10 ca12 b12);
    [vm_compute; by constructor|vm_compute; reflexivity|vm_compute; by constructor|vm_compute; reflexivity..].
Qed.

Lemma hreach_c3 : hreach New 3 c3.
Proof.
  eapply hreach_step, h_run, rstep_23. eapply hreach_step, h_run, rstep_12.
  eapply hreach_step, h_run, rstep_01. apply hreach_init, hinit_c0.
Qed.

Lemma hreach_c4 : hreach New 4 c4.
Proof. eapply hreach_step, h_run, rstep_34. apply hreach_c3. Qed.

Lemma hreach_c7 : hreach New 7 c7.
Proof.
  eapply hreach_step, h_run, rstep_67. eapply hreach_step, h_run, rstep_56. eapply hreach_step, h_run, rstep_45.
  apply hreach_c4.
Qed.

(** a leads from c4 to c7. *)
Lemma up_4_7 : hsteps_up New "a" 3 c4 c7.
Proof.
  eapply up_step; [eapply up_step; [eapply up_step; [apply up_refl|apply h_run, rstep_45|]|apply h_run, rstep_56|]|apply h_run, rstep_67|].
  - apply (leader_not_restarted "a" c4 c5 a4); vm_compute; reflexivity.
  - apply (leader_not_restarted "a" c5 c6 a4); vm_compute; reflexivity.
  - apply (leader_not_restarted "a" c6 c7 a7); vm_compute; reflexivity.
Qed.

(** A read request reaches a in c7; b's answer to the next heartbeat grants it. *)
Definition rep9 : AppendEntriesReply := Eval vm_compute in ok_or (MkAppendEntriesReply 0 false 0 0) r9.
Definition round9 : list RoundEvent := [RoundReply (SM := KV) (D := World) "b" (Some rep9)].
Definition read9 : result ReadIndexReply * (Node KV * World) := RequestReadIndex (mret tt) round9 a7.

(** a in c4, but convinced that b has four entries already. *)
Definition a4_far : Node KV * World :=
  (set_nextIndex (<["b" := 5]> (n_nextIndex a4.1)) a4.1, a4.2).

Lemma hsteps_7_9 : hsteps New 2 c7 c9.
Proof. eapply hsteps_step, h_run, rstep_89. eapply hsteps_step, h_run, rstep_78. constructor. Qed.

Lemma hsteps_7_12 : hsteps New 5 c7 c12.
Proof.
  eapply hsteps_step, h_run, rstep_11_12. eapply hsteps_step, h_run, rstep_10_11. eapply hsteps_step, h_run, rstep_9_10.
  apply hsteps_7_9.
Qed.

Lemma hreach_c12 : hreach New 12 c12.
Proof. exact (hreach_hsteps New 7 5 c7 c12 hreach_c7 hsteps_7_12). Qed.

End Run.

Import Run.

(** a has committed its command in c7; the specification follows the run on to
    c12, where b leads term 2. *)
Lemma nodes_refine_spec_witness :
  ∃ a a', spec_steps spec0 a ∧ spec_steps a a' ∧ shows a c7 ∧ shows a' c12.
Proof.
  apply (nodes_refine_spec New 7 5 c7 c12); [apply hreach_c7|apply hsteps_7_12|by vm_compute].
Defined.

Lemma nodes_stay_wellformed_witness :
  n_role b12.1 = Leader ∧ zlen (n_log b12.1) = 1 ∧ synced b12 ∧
  n_stateMachine b12.1 = apply_all (take (Z.to_nat (n_commitIndex b12.1)) (n_log b12.1)) New.
Proof.
  split; [vm_compute; reflexivity|]. split; [vm_compute; reflexivity|].
  destruct (nodes_stay_wellformed New 12 c12 "b" b12) as (Hs & _ & _ & _ & _ & _ & _ & Hm & _);
    [apply hreach_c12|vm_compute; discriminate|vm_compute; reflexivity|].
  split; [exact Hs|exact Hm].
Defined.

Lemma log_matching_witness :
  take 1 (n_log a11.1) = take 1 (n_log b12.1).
Proof.
  apply (log_matching New 12 c12 "a" "b" a11 b12 0 (MkLogEntry 1 1 cmd1) (MkLogEntry 1 1 cmd1));
    [apply hreach_c12|vm_compute; discriminate|vm_compute; reflexivity..].
Defined.

Lemma leader_completeness_witness :
  n_commitIndex a7.1 = 1 ∧ n_role b12.1 = Leader ∧
  take (Z.to_nat (n_commitIndex a7.1)) (n_log a7.1) `prefix_of` n_log b12.1.
Proof.
  split; [vm_compute; reflexivity|]. split; [vm_compute; reflexivity|].
  apply (leader_completeness New 7 5 c7 c12 "a" "b" a7 b12);
    [apply hreach_c7|apply hsteps_7_12|vm_compute; discriminate|vm_compute; reflexivity..
    |vm_compute; discriminate].
Defined.

Lemma state_machine_safety_witness :
  n_lastApplied a7.1 = 1 ∧ n_lastApplied b9.1 = 1 ∧ n_stateMachine a7.1 = n_stateMachine b9.1.
Proof.
  split; [vm_compute; reflexivity|]. split; [vm_compute; reflexivity|].
  apply (state_machine_safety New 7 2 c7 c9 "a" "b" a7 b9);
    [apply hreach_c7|apply hsteps_7_9|vm_compute; discriminate|vm_compute; reflexivity..].
Defined.

(** The command a acknowledged in c7 is in b's log when b leads. *)
Lemma acked_write_survives_witness :
  ProposeSync_poll 0 a7.1 = Some None ∧ n_role b12.1 = Leader ∧
  n_log b12.1 !! 0%nat = Some (MkLogEntry 1 1 cmd1).
Proof.
  split; [vm_compute; reflexivity|]. split; [vm_compute; reflexivity|].
  apply (acked_write_survives New 3 3 5 c3 c7 c12 "a" sa3 a4 a7 1 1 0 cmd1 "b" b12);
    [apply hreach_c3|vm_compute; reflexivity| |vm_compute; reflexivity|apply up_4_7|vm_compute; reflexivity
    |vm_compute; reflexivity|apply hsteps_7_12|vm_compute; discriminate|vm_compute; reflexivity..|vm_compute; discriminate].
  intros _. split; [apply ll_storable_b; by vm_compute|by vm_compute].
Defined.

(** b has applied what a had committed when the read came in. *)
Lemma linearizable_read_witness :
  n_commitIndex a7.1 = 1 ∧ n_commitIndex a7.1 ≤ 1 ∧
  ∃ later, n_stateMachine b9.1 = apply_all later (n_stateMachine a7.1) ∧
    take (Z.to_nat (n_lastApplied b9.1)) (n_log b9.1) =
    take (Z.to_nat (n_commitIndex a7.1)) (n_log a7.1) ++ later.
Proof.
  split; [vm_compute; reflexivity|].
  apply (linearizable_read New 7 2 c7 c9 "a" a7 (mret tt) round9 (MkReadIndexReply true 1 "") read9.2 "b" b9 "a" a7);
    [apply hreach_c7|apply hsteps_7_9|vm_compute; discriminate|vm_compute; reflexivity| |vm_compute; reflexivity..
    | |vm_compute; reflexivity|vm_compute; discriminate|vm_compute; reflexivity].
  - exists (MkLogEntry 1 1 cmd1). split_and!; vm_compute; reflexivity.
  - intros p rep [[= -> ->]|Hin]%elem_of_cons; [|by apply elem_of_nil in Hin].
    exists 1%nat, 0%nat, c8, (to_b a7), env, b6, b9. split; [reflexivity|].
    split; [eapply hsteps_step, h_run, rstep_78; constructor|].
    split; [vm_compute; by constructor|]. split; [vm_compute; reflexivity|]. split; [vm_compute; reflexivity|].
    assert (E : add_net [MAppRep "b" "a" (n_currentTerm a7.1) (to_b a7) rep9] (upd_node "b" b9 c8) = c9).
    { vm_compute; reflexivity. }
    rewrite E. constructor.
Defined.

(** b's empty log is refused once and filled in the second exchange. *)
Lemma catches_up_witness :
  n_log sb2.1 = [] ∧ exchange env "b" (a4_far, sb2) ≠ None ∧
  ∃ k L' F', (k ≤ 2)%nat ∧ exchanges k env "b" (a4_far, sb2) = Some (L', F') ∧
    caught_up New "b" a4_far sb2 L' F'.
Proof.
  split; [vm_compute; reflexivity|]. split; [vm_compute; discriminate|].
  apply (lagging_follower_catches_up New env "b" a4_far sb2). split_and!.
  - assert (Ha : healthy New a4).
    { apply (hreach_healthy New 4 c4 "a" a4 hreach_c4); [vm_compute; discriminate|vm_compute; reflexivity]. }
    eapply (healthy_maps New a4.1 _ (<["b" := 5]> (n_nextIndex a4.1)) (n_matchIndex a4.1) a4.2);
      [exact Ha|reflexivity|apply all_u64; vm_compute; reflexivity|apply Ha].
  - apply (hreach_healthy New 4 c4 "b" sb2 hreach_c4); [vm_compute; discriminate|vm_compute; reflexivity].
  - vm_compute; reflexivity.
  - vm_compute; by left.
  - vm_compute; discriminate.
  - assert (E : n_log sb2.1 = []) by (vm_compute; reflexivity). rewrite E. apply prefix_nil.
  - vm_compute; reflexivity.
Defined.
