(* ===== verification/CompactingRun.v ===== *)
(** * A run with compaction

    The run of RaftRun goes on from c7 with a second command: once a has
    applied both, it compacts its log with a snapshot of them and tells b, which
    applies, compacts too and is restarted from its snapshot file.  These are
    the nodes' steps of the run of BackupRun, where the service takes the
    snapshot. *)

From Stdlib Require Import Strings.Byte.
From S2P Require Import Prelude Pb Fs Persistence SnapshotFile Codecs Storage SnapStorage RaftNode KV.
From S2P Require Import RaftElection RaftReplication RaftLog RaftCommit RaftSnapshot RaftReadIndex.
From S2P Require Import RaftVotes RaftCompaction RaftCluster RaftSafety RaftSpec RaftViews RaftHealthy RaftImplements RaftRefine.
From S2P Require Import RaftCompacting RaftExamples Examples RaftRun.
Import Persistence SnapshotFile Concrete Trio Run.

#[local] Instance run_laws : LogLaws World := FileLogLaws state_codec_total.
#[local] Instance run_snaps : @SnapLaws World _ run_laws := FileSnapLaws state_codec_total.

Module CompactingRun.

Notation St := (Node KV * World)%type.

(** a takes a second command, b accepts it, a commits. *)
Definition a8 : St := Eval vm_compute in (ProposeSync_begin cmd1 a7).2.
Definition k8 : Cl := upd_node "a" a8 c7.
Definition k9 : Cl := bcast "a" a8 k8.
Definition q10 : result AppendEntriesReply := Eval vm_compute in (AppendEntries env (o_req (to_b a8)) b6).1.
Definition e10 : St := Eval vm_compute in (AppendEntries env (o_req (to_b a8)) b6).2.
Definition k10 : Cl := deliver (to_b a8) q10 e10 k9.
Definition rep10 : AppendEntriesReply := Eval vm_compute in ok_or (MkAppendEntriesReply 0 false 0 0) q10.
Definition h11 : result bool * St := Eval vm_compute in sendAppendEntriesAndHandle 1 (to_b a8) rep10 a8.
Definition l11 : St := h11.2.
Definition k11 : Cl := upd_node "a" l11 k10.

(** The snapshot of the two commands, and a's compaction with it. *)
Definition snap : File := Eval vm_compute in MkFile (Snapshot (n_stateMachine l11.1)) 2 1.
Definition ack : CompactionAck := Eval vm_compute in
  MkCompactionAck 2 (match Encode snap with Some b => b | None => [] end).
Definition r12 : result unit * St := Eval vm_compute in run_local (OpConfirmCompaction ack) l11.
Definition a12 : St := r12.2.
Definition k12 : Cl := upd_node "a" a12 k11.

(** b hears of the commit, compacts and is restarted. *)
Definition k13 : Cl := bcast "a" a12 k12.
Definition q14 : result AppendEntriesReply := Eval vm_compute in (AppendEntries env (o_req (to_b a12)) e10).1.
Definition e14 : St := Eval vm_compute in (AppendEntries env (o_req (to_b a12)) e10).2.
Definition k14 : Cl := deliver (to_b a12) q14 e14 k13.
Definition r15 : result unit * St := Eval vm_compute in run_local (OpPollCompact 2 (Some snap)) e14.
Definition e15 : St := r15.2.
Definition k15 : Cl := upd_node "b" e15 k14.

Definition found : option (File * Path) := Some (snap, ("data-b", FileName 2)).
Definition cfg16 : Config KV :=
  MkConfig "id-b" "b" "data-b" ["a"; "c"] (MkTimingConfig 10 20 5) 0 0 (MkSnapshotConfig 0 0)
    (Some snap) (Restore (f_State snap) New).
Definition r16 : result (Node KV) * World := Eval vm_compute in NewNode env cfg16 e15.2.
Definition e16 : St := Eval vm_compute in (get_ok (A := Node KV) r16.1, r16.2).
Definition k16 : Cl :=
  set_campaigns (filter (λ kv, kv.1.1 ≠ "b") (cl_campaigns k15)) (upd_node "b" e16 k15).

(** ** The steps *)

Lemma no_snaps (w : World) dir :
  forallb (λ kv, bool_decide (sscanf_snapshot kv.1.2 = None)) (map_to_list (w_files w)) = true →
  sl_files dir w [].
Proof.
  intros Hb. split_and!; [done|by intros f Hf%elem_of_nil|]. intros n i [b Hn] Hi.
  apply elem_of_map_to_list in Hn. rewrite forallb_forall in Hb.
  specialize (Hb _ (proj1 (list_elem_of_In _ _) Hn)). apply bool_decide_eq_true in Hb. simpl in Hb. congruence.
Qed.

Lemma cinit_c0 : cinit New c0.
Proof.
  split; [apply hinit_c0|]. intros i s. simpl. rewrite !lookup_insert_Some, lookup_empty.
  intros [[_ <-]|[_ [[_ <-]|[_ [[_ <-]|[_ ?]]]]]];
    [split; [vm_compute; reflexivity|apply no_snaps; vm_compute; reflexivity]..|done].
Qed.

Lemma rstep_78k : rstep c7 k8.
Proof.
  apply (r_client c7 "a" (OpProposeSync cmd1) a7 (Ok tt) a8); [by vm_compute| |by vm_compute].
  intros _. split; [apply ll_storable_b; by vm_compute|by vm_compute].
Qed.

Lemma rstep_89k : rstep k8 k9.
Proof. apply (r_broadcast k8 "a" a8 1 (reqs a8)); vm_compute; reflexivity. Qed.

Lemma rstep_9_10k : rstep k9 k10.
Proof.
  apply (r_app_req k9 "a" "b" 1 (to_b a8) env b6 q10 e10); [vm_compute; by constructor|vm_compute; reflexivity..].
Qed.

Lemma rstep_10_11k : rstep k10 k11.
Proof.
  apply (r_app_rep k10 "b" "a" 1 (to_b a8) rep10 a8 h11.1 l11); [vm_compute; by constructor|vm_compute; reflexivity..].
Qed.

Lemma compact_12 taken : snap ∈ taken → cstep New taken k11 k12.
Proof.
  intros Hin. apply (c_compact New taken k11 "a" (OpConfirmCompaction ack) l11 r12.1 a12);
    [vm_compute; reflexivity| |vm_compute; reflexivity].
  assert (E : Decode (ca_StateMachineSnapshot ack) = Some snap) by (vm_compute; reflexivity).
  intros f Hf. rewrite E in Hf. by injection Hf as <-.
Qed.

Lemma rstep_12_13 : rstep k12 k13.
Proof. apply (r_broadcast k12 "a" a12 1 (reqs a12)); vm_compute; reflexivity. Qed.

Lemma rstep_13_14 : rstep k13 k14.
Proof.
  apply (r_app_req k13 "a" "b" 1 (to_b a12) env e10 q14 e14); [vm_compute; by constructor|vm_compute; reflexivity..].
Qed.

Lemma compact_15 taken : snap ∈ taken → cstep New taken k14 k15.
Proof.
  intros Hin. apply (c_compact New taken k14 "b" (OpPollCompact 2 (Some snap)) e14 r15.1 e15);
    [vm_compute; reflexivity| |vm_compute; reflexivity].
  by intros f [= <-].
Qed.

Lemma restart_16 taken : cstep New taken k15 k16.
Proof.
  apply (c_restart New taken k15 "b" e15.1 e15.2 found env cfg16 e16.1 e16.2); vm_compute; by repeat split.
Qed.

End CompactingRun.
