(* ===== verification/BackupRun.v ===== *)
(** * A run with the backup service

    The run of CompactingRun, with the service that publishes its snapshot: the
    service asks a for its log, its first cycle is aborted because the leader
    seems to have changed, the second publishes, the nodes compact, the service
    and b restart.  It shows that the hypotheses of the theorem of Backup hold
    together. *)

From Stdlib Require Import Strings.Byte.
From S2P Require Import Prelude Pb Fs Persistence SnapshotFile Codecs Storage SnapStorage RaftNode KV.
From S2P Require Import RaftElection RaftReplication RaftLog RaftCommit RaftSnapshot RaftReadIndex SnapshotService.
From S2P Require Import RaftVotes RaftCompaction RaftCluster RaftSafety RaftSpec RaftViews RaftHealthy RaftImplements RaftRefine.
From S2P Require Import RaftCompacting Backup RaftExamples Examples RaftRun CompactingRun.
Import Persistence SnapshotFile Concrete Trio Run CompactingRun.

#[local] Existing Instance run_laws.
#[local] Existing Instance run_snaps.

Module BackupRun.
Import SnapshotService.

Notation Sys := (System (D := World)).

Definition service0 : Compactor * World := (NewCompactor store0 snap_cfg, empty_disk).

(** What a answers, and what the two ticks hear. *)
Definition status : LogStatusReply := Eval vm_compute in GetLogStatus l11.1.
Definition entries : list LogEntry := Eval vm_compute in StreamLogRange l11.1 1 2.
Definition tick_env (leader : string) : CycleEnv :=
  MkCycleEnv (Some (MkClusterView "a" [] [])) (Some status)
    (λ from to, if decide (from = 1 ∧ to = 2) then Some entries else None)
    (Some (MkClusterView leader [] [])) (λ _ _, true).

Definition tick1 : result CycleOutcome * (Compactor * World) :=
  Eval vm_compute in Tick (tick_env "b") service0.
Definition tick2 : result CycleOutcome * (Compactor * World) :=
  Eval vm_compute in Tick (tick_env "a") tick1.2.
Definition store3 : result Store * World :=
  Eval vm_compute in NewStore "snap" tick2.2.2.
Definition service3 : Compactor * World :=
  Eval vm_compute in (NewCompactor (get_ok (A := Store) store3.1) snap_cfg, store3.2).

(** The system with the service started, asked and answered. *)
Definition idle (c : Cl) : Sys := MkSystem c [] service0 [] [] 0.
Definition asked (c : Cl) (taken : list File) (x : Compactor * World) (top : Z) : Sys :=
  MkSystem c taken x [status] [(1, 2, entries)] top.

(** ** The steps *)

Lemma quiet_run k Y c c' : sys_steps k Y (idle c) → rstep c c' → sys_steps (S k) Y (idle c').
Proof. intros Hr Hs. eapply sys_more; [exact Hr|]. by apply b_nodes, c_run. Qed.

Lemma sys_init_0 : sys_init (idle c0).
Proof.
  split; [apply cinit_c0|]. split_and!; [done..|].
  exists "snap", snap_cfg, empty_disk, [], store0. split_and!; [done| |by apply no_snaps|by vm_compute|done].
  split; [by constructor|]. by vm_compute.
Qed.

Lemma sys_11 : sys_steps 11 (idle c0) (idle k11).
Proof.
  eapply quiet_run, rstep_10_11k. eapply quiet_run, rstep_9_10k. eapply quiet_run, rstep_89k.
  eapply quiet_run, rstep_78k. eapply quiet_run, rstep_67. eapply quiet_run, rstep_56.
  eapply quiet_run, rstep_45. eapply quiet_run, rstep_34. eapply quiet_run, rstep_23.
  eapply quiet_run, rstep_12. eapply quiet_run, rstep_01. constructor.
Qed.

Lemma sys_13 : sys_steps 13 (idle c0) (asked k11 [] service0 0).
Proof.
  eapply sys_more.
  - eapply sys_more; [apply sys_11|]. apply (b_status _ _ _ _ _ _ "a" l11). vm_compute; reflexivity.
  - change (entries) with (StreamLogRange l11.1 1 2). apply (b_stream _ _ _ _ _ _ "a" l11 1 2).
    + vm_compute; reflexivity.
    + vm_compute. discriminate.
    + repeat constructor; apply ll_storable_b; by vm_compute.
Qed.

Lemma tick_answered leader : answered (tick_env leader) [status] [(1, 2, entries)].
Proof.
  split.
  - intros st [= <-]. by left.
  - intros from to es. cbn [tick_env ce_StreamLogRange]. case_decide as Hd; [|done]. destruct Hd as [-> ->].
    intros [= <-]. by left.
Qed.

Lemma tick_run k Y c taken taken' x top top' leader r x' :
  sys_steps k Y (asked c taken x top) → Tick (tick_env leader) x = (r, x') →
  shown_by_tick (cp_store x.1) (cp_store x'.1) taken = taken' → reached r (tick_env leader) top = top' →
  sys_steps (S k) Y (asked c taken' x' top').
Proof.
  intros Hr HE <- <-. eapply sys_more; [exact Hr|]. eapply b_tick; [apply tick_answered|exact HE].
Qed.

Lemma sys_15 : sys_steps 15 (idle c0) (asked k11 [snap] tick2.2 2).
Proof.
  apply (tick_run 14 _ k11 [] [snap] tick1.2 2 2 "a" tick2.1 tick2.2); [|vm_compute; reflexivity..].
  apply (tick_run 13 _ k11 [] [] service0 0 2 "b" tick1.1 tick1.2); [apply sys_13|vm_compute; reflexivity..].
Qed.

Lemma nodes_run k Y c c' taken x top :
  sys_steps k Y (asked c taken x top) → cstep New taken c c' → sys_steps (S k) Y (asked c' taken x top).
Proof. intros Hr Hs. eapply sys_more; [exact Hr|]. by apply b_nodes. Qed.

Lemma sys_15_21 : sys_steps 6 (asked k11 [snap] tick2.2 2) (asked k16 [snap; snap] service3 2).
Proof.
  eapply nodes_run, restart_16.
  assert (H19 : sys_steps 4 (asked k11 [snap] tick2.2 2) (asked k15 [snap] tick2.2 2)).
  { eapply nodes_run, compact_15; [|by left]. eapply nodes_run, c_run, rstep_13_14.
    eapply nodes_run, c_run, rstep_12_13. eapply nodes_run, compact_12; [|by left]. constructor. }
  eapply sys_more; [exact H19|].
  apply (b_restart k15 [snap] tick2.2.1 tick2.2.2 _ _ 2 (cp_store service3.1) service3.2). by vm_compute.
Qed.

Lemma sys_reach_15 : sys_reach 15 (asked k11 [snap] tick2.2 2).
Proof. exists (idle c0). split; [apply sys_init_0|apply sys_15]. Qed.


Lemma every_file (f : File) : ll_file f.
Proof. by eexists. Qed.

End BackupRun.

Import BackupRun.


(** a before it compacts and b after its restart have applied two entries and
    have the same state machine. *)
Lemma compaction_keeps_committed_witness :
  n_lastApplied l11.1 = 2 ∧ n_lastApplied e16.1 = 2 ∧ n_stateMachine l11.1 = n_stateMachine e16.1.
Proof.
  assert (E : n_lastApplied l11.1 = 2 ∧ n_lastApplied e16.1 = 2) by (split; vm_compute; reflexivity).
  destruct E as [E1 E2]. split_and!; [done|done|].
  apply (compaction_keeps_committed every_file 15 6 (asked k11 [snap] tick2.2 2)
    (asked k16 [snap; snap] service3 2) "a" "b" l11 e16);
    [apply sys_reach_15|apply sys_15_21|by vm_compute|vm_compute; reflexivity|vm_compute; reflexivity|congruence|
     by left; vm_compute|right; vm_compute; discriminate].
Defined.
