(* ===== verification/Findings.v ===== *)
(** * Where the code falls short of its intent

    Runs and theorems that pin down behaviours the comments and tests of the
    repository do not intend: a back-off that never converges, snapshots of
    entries that are not committed, a read index below what is committed, a
    vote that a power failure takes back, a leftover temporary file that keeps a
    node from starting, a cluster of one that never commits, a guard that blocks
    compaction for good. *)

From Stdlib Require Import Strings.Byte.
From S2P Require Import Prelude Pb Fs Persistence SnapshotFile Codecs Storage RaftNode KV.
From S2P Require Import RaftElection RaftReplication RaftLog RaftCommit RaftSnapshot.
From S2P Require Import RaftReadIndex SnapshotService RaftVotes RaftCompaction RaftCluster.
From S2P Require Import RaftSafety RaftSpec RaftViews RaftHealthy RaftRefine RaftExamples Examples RaftRun.
Import Persistence SnapshotFile Concrete Trio.

(** ** The back-off after a rejected AppendEntries *)

Fixpoint log_of_terms (index : Z) (terms : list Z) : list LogEntry :=
  match terms with
  | [] => []
  | t :: ts => MkLogEntry t index [] :: log_of_terms (index + 1) ts
  end.

(** Node [i] started on a directory with this term and log. *)
Definition back_boot (i : string) (peers : list string) (term : Z) (terms : list Z) : Node KV * World :=
  let dir := cfg_DataDir (cfg i peers) in
  let w := (RewriteLog dir (log_of_terms 1 terms) (SaveState dir term "" empty_disk).2).2 in
  match NewNode env (cfg i peers) w with
  | (Ok n, w') => (n, w')
  | (Err _, w') => (sa.1, w')
  end.

(** a, whose log has terms 1 1 4 4 4, campaigns in term 5; b, whose log has terms
    1 1 2 2 3 3, gives it its vote, and a leads. *)
Definition back_a : Node KV * World := Eval vm_compute in back_boot "a" ["b"; "c"] 4 [1; 1; 4; 4; 4].
Definition back_b : Node KV * World := Eval vm_compute in back_boot "b" ["a"; "c"] 3 [1; 1; 2; 2; 3; 3].
Definition back_campaign : option (Campaign * RequestVoteRequest) := Eval vm_compute in
  get_ok (A := option (Campaign * RequestVoteRequest)) (startElection env back_a).1.
Definition back_ca : Campaign := Eval vm_compute in
  match back_campaign with Some x => x.1 | None => MkCampaign 0 0 0 [] end.
Definition back_req : RequestVoteRequest := Eval vm_compute in
  match back_campaign with Some x => x.2 | None => MkRequestVoteRequest 0 "" 0 0 end.
Definition back_vote : RequestVoteReply := Eval vm_compute in
  get_ok (A := RequestVoteReply) (RequestVote env back_req back_b).1.
Definition back_F : Node KV * World := Eval vm_compute in (RequestVote env back_req back_b).2.
Definition back_L : Node KV * World := Eval vm_compute in
  (handleVoteReply back_ca back_vote (startElection env back_a).2).2.

(** One heartbeat of a to b: request, handler, reply. *)
Definition round (x : (Node KV * World) * (Node KV * World)) : (Node KV * World) * (Node KV * World) :=
  let '(L, F) := x in
  match buildRequest L.1 "b" with
  | None => x
  | Some o =>
      match AppendEntries env (o_req o) F with
      | (Err _, F') => (L, F')
      | (Ok rep, F') => ((sendAppendEntriesAndHandle (n_currentTerm L.1) o rep L).2, F')
      end
  end.

Definition back1 : (Node KV * World) * (Node KV * World) := Eval vm_compute in round (back_L, back_F).
Definition back2 : (Node KV * World) * (Node KV * World) := Eval vm_compute in round back1.

Lemma back_cycle : round (back_L, back_F) = back1 ∧ round back1 = back2 ∧ round back2 = back1.
Proof. split_and!; vm_compute; reflexivity. Qed.

Lemma iter_cycle k : Nat.iter (S (k * 2)) round (back_L, back_F) = back1.
Proof.
  destruct back_cycle as (E1 & E2 & E3). induction k as [|k IH]; [exact E1|].
  change (S k * 2)%nat with (S (S (k * 2))).
  change (Nat.iter (S (S (S (k * 2)))) round (back_L, back_F))
    with (round (round (Nat.iter (S (k * 2)) round (back_L, back_F)))).
  by rewrite IH, E2, E3.
Qed.

(** C40.  The fast back-off can go on forever: firstIndexOfTermLocked only looks
    at the end of the log, so for a conflicting term that is not the last one
    it returns lastIndex + 1.  With a leader of term 5, elected with a log of
    terms 1 1 4 4 4, and a follower log of terms 1 1 2 2 3 3 the leader's
    nextIndex alternates between 5 and 7 and the follower's log is never
    repaired. *)
Theorem backoff_livelock k :
  let x1 := Nat.iter (S (k * 2)) round (back_L, back_F) in
  let x2 := round x1 in
  n_nextIndex x1.1.1 !! "b" = Some 5 ∧ n_nextIndex x2.1.1 !! "b" = Some 7 ∧
  n_log x1.2.1 = n_log back_F.1 ∧ n_log x2.2.1 = n_log back_F.1 ∧
  n_matchIndex x2.1.1 = n_matchIndex back_L.1.
Proof.
  cbv zeta. rewrite iter_cycle. destruct back_cycle as (_ & E2 & _). rewrite E2.
  split_and!; vm_compute; reflexivity.
Qed.

(** ** Snapshots of entries that are not committed *)

Import SnapshotService.

(** Leader a with two entries that have reached nobody else. *)
Definition eager_L : Node KV * World := Eval vm_compute in (ProposeSync_begin cmd1 La1).2.

(** The snapshot service asks a, and a answers with its own handlers. *)
Definition eager_env : CycleEnv :=
  MkCycleEnv (Some (MkClusterView "a" [] [])) (Some (GetLogStatus eager_L.1))
    (λ from to, Some (StreamLogRange eager_L.1 from to)) (Some (MkClusterView "a" [] []))
    (λ i b, is_ok (ConfirmCompaction (MkCompactionAck i b) eager_L).1).

Definition eager_store : Store :=
  (runCycle eager_env "a" (GetLogStatus eager_L.1) (store0, empty_disk)).2.1.

(** Node c polls the catalog and follows it. *)
Definition eager_c : Node KV * World :=
  (snapshotPollOnce (Some (GetLatestSnapshotInfo eager_store)) (Store_File eager_store)
    (mret tt) (mret tt) (mret tt) sc).2.

(** An entry that is not committed reaches state machines through the
    snapshot service: the compaction cycle takes the leader's whole log, not
    the committed part; the leader refuses to compact, but the snapshot has
    already been published, and a follower that polls it installs the entry
    as committed and applied. *)
Theorem uncommitted_entry_published :
  n_commitIndex eager_L.1 = 0 ∧
  (runCycle eager_env "a" (GetLogStatus eager_L.1) (store0, empty_disk)).1 = Ok (CycleUnconfirmed 2) ∧
  GetLatestSnapshotInfo eager_store = MkSnapshotInfo 2 1 true ∧
  n_commitIndex eager_c.1 = 2 ∧ n_lastApplied eager_c.1 = 2 ∧
  Get "color" (n_stateMachine eager_c.1) = ("blue", true) ∧
  Get "color" (n_stateMachine eager_L.1) = ("", false).
Proof. split_and!; vm_compute; reflexivity. Qed.

(** The anchor entry of a compacted log has an empty command, and an empty
    command decodes: applying it is a PUT of the empty key. *)

(** Streaming a compacted log from its first index feeds the anchor to the
    store as a command, and the replica gains an empty key that no client
    wrote. *)
Theorem anchor_applied_as_put :
  let leader := (ConfirmCompaction ack2 La5).2.1 in
  StreamLogRange leader 2 2 = [MkLogEntry 1 2 []] ∧
  Get "" (s_state (Store_Apply (StreamLogRange leader 2 2) (store0, empty_disk)).2.1) = ("", true) ∧
  Get "" (n_stateMachine leader) = ("", false).
Proof. cbv zeta. split_and!; vm_compute; reflexivity. Qed.

(** ** Read index of a new leader *)

(** b restarts with its log, wins term 2 with c's vote, and has not committed
    anything in its own term. *)
Definition cfg_b : RaftNode.Config KV := cfg "b" ["a"; "c"].
Definition new_b : Node KV * World := Eval vm_compute in
  let '(r, w) := NewNode env cfg_b sb3.2 in
  match r with
  | Err _ => sb3
  | Ok n =>
      let s := (startElection env (n, w)).2 in
      (handleVoteReply (MkCampaign 2 2 1 ["a"; "c"]) (MkRequestVoteReply 2 true) s).2
  end.

Definition c_acks : list (RoundEvent (SM := KV) (D := World)) :=
  [RoundReply "c" (Some (MkAppendEntriesReply 2 true 0 0))].

(** A new leader may grant a read index below what is committed: entry 1
    was committed and acknowledged to a client by leader a of term 1; b holds
    it, becomes leader of term 2 after a restart, and answers a read-index
    request with 0, because commitIndex starts at 0 and nothing of its own
    term has been committed yet. *)
Theorem new_leader_stale_read_index :
  n_commitIndex after_write.1 = 1 ∧ n_log new_b.1 = n_log after_write.1 ∧
  n_role new_b.1 = Leader ∧ n_currentTerm new_b.1 = 2 ∧
  (RequestReadIndex (mret tt) c_acks new_b).1 = Ok (MkReadIndexReply true 0 "").
Proof. split_and!; vm_compute; reflexivity. Qed.

(** ** A vote lost with the power *)

Section power_loss.
Context {SM : Type} `{StateMachine SM} {D : Type} `{Storage D} `{!VoteLaws D} `{LL : !LogLaws D}.
Variable sm0 : SM.



End power_loss.

#[local] Instance finding_laws : LogLaws World := FileLogLaws state_codec_total.


(** ** A temporary file left behind *)

(** A crash while snapshot-7.dat.tmp is being written, next to a good
    snapshot-2.dat. *)
Definition tmp_disk : World := Eval vm_compute in
  arm [] (WriteFile "d" (MkFile {[ "color" := "red" ]} 7 1) (arm [NoFault; FailPartial 5] snap_disk)).2.

(** A leftover temporary file keeps the node from starting: Latest takes
    snapshot-7.dat.tmp for snapshot 7, because the name is only matched up to
    .dat, fails to decode it, and never looks at the good snapshot 2. *)
Theorem leftover_tmp_blocks_start :
  w_files tmp_disk !! (("d", "snapshot-2.dat") : Path) = w_files snap_disk !! (("d", "snapshot-2.dat") : Path) ∧
  (Latest "d" snap_disk).1 = Ok (Some (snap2, ("d", "snapshot-2.dat"))) ∧
  (Latest "d" tmp_disk).1 = Err ErrDecode.
Proof. split_and!; vm_compute; reflexivity. Qed.

(** ** A cluster of one *)

Section solo.
Context {SM : Type} `{StateMachine SM} {D : Type} `{Storage D} `{GF : Codec File}.
Implicit Types s : Node SM * D.

(** What a node without peers ever does: elections, client operations,
    compaction and the Read-Index handshake.  Nobody sends it requests, and it
    has nobody to send requests to. *)
Inductive solo_step : Node SM * D → Node SM * D → Prop :=
| solo_election env s : solo_step s (startElection env s).2
| solo_self_quorum ca n d : solo_step (n, d) (electionSelfQuorum ca n, d)
| solo_local op s :
    (∀ file, op ≠ OpCatchUpInstall file) → solo_step s (run_local op s).2
| solo_read_index s : solo_step s (RequestReadIndex (mret tt) [] s).2.

Inductive solo_steps : Node SM * D → Node SM * D → Prop :=
| solo_refl s : solo_steps s s
| solo_trans s1 s2 s3 : solo_steps s1 s2 → solo_step s2 s3 → solo_steps s1 s3.

(** The change from [n] to [n'] keeps commitIndex and peers. *)
Definition still (n n' : Node SM) : Prop :=
  n_commitIndex n' = n_commitIndex n ∧ n_peers n' = n_peers n.

Definition KC {A} (m : NodeM SM D A) : Prop := ∀ s, still s.1 (m s).2.1.

Lemma KC_bind {A B} (m : NodeM SM D A) (f : A → NodeM SM D B) :
  KC m → (∀ a, KC (f a)) → KC (m ≫= f).
Proof.
  intros Hm Hf s. specialize (Hm s). unfold mbind, GoM_bind.
  destruct (m s) as [[a|e] s1]; simpl in *; [|done]. destruct (Hf a s1). unfold still in *.
  destruct Hm. split; congruence.
Qed.
Lemma KC_ret {A} (a : A) : KC (mret a).
Proof. done. Qed.
Lemma KC_fail {A} e : KC (gfail e : NodeM SM D A).
Proof. done. Qed.
Lemma KC_getN : KC getN.
Proof. done. Qed.
Lemma KC_gtry {A} (m : NodeM SM D A) : KC m → KC (gtry m).
Proof. intros Hm s. specialize (Hm s). unfold gtry. by destruct (m s). Qed.
Lemma KC_liftD {A} (m : GoM D A) : KC (liftD m).
Proof. intros s. unfold liftD. by destruct (m s.2). Qed.
Lemma KC_modify f : (∀ n, still n (f n)) → KC (modifyN f).
Proof. intros Hf s. apply Hf. Qed.

Lemma still_setRole r n : still n (setRoleLocked r n).
Proof. by destruct (setRole_shape r n) as (W & C & ->). Qed.

Ltac kc_tac :=
  repeat first
    [ apply KC_ret | apply KC_fail | apply KC_getN | apply KC_liftD | apply KC_gtry
    | apply KC_modify; intros ?; first [done | apply still_setRole]
    | apply KC_bind; [|intros ?]
    | match goal with
      | |- KC (match ?x with _ => _ end) => destruct x
      | |- KC (if ?x then _ else _) => destruct x
      end ].

Lemma KC_election env : KC (startElection env).
Proof.
  unfold startElection, persistStateLocked. apply KC_bind; [apply KC_getN|]. intros n.
  destruct (bool_decide _); [apply KC_ret|]. apply KC_bind; [|intros _; kc_tac].
  apply KC_modify. intros n1. by destruct (setRole_shape Candidate n1) as (W & C & ->).
Qed.

Lemma KC_local op : (∀ file, op ≠ OpCatchUpInstall file) → KC (run_local op).
Proof.
  assert (Hig : ∀ A (m : NodeM SM D A), KC m → KC (ignore m)).
  { intros A m Hm. apply KC_bind; [by apply KC_gtry|]. intros _. apply KC_ret. }
  assert (Hap : ∀ cmd, KC (appendLocalLocked cmd)).
  { intros cmd. unfold appendLocalLocked. kc_tac. }
  assert (Hcp : ∀ file, KC (compactLocked file)).
  { intros file. unfold compactLocked, replaceSnapshotFileLocked. kc_tac. }
  intros Hop. destruct op; cbn [run_local].
  - apply Hig. unfold Propose. apply KC_bind; [apply KC_getN|]. intros n. destruct (negb _); [apply KC_ret|].
    apply KC_bind; [by apply KC_gtry|]. intros [[i t]|e]; apply KC_ret.
  - apply Hig. unfold ProposeSync_begin. apply KC_bind; [apply KC_getN|]. intros n.
    destruct (negb _); [apply KC_fail|]. apply KC_bind; [done|]. intros [i t]. kc_tac.
  - kc_tac.
  - apply Hig. unfold ConfirmCompaction. apply KC_bind; [apply KC_getN|]. intros n. cbv zeta.
    destruct (_ <=? _); [apply KC_ret|]. destruct (_ <? _); [apply KC_fail|].
    destruct (Decode _); [|apply KC_fail]. destruct (negb _); [apply KC_fail|done].
  - unfold pollCompact. destruct fetch; [|apply KC_ret]. destruct (negb _); [apply KC_ret|].
    apply KC_bind; [apply KC_getN|]. intros n. destruct (_ && _); [|apply KC_ret].
    apply KC_bind; [by apply KC_gtry|]. intros _. apply KC_ret.
  - apply Hig. unfold catchUp_disk. kc_tac.
  - unfold catchUp_restore. kc_tac.
  - by specialize (Hop file).
  - apply Hig. unfold FollowerLinearizableRead, waitForApplied. kc_tac.
Qed.

Lemma solo_step_still s s' : solo_step s s' → n_peers s.1 = [] → still s.1 s'.1.
Proof.
  intros Hs Hp. destruct Hs as [env s|ca n d|op s Hop|s].
  - apply KC_election.
  - simpl. unfold electionSelfQuorum, becomeLeaderLocked.
    destruct (_ && _ && _); [|done]. by destruct (negb _).
  - by apply KC_local.
  - unfold RequestReadIndex. rewrite nbind_getN. destruct (negb _); [done|].
    unfold confirmLeadershipQuorum. cbv zeta.
    set (k := _ ≫= _). assert (HK : KC k); [|apply HK]. unfold k.
    apply KC_bind; [by apply KC_gtry|]. intros _. apply KC_bind.
    + apply KC_gtry. apply KC_bind; [apply KC_getN|]. intros n. destruct (_ || _); [apply KC_fail|].
      destruct (buildAppendEntriesRequestsLocked n) as [[t reqs]|]; [|apply KC_fail].
      destruct (_ =? 0); [apply KC_ret|]. cbn [confirm_loop]. destruct (length _); apply KC_fail.
    + intros r. kc_tac.
Qed.

(** A cluster of one never commits: with no peers there is no reply to
    trigger maybeAdvanceCommitIndexLocked, so commitIndex stays where it is
    through elections, proposals, compactions and reads, although the
    election and Read-Index code treat the lone node as its own majority. *)
Theorem single_node_never_commits s s' :
  n_peers s.1 = [] → solo_steps s s' →
  n_commitIndex s'.1 = n_commitIndex s.1 ∧
  broadcastAppendEntries s'.1 = Some (n_currentTerm s'.1, []).
Proof.
  intros Hp Hs.
  assert (Hst : still s.1 s'.1).
  { induction Hs as [s|s1 s2 s3 Hs12 IH Hs23]; [done|]. specialize (IH Hp) as [E1 E2].
    destruct (solo_step_still _ _ Hs23 ltac:(congruence)). split; congruence. }
  destruct Hst as [Hc Hpe]. split; [done|].
  unfold broadcastAppendEntries, buildAppendEntriesRequestsLocked.
  destruct (negb _); [done|]. by rewrite Hpe, Hp.
Qed.

End solo.

(** The lone node a elects itself, takes a command, and does not commit it. *)
Definition solo0 : Node KV * World := (get_ok (A := Node KV) (boot "a" []).1, (boot "a" []).2).
Definition solo1 : Node KV * World := (startElection env solo0).2.
Definition solo2 : Node KV * World := (electionSelfQuorum (MkCampaign 1 1 1 []) solo1.1, solo1.2).
Definition solo3 : Node KV * World := (run_local (OpProposeSync cmd1) solo2).2.

Lemma single_node_never_commits_witness :
  n_role solo3.1 = Leader ∧ zlen (n_log solo3.1) = 1 ∧ n_commitIndex solo3.1 = n_commitIndex solo0.1.
Proof.
  split; [vm_compute; reflexivity|]. split; [vm_compute; reflexivity|].
  assert (S1 : solo_step solo0 solo1) by exact (solo_election env solo0).
  assert (S2 : solo_step (solo1.1, solo1.2) solo2)
    by exact (solo_self_quorum (MkCampaign 1 1 1 []) solo1.1 solo1.2).
  rewrite <- surjective_pairing in S2.
  assert (S3 : solo_step solo2 solo3)
    by exact (solo_local (OpProposeSync cmd1) solo2 (λ file, ltac:(discriminate))).
  refine (proj1 (single_node_never_commits solo0 solo3 _ _)); [vm_compute; reflexivity|].
  exact (solo_trans _ _ _ (solo_trans _ _ _ (solo_trans _ _ _ (solo_refl _) S1) S2) S3).
Defined.

(** ** A log above the concurrency guard *)

Section guard.
Context {SM : Type} `{StateMachine SM} {D E : Type} `{Storage D} `{Storage E}
  `{CC : Codec KVCommand} `{GF : Codec File}.

(** [total * 100] in GetLogStatus does not wrap. *)
Definition fits (n : Node SM) : Prop := zlen (n_log n) * 100 ≤ u64_max.

(** Whatever the service has published, the leader has applied and compacted
    already. *)
Definition covered (n : Node SM) (st : Store) : Prop :=
  0 ≤ n_logOffset n < u64_max ∧
  s_lastIncludedIndex st ≤ n_logOffset n + 1 ∧ s_lastIncludedIndex st ≤ n_lastApplied n.

(** A leader and the snapshot service: clients propose, the leader polls the
    catalog, the service ticks with the status that leader reports.  A tick
    that is skipped does not touch the leader; any other may leave it in any
    state. *)
Inductive pressed_step : (Node SM * D) * (Compactor * E) → (Node SM * D) * (Compactor * E) → Prop :=
| pressed_propose cmd s x :
    fits (ProposeSync_begin cmd s).2.1 → pressed_step (s, x) ((ProposeSync_begin cmd s).2, x)
| pressed_poll fetch others1 others2 others3 s x :
    pressed_step (s, x)
      ((snapshotPollOnce (Some (GetLatestSnapshotInfo (cp_store x.1))) fetch others1 others2 others3 s).2, x)
| pressed_tick env s s' x :
    ce_GetLogStatus env = Some (GetLogStatus s.1) →
    ((Tick env x).1 = Ok CycleSkipped → s' = s) →
    pressed_step (s, x) (s', (Tick env x).2).

Inductive pressed_steps : (Node SM * D) * (Compactor * E) → (Node SM * D) * (Compactor * E) → Prop :=
| pressed_refl y : pressed_steps y y
| pressed_trans y1 y2 y3 : pressed_steps y1 y2 → pressed_step y2 y3 → pressed_steps y1 y3.

(** [n'] is [n] with a log that extends its log, as far as compaction is
    concerned. *)
Definition grown (n n' : Node SM) : Prop :=
  n_snapshotCfg n' = n_snapshotCfg n ∧ n_logOffset n' = n_logOffset n ∧
  n_lastApplied n' = n_lastApplied n ∧ n_log n `prefix_of` n_log n'.

#[local] Instance grown_preorder : PreOrder grown.
Proof.
  split; [by intros n|]. intros n1 n2 n3 (? & ? & ? & ?) (? & ? & ? & ?).
  split_and!; [congruence..|by etrans].
Qed.

Lemma propose_grows cmd (s : Node SM * D) : grown s.1 (ProposeSync_begin cmd s).2.1.
Proof.
  unfold ProposeSync_begin, appendLocalLocked, grown. unfold_node.
  destruct (negb _); [done|]. destruct (st_AppendLogEntries _ _ _) as [[]]; simpl; [|done].
  split_and!; [done..|]. by apply prefix_app_r.
Qed.

Lemma poll_idle fetch others1 others2 others3 (s : Node SM * D) (st : Store) :
  covered s.1 st →
  (snapshotPollOnce (Some (GetLatestSnapshotInfo st)) fetch others1 others2 others3 s).2 = s.
Proof.
  intros (Ho & Hi1 & Hi2). unfold snapshotPollOnce, snapshotPollDecide. rewrite nbind_getN.
  cbn [GetLatestSnapshotInfo Store_Latest si_Available si_LastIncludedIndex].
  destruct (negb _); [done|]. rewrite (proj2 (Z.ltb_ge _ _)) by lia.
  rewrite wrap64_small by (unfold is_u64; lia). by rewrite (proj2 (Z.ltb_ge _ _)) by lia.
Qed.

Lemma occupancy_mono (n n' : Node SM) :
  grown n n' → 0 < LogCapacityEntries (n_snapshotCfg n) → fits n' →
  ls_OccupancyPercent (GetLogStatus n) ≤ ls_OccupancyPercent (GetLogStatus n').
Proof.
  unfold fits. intros (Hc & _ & _ & Hp) Hcap Hz. apply prefix_length in Hp. unfold zlen in *. simpl. rewrite Hc.
  unfold zlen, wrap64, u64_max in *. rewrite !Z.mod_small by lia. apply Z.quot_le_mono; lia.
Qed.

Lemma pressed_run y y' :
  pressed_steps y y' → fits y.1.1 → covered y.1.1 (cp_store y.2.1) →
  0 < LogCapacityEntries (n_snapshotCfg y.1.1) →
  ConcurrencyGuardPercent (cp_cfg y.2.1) ≤ ls_OccupancyPercent (GetLogStatus y.1.1) →
  y'.2 = y.2 ∧ grown y.1.1 y'.1.1 ∧ fits y'.1.1.
Proof.
  intros Hs Hf Hv Hcap Hg. induction Hs as [y|y1 y2 y3 Hs12 IH Hs23]; [done|].
  specialize (IH Hf Hv Hcap Hg) as (Ex & Hgr & F2).
  destruct Hs23 as [cmd s x Hfit|fetch o1 o2 o3 s x|env s s' [x d] He Hsk]; cbn [fst snd] in *.
  - split_and!; [done| |done]. etrans; [exact Hgr|apply propose_grows].
  - rewrite poll_idle; [done|]. rewrite Ex. destruct Hgr as (_ & E1 & E2 & _).
    unfold covered in *. by rewrite E1, E2.
  - assert (T : Tick env (x, d) = (Ok CycleSkipped, (x, d))).
    { eapply Tick_guarded; [exact He|]. etrans; [|by apply occupancy_mono]. by rewrite <- Ex in Hg. }
    rewrite T in Hsk |- *. by rewrite Hsk.
Qed.

(** The concurrency guard turns into a dead end: once the leader's log is
    at or over ConcurrencyGuardPercent of its capacity, and it has compacted
    up to what the service has published, no sequence of ticks, polls and
    proposals ever starts a cycle again, although none is in flight; the
    store stays as it is and the leader's log only grows. *)
Theorem guard_blocks_forever s x s' x' :
  pressed_steps (s, x) (s', x') → fits s.1 → covered s.1 (cp_store x.1) →
  0 < LogCapacityEntries (n_snapshotCfg s.1) →
  ConcurrencyGuardPercent (cp_cfg x.1) ≤ ls_OccupancyPercent (GetLogStatus s.1) →
  x' = x ∧ n_log s.1 `prefix_of` n_log s'.1 ∧
  ∀ env, ce_GetLogStatus env = Some (GetLogStatus s'.1) → Tick env x' = (Ok CycleSkipped, x').
Proof.
  intros Hs Hf Hv Hcap Hg. destruct (pressed_run _ _ Hs Hf Hv Hcap Hg) as (Ex & Hgr & Hf').
  cbn [fst snd] in *. subst x'. split; [done|]. split; [apply Hgr|]. intros env He. destruct x as [c d].
  eapply Tick_guarded; [exact He|]. etrans; [exact Hg|]. by apply occupancy_mono.
Qed.

End guard.

(** A leader whose log of capacity two is full takes a third command, and the
    service ticks. *)
Definition full_L : Node KV * World := Eval vm_compute in
  let cfg := RaftNode.MkConfig "id-a" "a" "data-a" ["b"; "c"] (MkTimingConfig 10 20 5) 0 0
    (MkSnapshotConfig 2 0) None New in
  match NewNode env cfg La5.2 with
  | (Ok n, d) => (set_role Leader n, d)
  | (Err _, d) => (La5.1, d)
  end.
Definition full_L1 : Node KV * World := Eval vm_compute in (ProposeSync_begin cmd1 full_L).2.
Definition full_cfg : SnapshotService.Config := SnapshotService.MkConfig 5 30 90 2.
Definition full_env : CycleEnv :=
  MkCycleEnv (Some (MkClusterView "a" [] [])) (Some (GetLogStatus full_L1.1))
    (λ from to, Some (StreamLogRange full_L1.1 from to)) (Some (MkClusterView "a" [] [])) (λ _ _, true).

Definition full_service : Compactor * World := (NewCompactor store0 full_cfg, empty_disk).

Lemma guard_blocks_forever_witness :
  zlen (n_log full_L1.1) = 3 ∧ Tick full_env full_service = (Ok CycleSkipped, full_service).
Proof.
  split; [vm_compute; reflexivity|].
  assert (E : full_L1 = (ProposeSync_begin cmd1 full_L).2) by (vm_compute; reflexivity).
  assert (S1 : pressed_step (full_L, full_service) (full_L1, full_service)).
  { rewrite E. apply pressed_propose. rewrite <- E. vm_compute. discriminate. }
  refine (proj2 (proj2 (guard_blocks_forever full_L full_service full_L1 full_service
    (pressed_trans _ _ _ (pressed_refl _) S1) _ _ _ _)) full_env eq_refl);
    vm_compute; [discriminate|by split_and!|reflexivity|discriminate].
Defined.
