(* ===== verification/GrpcClients.v ===== *)
(** * The gRPC clients: cached connections and streamed replies

    internal/grpcutil, raft/grpctransport, discovery/prober.go,
    proxy/client.go, snapshot/transferclient.go, the two discovery clients and
    the connection of raft/snapshotcatalogclient.  google.golang.org/grpc and
    the generated stubs are parameters: [GRPC] is what the clients call,
    [GRPCLaws] what its documentation says about open connections.  The mutex
    of each client makes every operation below one atomic step. *)

From Stdlib Require Import Strings.Byte.
From S2P Require Import Prelude Pb Fs Persistence SnapshotFile Codecs Storage RaftNode RaftLog.
From S2P Require Import RaftCommit RaftSnapshot RaftCompaction SnapshotService.
From S2P Require Import KV RaftExamples Examples.
Import SnapshotFile.

Module GrpcClients.

(** ** The library *)

(** [G] is the library's state and whatever it talks to. *)
Class GRPC (G : Type) : Type := {
  DialOption : Type;
  insecureCredentials : DialOption;
  ClientConn : Type;
  grpc_NewClient : string → list DialOption → GoM G ClientConn;
  conn_Close : ClientConn → GoM G unit
}.

(** NewClient gives a connection that is not open yet and opens it, or fails
    and opens nothing; Close closes at most the connection it is called on,
    and that one even when it reports an error. *)
Class GRPCLaws (G : Type) `{GRPC G} : Type := {
  g_open : G → ClientConn → Prop;
  g_new : ∀ target opts g c g', grpc_NewClient target opts g = (Ok c, g') →
    ¬ g_open g c ∧ ∀ x, g_open g' x ↔ x = c ∨ g_open g x;
  g_fail : ∀ target opts g e g', grpc_NewClient target opts g = (Err e, g') →
    ∀ x, g_open g' x ↔ g_open g x;
  g_close : ∀ c g x, g_open (conn_Close c g).2 x ↔ x ≠ c ∧ g_open g x
}.

(** A stream as its receiver sees it. *)
Inductive StreamEvent (A : Type) : Type :=
| SItem (a : A)
| SEOF
| SErr (e : goerr).
Arguments SItem {A} a.
Arguments SEOF {A}.
Arguments SErr {A} e.

(** The stubs of pkg/pb; [wait] is grpc.WaitForReady. *)
Class Stubs (G : Type) `{GRPC G} : Type := {
  stub_RequestVote : ClientConn → RequestVoteRequest → GoM G RequestVoteReply;
  stub_AppendEntries : ClientConn → bool → AppendEntriesRequest → GoM G AppendEntriesReply;
  stub_RequestReadIndex : ClientConn → bool → ReadIndexRequest → GoM G ReadIndexReply;
  stub_GetStatus : ClientConn → GoM G GetStatusReply;
  stub_Get : ClientConn → string → GoM G GetReply;
  stub_Put : ClientConn → string → string → GoM G WriteReply;
  stub_Update : ClientConn → string → string → GoM G WriteReply;
  stub_Delete : ClientConn → string → GoM G WriteReply;
  stub_GetLogStatus : ClientConn → GoM G LogStatusReply;
  stub_StreamLogRange : ClientConn → bool → Z → Z → GoM G (list (StreamEvent LogEntry));
  stub_ConfirmCompaction : ClientConn → bool → CompactionAck → GoM G unit;
  stub_GetClusterView : ClientConn → GoM G ClusterView;
  stub_GetLatestSnapshotInfo : ClientConn → GoM G SnapshotInfo;
  stub_FetchSnapshot : ClientConn → bool → GoM G (list SnapshotService.RecvEvent)
}.

Section clients.
Context {G : Type} `{GR : GRPC G} `{SB : !Stubs G} `{GF : Codec File}.

(** ** grpcutil/dial.go *)

Definition or_insecure (opts : list DialOption) : list DialOption :=
  match opts with [] => [insecureCredentials] | _ => opts end.

Definition DialPassthrough (addr : string) (opts : list DialOption) : GoM G ClientConn :=
  grpc_NewClient ("passthrough:///" +:+ addr) (or_insecure opts).

(** ** The cache all four clients have: dial options and one connection per
    address *)

Record Pool : Type := MkPool {
  dialOpts : list DialOption;
  conns : gmap string ClientConn
}.

#[local] Notation PoolM := (GoM (Pool * G)).

Definition liftG {A} (m : GoM G A) : PoolM A := λ '(p, g), let '(r, g') := m g in (r, (p, g')).

Definition gres {St A} (r : result A) : GoM St A := λ s, (r, s).

Definition cachedConn (dial : string → list DialOption → GoM G ClientConn) (addr : string) :
    PoolM ClientConn := λ '(p, g),
  match conns p !! addr with
  | Some conn => (Ok conn, (p, g))
  | None =>
      match dial addr (dialOpts p) g with
      | (Err e, g') => (Err e, (p, g'))
      | (Ok conn, g') => (Ok conn, (MkPool (dialOpts p) (<[addr := conn]> (conns p)), g'))
      end
  end.

(** The closing loop; [order] is the order in which the runtime visits the
    map. *)
Fixpoint close_loop (order : list string) (firstErr : option goerr) (s : Pool * G) :
    option goerr * (Pool * G) :=
  match order with
  | [] => (firstErr, s)
  | addr :: rest =>
      let '(p, g) := s in
      match conns p !! addr with
      | None => close_loop rest firstErr s
      | Some conn =>
          let '(r, g') := conn_Close conn g in
          let firstErr := match r, firstErr with Err e, None => Some e | _, _ => firstErr end in
          close_loop rest firstErr (MkPool (dialOpts p) (delete addr (conns p)), g')
      end
  end.

Definition closeAll (order : list string) : PoolM unit := λ s,
  let '(firstErr, s') := close_loop order None s in
  (match firstErr with Some e => Err e | None => Ok tt end, s').

(** ** raft/grpctransport/transport.go *)

Definition Transport_New (opts : list DialOption) : Pool := MkPool (or_insecure opts) ∅.
Definition Transport_clientFor (addr : string) : PoolM ClientConn := cachedConn DialPassthrough addr.
Definition SendRequestVote (peerID : string) (req : RequestVoteRequest) : PoolM RequestVoteReply :=
  client ← Transport_clientFor peerID; liftG (stub_RequestVote client req).
Definition SendAppendEntries (peerID : string) (req : AppendEntriesRequest) : PoolM AppendEntriesReply :=
  client ← Transport_clientFor peerID; liftG (stub_AppendEntries client true req).
Definition SendReadIndex (peerID : string) (req : ReadIndexRequest) : PoolM ReadIndexReply :=
  client ← Transport_clientFor peerID; liftG (stub_RequestReadIndex client true req).
Definition Transport_Close (order : list string) : PoolM unit := closeAll order.

(** ** discovery/prober.go *)

Definition NewGRPCProber (opts : list DialOption) : Pool := MkPool (or_insecure opts) ∅.
Definition Prober_clientFor (addr : string) : PoolM ClientConn := cachedConn grpc_NewClient addr.
Definition Prober_GetStatus (addr : string) : PoolM GetStatusReply :=
  client ← Prober_clientFor addr; liftG (stub_GetStatus client).
Definition Prober_Close (order : list string) : PoolM unit := closeAll order.

(** ** proxy/client.go *)

Inductive KVServiceClient : Type :=
| NewKVServiceClient (conn : ClientConn)
| errClient (err : goerr).

Definition NewGRPCClientFactory (opts : list DialOption) : Pool := MkPool (or_insecure opts) ∅.
Definition KVClientFor (addr : string) : PoolM KVServiceClient :=
  r ← gtry (cachedConn grpc_NewClient addr);
  match r with
  | Err err => mret (errClient err)
  | Ok conn => mret (NewKVServiceClient conn)
  end.
Definition KVClient_Get (c : KVServiceClient) (key : string) : GoM G GetReply :=
  match c with NewKVServiceClient conn => stub_Get conn key | errClient err => gfail err end.
Definition KVClient_Put (c : KVServiceClient) (key value : string) : GoM G WriteReply :=
  match c with NewKVServiceClient conn => stub_Put conn key value | errClient err => gfail err end.
Definition KVClient_Update (c : KVServiceClient) (key value : string) : GoM G WriteReply :=
  match c with NewKVServiceClient conn => stub_Update conn key value | errClient err => gfail err end.
Definition KVClient_Delete (c : KVServiceClient) (key : string) : GoM G WriteReply :=
  match c with NewKVServiceClient conn => stub_Delete conn key | errClient err => gfail err end.
Definition Factory_Close (order : list string) : PoolM unit := closeAll order.

(** ** snapshot/transferclient.go *)

Definition NewGRPCTransferClient (opts : list DialOption) : Pool := MkPool opts ∅.
Definition Transfer_clientFor (addr : string) : PoolM ClientConn := cachedConn DialPassthrough addr.
Definition Transfer_GetLogStatus (addr : string) : PoolM LogStatusReply :=
  c ← Transfer_clientFor addr; liftG (stub_GetLogStatus c).

(** The receiving loop; a stream ends with EOF or an error. *)
Fixpoint recv_entries (events : list (StreamEvent LogEntry)) (entries : list LogEntry) :
    result (list LogEntry) :=
  match events with
  | [] => Err ErrTransport
  | SEOF :: _ => Ok entries
  | SErr err :: _ => Err err
  | SItem e :: rest => recv_entries rest (entries ++ [e])
  end.

Definition Transfer_StreamLogRange (addr : string) (fromIndex toIndex : Z) : PoolM (list LogEntry) :=
  c ← Transfer_clientFor addr;
  stream ← liftG (stub_StreamLogRange c true fromIndex toIndex);
  gres (recv_entries stream []).

Definition Transfer_ConfirmCompaction (addr : string) (truncatedUpToIndex : Z)
    (stateMachineSnapshot : list byte) : PoolM unit :=
  c ← Transfer_clientFor addr;
  liftG (stub_ConfirmCompaction c true (MkCompactionAck truncatedUpToIndex stateMachineSnapshot)).
Definition Transfer_Close (order : list string) : PoolM unit := closeAll order.

(** ** proxy/discovery_client.go and snapshot/discovery_client.go: one fixed
    connection *)

Record GRPCDiscoveryClient : Type := MkDiscoveryClient { dc_conn : ClientConn }.

Definition NewGRPCDiscoveryClient (addr : string) (opts : list DialOption) : GoM G GRPCDiscoveryClient :=
  conn ← grpc_NewClient addr (or_insecure opts); mret (MkDiscoveryClient conn).
Definition DiscoveryClient_GetClusterView (c : GRPCDiscoveryClient) : GoM G ClusterView :=
  stub_GetClusterView (dc_conn c).
Definition DiscoveryClient_Close (c : GRPCDiscoveryClient) : GoM G unit := conn_Close (dc_conn c).

(** The same code again in internal/snapshot. *)
Definition Backup_NewGRPCDiscoveryClient (addr : string) (opts : list DialOption) :
    GoM G GRPCDiscoveryClient :=
  conn ← grpc_NewClient addr (or_insecure opts); mret (MkDiscoveryClient conn).
Definition Backup_GetClusterView (c : GRPCDiscoveryClient) : GoM G ClusterView :=
  stub_GetClusterView (dc_conn c).
Definition Backup_DiscoveryClient_Close (c : GRPCDiscoveryClient) : GoM G unit := conn_Close (dc_conn c).

(** ** raft/snapshotcatalogclient/client.go *)

Record CatalogClient : Type := MkCatalogClient { cc_conn : ClientConn }.

Definition CatalogClient_New (addr : string) (opts : list DialOption) : GoM G CatalogClient :=
  conn ← DialPassthrough addr opts; mret (MkCatalogClient conn).
Definition CatalogClient_GetLatestSnapshotInfo (c : CatalogClient) : GoM G SnapshotInfo :=
  stub_GetLatestSnapshotInfo (cc_conn c).
Definition CatalogClient_FetchSnapshot (c : CatalogClient) : GoM G File :=
  stream ← stub_FetchSnapshot (cc_conn c) true;
  match SnapshotService.recv_loop stream [] with
  | None => gfail ErrTransport
  | Some buf => match Decode buf with None => gfail ErrDecode | Some f => mret f end
  end.
Definition CatalogClient_Close (c : CatalogClient) : GoM G unit := conn_Close (cc_conn c).

(** ** Connections are opened once, reused and closed *)

(** No call opens or closes a connection. *)
Definition quiet_call `{!GRPCLaws G} {A} (m : GoM G A) : Prop := ∀ g x, g_open (m g).2 x ↔ g_open g x.

Class StubsLaws `{!GRPCLaws G} : Prop := {
  sl_vote : ∀ c req, quiet_call (stub_RequestVote c req);
  sl_append : ∀ c w req, quiet_call (stub_AppendEntries c w req);
  sl_read : ∀ c w req, quiet_call (stub_RequestReadIndex c w req);
  sl_status : ∀ c, quiet_call (stub_GetStatus c);
  sl_logstatus : ∀ c, quiet_call (stub_GetLogStatus c);
  sl_stream : ∀ c w from to, quiet_call (stub_StreamLogRange c w from to);
  sl_confirm : ∀ c w ack, quiet_call (stub_ConfirmCompaction c w ack)
}.

Context `{!GRPCLaws G} `{!StubsLaws}.
Implicit Types (s : Pool * G) (base : ClientConn → Prop).

(** [base] is what was open before: everything else that is open is cached,
    each connection under one address. *)
Definition pool_ok base s : Prop :=
  (∀ a b c, conns s.1 !! a = Some c → conns s.1 !! b = Some c → a = b) ∧
  (∀ a c, conns s.1 !! a = Some c → ¬ base c) ∧
  ∀ x, g_open s.2 x ↔ base x ∨ ∃ a, conns s.1 !! a = Some x.

Definition keeps {A} (m : PoolM A) : Prop := ∀ base s, pool_ok base s → pool_ok base (m s).2.

Lemma keeps_bind {A B} (m : PoolM A) (f : A → PoolM B) :
  keeps m → (∀ a, keeps (f a)) → keeps (m ≫= f).
Proof.
  intros Hm Hf base s Hs. specialize (Hm base s Hs). unfold mbind, GoM_bind.
  destruct (m s) as [[a|e] s']; [by apply Hf|done].
Qed.

Lemma keeps_gtry {A} (m : PoolM A) : keeps m → keeps (gtry m).
Proof. intros Hm base s Hs. specialize (Hm base s Hs). unfold gtry. by destruct (m s). Qed.

Lemma keeps_res {A} (r : result A) : keeps (gres r).
Proof. by intros base s. Qed.

Lemma keeps_liftG {A} (m : GoM G A) : quiet_call m → keeps (liftG m).
Proof.
  intros Hq base [p g] (I1 & I2 & I3). specialize (Hq g). unfold liftG. destruct (m g) as [r g'].
  cbn [snd] in *. split_and!; [done..|]. intros x. cbn [fst snd]. by rewrite Hq.
Qed.

(** What a dialler does to the library: NewClient once. *)
Definition dials (dial : string → list DialOption → GoM G ClientConn) : Prop :=
  ∀ addr opts, ∃ target opts', dial addr opts = grpc_NewClient target opts'.

Lemma dials_plain : dials grpc_NewClient.
Proof. intros addr opts. by exists addr, opts. Qed.

Lemma dials_passthrough : dials DialPassthrough.
Proof. intros addr opts. by eexists _, _. Qed.

Lemma keeps_cached dial addr : dials dial → keeps (cachedConn dial addr).
Proof.
  intros Hd base [p g] (I1 & I2 & I3). cbn [fst snd] in *. unfold cachedConn.
  destruct (conns p !! addr) as [c|] eqn:Ec; [done|].
  destruct (Hd addr (dialOpts p)) as (target & opts & ->).
  destruct (grpc_NewClient target opts g) as [[c|e] g'] eqn:En; cbn [fst snd].
  - destruct (g_new _ _ _ _ _ En) as [Hno Hop].
    assert (Hfresh : ∀ a, conns p !! a ≠ Some c).
    { intros a Ha. apply Hno, I3. right. by exists a. }
    split_and!; cbn [conns fst snd].
    + intros a b x. rewrite !lookup_insert_Some. intros [[? ?]|[? Ha]] [[? ?]|[? Hb]]; simplify_eq; eauto.
      * by apply Hfresh in Hb.
      * by apply Hfresh in Ha.
    + intros a x. rewrite lookup_insert_Some. intros [[_ <-]|[_ ?]]; [|eauto].
      intros Hb. apply Hno, I3. by left.
    + intros x. rewrite Hop, I3. split.
      * intros [->|[?|(a & Ha)]]; [right; exists addr; by rewrite lookup_insert_eq|by left|].
        right. exists a. rewrite lookup_insert_ne; [done|]. intros <-. congruence.
      * intros [?|(a & Ha)]; [auto|]. apply lookup_insert_Some in Ha as [[_ <-]|[_ ?]]; [by left|].
        right. right. by exists a.
  - split_and!; [done..|]. intros x. cbn [fst snd]. rewrite (g_fail _ _ _ _ _ En). apply I3.
Qed.

Lemma cached_hit dial addr s conn :
  conns s.1 !! addr = Some conn → cachedConn dial addr s = (Ok conn, s).
Proof. destruct s as [p g]. cbn [fst]. unfold cachedConn. by intros ->. Qed.

Lemma close_loop_ok base order err s :
  pool_ok base s →
  let s' := (close_loop order err s).2 in
  pool_ok base s' ∧
  ∀ a c, conns s'.1 !! a = Some c ↔ conns s.1 !! a = Some c ∧ a ∉ order.
Proof.
  revert err s. induction order as [|addr order IH]; intros err s Hs; cbv zeta.
  { split; [done|]. intros a c. cbn. set_solver. }
  destruct s as [p g]. cbn [close_loop]. destruct (conns p !! addr) as [conn|] eqn:Ec.
  - destruct (conn_Close conn g) as [r g'] eqn:Eg.
    assert (Hg : ∀ x, g_open g' x ↔ x ≠ conn ∧ g_open g x).
    { intros x. pose proof (g_close conn g x) as Hc. by rewrite Eg in Hc. }
    destruct Hs as (I1 & I2 & I3). cbn [fst snd] in *.
    destruct (IH (match r, err with Err e, None => Some e | _, _ => err end)
      (MkPool (dialOpts p) (delete addr (conns p)), g')) as [J1 J2].
    + split_and!; cbn [conns fst snd].
      * intros a b c. rewrite !lookup_delete_Some. naive_solver.
      * intros a c. rewrite lookup_delete_Some. naive_solver.
      * intros x. rewrite Hg, I3. split.
        -- intros [Hne [?|(a & Ha)]]; [by left|right]. exists a. rewrite lookup_delete_ne; [done|]. congruence.
        -- intros [Hb|(a & Ha)]; [split; [intros ->; by eapply I2|by left]|].
           apply lookup_delete_Some in Ha as [Hne Ha]. split; [|right; by exists a].
           intros ->. by eapply Hne, I1.
    + split; [done|]. intros a c. rewrite J2. cbn [conns fst]. rewrite lookup_delete_Some. set_solver.
  - destruct (IH err (p, g) Hs) as [J1 J2]. split; [done|]. intros a c. rewrite J2. cbn [fst].
    rewrite not_elem_of_cons. split; [|naive_solver]. intros [Ha ?]. split_and!; try done. congruence.
Qed.

Lemma closeAll_state order s : (closeAll order s).2 = (close_loop order None s).2.
Proof. unfold closeAll. by destruct (close_loop order None s). Qed.

(** What is dialled: the transport of the nodes and the transfer client bypass
    gRPC's resolver, the proxy and the prober do not. *)
Lemma dial_targets addr p g :
  conns p !! addr = None →
  Transport_clientFor addr (p, g) = cachedConn (λ a opts, grpc_NewClient ("passthrough:///" +:+ a) (or_insecure opts)) addr (p, g) ∧
  (Prober_clientFor addr (p, g)).2.2 = (grpc_NewClient addr (dialOpts p) g).2 ∧
  (KVClientFor addr (p, g)).2.2 = (grpc_NewClient addr (dialOpts p) g).2.
Proof.
  intros Hn. split; [done|]. unfold Prober_clientFor, KVClientFor, mbind, GoM_bind, gtry, cachedConn.
  rewrite Hn. by destruct (grpc_NewClient addr (dialOpts p) g) as [[c|e] g'].
Qed.

(** Everything a program does with one of the four clients. *)
Inductive ClientOp : Type :=
| UseVote (addr : string) (req : RequestVoteRequest)
| UseAppend (addr : string) (req : AppendEntriesRequest)
| UseReadIndex (addr : string) (req : ReadIndexRequest)
| UseStatus (addr : string)
| UseKV (addr : string)
| UseLogStatus (addr : string)
| UseStream (addr : string) (from to : Z)
| UseConfirm (addr : string) (index : Z) (snapshot : list byte)
| UseClose (order : list string).

Definition run_client (op : ClientOp) (s : Pool * G) : Pool * G :=
  match op with
  | UseVote addr req => (SendRequestVote addr req s).2
  | UseAppend addr req => (SendAppendEntries addr req s).2
  | UseReadIndex addr req => (SendReadIndex addr req s).2
  | UseStatus addr => (Prober_GetStatus addr s).2
  | UseKV addr => (KVClientFor addr s).2
  | UseLogStatus addr => (Transfer_GetLogStatus addr s).2
  | UseStream addr from to => (Transfer_StreamLogRange addr from to s).2
  | UseConfirm addr index b => (Transfer_ConfirmCompaction addr index b s).2
  | UseClose order => (Transport_Close order s).2
  end.

Lemma run_client_ok base op s : pool_ok base s → pool_ok base (run_client op s).
Proof.
  intros Hs.
  assert (Hcall : ∀ A B dial addr (f : ClientConn → GoM G A) (k : A → PoolM B),
    dials dial → (∀ c, quiet_call (f c)) → (∀ a, keeps (k a)) →
    keeps (c ← cachedConn dial addr; x ← liftG (f c); k x)).
  { intros. apply keeps_bind; [by apply keeps_cached|]. intros. apply keeps_bind; [by apply keeps_liftG|done]. }
  assert (Hcall1 : ∀ A dial addr (f : ClientConn → GoM G A),
    dials dial → (∀ c, quiet_call (f c)) → keeps (c ← cachedConn dial addr; liftG (f c))).
  { intros. apply keeps_bind; [by apply keeps_cached|]. intros. by apply keeps_liftG. }
  destruct op; cbn [run_client].
  - apply Hcall1; [apply dials_passthrough|intros; apply sl_vote|done].
  - apply Hcall1; [apply dials_passthrough|intros; apply sl_append|done].
  - apply Hcall1; [apply dials_passthrough|intros; apply sl_read|done].
  - apply Hcall1; [apply dials_plain|intros; apply sl_status|done].
  - unfold KVClientFor. apply keeps_bind; [by apply keeps_gtry, keeps_cached, dials_plain| |done].
    intros []; by intros ? ?.
  - apply Hcall1; [apply dials_passthrough|intros; apply sl_logstatus|done].
  - apply Hcall; [apply dials_passthrough|intros; apply sl_stream|intros; apply keeps_res|done].
  - apply Hcall1; [apply dials_passthrough|intros; apply sl_confirm|done].
  - unfold Transport_Close. rewrite closeAll_state. by apply close_loop_ok.
Qed.

Lemma run_clients_ok base ops s : pool_ok base s → pool_ok base (foldl (flip run_client) s ops).
Proof. revert s. induction ops as [|op ops IH]; intros s Hs; [done|]. by apply IH, run_client_ok. Qed.

(** A client opens at most one connection per address and closes them
    all: after any sequence of calls, failed ones included, the open
    connections are those that were open before plus exactly one per cached
    address; an address that is cached is served without dialling; and Close,
    in whatever order the map is visited and whatever errors it meets, leaves
    open what was open before the client existed. *)
Theorem connections_cached_and_closed ops opts g :
  let s := foldl (flip run_client) (MkPool opts ∅, g) ops in
  pool_ok (g_open g) s ∧
  (∀ dial addr conn, conns s.1 !! addr = Some conn → cachedConn dial addr s = (Ok conn, s)) ∧
  ∀ order, (∀ addr, is_Some (conns s.1 !! addr) → addr ∈ order) →
    let s' := (closeAll order s).2 in conns s'.1 = ∅ ∧ ∀ x, g_open s'.2 x ↔ g_open g x.
Proof.
  cbv zeta. set (s := foldl _ _ ops).
  assert (Hs : pool_ok (g_open g) s).
  { apply run_clients_ok. split_and!; cbn [conns fst snd].
    - intros a b c. by rewrite lookup_empty.
    - intros a c. by rewrite lookup_empty.
    - intros x. split; [by left|]. intros [?|(a & Ha)]; [done|]. by rewrite lookup_empty in Ha. }
  split; [done|]. split; [intros; by apply cached_hit|]. intros order Hall. rewrite closeAll_state.
  destruct (close_loop_ok (g_open g) order None s Hs) as [(_ & _ & J) Hc].
  assert (Hnone : ∀ a, conns (close_loop order None s).2.1 !! a = None).
  { intros a. destruct (conns (close_loop order None s).2.1 !! a) as [c|] eqn:E; [|done].
    apply Hc in E as [E Hn]. destruct Hn. apply Hall. by eexists. }
  split; [apply map_eq; intros a; by rewrite Hnone, lookup_empty|].
  intros x. rewrite J. split; [|by left]. intros [?|(a & Ha)]; [done|]. congruence.
Qed.

(** ** A streamed log range *)

Lemma recv_entries_eof es acc : recv_entries ((SItem <$> es) ++ [SEOF]) acc = Ok (acc ++ es).
Proof.
  revert acc. induction es as [|e es IH]; intros acc; [cbn; by rewrite app_nil_r|].
  cbn [fmap list_fmap app recv_entries]. change (list_fmap _ _ SItem es) with (SItem <$> es).
  rewrite IH. by rewrite <- app_assoc.
Qed.

Lemma recv_entries_err es err acc : recv_entries ((SItem <$> es) ++ [SErr err]) acc = Err err.
Proof. revert acc. induction es as [|e es IH]; intros acc; [done|]. cbn. apply IH. Qed.

(** Downloading a log range end to end: if gRPC delivers what the node's
    StreamLogRange sends, TransferClient.StreamLogRange returns exactly the
    entries of the range, consecutive and complete; a stream that breaks
    anywhere gives its error and never a shortened list. *)
Theorem transfer_range_exact {SM : Type} (n : Node SM) addr from to s conn g' :
  log_wf n → n_logOffset n < from → to ≤ n_logOffset n + zlen (n_log n) → from ≤ to + 1 →
  conns s.1 !! addr = Some conn →
  (stub_StreamLogRange conn true from to s.2 =
     (Ok ((SItem <$> StreamLogRange n from to) ++ [SEOF]), g') →
   ∃ es, Transfer_StreamLogRange addr from to s = (Ok es, (s.1, g')) ∧
     es = segment n (from - 1) to ∧ consecutive (from - 1) es ∧ zlen es = to - from + 1) ∧
  (∀ k err, stub_StreamLogRange conn true from to s.2 =
     (Ok ((SItem <$> take k (StreamLogRange n from to)) ++ [SErr err]), g') →
   Transfer_StreamLogRange addr from to s = (Err err, (s.1, g'))).
Proof.
  intros Hw Hf Ht Hle Hc. destruct (StreamLogRange_exact n from to Hw Hf Ht) as (E1 & E2 & E3).
  pose proof (cached_hit DialPassthrough addr s conn Hc) as Hhit. destruct s as [p g]. cbn [fst snd] in *.
  unfold Transfer_StreamLogRange, Transfer_clientFor. rewrite (bind_Ok _ _ _ _ _ Hhit).
  split; [intros HS|intros k err HS];
    (erewrite bind_Ok; [|unfold liftG; rewrite HS; reflexivity]); unfold gres.
  - rewrite recv_entries_eof. eexists. split; [done|]. rewrite app_nil_l, <- E1. auto.
  - by rewrite recv_entries_err.
Qed.

End clients.

End GrpcClients.

(** ** A library that runs: connections are numbers, replies are fixed *)

Module Sim.
Import GrpcClients.

Record Net : Type := MkNet {
  net_open : list nat;
  net_targets : list string;
  net_range : Z → Z → list (StreamEvent LogEntry)
}.

Definition new_id (l : list nat) : nat := S (max_list l).

#[export] Instance sim_grpc : GRPC Net := {|
  DialOption := unit;
  insecureCredentials := tt;
  ClientConn := nat;
  grpc_NewClient target _ := λ g,
    if decide (target = "passthrough:///") then (Err (ErrMsg "bad target"), g) else
    let c := new_id (net_open g) in
    (Ok c, MkNet (c :: net_open g) (target :: net_targets g) (net_range g));
  conn_Close c := λ g,
    (if decide (c ∈ net_open g) then Ok tt else Err ErrTransport,
     MkNet (filter (λ x, x ≠ c) (net_open g)) (net_targets g) (net_range g))
|}.

#[export] Instance sim_laws : GRPCLaws Net.
Proof.
  refine {| g_open := λ g (c : ClientConn), (c : nat) ∈ net_open g |}.
  - intros target opts g c g'. cbn. destruct (decide _); [done|]. intros [= <- <-]. cbn. split.
    + intros Hin. apply max_list_elem_of_le in Hin. unfold new_id in Hin. lia.
    + intros x. apply elem_of_cons.
  - intros target opts g e g'. cbn. destruct (decide _); [|done]. by intros [= <- <-].
  - intros c g x. cbn. by rewrite list_elem_of_filter.
Defined.

#[export] Instance sim_stubs : Stubs Net := {|
  stub_RequestVote _ _ := mret (MkRequestVoteReply 1 true);
  stub_AppendEntries _ _ _ := mret (MkAppendEntriesReply 1 true 0 0);
  stub_RequestReadIndex _ _ _ := gfail ErrTransport;
  stub_GetStatus _ := mret (MkGetStatusReply Role_LEADER 1 "a" "id-a");
  stub_Get _ _ := gfail ErrTransport;
  stub_Put _ _ _ := gfail ErrTransport;
  stub_Update _ _ _ := gfail ErrTransport;
  stub_Delete _ _ := gfail ErrTransport;
  stub_GetLogStatus _ := mret (MkLogStatusReply 1 1 1 1);
  stub_StreamLogRange _ _ from to := λ g, (Ok (net_range g from to), g);
  stub_ConfirmCompaction _ _ _ := mret tt;
  stub_GetClusterView _ := mret zero_ClusterView;
  stub_GetLatestSnapshotInfo _ := mret (MkSnapshotInfo 0 0 false);
  stub_FetchSnapshot _ _ := mret [SnapshotService.RecvEOF]
|}.

#[export] Instance sim_stubs_laws : StubsLaws.
Proof. by split. Qed.

Definition net0 : Net := MkNet [7%nat] [] (λ _ _, []).
Definition vote_req : RequestVoteRequest := MkRequestVoteRequest 1 "id-a" 0 0.

(** Two peers, one of them twice, and an address gRPC refuses. *)
Definition calls : list ClientOp :=
  [UseVote "b" vote_req; UseVote "c" vote_req; UseVote "" vote_req; UseVote "b" vote_req].
Definition pool4 : Pool * Net := foldl (flip run_client) (Transport_New [], net0) calls.

End Sim.
Import GrpcClients Sim.

Lemma connections_witness :
  net_open pool4.2 = [9; 8; 7]%nat ∧
  net_open (closeAll ["c"; "b"] pool4).2.2 = [7]%nat ∧
  ∀ x, g_open (closeAll ["c"; "b"] pool4).2.2 x ↔ g_open net0 x.
Proof.
  split; [vm_compute; reflexivity|]. split; [vm_compute; reflexivity|].
  destruct (connections_cached_and_closed calls [insecureCredentials] net0) as (_ & _ & Hc).
  destruct (Hc ["c"; "b"]) as [_ Hx]; [|exact Hx].
  intros addr [c Hc']. change (foldl _ _ calls) with pool4 in Hc'.
  assert (E : conns pool4.1 = {["b" := 8%nat; "c" := 9%nat]}) by (vm_compute; reflexivity).
  rewrite E in Hc'. apply lookup_insert_Some in Hc' as [[<- _]|[_ Hc']]; [by right; left|].
  apply lookup_singleton_Some in Hc' as [<- _]. by left.
Defined.

(** b's connection serves the log of the leader of Examples. *)
Definition range_net : Net :=
  MkNet [7%nat] [] (λ from to, (SItem <$> StreamLogRange La5.1 from to) ++ [SEOF]).
Definition range_pool : Pool * Net := (MkPool [insecureCredentials] {["b" := 7%nat]}, range_net).

Lemma transfer_range_witness :
  ∃ es, Transfer_StreamLogRange "b" 2 2 range_pool = (Ok es, range_pool) ∧
    es = segment La5.1 1 2 ∧ zlen es = 1.
Proof.
  assert (Hw : log_wf La5.1) by (apply wf_log_b_ok; by vm_compute).
  assert (Ho : n_logOffset La5.1 = 0) by (by vm_compute).
  assert (Hz : zlen (n_log La5.1) = 2) by (by vm_compute).
  destruct (transfer_range_exact La5.1 "b" 2 2 range_pool 7%nat range_net Hw) as [Hr _];
    [lia|lia|lia|vm_compute; reflexivity|].
  destruct (Hr eq_refl) as (es & E & Hs & _ & Hl). exists es. split; [exact E|]. split; [exact Hs|exact Hl].
Defined.
