(* ===== verification/CircuitBreaker.v ===== *)
(** * internal/circuitbreaker: one breaker per node address

    github.com/sony/gobreaker is a parameter: the class [GoBreaker] has the
    operations of its CircuitBreaker that the package uses, [GoBreakerLaws]
    what its documentation promises about them.  Registry is the package's own
    code. *)

From S2P Require Import Prelude.

Definition consecutiveFailuresToTrip : Z := 3.
Definition openTimeout : Z := 2 * 1000000000.
Definition halfOpenMaxRequests : Z := 1.
Definition closedInterval : Z := 30 * 1000000000.

(** gobreaker.State *)
Inductive State : Type := StateClosed | StateHalfOpen | StateOpen.

#[global] Instance State_eq_dec : EqDecision State.
Proof. solve_decision. Defined.

(** gobreaker.Settings, with ReadyToTrip on Counts.ConsecutiveFailures, the
    only count the package looks at. *)
Record Settings : Type := MkSettings {
  st_Name : string;
  st_MaxRequests : Z;
  st_Interval : Z;
  st_Timeout : Z;
  st_ReadyToTrip : Z → bool
}.

(** A breaker at a time: its state, admission of a request, and the report of
    its outcome.  The flag of the last two says whether OnStateChange fired
    with [to == StateOpen]. *)
Class GoBreaker (B : Type) : Type := {
  gb_New : Settings → B;
  gb_State : Z → B → State;
  gb_beforeRequest : Z → B → option goerr * B;
  gb_afterRequest : Z → bool → B → B * bool
}.

Class GoBreakerLaws (B : Type) `{GoBreaker B} : Prop := {
  gb_new_closed : ∀ st now, gb_State now (gb_New st) = StateClosed;
  gb_open_rejects : ∀ now b, gb_State now b = StateOpen →
    gb_beforeRequest now b = (Some ErrOpenState, b);
  gb_closed_admits : ∀ now b, gb_State now b = StateClosed → (gb_beforeRequest now b).1 = None
}.

Section registry.
Context {B : Type} `{GoBreaker B}.

(** [r_trips] counts the calls of onTrip. *)
Record Registry : Type := MkRegistry {
  r_timeout : Z;
  r_breakers : gmap string B;
  r_trips : nat
}.

Definition newRegistry (timeout : Z) : Registry := MkRegistry timeout ∅ 0.
Definition NewRegistry : Registry := newRegistry openTimeout.

Definition readyToTrip (consecutiveFailures : Z) : bool :=
  consecutiveFailuresToTrip <=? consecutiveFailures.

Definition settings_for (r : Registry) (addr : string) : Settings :=
  MkSettings addr halfOpenMaxRequests closedInterval (r_timeout r) readyToTrip.

Definition set_breaker (addr : string) (b : B) (r : Registry) : Registry :=
  MkRegistry (r_timeout r) (<[addr := b]> (r_breakers r)) (r_trips r).

Definition breakerFor (addr : string) (r : Registry) : B * Registry :=
  match r_breakers r !! addr with
  | Some cb => (cb, r)
  | None => let cb := gb_New (settings_for r addr) in (cb, set_breaker addr cb r)
  end.

Definition add_trip (tripped : bool) (r : Registry) : Registry :=
  if tripped then MkRegistry (r_timeout r) (r_breakers r) (S (r_trips r)) else r.

(** Call: Execute of the breaker around [fn], an operation on the rest of the
    state; [now] is the time before and after it. *)
Definition Call {S A} (now now' : Z) (addr : string) (fn : GoM S A) : GoM (Registry * S) A :=
  λ '(r, s),
    let '(cb, r) := breakerFor addr r in
    match gb_beforeRequest now cb with
    | (Some err, cb) => (Err err, (set_breaker addr cb r, s))
    | (None, cb) =>
        let '(res, s') := fn s in
        let '(cb, tripped) := gb_afterRequest now' (is_ok res) cb in
        (res, (add_trip tripped (set_breaker addr cb r), s'))
    end.

Definition Registry_State (now : Z) (addr : string) (r : Registry) : State :=
  match r_breakers r !! addr with
  | Some cb => gb_State now cb
  | None => StateClosed
  end.

Fixpoint all_open (now : Z) (addrs : list string) (r : Registry) : bool :=
  match addrs with
  | [] => true
  | a :: rest =>
      if negb (bool_decide (Registry_State now a r = StateOpen)) then false
      else all_open now rest r
  end.

Definition AllOpen (now : Z) (addrs : list string) (r : Registry) : bool :=
  match addrs with
  | [] => false
  | _ => all_open now addrs r
  end.

(** [live] is the set the map argument stands for. *)
Definition Prune (live : gset string) (r : Registry) : Registry :=
  MkRegistry (r_timeout r) (filter (λ kv, kv.1 ∈ live) (r_breakers r)) (r_trips r).

(** ** Facts *)

Lemma all_open_spec now addrs r :
  all_open now addrs r = true ↔ Forall (λ a, Registry_State now a r = StateOpen) addrs.
Proof.
  induction addrs as [|a rest IH]; simpl; [by split|]. rewrite Forall_cons.
  case_bool_decide; simpl; [rewrite IH; naive_solver|]. split; [done|naive_solver].
Qed.

Lemma Prune_State now live a r :
  Registry_State now a (Prune live r) =
  if decide (a ∈ live) then Registry_State now a r else StateClosed.
Proof.
  unfold Registry_State, Prune. simpl. destruct (decide (a ∈ live)) as [Hl|Hl].
  - destruct (r_breakers r !! a) as [b|] eqn:E.
    + by rewrite (map_lookup_filter_Some_2 _ _ _ _ E).
    + by rewrite map_lookup_filter_None_2 by (by left).
  - rewrite map_lookup_filter_None_2; [done|]. right. by intros b _.
Qed.

Context `{!GoBreakerLaws B}.

(** An open breaker keeps the request from being made. *)
Lemma Call_open {S A} now now' addr (fn : GoM S A) r s :
  Registry_State now addr r = StateOpen →
  ∃ r', Call now now' addr fn (r, s) = (Err ErrOpenState, (r', s)) ∧
    (∀ a, Registry_State now a r' = Registry_State now a r) ∧ r_trips r' = r_trips r.
Proof.
  unfold Registry_State, Call, breakerFor. destruct (r_breakers r !! addr) as [cb|] eqn:E; [|done].
  intros Ho. rewrite (gb_open_rejects _ _ Ho). eexists. split; [done|]. split; [|done].
  intros a. simpl. destruct (decide (a = addr)) as [->|Hne].
  - by rewrite lookup_insert_eq, E.
  - by rewrite lookup_insert_ne.
Qed.

(** C35.  AllOpen is true exactly when there is at least one address and every
    one of them has an open breaker; then a call to any of them fails at once
    with ErrOpenState and the wrapped function never runs.  After Prune, the
    addresses that are no longer live start closed again and are admitted,
    the others keep their state. *)
Theorem breakers_shield {S A} now now' addrs live (fn : GoM S A) r (s : S) :
  (AllOpen now addrs r = true ↔ addrs ≠ [] ∧ Forall (λ a, Registry_State now a r = StateOpen) addrs) ∧
  (AllOpen now addrs r = true → ∀ a, a ∈ addrs →
     ∃ r', Call now now' a fn (r, s) = (Err ErrOpenState, (r', s)) ∧ AllOpen now addrs r' = true) ∧
  (∀ a, Registry_State now a (Prune live r) =
     if decide (a ∈ live) then Registry_State now a r else StateClosed) ∧
  (∀ a, a ∉ live → (Call now now' a fn (Prune live r, s)).1 = (fn s).1).
Proof.
  assert (Hspec : ∀ r, AllOpen now addrs r = true ↔
    addrs ≠ [] ∧ Forall (λ a, Registry_State now a r = StateOpen) addrs).
  { intros r0. unfold AllOpen. destruct addrs as [|a rest]; [naive_solver|].
    rewrite all_open_spec. naive_solver. }
  split; [apply Hspec|]. split; [|split].
  - intros [Hne Hall]%Hspec a Ha. rewrite Forall_forall in Hall.
    destruct (Call_open now now' a fn r s (Hall a Ha)) as (r' & E & Hst & _).
    exists r'. split; [done|]. apply Hspec. split; [done|]. apply Forall_forall.
    intros x Hx. rewrite Hst. by apply Hall.
  - intros a. apply Prune_State.
  - intros a Ha. unfold Call, breakerFor. simpl.
    rewrite map_lookup_filter_None_2 by (right; by intros b _).
    pose proof (gb_closed_admits now _ (gb_new_closed (settings_for (Prune live r) a) now)) as Hb.
    destruct (gb_beforeRequest now _) as [o cb]. simpl in Hb. subst o.
    destruct (fn s) as [res s']. by destruct (gb_afterRequest now' (is_ok res) cb).
Qed.

End registry.

Arguments Registry : clear implicits.

(** ** A concrete breaker

    Closed with a count of consecutive failures, open until a time, or
    half-open with its probe out: enough to run the registry. *)
Module SimpleBreaker.

Inductive Breaker : Type :=
| Closed (st : Settings) (failures : Z)
| Opened (st : Settings) (until : Z)
| Probing (st : Settings).

#[export] Instance simple : GoBreaker Breaker := {|
  gb_New st := Closed st 0;
  gb_State now b :=
    match b with
    | Closed _ _ => StateClosed
    | Opened _ u => if now <=? u then StateOpen else StateHalfOpen
    | Probing _ => StateHalfOpen
    end;
  gb_beforeRequest now b :=
    match b with
    | Closed _ _ => (None, b)
    | Opened st u => if now <=? u then (Some ErrOpenState, b) else (None, Probing st)
    | Probing _ => (Some ErrTooManyRequests, b)
    end;
  gb_afterRequest now ok b :=
    match b with
    | Closed st f =>
        if ok : bool then (Closed st 0, false)
        else if st_ReadyToTrip st (f + 1) then (Opened st (now + st_Timeout st), true)
        else (Closed st (f + 1), false)
    | Opened st u => (b, false)
    | Probing st => if ok then (Closed st 0, false) else (Opened st (now + st_Timeout st), true)
    end
|}.

#[export] Instance simple_laws : GoBreakerLaws Breaker.
Proof.
  constructor.
  - done.
  - intros now [st f|st u|st]; simpl; try done. by destruct (now <=? u).
  - intros now [st f|st u|st]; simpl; try done. by destruct (now <=? u).
Qed.

End SimpleBreaker.

Import SimpleBreaker.

Definition failing : GoM nat unit := λ k, (Err ErrTransport, S k).
Definition call_failing (x : Registry Breaker * nat) : Registry Breaker * nat :=
  (Call 10 10 "a:1" failing x).2.
Definition tripped : Registry Breaker :=
  (call_failing (call_failing (call_failing (NewRegistry, 0%nat)))).1.

(** Three failures in a row open the breaker of an address, and the fourth
    call is not made. *)
Lemma breakers_shield_witness :
  AllOpen 10 ["a:1"] tripped = true ∧
  ∃ r', Call 10 10 "a:1" failing (tripped, 7%nat) = (Err ErrOpenState, (r', 7%nat)) ∧
    AllOpen 10 ["a:1"] r' = true.
Proof.
  split; [done|]. apply (breakers_shield 10 10 ["a:1"] ∅ failing tripped 7%nat); [done|by left].
Defined.
