(* ===== verification/Proxy.v ===== *)
(** * internal/proxy/proxy.go: routing, redirects and fallback

    The nodes behind the proxy answer through the parameters [rpc_write] and
    [rpc_get]; an answer may depend on everything sent before.  The state
    [PS] is the proxy, its breakers, and the history of requests actually sent
    with their answers.  asyncRefresh only starts a goroutine: it is counted,
    and refreshNow is an operation of its own. *)

From S2P Require Import Prelude Pb CircuitBreaker.

Definition maxHops : nat := 3.

Inductive WriteOp : Type := OpPut | OpUpdate | OpDelete.

(** errors.go *)
Record apiError : Type := MkApiError {
  ae_status : Z;
  ae_code : string;
  ae_message : string;
  ae_retryAfter : Z
}.

Definition errBadRequest (msg : string) : apiError := MkApiError 400 "bad_request" msg 0.
Definition errNotFound (msg : string) : apiError := MkApiError 404 "not_found" msg 0.
Definition errUnavailable (msg : string) (retryAfter : Z) : apiError :=
  MkApiError 503 "unavailable" msg retryAfter.
Definition errInternal (msg : string) : apiError := MkApiError 500 "internal_error" msg 0.

(** A panicking handler: net/http aborts the connection. *)
Definition panicked : apiError := MkApiError 0 "" "runtime error: index out of range" 0.

Definition circuitbreakerRetryAfter : Z := 2 * 1000000000.
Definition defaultRefreshInterval : Z := 2 * 1000000000.

Definition leaderContactFailReason (err : goerr) : string :=
  match err with
  | ErrOpenState | ErrTooManyRequests => "breaker_open"
  | _ => "transport_error"
  end.

Definition redirectDetail (redirect : string) : string :=
  if bool_decide (redirect = "") then "no redirect known" else "redirect_leader=" +:+ redirect.

(** What the KVService clients send. *)
Inductive Request : Type :=
| ReqPut (key value : string)
| ReqUpdate (key value : string)
| ReqDelete (key : string)
| ReqGet (key : string).

Definition write_request (op : WriteOp) (key value : string) : Request :=
  match op with
  | OpPut => ReqPut key value
  | OpUpdate => ReqUpdate key value
  | OpDelete => ReqDelete key
  end.

Inductive Answer : Type :=
| AnsWrite (r : result WriteReply)
| AnsGet (r : result GetReply).

Record Sent : Type := MkSent { sent_addr : string; sent_req : Request; sent_answer : Answer }.

Record Proxy : Type := MkProxy {
  p_view : ClusterView;
  p_rrIndex : Z;
  p_refreshes : nat
}.

Section proxy.
Context {B : Type} `{GoBreaker B}.
Variables (rpc_write : list Sent → string → Request → result WriteReply)
          (rpc_get : list Sent → string → Request → result GetReply)
          (clock : list Sent → Z)
          (err_text : goerr → string).

Record PS : Type := MkPS {
  ps_proxy : Proxy;
  ps_breakers : Registry B;
  ps_sent : list Sent
}.

Definition NewProxy : PS := MkPS (MkProxy zero_ClusterView 0 0) NewRegistry [].

Definition set_view (v : ClusterView) (s : PS) : PS :=
  MkPS (MkProxy v (p_rrIndex (ps_proxy s)) (p_refreshes (ps_proxy s))) (ps_breakers s) (ps_sent s).

Definition currentView (s : PS) : ClusterView := p_view (ps_proxy s).

(** refreshNow, given what GetClusterView returned. *)
Definition refreshNow (view : option ClusterView) (s : PS) : PS :=
  match view with
  | None => s
  | Some view =>
      let s := set_view view s in
      let live : gset string := list_to_set (ni_Address <$> cv_AllNodes view) in
      MkPS (ps_proxy s) (Prune live (ps_breakers s)) (ps_sent s)
  end.

Definition asyncRefresh (s : PS) : PS :=
  let p := ps_proxy s in
  MkPS (MkProxy (p_view p) (p_rrIndex p) (S (p_refreshes p))) (ps_breakers s) (ps_sent s).

Definition updateLeaderCache (addr : string) (s : PS) : PS :=
  let v := currentView s in
  set_view (MkClusterView addr (cv_Followers v) (cv_AllNodes v)) s.

Definition allNodesOpen (view : ClusterView) (s : PS) : bool :=
  let nodes := cv_AllNodes view in
  match nodes with
  | [] => false
  | _ => AllOpen (clock (ps_sent s)) (ni_Address <$> nodes) (ps_breakers s)
  end.

(** Called with at least one follower.  [None]: the counter has wrapped to a
    negative number and the index expression panics. *)
Definition pickFollowerRoundRobin (followers : list NodeInfo) (s : PS) : option string * PS :=
  let p := ps_proxy s in
  let idx := Z.rem (p_rrIndex p) (zlen followers) in
  (if idx <? 0 then None else ni_Address <$> followers !! Z.to_nat idx,
   MkPS (MkProxy (p_view p) (wrap_int (p_rrIndex p + 1)) (p_refreshes p)) (ps_breakers s) (ps_sent s)).

(** A call through the breaker of [addr]; a trip starts a refresh. *)
Definition breaker_call {A} (addr : string) (fn : GoM (list Sent) A) : GoM PS A := λ s,
  let '(res, (r, sent)) :=
    Call (clock (ps_sent s)) (clock (fn (ps_sent s)).2) addr fn (ps_breakers s, ps_sent s) in
  let s' := MkPS (ps_proxy s) r sent in
  (res, if bool_decide (r_trips r = r_trips (ps_breakers s)) then s' else asyncRefresh s').

Definition callWrite (addr : string) (op : WriteOp) (key value : string) : GoM PS WriteReply :=
  breaker_call addr (λ sent,
    let req := write_request op key value in
    let res := rpc_write sent addr req in
    (res, sent ++ [MkSent addr req (AnsWrite res)])).

Definition callGet (addr key : string) : GoM PS GetReply :=
  breaker_call addr (λ sent,
    let res := rpc_get sent addr (ReqGet key) in
    (res, sent ++ [MkSent addr (ReqGet key) (AnsGet res)])).

(** The loop of Write, with [hops] attempts left. *)
Fixpoint write_loop (hops : nat) (addr : string) (op : WriteOp) (key value : string) (s : PS) :
    (WriteReply + apiError) * PS :=
  match hops with
  | O => (inr (errUnavailable "redirect-hop budget exhausted" defaultRefreshInterval), asyncRefresh s)
  | S hops' =>
      match callWrite addr op key value s with
      | (Err err, s) =>
          (inr (errUnavailable ("failed to reach leader: " +:+ err_text err) circuitbreakerRetryAfter),
           asyncRefresh s)
      | (Ok reply, s) =>
          if wr_Success reply then (inl reply, s) else
          let redirect := wr_RedirectLeader reply in
          if bool_decide (redirect = "") then
            (inr (errUnavailable "target is not leader and no redirect is known" defaultRefreshInterval),
             asyncRefresh s)
          else write_loop hops' redirect op key value (updateLeaderCache redirect s)
      end
  end.

Definition Write (op : WriteOp) (key value : string) (s : PS) : (WriteReply + apiError) * PS :=
  let view := currentView s in
  if allNodesOpen view s then
    (inr (errUnavailable "every known node's circuit breaker is open" circuitbreakerRetryAfter), s)
  else
    let addr := cv_LeaderAddress view in
    if bool_decide (addr = "") then
      (inr (errUnavailable "no known leader" defaultRefreshInterval), asyncRefresh s)
    else write_loop maxHops addr op key value s.

(** The loop of leaderPathGet. *)
Fixpoint get_loop (hops : nat) (addr key : string) (s : PS) : (GetReply + apiError) * PS :=
  match hops with
  | O => (inr (errUnavailable "redirect-hop budget exhausted" defaultRefreshInterval), asyncRefresh s)
  | S hops' =>
      match callGet addr key s with
      | (Err err, s) =>
          (inr (errUnavailable ("failed to reach leader: " +:+ err_text err) circuitbreakerRetryAfter),
           asyncRefresh s)
      | (Ok reply, s) =>
          if negb (gr_Ok reply) then
            let redirect := gr_RedirectLeader reply in
            if bool_decide (redirect = "") then
              (inr (errUnavailable "target could not answer authoritatively" defaultRefreshInterval),
               asyncRefresh s)
            else get_loop hops' redirect key (updateLeaderCache redirect s)
          else if negb (gr_Found reply) then (inr (errNotFound "key not found"), s)
          else (inl reply, s)
      end
  end.

Definition leaderPathGet (addr key : string) (s : PS) : (GetReply + apiError) * PS :=
  if bool_decide (addr = "") then
    (inr (errUnavailable "no known leader" defaultRefreshInterval), asyncRefresh s)
  else get_loop maxHops addr key s.

Definition singleHopLeaderGet (key : string) (s : PS) : (GetReply + apiError) * PS :=
  let addr := cv_LeaderAddress (currentView s) in
  if bool_decide (addr = "") then
    (inr (errUnavailable "no known leader" defaultRefreshInterval), asyncRefresh s)
  else
    match callGet addr key s with
    | (Err err, s) =>
        (inr (errUnavailable ("failed to reach leader: " +:+ err_text err) circuitbreakerRetryAfter),
         asyncRefresh s)
    | (Ok reply, s) =>
        if negb (gr_Ok reply) then
          (inr (errUnavailable "leader could not answer authoritatively" defaultRefreshInterval),
           asyncRefresh s)
        else if negb (gr_Found reply) then (inr (errNotFound "key not found"), s)
        else (inl reply, s)
    end.

Definition Proxy_Get (key : string) (s : PS) : (GetReply + apiError) * PS :=
  let view := currentView s in
  if allNodesOpen view s then
    (inr (errUnavailable "every known node's circuit breaker is open" circuitbreakerRetryAfter), s)
  else
    match cv_Followers view with
    | [] => leaderPathGet (cv_LeaderAddress view) key s
    | f :: fs =>
        match pickFollowerRoundRobin (f :: fs) s with
        | (None, s) => (inr panicked, s)
        | (Some addr, s) =>
            match callGet addr key s with
            | (Err _, s) => singleHopLeaderGet key s
            | (Ok reply, s) =>
                if negb (gr_Ok reply) then
                  let redirect := gr_RedirectLeader reply in
                  let s := if bool_decide (redirect = "") then s else updateLeaderCache redirect s in
                  singleHopLeaderGet key s
                else if negb (gr_Found reply) then (inr (errNotFound "key not found"), s)
                else (inl reply, s)
            end
        end
    end.

(** ** What is sent, and what comes back *)

(** A call either sends one request and returns its answer, or sends nothing
    and fails. *)
Lemma callWrite_sent addr op key value s r s' :
  callWrite addr op key value s = (r, s') →
  (ps_sent s' = ps_sent s ∧ ∃ e, r = Err e) ∨
  ps_sent s' = ps_sent s ++ [MkSent addr (write_request op key value) (AnsWrite r)].
Proof.
  unfold callWrite, breaker_call, Call. cbv zeta. destruct (breakerFor addr _) as [cb rg].
  destruct (gb_beforeRequest _ cb) as [[e|] cb'].
  - intros [= <- <-]. left. case_bool_decide; simpl; eauto.
  - destruct (gb_afterRequest _ _ cb') as [cb2 tr]. intros [= <- <-]. right.
    by case_bool_decide.
Qed.

Lemma callGet_sent addr key s r s' :
  callGet addr key s = (r, s') →
  (ps_sent s' = ps_sent s ∧ ∃ e, r = Err e) ∨
  ps_sent s' = ps_sent s ++ [MkSent addr (ReqGet key) (AnsGet r)].
Proof.
  unfold callGet, breaker_call, Call. cbv zeta. destruct (breakerFor addr _) as [cb rg].
  destruct (gb_beforeRequest _ cb) as [[e|] cb'].
  - intros [= <- <-]. left. case_bool_decide; simpl; eauto.
  - destruct (gb_afterRequest _ _ cb') as [cb2 tr]. intros [= <- <-]. right.
    by case_bool_decide.
Qed.

(** [cs] is a legal run of a write that starts at [addr] and ends with [r]:
    each request but the last was refused with a redirect to the next address;
    the last one succeeded and its reply is the result, or the client gets a
    503. *)
Fixpoint write_trace (req : Request) (addr : string) (cs : list Sent) (r : WriteReply + apiError) :
    Prop :=
  match cs with
  | [] => ∃ e, r = inr e ∧ ae_status e = 503
  | c :: cs' =>
      sent_addr c = addr ∧ sent_req c = req ∧
      match sent_answer c with
      | AnsWrite (Ok reply) =>
          if wr_Success reply then cs' = [] ∧ r = inl reply
          else if decide (wr_RedirectLeader reply = "") then
            cs' = [] ∧ ∃ e, r = inr e ∧ ae_status e = 503
          else write_trace req (wr_RedirectLeader reply) cs' r
      | AnsWrite (Err _) => cs' = [] ∧ ∃ e, r = inr e ∧ ae_status e = 503
      | AnsGet _ => False
      end
  end.

Lemma write_loop_trace hops addr op key value s r s' :
  write_loop hops addr op key value s = (r, s') →
  ∃ cs, ps_sent s' = ps_sent s ++ cs ∧ (length cs ≤ hops)%nat ∧
    write_trace (write_request op key value) addr cs r.
Proof.
  revert addr s. induction hops as [|hops IH]; intros addr s; cbn [write_loop].
  { intros [= <- <-]. exists []. rewrite app_nil_r. split_and!; [done|done|by eexists]. }
  destruct (callWrite addr op key value s) as [[reply|err] s1] eqn:Ec;
    apply callWrite_sent in Ec as [[Hs [e [= ?]]]|Hs].
  - destruct (wr_Success reply) eqn:Esu.
    + intros [= <- <-]. eexists. split; [exact Hs|]. split; [simpl; lia|]. simpl. by rewrite Esu.
    + cbv zeta. case_bool_decide as Er.
      * intros [= <- <-]. eexists. split; [exact Hs|]. split; [simpl; lia|]. simpl.
        rewrite Esu, decide_True by done. split_and!; [done..|]. by eexists.
      * intros HR. apply IH in HR as (cs & Hcs & Hl & Ht).
        exists (MkSent addr (write_request op key value) (AnsWrite (Ok reply)) :: cs).
        split; [rewrite Hcs; simpl; rewrite Hs, <- app_assoc; done|]. split; [simpl; lia|].
        simpl. rewrite Esu, decide_False by done. done.
  - intros [= <- <-]. exists []. simpl. rewrite app_nil_r. split_and!; [done|lia|by eexists].
  - intros [= <- <-]. eexists. split; [exact Hs|]. split; [simpl; lia|]. simpl.
    split_and!; [done..|]. by eexists.
Qed.

(** C32.  A write never goes out twice after an ambiguous failure: whatever the
    nodes answer, at most maxHops requests are sent, the first to the cached
    leader; a further one is sent only when the previous one was explicitly
    refused with a redirect, and goes to that address; the client gets the
    reply of the one request that succeeded, or a 503.  When no leader is
    known or every breaker is open nothing is sent. *)
Theorem write_at_most_once op key value s :
  let '(r, s') := Write op key value s in
  let view := currentView s in
  ∃ cs, ps_sent s' = ps_sent s ++ cs ∧ (length cs ≤ maxHops)%nat ∧
    write_trace (write_request op key value) (cv_LeaderAddress view) cs r ∧
    (cv_LeaderAddress view = "" ∨ allNodesOpen view s = true → cs = []).
Proof.
  destruct (Write op key value s) as [r s'] eqn:HW. revert HW. unfold Write. cbv zeta.
  destruct (allNodesOpen (currentView s) s).
  { intros [= <- <-]. exists []. rewrite app_nil_r. split_and!; [done|simpl; lia|by eexists|done]. }
  case_bool_decide as Ea.
  - intros [= <- <-]. exists []. simpl. rewrite app_nil_r. split_and!; [done|lia|by eexists|done].
  - intros HR. apply write_loop_trace in HR as (cs & ? & ? & ?). exists cs.
    split_and!; try done. by intros [?|?].
Qed.

(** The outcome of a read, given the requests sent for it. *)
Definition get_outcome (key : string) (cs : list Sent) (r : GetReply + apiError) : Prop :=
  Forall (λ c, sent_req c = ReqGet key) cs ∧
  match r with
  | inl reply => gr_Ok reply = true ∧ gr_Found reply = true ∧
      ∃ a, last cs = Some (MkSent a (ReqGet key) (AnsGet (Ok reply)))
  | inr e => ae_status e = 404 →
      ∃ a reply, last cs = Some (MkSent a (ReqGet key) (AnsGet (Ok reply))) ∧
        gr_Ok reply = true ∧ gr_Found reply = false
  end.

Lemma get_outcome_app key cs1 cs2 r :
  Forall (λ c, sent_req c = ReqGet key) cs1 → get_outcome key cs2 r → get_outcome key (cs1 ++ cs2) r.
Proof.
  intros H1 [H2 Hr]. split; [by apply Forall_app|].
  assert (Hl : ∀ x, last cs2 = Some x → last (cs1 ++ cs2) = Some x).
  { intros x Hx. rewrite last_app, Hx. done. }
  destruct r as [reply|e].
  - destruct Hr as (? & ? & a & ?). split_and!; eauto.
  - intros He. destruct (Hr He) as (a & reply & ? & ?). eauto.
Qed.

Lemma get_fail key e : ae_status e ≠ 404 → get_outcome key [] (inr e).
Proof. intros He. split; [constructor|done]. Qed.

Lemma get_answered key a reply :
  gr_Ok reply = true →
  get_outcome key [MkSent a (ReqGet key) (AnsGet (Ok reply))]
    (if gr_Found reply then inl reply else inr (errNotFound "key not found")).
Proof.
  intros Hok. split; [by constructor|]. destruct (gr_Found reply) eqn:Ef.
  - split_and!; [done..|by eexists].
  - intros _. by exists a, reply.
Qed.

Lemma if_negb_found {A} (b : bool) (x y : A) : (if negb b then x else y) = (if b then y else x).
Proof. by destruct b. Qed.

(** One read request, and what is made of its answer. *)
Lemma callGet_outcome addr key s r s1 :
  callGet addr key s = (r, s1) →
  ∃ cs, ps_sent s1 = ps_sent s ++ cs ∧ (length cs ≤ 1)%nat ∧
    Forall (λ c, sent_req c = ReqGet key) cs ∧
    match r with
    | Ok reply => gr_Ok reply = true →
        get_outcome key cs (if gr_Found reply then inl reply else inr (errNotFound "key not found"))
    | Err _ => True
    end.
Proof.
  intros [[Hs [e ->]]|Hs]%callGet_sent.
  - exists []. rewrite app_nil_r. split_and!; [done|simpl; lia|constructor|done].
  - exists [MkSent addr (ReqGet key) (AnsGet r)]. split_and!; [done|simpl; lia|by constructor|].
    destruct r as [reply|e]; [|done]. intros Hok. by apply get_answered.
Qed.

Lemma get_outcome_last key cs e :
  Forall (λ c, sent_req c = ReqGet key) cs → ae_status e ≠ 404 → get_outcome key cs (inr e).
Proof. intros Hc He. split; [done|]. by intros ?. Qed.

Lemma get_loop_outcome hops addr key s r s' :
  get_loop hops addr key s = (r, s') →
  ∃ cs, ps_sent s' = ps_sent s ++ cs ∧ (length cs ≤ hops)%nat ∧ get_outcome key cs r.
Proof.
  revert addr s. induction hops as [|hops IH]; intros addr s; cbn [get_loop].
  { intros [= <- <-]. exists []. rewrite app_nil_r. split_and!; [done|done|by apply get_fail]. }
  destruct (callGet addr key s) as [[reply|err] s1] eqn:Ec;
    apply callGet_outcome in Ec as (cs & Hs & Hl & Hf & Ho).
  - destruct (gr_Ok reply) eqn:Eok; cbn [negb].
    + rewrite if_negb_found. specialize (Ho eq_refl). exists cs.
      destruct (gr_Found reply); simplify_eq; split_and!; try done; lia.
    + cbv zeta. case_bool_decide as Er.
      * intros [= <- <-]. exists cs. split_and!; [done|lia|by apply get_outcome_last].
      * intros HR. apply IH in HR as (cs2 & Hcs & Hl2 & Ho2).
        exists (cs ++ cs2). split_and!.
        -- rewrite Hcs. simpl. by rewrite Hs, <- app_assoc.
        -- rewrite length_app. lia.
        -- by apply get_outcome_app.
  - intros [= <- <-]. exists cs. split_and!; [done|lia|by apply get_outcome_last].
Qed.

Lemma single_hop_outcome key s r s' :
  singleHopLeaderGet key s = (r, s') →
  ∃ cs, ps_sent s' = ps_sent s ++ cs ∧ (length cs ≤ 1)%nat ∧ get_outcome key cs r.
Proof.
  unfold singleHopLeaderGet. cbv zeta. case_bool_decide as Ea.
  { intros [= <- <-]. exists []. simpl. rewrite app_nil_r. split_and!; [done|lia|by apply get_fail]. }
  destruct (callGet _ key s) as [[reply|err] s1] eqn:Ec;
    apply callGet_outcome in Ec as (cs & Hs & Hl & Hf & Ho).
  - destruct (gr_Ok reply) eqn:Eok; cbn [negb].
    + rewrite if_negb_found. specialize (Ho eq_refl). exists cs.
      destruct (gr_Found reply); simplify_eq; split_and!; done.
    + intros [= <- <-]. exists cs. split_and!; [done|lia|by apply get_outcome_last].
  - intros [= <- <-]. exists cs. split_and!; [done|lia|by apply get_outcome_last].
Qed.

(** C33.  A read returns only what some node answered authoritatively: the value
    returned, and likewise a 404, is the last answer received, with Ok set; a
    follower that could not confirm its read index is never quoted.  At most
    two requests are sent when followers are known (one follower, then the
    leader), at most maxHops otherwise. *)
Theorem get_authoritative key s :
  let '(r, s') := Proxy_Get key s in
  ∃ cs, ps_sent s' = ps_sent s ++ cs ∧ get_outcome key cs r ∧
    (length cs ≤ match cv_Followers (currentView s) with [] => maxHops | _ => 2 end)%nat.
Proof.
  destruct (Proxy_Get key s) as [r s'] eqn:HG. revert HG. unfold Proxy_Get. cbv zeta.
  destruct (allNodesOpen _ s).
  { intros [= <- <-]. exists []. rewrite app_nil_r. split_and!; [done|by apply get_fail|simpl; lia]. }
  destruct (cv_Followers (currentView s)) as [|f fs] eqn:Ef.
  { unfold leaderPathGet. case_bool_decide.
    - intros [= <- <-]. exists []. simpl. rewrite app_nil_r. split_and!; [done|by apply get_fail|lia].
    - intros HR. apply get_loop_outcome in HR as (cs & ? & ? & ?). by exists cs. }
  destruct (pickFollowerRoundRobin (f :: fs) s) as [[addr|] s0] eqn:Ep;
    assert (Hs0 : ps_sent s0 = ps_sent s) by (unfold pickFollowerRoundRobin in Ep; by injection Ep as _ <-).
  2: { intros [= <- <-]. exists []. rewrite app_nil_r. split_and!; [done|by apply get_fail|simpl; lia]. }
  destruct (callGet addr key s0) as [[reply|err] s1] eqn:Ec;
    apply callGet_outcome in Ec as (cs & Hs & Hl & Hf & Ho); rewrite Hs0 in Hs.
  - destruct (gr_Ok reply) eqn:Eok; cbn [negb].
    + rewrite if_negb_found. specialize (Ho eq_refl). exists cs.
      destruct (gr_Found reply); simplify_eq; split_and!; try done; lia.
    + intros HR. apply single_hop_outcome in HR as (cs2 & Hcs & Hl2 & Ho2).
      assert (Hs2 : ps_sent s' = ps_sent s ++ cs ++ cs2).
      { rewrite Hcs. rewrite app_assoc, <- Hs. f_equal. by case_bool_decide. }
      exists (cs ++ cs2). split_and!; [done|by apply get_outcome_app|rewrite length_app; lia].
  - intros HR. apply single_hop_outcome in HR as (cs2 & Hcs & Hl2 & Ho2).
    exists (cs ++ cs2). split_and!; [by rewrite Hcs, Hs, app_assoc|by apply get_outcome_app|].
    rewrite length_app. lia.
Qed.

(** [m] picks in a row. *)
Fixpoint picks (m : nat) (followers : list NodeInfo) (s : PS) : list (option string) :=
  match m with
  | O => []
  | S m' =>
      let '(a, s') := pickFollowerRoundRobin followers s in a :: picks m' followers s'
  end.

Lemma picks_lookup followers m s j :
  followers ≠ [] → 0 ≤ p_rrIndex (ps_proxy s) → p_rrIndex (ps_proxy s) + Z.of_nat m < 9223372036854775808 →
  (j < m)%nat →
  picks m followers s !! j =
  Some (ni_Address <$> followers !! Z.to_nat ((p_rrIndex (ps_proxy s) + Z.of_nat j) `mod` zlen followers)).
Proof.
  intros Hne. revert s j. induction m as [|m IH]; intros s j H0 Hb Hj; [lia|].
  cbn [picks]. unfold pickFollowerRoundRobin at 1.
  assert (Hpos : 0 < zlen followers).
  { destruct followers; [done|]. rewrite zlen_cons. pose proof (zlen_nonneg followers). lia. }
  destruct j as [|j]; simpl.
  - rewrite Z.rem_mod_nonneg by lia.
    pose proof (Z.mod_pos_bound (p_rrIndex (ps_proxy s)) (zlen followers) Hpos).
    rewrite (proj2 (Z.ltb_ge _ _)) by lia. by rewrite Z.add_0_r.
  - rewrite IH; cbn [ps_proxy p_rrIndex]; [|rewrite wrap_int_small; lia..|lia].
    rewrite wrap_int_small by lia.
    by replace (p_rrIndex (ps_proxy s) + 1 + Z.of_nat j) with (p_rrIndex (ps_proxy s) + Z.of_nat (S j)) by lia.
Qed.

(** Round robin: as many reads in a row as there are followers go to every
    follower once. *)
Theorem round_robin_fair followers s :
  followers ≠ [] → 0 ≤ p_rrIndex (ps_proxy s) →
  p_rrIndex (ps_proxy s) + zlen followers < 9223372036854775808 →
  picks (length followers) followers s ≡ₚ Some <$> (ni_Address <$> followers).
Proof.
  intros Hne H0 Hb.
  set (l := Some <$> (ni_Address <$> followers)).
  assert (Hl : length l = length followers) by (unfold l; by rewrite !length_fmap).
  assert (Hlen : ∀ m s, length (picks m followers s) = m).
  { clear. induction m as [|m IH]; intros s; [done|]. cbn [picks].
    destruct (pickFollowerRoundRobin followers s). simpl. by rewrite IH. }
  assert (Hpos : 0 < zlen followers).
  { destruct followers; [done|]. rewrite zlen_cons. pose proof (zlen_nonneg followers). lia. }
  trans (rotate (Z.to_nat (p_rrIndex (ps_proxy s))) l).
  2: { unfold rotate. rewrite Permutation_app_comm. by rewrite take_drop. }
  match goal with |- ?a ≡ₚ ?b => assert (a = b) as ->; [|done] end.
  apply list_eq_same_length with (n := length followers).
  - rewrite length_rotate. lia.
  - apply Hlen.
  - intros j x y Hj Hx Hy.
    rewrite (picks_lookup followers (length followers) s j) in Hx by (done || (unfold zlen in *; lia)).
    rewrite lookup_rotate_r in Hy by lia. unfold rotate_nat_add in Hy. rewrite Hl in Hy.
    rewrite Z2Nat.id in Hy by lia. fold (zlen followers) in Hy. unfold l in Hy.
    rewrite !list_lookup_fmap in Hy.
    destruct (followers !! _) as [f|] eqn:Ef in Hx.
    + rewrite Ef in Hy. simpl in *. congruence.
    + apply lookup_ge_None in Ef.
      pose proof (Z.mod_pos_bound (p_rrIndex (ps_proxy s) + Z.of_nat j) (zlen followers) Hpos).
      unfold zlen in *. lia.
Qed.

End proxy.

(** ** A run *)

Module ProxyExample.
Import SimpleBreaker.

Definition info (id addr : string) : NodeInfo := MkNodeInfo id addr Role_FOLLOWER 1.
Definition followers : list NodeInfo := [info "n2" "b:1"; info "n3" "c:1"].
Definition ps : PS (B := Breaker) := MkPS (MkProxy zero_ClusterView 5 0) NewRegistry [].

End ProxyExample.

Lemma round_robin_fair_witness :
  picks 2 ProxyExample.followers ProxyExample.ps = [Some "c:1"; Some "b:1"] ∧
  picks 2 ProxyExample.followers ProxyExample.ps ≡ₚ [Some "b:1"; Some "c:1"].
Proof.
  split; [done|]. apply (round_robin_fair ProxyExample.followers ProxyExample.ps); done.
Defined.
