(* ===== verification/ProxyHttp.v ===== *)
(** * internal/proxy/http.go: the REST surface

    The routes and the handlers behind them.  encoding/json is a parameter:
    [json_value] is what decoding a body into pushOrUpdateBody gives, [None]
    for malformed JSON and [Some None] for a body without a value.  A response
    is its status, the headers the handlers set, and the body before encoding.

    Of net/http, the matching of ServeMux is written out: a request is its
    method and the segments of its cleaned path, percent-decoded, where the
    empty last segment of a path that ends in a slash is the segment "/".  A
    wildcard matches any one segment but that one, a pattern for GET also
    serves HEAD, and no two patterns of this mux match the same request. *)

From Stdlib Require Import Strings.Byte.
From stdpp Require Import sorting.
From S2P Require Import Prelude Pb SnapshotFile CircuitBreaker Proxy.
Import SnapshotFile.

Inductive JSON : Type :=
| JNone
| JStatus (status : string)
| JCommitted (key : string) (commitIndex : Z)
| JValue (key value : string)
| JError (code message : string)
| Text (message : string).

Record Response : Type := MkResponse {
  rs_status : Z;
  rs_ContentType : option string;
  rs_CommitIndex : option string;
  rs_RetryAfter : option string;
  rs_Allow : option string;
  rs_body : JSON
}.

(** The headers set before are [commitIndex] and [retryAfter]. *)
Definition writeJSON (commitIndex retryAfter : option string) (status : Z) (body : JSON) : Response :=
  MkResponse status (Some "application/json") commitIndex retryAfter None body.

Definition text_plain : string := "text/plain; charset=utf-8".

Definition handleHealthz : Response := writeJSON None None 200 (JStatus "ok").

Definition writeCommitted (status : Z) (key : string) (commitIndex : Z) : Response :=
  writeJSON (Some (format_uint commitIndex)) None status (JCommitted key commitIndex).

(** time.Duration.Seconds truncated to an int. *)
Definition retry_secs (retryAfter : Z) : Z :=
  let secs := Z.quot retryAfter 1000000000 in if secs <? 1 then 1 else secs.

Definition writeError (aerr : apiError) : Response :=
  writeJSON None
    (if 0 <? ae_retryAfter aerr then Some (format_uint (retry_secs (ae_retryAfter aerr))) else None)
    (ae_status aerr) (JError (ae_code aerr) (ae_message aerr)).

(** The message that quotes the missing field. *)
Definition quote : string := String (Ascii.ascii_of_nat 34) EmptyString.
Definition missing_value : string := "missing " +:+ quote +:+ "value" +:+ quote +:+ " in request body".

Section http.
Context {B : Type} `{GoBreaker B}.
Variables (rpc_write : list Sent → string → Request → result WriteReply)
          (rpc_get : list Sent → string → Request → result GetReply)
          (clock : list Sent → Z)
          (err_text : goerr → string)
          (json_value : list byte → option (option string)).

Definition decodeValueBody (body : list byte) : string + apiError :=
  match json_value body with
  | None => inr (errBadRequest "malformed JSON body")
  | Some None => inr (errBadRequest missing_value)
  | Some (Some value) => inl value
  end.

Definition handle_write (op : WriteOp) (status : Z) (key : string) (body : list byte) (s : PS) :
    Response * PS :=
  match decodeValueBody body with
  | inr aerr => (writeError aerr, s)
  | inl value =>
      match Write rpc_write clock err_text op key value s with
      | (inr aerr, s') => (writeError aerr, s')
      | (inl reply, s') => (writeCommitted status key (wr_CommitIndex reply), s')
      end
  end.

Definition handlePush (key : string) (body : list byte) : PS → Response * PS :=
  handle_write OpPut 201 key body.
Definition handleUpdate (key : string) (body : list byte) : PS → Response * PS :=
  handle_write OpUpdate 200 key body.

Definition handleDelete (key : string) (s : PS) : Response * PS :=
  match Write rpc_write clock err_text OpDelete key "" s with
  | (inr aerr, s') => (writeError aerr, s')
  | (inl reply, s') => (MkResponse 204 None (Some (format_uint (wr_CommitIndex reply))) None None JNone, s')
  end.

Definition handleGet (key : string) (s : PS) : Response * PS :=
  match Proxy_Get rpc_get clock err_text key s with
  | (inr aerr, s') => (writeError aerr, s')
  | (inl reply, s') => (writeJSON None None 200 (JValue key (gr_Value reply)), s')
  end.

(** ** The mux *)

(** One segment of a pattern; [None] is the wildcard {key}. *)
Definition seg_match (p : option string) (seg : string) : bool :=
  match p with Some lit => bool_decide (lit = seg) | None => bool_decide (seg ≠ "/") end.

(** The values of the wildcards, or [None]. *)
Fixpoint match_path (pat : list (option string)) (path : list string) : option (list string) :=
  match pat, path with
  | [], [] => Some []
  | p :: pat', seg :: path' =>
      if seg_match p seg then
        vals ← match_path pat' path';
        Some (match p with None => seg :: vals | Some _ => vals end)
      else None
  | _, _ => None
  end.

Definition method_match (pattern method : string) : bool :=
  bool_decide (pattern = method) || (bool_decide (method = "HEAD") && bool_decide (pattern = "GET")).

Record Route : Type := MkRoute {
  ro_method : string;
  ro_path : list (option string);
  ro_handler : string → list byte → PS (B := B) → Response * PS (B := B)
}.

(** The Allow header of a 405: GET brings HEAD, the names sorted. *)
Definition allowed (routes : list Route) : string :=
  let methods := routes ≫= λ r,
    if bool_decide (ro_method r = "GET") then ["GET"; "HEAD"] else [ro_method r] in
  String.concat ", " (merge_sort (λ a b, Is_true (String.leb a b)) methods).

Definition matching (path : list string) (routes : list Route) : list Route :=
  List.filter (λ r, bool_decide (is_Some (match_path (ro_path r) path))) routes.

(** ServeHTTP: the handler of the pattern that matches; 405 with the allowed
    methods when only the method is wrong; 404 otherwise. *)
Definition ServeHTTP (routes : list Route) (method : string)
    (path : list string) (body : list byte) (s : PS) : Response * PS :=
  let on_path := matching path routes in
  match List.find (λ r, method_match (ro_method r) method) on_path with
  | Some r => ro_handler r (default "" (match_path (ro_path r) path ≫= head)) body s
  | None =>
      match on_path with
      | [] => (MkResponse 404 (Some text_plain) None None None (Text "404 page not found"), s)
      | _ => (MkResponse 405 (Some text_plain) None None (Some (allowed on_path))
               (Text "Method Not Allowed"), s)
      end
  end.

Definition kv_path : list (option string) := [Some "v1"; Some "kv"; None].

Definition health_route : Route := MkRoute "GET" [Some "healthz"] (λ _ _ s, (handleHealthz, s)).
Definition kv_routes : list Route :=
  [MkRoute "POST" kv_path handlePush;
   MkRoute "PUT" kv_path handleUpdate;
   MkRoute "GET" kv_path (λ key _, handleGet key);
   MkRoute "DELETE" kv_path (λ key _, handleDelete key)].

Definition NewHTTPHandler : string → list string → list byte → PS → Response * PS :=
  ServeHTTP (health_route :: kv_routes).

(** ** What the client can rely on *)

(** The writing methods of /v1/kv/{key}: the operation and the status of an
    acknowledged one. *)
Definition write_method (method : string) : option (WriteOp * Z) :=
  if bool_decide (method = "POST") then Some (OpPut, 201)
  else if bool_decide (method = "PUT") then Some (OpUpdate, 200)
  else if bool_decide (method = "DELETE") then Some (OpDelete, 204) else None.

Definition reads (method : string) : Prop := method = "GET" ∨ method = "HEAD".

(** The value a write carries; DELETE has none and reads no body. *)
Definition write_value (op : WriteOp) (body : list byte) : option string :=
  match op with OpDelete => Some "" | _ => json_value body ≫= id end.

(** The contract of the surface, one rule per row: the request, the answer
    and what became of the proxy. *)
Inductive Contract (body : list byte) (s : PS) :
    string → list string → Response → PS → Prop :=
| c_health method rs :
    reads method → rs_status rs = 200 → Contract body s method ["healthz"] rs s
| c_bad_request method key op status rs :
    write_method method = Some (op, status) → write_value op body = None → key ≠ "/" →
    rs_status rs = 400 → Contract body s method ["v1"; "kv"; key] rs s
| c_committed method key op status value reply rs s' :
    write_method method = Some (op, status) → write_value op body = Some value → key ≠ "/" →
    Write rpc_write clock err_text op key value s = (inl reply, s') →
    rs_status rs = status → rs_CommitIndex rs = Some (format_uint (wr_CommitIndex reply)) →
    Contract body s method ["v1"; "kv"; key] rs s'
| c_write_failed method key op status value aerr secs rs s' :
    write_method method = Some (op, status) → write_value op body = Some value → key ≠ "/" →
    Write rpc_write clock err_text op key value s = (inr aerr, s') →
    rs_status rs = 503 → 1 ≤ secs → rs_RetryAfter rs = Some (format_uint secs) → rs_CommitIndex rs = None →
    Contract body s method ["v1"; "kv"; key] rs s'
| c_found method key reply rs s' :
    reads method → key ≠ "/" → Proxy_Get rpc_get clock err_text key s = (inl reply, s') →
    rs_status rs = 200 → rs_body rs = JValue key (gr_Value reply) →
    Contract body s method ["v1"; "kv"; key] rs s'
| c_not_found method key rs s' :
    reads method → key ≠ "/" →
    Proxy_Get rpc_get clock err_text key s = (inr (errNotFound "key not found"), s') →
    rs_status rs = 404 → rs_RetryAfter rs = None → Contract body s method ["v1"; "kv"; key] rs s'
| c_read_failed method key aerr secs rs s' :
    reads method → key ≠ "/" → Proxy_Get rpc_get clock err_text key s = (inr aerr, s') →
    rs_status rs = 503 → 1 ≤ secs → rs_RetryAfter rs = Some (format_uint secs) →
    Contract body s method ["v1"; "kv"; key] rs s'
| c_aborted method key rs s' :
    reads method → p_rrIndex (ps_proxy s) < 0 → rs_status rs = 0 →
    Contract body s method ["v1"; "kv"; key] rs s'
| c_wrong_method method path rs :
    path = ["healthz"] ∨ (∃ key, path = ["v1"; "kv"; key] ∧ write_method method = None) →
    ¬ reads method → rs_status rs = 405 → is_Some (rs_Allow rs) → Contract body s method path rs s
| c_no_route method path rs :
    path ≠ ["healthz"] → (∀ key, path = ["v1"; "kv"; key] → key = "/") → rs_status rs = 404 →
    Contract body s method path rs s.

Lemma write_loop_503 hops addr op key value s e s' :
  write_loop rpc_write clock err_text hops addr op key value s = (inr e, s') →
  ae_status e = 503 ∧ 1000000000 ≤ ae_retryAfter e.
Proof.
  revert addr s. induction hops as [|hops IH]; intros addr s; cbn [write_loop].
  { by intros [= <- <-]. }
  destruct (callWrite _ _ _ _ _ _ _) as [[reply|err] s1].
  - destruct (wr_Success reply); [done|]. cbv zeta. case_bool_decide; [by intros [= <- <-]|apply IH].
  - by intros [= <- <-].
Qed.

Lemma Write_503 op key value s e s' :
  Write rpc_write clock err_text op key value s = (inr e, s') →
  ae_status e = 503 ∧ 1000000000 ≤ ae_retryAfter e.
Proof.
  unfold Write. cbv zeta. destruct (allNodesOpen _ _ _); [by intros [= <- <-]|].
  case_bool_decide; [by intros [= <- <-]|apply write_loop_503].
Qed.

(** Errors a read can end in, besides the abort. *)
Definition read_error (e : apiError) : Prop :=
  e = errNotFound "key not found" ∨ (ae_status e = 503 ∧ 1000000000 ≤ ae_retryAfter e).

Lemma get_loop_error hops addr key s e s' :
  get_loop rpc_get clock err_text hops addr key s = (inr e, s') → read_error e.
Proof.
  revert addr s. induction hops as [|hops IH]; intros addr s; cbn [get_loop].
  { intros [= <- <-]. by right. }
  destruct (callGet _ _ _ _ _) as [[reply|err] s1]; [|intros [= <- <-]; by right].
  destruct (gr_Ok reply); cbn [negb].
  - destruct (gr_Found reply); cbn [negb]; [done|]. intros [= <- <-]. by left.
  - cbv zeta. case_bool_decide; [intros [= <- <-]; by right|apply IH].
Qed.

Lemma singleHop_error key s e s' :
  singleHopLeaderGet rpc_get clock err_text key s = (inr e, s') → read_error e.
Proof.
  unfold singleHopLeaderGet. cbv zeta. case_bool_decide; [intros [= <- <-]; by right|].
  destruct (callGet _ _ _ _ _) as [[reply|err] s1]; [|intros [= <- <-]; by right].
  destruct (gr_Ok reply); cbn [negb]; [|intros [= <- <-]; by right].
  destruct (gr_Found reply); cbn [negb]; [done|]. intros [= <- <-]. by left.
Qed.

Lemma Get_error key s e s' :
  Proxy_Get rpc_get clock err_text key s = (inr e, s') →
  read_error e ∨ (e = panicked ∧ p_rrIndex (ps_proxy s) < 0).
Proof.
  unfold Proxy_Get. cbv zeta. destruct (allNodesOpen _ _ _); [intros [= <- <-]; left; by right|].
  destruct (cv_Followers _) as [|f fs].
  { unfold leaderPathGet. case_bool_decide; [intros [= <- <-]; left; by right|]. left. by eapply get_loop_error. }
  destruct (pickFollowerRoundRobin _ _) as [[addr|] s1] eqn:Ep.
  - destruct (callGet _ _ _ _ _) as [[reply|err] s2]; [|left; by eapply singleHop_error].
    destruct (gr_Ok reply); cbn [negb]; [|left; by eapply singleHop_error].
    destruct (gr_Found reply); cbn [negb]; [done|]. intros [= <- <-]. left. by left.
  - intros [= <- <-]. right. split; [done|]. injection Ep as Ep _.
    set (n := zlen (f :: fs)) in *. assert (0 < n) by (unfold n, zlen; simpl; lia).
    destruct (Z_lt_le_dec (p_rrIndex (ps_proxy s)) 0) as [|Hge]; [done|].
    pose proof (Z.rem_bound_pos (p_rrIndex (ps_proxy s)) n Hge ltac:(lia)) as Hb.
    rewrite (proj2 (Z.ltb_ge _ _)) in Ep by lia.
    apply fmap_None, lookup_ge_None in Ep. unfold n, zlen in *. lia.
Qed.

(** A 503 carries a Retry-After of at least a second. *)
Lemma writeError_retry e :
  1000000000 ≤ ae_retryAfter e → ∃ secs, 1 ≤ secs ∧ rs_RetryAfter (writeError e) = Some (format_uint secs).
Proof.
  intros Hr. exists (retry_secs (ae_retryAfter e)). split.
  - unfold retry_secs. destruct (_ <? 1) eqn:E1; zbool; lia.
  - unfold writeError. simpl. by rewrite (proj2 (Z.ltb_lt _ _)) by lia.
Qed.

Lemma failed_contract method key op status value body s e s' :
  write_method method = Some (op, status) → write_value op body = Some value → key ≠ "/" →
  Write rpc_write clock err_text op key value s = (inr e, s') →
  Contract body s method ["v1"; "kv"; key] (writeError e) s'.
Proof.
  intros ? ? ? E. destruct (Write_503 _ _ _ _ _ _ E) as [? [secs [? ?]]%writeError_retry].
  by eapply c_write_failed.
Qed.

Lemma handle_write_contract method op status key body s :
  write_method method = Some (op, status) → op ≠ OpDelete → key ≠ "/" →
  let '(rs, s') := handle_write op status key body s in Contract body s method ["v1"; "kv"; key] rs s'.
Proof.
  intros Hm Hop Hk. unfold handle_write, decodeValueBody.
  assert (Hv : write_value op body = json_value body ≫= id) by by destruct op.
  destruct (json_value body) as [[value|]|]; [|by eapply c_bad_request..].
  destruct (Write _ _ _ _ _ _ _) as [[reply|e] s'] eqn:E; [by eapply c_committed|by eapply failed_contract].
Qed.

Lemma handleDelete_contract key body s :
  key ≠ "/" →
  let '(rs, s') := handleDelete key s in Contract body s "DELETE" ["v1"; "kv"; key] rs s'.
Proof.
  intros Hk. unfold handleDelete. destruct (Write _ _ _ _ _ _ _) as [[reply|e] s'] eqn:E.
  - by eapply c_committed.
  - by eapply (failed_contract _ _ OpDelete).
Qed.

Lemma handleGet_contract method key body s :
  reads method → key ≠ "/" →
  let '(rs, s') := handleGet key s in Contract body s method ["v1"; "kv"; key] rs s'.
Proof.
  intros Hm Hk. unfold handleGet. destruct (Proxy_Get _ _ _ _ _) as [[reply|e] s'] eqn:E; [by eapply c_found|].
  destruct (Get_error _ _ _ _ E) as [[->|[? [secs [? ?]]%writeError_retry]]|[-> ?]].
  - by eapply c_not_found.
  - by eapply c_read_failed.
  - by eapply c_aborted.
Qed.

(** A pattern matches segment by segment. *)
Lemma match_path_is_Some pat path :
  is_Some (match_path pat path) ↔ Forall2 (λ p seg, seg_match p seg = true) pat path.
Proof.
  revert path. induction pat as [|p pat IH]; intros [|seg path]; cbn [match_path].
  - split; [by constructor|by eexists].
  - split; [by intros []|by inversion 1].
  - split; [by intros []|by inversion 1].
  - rewrite Forall2_cons, <- IH. destruct (seg_match p seg); [|split; [by intros []|naive_solver]].
    destruct (match_path pat path); cbn; split; [eauto..|by intros []|by intros [? []]].
Qed.

Lemma health_match path : is_Some (match_path [Some "healthz"] path) ↔ path = ["healthz"].
Proof.
  rewrite match_path_is_Some. split; [|by intros ->; repeat constructor].
  intros (seg & ? & Hs & ->%Forall2_nil_inv_l & ->)%Forall2_cons_inv_l.
  cbn in Hs. by apply bool_decide_eq_true in Hs as <-.
Qed.

Lemma kv_match path :
  is_Some (match_path kv_path path) ↔ ∃ key, path = ["v1"; "kv"; key] ∧ key ≠ "/".
Proof.
  rewrite match_path_is_Some. split.
  - intros (a & ? & Ha & (b & ? & Hb & (key & ? & Hk & ->%Forall2_nil_inv_l & ->)%Forall2_cons_inv_l & ->)
      %Forall2_cons_inv_l & ->)%Forall2_cons_inv_l.
    cbn in *. apply bool_decide_eq_true in Ha as <-, Hb as <-, Hk. eauto.
  - intros (key & -> & Hk). unfold kv_path. repeat constructor. by apply bool_decide_eq_true.
Qed.

(** The routes behind each path. *)
Lemma matching_cases path :
  (path = ["healthz"] ∧ matching path (health_route :: kv_routes) = [health_route]) ∨
  (∃ key, path = ["v1"; "kv"; key] ∧ key ≠ "/" ∧ matching path (health_route :: kv_routes) = kv_routes) ∨
  (path ≠ ["healthz"] ∧ (∀ key, path = ["v1"; "kv"; key] → key = "/") ∧
     matching path (health_route :: kv_routes) = []).
Proof.
  unfold matching, kv_routes. cbn [List.filter ro_path health_route].
  destruct (decide (path = ["healthz"])) as [->|Hh]; [by left|right].
  rewrite bool_decide_eq_false_2 by by rewrite health_match.
  case_bool_decide as Hk; rewrite kv_match in Hk; [left; naive_solver|].
  right. split_and!; [done| |done]. intros key ->. destruct (decide (key = "/")); [done|]. destruct Hk. eauto.
Qed.

Lemma method_match_true pattern method :
  method_match pattern method = true ↔ pattern = method ∨ (method = "HEAD" ∧ pattern = "GET").
Proof. unfold method_match. rewrite orb_true_iff, andb_true_iff, !bool_decide_eq_true. done. Qed.

Lemma get_reads method : method_match "GET" method = true ↔ reads method.
Proof. rewrite method_match_true. unfold reads. naive_solver. Qed.

(** No route of /v1/kv/{key} serves the method. *)
Lemma kv_unserved method :
  List.find (λ r, method_match (ro_method r) method) kv_routes = None →
  write_method method = None ∧ ¬ reads method.
Proof.
  cbn [List.find ro_method kv_routes].
  destruct (method_match "POST" method) eqn:E1; [done|]. destruct (method_match "PUT" method) eqn:E2; [done|].
  destruct (method_match "GET" method) eqn:E3; [done|]. destruct (method_match "DELETE" method) eqn:E4; [done|].
  intros _. split; [|rewrite <- get_reads; congruence].
  unfold write_method. repeat case_bool_decide; subst; done.
Qed.

(** C36.  The REST surface answers every request by its contract: /healthz is
    always 200; a push, update or delete answers 400 exactly for a body
    without a usable value and then no node is contacted, 201, 200 or 204
    with the commit index exactly when a node acknowledged the write, and 503
    with a Retry-After of at least one second otherwise; a read answers 200
    with the value, 404 for a key the cluster does not have, 503 otherwise;
    an unknown path is 404 and a wrong method 405, and neither reaches a
    node.  Only a negative round-robin counter aborts a connection. *)
Theorem http_surface method path body s :
  let '(rs, s') := NewHTTPHandler method path body s in Contract body s method path rs s'.
Proof.
  unfold NewHTTPHandler, ServeHTTP.
  destruct (matching_cases path) as [[-> ->]|[(key & -> & Hk & ->)|(? & ? & ->)]]; [| |by apply c_no_route].
  - cbn [List.find ro_method health_route]. destruct (method_match "GET" method) eqn:E.
    + apply c_health; [by apply get_reads|done].
    + apply c_wrong_method; [by left| |done|by eexists]. rewrite <- get_reads. congruence.
  - assert (HM : match_path kv_path ["v1"; "kv"; key] = Some [key]).
    { unfold kv_path. cbn [match_path seg_match]. by rewrite !bool_decide_eq_true_2 by done. }
    destruct (List.find _ _) as [r|] eqn:E; [|apply kv_unserved in E as [? ?]; apply c_wrong_method; eauto].
    apply find_some in E as [Hr Hm]. cbn in Hr.
    destruct Hr as [<-|[<-|[<-|[<-|[]]]]]; cbn [ro_method ro_path ro_handler] in *; rewrite HM.
    3: by apply handleGet_contract; [apply get_reads|].
    all: apply method_match_true in Hm as [<-|[_ ?]]; [|done].
    + by apply handle_write_contract.
    + by apply handle_write_contract.
    + by apply handleDelete_contract.
Qed.

End http.
