(* ===== verification/Discovery.v ===== *)
(** * internal/discovery: the polled cluster view

    One polling round asks every peer for its status concurrently and builds
    a fresh view from the replies in the order they arrive: the argument
    [results] is that order, an entry per peer, [None] for a failed call. *)

From Stdlib Require Import Ascii.
From stdpp Require Import sorting.
From S2P Require Import Prelude Pb.

Module Discovery.

Record Registry : Type := MkRegistry {
  dr_peers : list string;
  dr_view : ClusterView;
  dr_reachable : gmap string bool
}.

Definition NewRegistry (peers : list string) : Registry := MkRegistry peers zero_ClusterView ∅.

(** The accumulators of the collecting loop. *)
Record Acc : Type := MkAcc {
  a_view : ClusterView;
  a_leaderTerm : Z;
  a_haveLeader : bool;
  a_reachable : gmap string bool
}.

Definition acc0 : Acc := MkAcc zero_ClusterView 0 false ∅.

Definition info_of (addr : string) (reply : GetStatusReply) : NodeInfo :=
  MkNodeInfo (gs_NodeId reply) addr (gs_Role reply) (gs_Term reply).

Definition poll_step (a : Acc) (res : string * option GetStatusReply) : Acc :=
  let '(addr, reply) := res in
  let reachable := <[addr := bool_decide (is_Some reply)]> (a_reachable a) in
  match reply with
  | None => MkAcc (a_view a) (a_leaderTerm a) (a_haveLeader a) reachable
  | Some reply =>
      let info := info_of addr reply in
      let v := a_view a in
      let all := cv_AllNodes v ++ [info] in
      match ni_Role info with
      | Role_LEADER =>
          if negb (a_haveLeader a) || (a_leaderTerm a <=? ni_Term info)
          then MkAcc (MkClusterView (ni_Address info) (cv_Followers v) all) (ni_Term info) true reachable
          else MkAcc (MkClusterView (cv_LeaderAddress v) (cv_Followers v) all)
                 (a_leaderTerm a) (a_haveLeader a) reachable
      | Role_FOLLOWER =>
          MkAcc (MkClusterView (cv_LeaderAddress v) (cv_Followers v ++ [info]) all)
            (a_leaderTerm a) (a_haveLeader a) reachable
      | Role_CANDIDATE =>
          MkAcc (MkClusterView (cv_LeaderAddress v) (cv_Followers v) all)
            (a_leaderTerm a) (a_haveLeader a) reachable
      end
  end.

Definition poll (results : list (string * option GetStatusReply)) : Acc := foldl poll_step acc0 results.

Definition PollOnce (results : list (string * option GetStatusReply)) (r : Registry) : Registry :=
  let a := poll results in MkRegistry (dr_peers r) (a_view a) (a_reachable a).

Definition Registry_ClusterView (r : Registry) : ClusterView := dr_view r.

(** server.go *)
Definition GetClusterView (r : Registry) : ClusterView := Registry_ClusterView r.

(** *** The change reports *)

(** Go compares strings byte by byte. *)
Definition string_le (a b : string) : Prop := String.leb a b = true.
#[export] Instance string_le_dec : RelDecision string_le.
Proof. intros a b. unfold string_le. apply _. Defined.

Definition sortedFollowerAddrs (followers : list NodeInfo) : list string :=
  merge_sort string_le (ni_Address <$> followers).

(** The index loop, after the test of the lengths. *)
Fixpoint elements_equal (a b : list string) : bool :=
  match a, b with
  | x :: a', y :: b' => if negb (bool_decide (x = y)) then false else elements_equal a' b'
  | _, _ => true
  end.
Definition followersEqual (a b : list string) : bool :=
  if negb (bool_decide (length a = length b)) then false else elements_equal a b.

(** The line VIEW_UPDATED: leader, followers, previous leader. *)
Definition logViewChangeIfAny (oldView newView : ClusterView) : option (string * list string * string) :=
  let oldLeader := cv_LeaderAddress oldView in
  let newLeader := cv_LeaderAddress newView in
  let oldFollowers := sortedFollowerAddrs (cv_Followers oldView) in
  let newFollowers := sortedFollowerAddrs (cv_Followers newView) in
  if bool_decide (oldLeader = newLeader) && followersEqual oldFollowers newFollowers then None
  else Some (newLeader, newFollowers, oldLeader).

(** The lines NODE_STATUS_CHANGED, one per address; the runtime chooses their
    order. *)
Definition logReachabilityChanges (oldReachable newReachable : gmap string bool) : gmap string bool :=
  filter (λ '(addr, reachable), oldReachable !! addr ≠ Some reachable) newReachable.

(** What one round logs. *)
Definition PollOnce_log (results : list (string * option GetStatusReply)) (r : Registry) :
    option (string * list string * string) * gmap string bool :=
  let r' := PollOnce results r in
  (logViewChangeIfAny (dr_view r) (dr_view r'), logReachabilityChanges (dr_reachable r) (dr_reachable r')).

(** ** What a round yields *)

(** The nodes that answered, in arrival order. *)
Definition answered (results : list (string * option GetStatusReply)) : list NodeInfo :=
  omap (λ '(addr, reply), info_of addr <$> reply) results.

Definition with_role (r : PbRole) (l : list NodeInfo) : list NodeInfo := filter (λ i, ni_Role i = r) l.

(** [i] is a leader reply no other leader reply of the round beats. *)
Definition top_leader (l : list NodeInfo) (i : NodeInfo) : Prop :=
  i ∈ with_role Role_LEADER l ∧ ∀ j, j ∈ with_role Role_LEADER l → ni_Term j ≤ ni_Term i.

Lemma with_role_snoc r l i :
  with_role r (l ++ [i]) = with_role r l ++ (if decide (ni_Role i = r) then [i] else []).
Proof. unfold with_role. rewrite filter_app, filter_cons. by destruct (decide _). Qed.

Lemma answered_snoc results addr reply :
  answered (results ++ [(addr, reply)]) =
  answered results ++ (match reply with Some r => [info_of addr r] | None => [] end).
Proof. unfold answered. rewrite omap_app. simpl. by destruct reply. Qed.

(** The loop invariant. *)
Definition poll_ok (results : list (string * option GetStatusReply)) (a : Acc) : Prop :=
  let l := answered results in
  cv_AllNodes (a_view a) = l ∧ cv_Followers (a_view a) = with_role Role_FOLLOWER l ∧
  (if a_haveLeader a
   then ∃ i, top_leader l i ∧ cv_LeaderAddress (a_view a) = ni_Address i ∧ a_leaderTerm a = ni_Term i
   else with_role Role_LEADER l = [] ∧ cv_LeaderAddress (a_view a) = "").

Lemma poll_step_ok results a addr reply :
  poll_ok results a → poll_ok (results ++ [(addr, reply)]) (poll_step a (addr, reply)).
Proof.
  intros (HA & HF & HL). unfold poll_ok. rewrite answered_snoc. cbv zeta. unfold poll_step.
  destruct reply as [reply|]; [|by rewrite app_nil_r].
  set (i := info_of addr reply). set (l := answered results) in *.
  rewrite !with_role_snoc. cbv zeta.
  assert (Hkeep : ni_Role i ≠ Role_LEADER → ∀ j, top_leader l j → top_leader (l ++ [i]) j).
  { intros Hr j [Hj1 Hj2]. unfold top_leader. rewrite with_role_snoc, decide_False by done.
    by rewrite app_nil_r. }
  destruct (ni_Role i) eqn:Er.
  - cbn. rewrite HA, HF. split_and!; [done|by rewrite decide_True|].
    destruct (a_haveLeader a).
    + destruct HL as (j & ? & ? & ?). exists j. split_and!; auto.
    + destruct HL as [-> ->]. by rewrite decide_False.
  - cbn. rewrite HA, HF. split_and!; [done|by rewrite app_nil_r|].
    destruct (a_haveLeader a).
    + destruct HL as (j & ? & ? & ?). exists j. split_and!; auto.
    + destruct HL as [-> ->]. by rewrite decide_False.
  - assert (Htop : (negb (a_haveLeader a) || (a_leaderTerm a <=? ni_Term i)) = true → top_leader (l ++ [i]) i).
    { intros Hc. unfold top_leader. rewrite with_role_snoc, decide_True by done. split; [set_solver|].
      intros j [Hj|Hj]%elem_of_app; [|by apply list_elem_of_singleton in Hj as ->].
      destruct (a_haveLeader a); [|destruct HL as [E _]; rewrite E in Hj; by apply elem_of_nil in Hj].
      destruct HL as (k & [_ Hk] & _ & Ht). cbn [negb orb] in Hc. zbool. specialize (Hk j Hj). lia. }
    destruct (negb (a_haveLeader a) || (a_leaderTerm a <=? ni_Term i)) eqn:Ec; cbn; rewrite HA, HF;
      (split_and!; [done|by rewrite app_nil_r|]).
    + exists i. split_and!; auto.
    + apply orb_false_iff in Ec as [Eh Et]. apply negb_false_iff in Eh. rewrite Eh in *. zbool.
      destruct HL as (j & [Hj1 Hj2] & ? & ?). exists j. split_and!; auto.
      unfold top_leader. rewrite with_role_snoc, decide_True by done. split; [set_solver|].
      intros k [Hk|Hk]%elem_of_app; [auto|]. apply list_elem_of_singleton in Hk as ->. lia.
Qed.

Lemma poll_all_ok results : poll_ok results (poll results).
Proof.
  induction results as [|[addr reply] results IH] using rev_ind.
  - unfold poll_ok. simpl. done.
  - unfold poll. rewrite foldl_app. simpl. by apply poll_step_ok.
Qed.

(** A polling round lists exactly the nodes that answered, the followers
    among them as followers, and as leader one with the highest term of all
    that claim to lead (none if nobody does).  When the claimants' terms
    differ, as election safety guarantees, the leader does not depend on the
    order in which the replies came in. *)
Theorem poll_leader results r :
  let v := Registry_ClusterView (PollOnce results r) in
  let l := answered results in
  cv_AllNodes v = l ∧ cv_Followers v = with_role Role_FOLLOWER l ∧
  (with_role Role_LEADER l = [] → cv_LeaderAddress v = "") ∧
  (with_role Role_LEADER l ≠ [] → ∃ i, top_leader l i ∧ cv_LeaderAddress v = ni_Address i) ∧
  (∀ results', results ≡ₚ results' →
     (∀ i j, i ∈ with_role Role_LEADER l → j ∈ with_role Role_LEADER l →
        ni_Term i = ni_Term j → i = j) →
     cv_LeaderAddress (Registry_ClusterView (PollOnce results' r)) = cv_LeaderAddress v).
Proof.
  cbv zeta. destruct (poll_all_ok results) as (HA & HF & HL).
  assert (Hlead : ∀ res, let l := answered res in let a := cv_LeaderAddress (a_view (poll res)) in
    (with_role Role_LEADER l = [] ∧ a = "") ∨ ∃ i, top_leader l i ∧ a = ni_Address i).
  { intros res. destruct (poll_all_ok res) as (_ & _ & HL'). cbv zeta.
    destruct (a_haveLeader (poll res)); [right|by left]. destruct HL' as (i & ? & ? & _). eauto. }
  assert (Htop : ∀ l i, top_leader l i → with_role Role_LEADER l ≠ []).
  { intros l i [Hi _] E. rewrite E in Hi. by apply elem_of_nil in Hi. }
  split_and!; [done|done| | |].
  - intros E. destruct (Hlead results) as [[_ ?]|(i & Hi & _)]; [done|]. by apply Htop in Hi.
  - intros Hne. by destruct (Hlead results) as [[? _]|?].
  - intros results' HP Huniq.
    assert (HPl : with_role Role_LEADER (answered results) ≡ₚ with_role Role_LEADER (answered results')).
    { unfold with_role, answered. by rewrite HP. }
    change (cv_LeaderAddress (a_view (poll results')) = cv_LeaderAddress (a_view (poll results))).
    destruct (Hlead results) as [[E ->]|(i & [Hi1 Hi2] & ->)], (Hlead results') as [[E' ->]|(j & [Hj1 Hj2] & ->)].
    + done.
    + rewrite <- HPl, E in Hj1. by apply elem_of_nil in Hj1.
    + rewrite HPl, E' in Hi1. by apply elem_of_nil in Hi1.
    + f_equal. rewrite <- HPl in Hj1. apply Huniq; [done|done|].
      specialize (Hi2 j Hj1). rewrite HPl in Hi1. specialize (Hj2 i Hi1). lia.
Qed.

(** ** What a round reports *)

#[local] Instance string_le_total : Total string_le.
Proof.
  intros a b. unfold string_le, String.leb. rewrite (String.compare_antisym a b).
  destruct (String.compare b a); simpl; auto.
Qed.

#[local] Instance string_le_trans : Transitive string_le.
Proof.
  assert (Hlt : ∀ a b c, String.compare a b ≠ Gt → String.compare b c ≠ Gt → String.compare a c ≠ Gt).
  { induction a as [|x a IH]; intros [|y b] [|z c]; simpl; try done. unfold Ascii.compare.
    destruct (N.compare_spec (Ascii.N_of_ascii x) (Ascii.N_of_ascii y)) as [E1|E1|E1]; try done;
    destruct (N.compare_spec (Ascii.N_of_ascii y) (Ascii.N_of_ascii z)) as [E2|E2|E2]; try done;
    destruct (N.compare_spec (Ascii.N_of_ascii x) (Ascii.N_of_ascii z)) as [E3|E3|E3]; try done; try lia; eauto. }
  intros a b c. unfold string_le, String.leb. specialize (Hlt a b c).
  destruct (String.compare a b), (String.compare b c), (String.compare a c); naive_solver.
Qed.

#[local] Instance string_le_antisymm : AntiSymm (=) string_le.
Proof.
  intros a b. unfold string_le, String.leb. rewrite (String.compare_antisym a b).
  destruct (String.compare b a) eqn:E; simpl; try done. intros _ _. symmetry. by apply String.compare_eq_iff.
Qed.

Lemma followersEqual_spec a b : followersEqual a b = true ↔ a = b.
Proof.
  unfold followersEqual. case_bool_decide as Hl; simpl.
  - revert b Hl. induction a as [|x a IH]; intros [|y b]; simpl; try done. intros [= Hl].
    case_bool_decide as Hxy; simpl; [subst|naive_solver]. rewrite IH by done. naive_solver.
  - split; [done|]. by intros ->.
Qed.

Lemma sorted_eq_perm (f f' : list NodeInfo) :
  sortedFollowerAddrs f = sortedFollowerAddrs f' ↔ ni_Address <$> f ≡ₚ ni_Address <$> f'.
Proof.
  unfold sortedFollowerAddrs. split.
  - intros E. by rewrite <- (merge_sort_Permutation string_le (ni_Address <$> f)), E, merge_sort_Permutation.
  - intros HP. apply (StronglySorted_unique string_le).
    + apply (StronglySorted_merge_sort string_le).
    + apply (StronglySorted_merge_sort string_le).
    + etrans; [apply merge_sort_Permutation|]. etrans; [exact HP|]. symmetry. apply merge_sort_Permutation.
Qed.

(** A round reports a changed view exactly when the leader or the set of
    follower addresses differs from the round before, in whatever order the
    replies came in, with the new leader, the sorted followers and the old
    leader; and it reports the status of exactly the peers whose reachability
    is new or has flipped. *)
Theorem change_reports_exact results r :
  let r' := PollOnce results r in
  let '(view_line, status_lines) := PollOnce_log results r in
  (view_line = None ↔
    cv_LeaderAddress (dr_view r') = cv_LeaderAddress (dr_view r) ∧
    ni_Address <$> cv_Followers (dr_view r') ≡ₚ ni_Address <$> cv_Followers (dr_view r)) ∧
  (∀ leader followers was, view_line = Some (leader, followers, was) →
    leader = cv_LeaderAddress (dr_view r') ∧ was = cv_LeaderAddress (dr_view r) ∧
    followers ≡ₚ ni_Address <$> cv_Followers (dr_view r') ∧ Sorted string_le followers) ∧
  (∀ addr b, status_lines !! addr = Some b ↔
    dr_reachable r' !! addr = Some b ∧ dr_reachable r !! addr ≠ Some b).
Proof.
  cbv zeta. unfold PollOnce_log. set (r' := PollOnce results r). cbv zeta. unfold logViewChangeIfAny.
  set (test := (_ && _)%bool).
  assert (Ht : test = true ↔ cv_LeaderAddress (dr_view r') = cv_LeaderAddress (dr_view r) ∧
    ni_Address <$> cv_Followers (dr_view r') ≡ₚ ni_Address <$> cv_Followers (dr_view r)).
  { unfold test. rewrite andb_true_iff, bool_decide_eq_true, followersEqual_spec, sorted_eq_perm. naive_solver. }
  split_and!.
  - destruct test; naive_solver.
  - intros leader followers was. destruct test; [done|]. intros [= <- <- <-]. split_and!; try done.
    + apply merge_sort_Permutation.
    + apply (Sorted_merge_sort string_le).
  - intros addr b. unfold logReachabilityChanges. by rewrite map_lookup_filter_Some.
Qed.

End Discovery.
