(* ===== verification/EndToEnd.v ===== *)
(** * From the client to the log

    The components put together.  First the path on which the proxy learns
    where to send a write: the nodes answer GetStatus, Service Discovery polls
    them (Run in registry.go), the proxy refreshes its view (Start in
    proxy.go) and serves requests in between.  Then the path of a write: the
    proxy sends it to a node's KV service, which proposes it and waits. *)

From Stdlib Require Import Strings.Byte.
From S2P Require Import Prelude Pb Fs Persistence SnapshotFile Codecs Storage RaftNode RaftElection.
From S2P Require Import RaftReplication RaftLog RaftCommit KV RaftReadIndex KVServer RaftVotes RaftCompaction.
From S2P Require Import RaftCluster RaftSafety RaftSpec RaftHealthy RaftImplements RaftRefine RaftAcks.
From S2P Require Import CircuitBreaker Proxy Discovery.
Import SnapshotFile.

(** ** The two polling loops *)

(** Registry.Run: one round at once, then one per tick.  [None]: NewTicker
    panics. *)
Definition Registry_Run (interval : Z) (first : list (string * option GetStatusReply))
    (rest : list (list (string * option GetStatusReply))) (r : Discovery.Registry) : option Discovery.Registry :=
  let r := Discovery.PollOnce first r in
  if interval <=? 0 then None else Some (foldl (λ r results, Discovery.PollOnce results r) r rest).

Section front.
Context {B : Type} `{GoBreaker B}.
Variables (rpc_write : list Sent → string → Request → result WriteReply)
          (rpc_get : list Sent → string → Request → result GetReply)
          (clock : list Sent → Z)
          (err_text : goerr → string).
#[local] Notation PS := (PS (B := B)).
#[local] Notation Write := (Write rpc_write clock err_text).

(** Proxy.Start: one refresh at once, then one per tick; [None] among the
    answers is a failed GetClusterView. *)
Definition Proxy_Start (interval : Z) (first : option ClusterView) (rest : list (option ClusterView)) (s : PS) :
    option PS :=
  let s := refreshNow first s in
  if interval <=? 0 then None else Some (foldl (λ s view, refreshNow view s) s rest).

(** Discovery and proxy side by side: polling rounds, refreshes (which may
    fail) and requests in any order. *)
Inductive FrontOp : Type :=
| FPoll (results : list (string * option GetStatusReply))
| FRefresh (ok : bool)
| FWrite (op : WriteOp) (key value : string)
| FGet (key : string).

Definition front_op (x : Discovery.Registry * PS) (op : FrontOp) : Discovery.Registry * PS :=
  let '(r, s) := x in
  match op with
  | FPoll results => (Discovery.PollOnce results r, s)
  | FRefresh ok => (r, refreshNow (if ok then Some (Discovery.GetClusterView r) else None) s)
  | FWrite op key value => (r, (Write op key value s).2)
  | FGet key => (r, (Proxy_Get rpc_get clock err_text key s).2)
  end.

Definition front (ops : list FrontOp) (x : Discovery.Registry * PS) : Discovery.Registry * PS := foldl front_op x ops.

(** Requests aside, the loops are such runs. *)
Lemma Registry_Run_front interval first rest r r' s :
  Registry_Run interval first rest r = Some r' → front (FPoll <$> first :: rest) (r, s) = (r', s).
Proof.
  unfold Registry_Run. destruct (_ <=? _); [done|]. intros [= <-]. unfold front. simpl.
  generalize (Discovery.PollOnce first r) as r0. induction rest as [|x rest IH]; intros r0; [done|]. apply IH.
Qed.

Lemma refresh_view v (s : PS) : currentView (refreshNow (Some v) s) = v.
Proof. done. Qed.

Lemma Proxy_Start_view interval first rest (s s' : PS) v :
  Proxy_Start interval first rest s = Some s' → last (omap id (first :: rest)) = Some v → currentView s' = v.
Proof.
  unfold Proxy_Start. destruct (_ <=? _); [done|]. intros [= <-].
  assert (Hgen : ∀ l (s : PS) w, last (w :: omap id l) = Some v → currentView s = w →
    currentView (foldl (λ s view, refreshNow view s) s l) = v).
  { induction l as [|[x|] l IH]; intros s0 w Hl Hw.
    - injection Hl as <-. done.
    - simpl. apply (IH _ x); [exact Hl|done].
    - simpl. by apply (IH _ w). }
  destruct first as [w|]; [intros Hl; apply (Hgen rest _ w); [exact Hl|done]|]. simpl.
  generalize s as s0. induction rest as [|[x|] rest IH]; intros s0; [done| |].
  - intros Hl. apply (Hgen rest _ x); [exact Hl|done].
  - intros Hl. apply IH. exact Hl.
Qed.

(** The first request of a write goes to the cached leader. *)
Lemma Write_first op key value (s : PS) :
  ∃ cs, ps_sent (Write op key value s).2 = ps_sent s ++ cs ∧
    ∀ m, head cs = Some m → sent_addr m = cv_LeaderAddress (currentView s).
Proof.
  unfold Proxy.Write. cbv zeta. destruct (allNodesOpen _ _ _); [by exists []; rewrite app_nil_r|].
  case_bool_decide; [by exists []; simpl; rewrite app_nil_r|].
  destruct (write_loop _ _ _ _ _ _ _ _ _) as [r s'] eqn:E. apply write_loop_trace in E as (cs & Hs & _ & Ht).
  exists cs. split; [done|]. destruct cs as [|c cs]; [done|]. intros m [= <-]. by destruct Ht.
Qed.

End front.

(** ** Finding the leader *)

Section leader.
Context {SM : Type} `{StateMachine SM} {D : Type} `{Storage D} `{!VoteLaws D} `{GF : Codec File}.
Context `{MB : Membership} `{!MembershipOk}.
Implicit Types c : Cluster (SM := SM) (D := D).

(** The answers of a polling round, each given by its node in some state of a
    run that has reached [c'] by the end of the round. *)
Definition probed c' (results : list (string * option GetStatusReply)) : Prop :=
  ∀ addr reply, (addr, Some reply) ∈ results →
    ∃ j k c s, reach j c ∧ steps k c c' ∧ Z.of_nat (j + k) ≤ u64_max ∧
      cl_nodes c !! addr = Some s ∧ reply = GetStatus s.1.

Lemma elem_of_answered results i :
  i ∈ Discovery.answered results ↔ ∃ addr reply, (addr, Some reply) ∈ results ∧ i = Discovery.info_of addr reply.
Proof.
  unfold Discovery.answered. rewrite list_elem_of_omap. split.
  - intros ([addr [reply|]] & Hin & [= <-]). by exists addr, reply.
  - intros (addr & reply & Hin & ->). by exists (addr, Some reply).
Qed.

(** Two nodes that claim to lead the same term are the same node. *)
Lemma claims_agree c' results a a' reply reply' :
  probed c' results → (a, Some reply) ∈ results → (a', Some reply') ∈ results →
  gs_Role reply = Role_LEADER → gs_Role reply' = Role_LEADER → gs_Term reply = gs_Term reply' → a = a'.
Proof.
  intros Hp Ha Ha' R1 R2 Ht.
  destruct (Hp _ _ Ha) as (j1 & k1 & c1 & s1 & P1 & Q1 & B1 & L1 & ->).
  destruct (Hp _ _ Ha') as (j2 & k2 & c2 & s2 & P2 & Q2 & B2 & L2 & ->).
  assert (HL : ∀ n : Node SM, gs_Role (GetStatus n) = Role_LEADER → n_role n = Leader).
  { intros n. simpl. by destruct (n_role n). }
  destruct (leader_wins _ _ _ _ _ _ P1 Q1 B1 L1 (HL _ R1)) as [M1 W1].
  destruct (leader_wins _ _ _ _ _ _ P2 Q2 B2 L2 (HL _ R2)) as [M2 W2].
  pose proof (reach_Inv _ _ (reach_steps _ _ _ _ P1 Q1) B1) as HI. simpl in Ht. rewrite Ht in W1.
  exact (wins_unique (cl_votes c') a a' _ (inv_uniq _ _ HI) M1 M2 W1 W2).
Qed.

(** C34.  The proxy finds the leader.  Whatever discovery and proxy have done
    before, after one polling round, answered by the nodes of a running
    cluster at different moments, and one refresh, the cached leader is the
    node that claimed the highest term among those that answered as leader,
    whatever the order of the answers and whichever deposed leaders still
    claim to lead; the cache lists exactly the nodes that answered, and the
    next write goes to that leader first. *)
Theorem proxy_finds_leader {B} `{GoBreaker B} rpc_write rpc_get clock err_text ops results c'
    (r : Discovery.Registry) (s : PS (B := B)) (i : string) reply :
  probed c' results → (i, Some reply) ∈ results → gs_Role reply = Role_LEADER →
  (∀ a reply', (a, Some reply') ∈ results → gs_Role reply' = Role_LEADER → gs_Term reply' ≤ gs_Term reply) →
  let s' := (front rpc_write rpc_get clock err_text (ops ++ [FPoll results; FRefresh true]) (r, s)).2 in
  cv_LeaderAddress (currentView s') = i ∧ cv_AllNodes (currentView s') = Discovery.answered results ∧
  ∀ op key value, ∃ cs, ps_sent (Write rpc_write clock err_text op key value s').2 = ps_sent s' ++ cs ∧
    ∀ m, head cs = Some m → sent_addr m = i.
Proof.
  intros Hp Hi Hr Hmax. cbv zeta. unfold front. rewrite foldl_app. fold (front rpc_write rpc_get clock err_text ops (r, s)).
  destruct (front _ _ _ _ ops (r, s)) as [r1 s1]. cbn [foldl front_op snd]. rewrite refresh_view.
  unfold Discovery.GetClusterView, Discovery.Registry_ClusterView, Discovery.PollOnce. cbn [Discovery.dr_view].
  set (v := Discovery.a_view (Discovery.poll results)).
  destruct (Discovery.poll_all_ok results) as (HA & _ & HL). fold v in HA, HL.
  assert (Hlead : cv_LeaderAddress v = i).
  { assert (Hin : Discovery.info_of i reply ∈ Discovery.with_role Role_LEADER (Discovery.answered results)).
    { apply list_elem_of_filter. split; [done|]. apply elem_of_answered. by eexists _, _. }
    destruct (Discovery.a_haveLeader _); [|destruct HL as [E _]; rewrite E in Hin; by apply elem_of_nil in Hin].
    destruct HL as (x & [Hx1 Hx2] & -> & _). specialize (Hx2 _ Hin).
    apply list_elem_of_filter in Hx1 as [Rx (a & rx & Hinx & ->)%elem_of_answered].
    cbn in *. specialize (Hmax _ _ Hinx Rx).
    apply (claims_agree c' results a i rx reply); try done. lia. }
  split; [done|]. split; [done|]. intros op key value.
  destruct (Write_first rpc_write clock err_text op key value (refreshNow (Some v) s1)) as (cs & Hs & Hh).
  exists cs. split; [exact Hs|]. intros m Hm. by rewrite (Hh m Hm).
Qed.

End leader.

(** ** What the client is told *)

Section write.
Context `{CC : Codec KVCommand} {D : Type} `{Storage D} `{!VoteLaws D} `{!LogLaws D}.
Context `{GF : Codec File} `{MB : Membership} `{!MembershipOk}.
Variable kv0 : KV.
Implicit Types c : Cluster (SM := KV) (D := D).

(** The command behind a request of the proxy: Server.Put, Update and Delete. *)
Definition request_command (req : Request) : option (KVCommand_Op * string * string) :=
  match req with
  | ReqPut key value => Some (KVCommand_PUT, key, value)
  | ReqUpdate key value => Some (KVCommand_UPDATE, key, value)
  | ReqDelete key => Some (KVCommand_DELETE, key, "")
  | ReqGet _ => None
  end.

(** Node [i] has answered [req] with [reply]: its handler started in state
    [c] of a run of [j] steps, the cluster took [k] further steps while it
    waited, and it returned in state [c1], where its node is [s1].  The node
    did not restart in between, or the caller would have got no answer. *)
Definition answered_write (j k : nat) c c1 (i : string) (req : Request) (reply : WriteReply) : Prop :=
  ∃ op key value payload s s0 s1 r,
    request_command req = Some (op, key, value) ∧ codec_enc (MkKVCommand op key value) = Some payload ∧
    hreach kv0 j c ∧ cl_nodes c !! i = Some s ∧ (n_role s.1 = Leader → fits payload s.1) ∧
    ProposeSync_begin payload s = (r, s0) ∧ hsteps_up kv0 i k (upd_node i s0 c) c1 ∧
    cl_nodes c1 !! i = Some s1 ∧
    KVServer.write op key value (λ _, (Ok tt, s1)) false s = (Ok reply, s1).

Lemma answered_acked j k c c1 i req reply :
  answered_write j k c c1 i req reply → wr_Success reply = true → Z.of_nat (S j + k) ≤ u64_max →
  ∃ op key value payload t a,
    request_command req = Some (op, key, value) ∧ codec_enc (MkKVCommand op key value) = Some payload ∧
    0 < wr_CommitIndex reply ∧ hreach kv0 (S j + k) c1 ∧ refines kv0 c1 a ∧
    has_entry a t (wr_CommitIndex reply) (MkLogEntry t (wr_CommitIndex reply) payload).
Proof.
  intros (op & key & value & payload & s & s0 & s1 & r & Hreq & Henc & Hr & Hi & Hf & HE & Hup & Hi1 & Hw) Hsu Hk.
  unfold KVServer.write in Hw. rewrite Henc in Hw.
  unfold gtry, mbind, GoM_bind in Hw. 
  destruct (ProposeSync payload _ false s) as [[[idx t]|e] s2] eqn:EP.
  2: { destruct e; try done; unfold_node; injection Hw as <- <-; done. }
  injection Hw as <- ->. apply KVServer.ProposeSync_ok in EP as (ch & s3 & Hb & _ & _ & Hpoll).
  rewrite HE in Hb. injection Hb as -> ->.
  destruct (acked_entry kv0 j k c c1 i s s3 s1 idx t ch payload Hr Hi Hf HE Hup Hi1 Hpoll Hk) as (Hpos & Hr1 & a & Hrf & Ha).
  exists op, key, value, payload, t, a. done.
Qed.

Lemma trace_success req addr cs reply :
  write_trace req addr cs (inl reply) →
  ∃ a, MkSent a req (AnsWrite (Ok reply)) ∈ cs ∧ wr_Success reply = true.
Proof.
  revert addr. induction cs as [|[a q ans] cs IH]; intros addr; simpl; [by intros (e & ? & _)|].
  intros (_ & -> & Ht). destruct ans as [[rep|e]|]; [|by destruct Ht as (_ & ? & ? & _)|done].
  destruct (wr_Success rep) eqn:Es.
  - destruct Ht as [-> [= ->]]. exists a. split; [|done]. by apply elem_of_cons; left.
  - destruct (decide _); [by destruct Ht as (_ & ? & ? & _)|].
    destruct (IH _ Ht) as (b & Hb & ?). exists b. split; [|done]. by apply elem_of_cons; right.
Qed.

(** The state of a node that has applied an entry. *)
Lemma applied_entry (s : Node KV * D) idx e :
  healthy kv0 s → 0 < idx ≤ n_lastApplied s.1 → n_log s.1 !! Z.to_nat (idx - 1) = Some e →
  ∃ before after, zlen before = idx - 1 ∧
    n_stateMachine s.1 = apply_all after (ApplyFn (MkApplyMsg (e_Index e) (e_Term e) (e_Command e)) (apply_all before kv0)).
Proof.
  intros (_ & _ & _ & _ & Ha & _) Hb He. destruct Ha as (Ha1 & Ha2 & Ha3).
  rewrite Ha1 in Hb. set (k := Z.to_nat (n_commitIndex s.1)) in *. pose proof (lookup_lt_Some _ _ _ He) as Hlt.
  exists (take (Z.to_nat (idx - 1)) (n_log s.1)), (drop (Z.to_nat idx) (take k (n_log s.1))).
  split; [unfold zlen; rewrite length_take; lia|].
  assert (E : take k (n_log s.1) = take (Z.to_nat (idx - 1)) (n_log s.1) ++ e :: drop (Z.to_nat idx) (take k (n_log s.1))).
  { rewrite <- (take_drop_middle (take k (n_log s.1)) (Z.to_nat (idx - 1)) e) at 1 by (rewrite lookup_take_lt by lia; done).
    rewrite take_take. f_equal; [f_equal; lia|]. do 2 f_equal. lia. }
  rewrite Ha3, E at 1. unfold apply_all. by rewrite foldl_app.
Qed.

(** C5.  A write that the client saw succeed is not lost, in runs of the cluster
    on healthy disks in which nodes may restart and messages may be lost,
    delayed or repeated, but no node compacts its log or installs a snapshot
    (compaction_keeps_committed is about runs with compaction, where the entry
    leaves the logs).  When the proxy has returned the reply of a write, and the
    successes it was given for it came from KV services of the cluster, then at
    any later time of such a run every node that has
    committed up to the reported commit index, and every leader of the same or
    a later term, has the client's command at exactly that index of its log;
    and the map of every node that has applied that far is obtained by
    applying the entries before it, the client's command, and later ones. *)
Theorem client_write_survives {B} `{GoBreaker B} rpc_write clock err_text wop key value (ps ps' : PS (B := B)) reply
    c2 (v : string) sv :
  CodecLaws KVCommand (λ _, True) →
  Write rpc_write clock err_text wop key value ps = (inl reply, ps') →
  (let req := write_request wop key value in
   ∀ a rep, MkSent a req (AnsWrite (Ok rep)) ∈ ps_sent ps' → wr_Success rep = true →
     ∃ j k m c c1, answered_write j k c c1 a req rep ∧ hsteps kv0 m c1 c2 ∧ Z.of_nat (S j + k + m) ≤ u64_max) →
  cl_nodes c2 !! v = Some sv →
  ∃ op val t payload,
    request_command (write_request wop key value) = Some (op, key, val) ∧
    codec_enc (MkKVCommand op key val) = Some payload ∧
    let idx := wr_CommitIndex reply in
    let e := MkLogEntry t idx payload in
    (idx ≤ n_commitIndex sv.1 → n_log sv.1 !! Z.to_nat (idx - 1) = Some e) ∧
    (n_role sv.1 = Leader → t ≤ n_currentTerm sv.1 → n_log sv.1 !! Z.to_nat (idx - 1) = Some e) ∧
    (idx ≤ n_lastApplied sv.1 → ∃ before after, zlen before = idx - 1 ∧
       n_stateMachine sv.1 = apply_all after (Apply (MkKVCommand op key val) (apply_all before kv0))).
Proof.
  intros HC HW Hans Hv.
  assert (Hsent : ∃ a, MkSent a (write_request wop key value) (AnsWrite (Ok reply)) ∈ ps_sent ps' ∧ wr_Success reply = true).
  { unfold Proxy.Write in HW. cbv zeta in HW. destruct (allNodesOpen _ _ _); [done|].
    case_bool_decide; [done|]. apply write_loop_trace in HW as (cs & -> & _ & Ht).
    destruct (trace_success _ _ _ _ Ht) as (a & Ha & Hs). exists a. split; [|done]. apply elem_of_app. by right. }
  destruct Hsent as (a & Ha & Hs).
  destruct (Hans _ _ Ha Hs) as (j & k & m & c & c1 & Haw & Hst & Hk).
  destruct (answered_acked _ _ _ _ _ _ _ Haw Hs ltac:(lia)) as (op & key' & val & payload & t & sp & Hreq & Henc & Hpos & Hr1 & Hrf & He).
  assert (key' = key) as -> by (destruct wop; by injection Hreq).
  destruct (entry_survives kv0 _ m c1 c2 sp t _ _ v sv Hr1 Hrf He Hpos Hst ltac:(lia) Hv) as [S1 S2].
  exists op, val, t, payload. split; [done|]. split; [done|]. cbv zeta. split; [done|]. split; [done|].
  intros Hle. pose proof (hreach_hsteps kv0 _ _ _ _ Hr1 Hst) as Hr2.
  pose proof (hreach_healthy kv0 _ c2 v sv Hr2 ltac:(lia) Hv) as Hh.
  assert (Hco : wr_CommitIndex reply ≤ n_commitIndex sv.1) by (destruct Hh as (_ & _ & _ & _ & (<- & _) & _); done).
  destruct (applied_entry sv _ _ Hh (conj Hpos Hle) (S1 Hco)) as (before & after & Hb & Hsm).
  exists before, after. split; [done|]. rewrite Hsm. unfold ApplyFn. cbn [am_Command e_Command].
  by rewrite (codec_roundtrip (T := KVCommand) _ _ I Henc).
Qed.

End write.
