(* ===== verification/EndToEndRun.v ===== *)
(** * A client's write, from the proxy to the log and back

    Continues the run of RaftRun: the proxy sends PUT color=blue to a, which
    leads term 1 and acknowledges it; later b leads term 2, and the proxy
    finds it although a's old claim is still among discovery's answers. *)

From Stdlib Require Import Strings.Byte.
From S2P Require Import Prelude Pb Fs Persistence SnapshotFile Codecs Storage RaftNode KV KVServer.
From S2P Require Import RaftElection RaftReplication RaftLog RaftCommit RaftVotes RaftCluster RaftSafety RaftSpec.
From S2P Require Import RaftHealthy RaftImplements RaftRefine RaftAcks CircuitBreaker Proxy Discovery EndToEnd.
From S2P Require Import RaftExamples Examples RaftRun.
Import Persistence SnapshotFile Concrete Trio SimpleBreaker Run.

#[local] Instance e2e_laws : LogLaws World := FileLogLaws state_codec_total.

Definition e2e_reply : WriteReply := MkWriteReply true "" 1.
Definition e2e_rpc (sent : list Sent) (addr : string) (req : Request) : result WriteReply := Ok e2e_reply.
Definition e2e_rpc_get (sent : list Sent) (addr : string) (req : Request) : result GetReply := Err ErrNotLeader.
Definition e2e_clock (sent : list Sent) : Z := 0.
Definition e2e_text (e : goerr) : string := "".

(** A proxy that knows a as leader. *)
Definition e2e_ps : PS (B := Breaker) := MkPS (MkProxy (MkClusterView "a" [] []) 0 0) NewRegistry [].

Lemma client_write_survives_witness :
  ∃ ps', Write e2e_rpc e2e_clock e2e_text OpPut "color" "blue" e2e_ps = (inl e2e_reply, ps') ∧
    n_role b12.1 = Leader ∧ n_log b12.1 !! 0%nat = Some (MkLogEntry 1 1 cmd1) ∧
    ∃ before after, zlen before = 0 ∧
      n_stateMachine b12.1 = apply_all after (Apply (MkKVCommand KVCommand_PUT "color" "blue") (apply_all before New)).
Proof.
  destruct (Write e2e_rpc e2e_clock e2e_text OpPut "color" "blue" e2e_ps) as [r ps'] eqn:E.
  assert (Hr : r = inl e2e_reply) by (vm_compute in E; by injection E as <- _).
  assert (Hs : ps_sent ps' = [MkSent "a" (ReqPut "color" "blue") (AnsWrite (Ok e2e_reply))]).
  { vm_compute in E. by injection E as _ <-. }
  subst r. exists ps'. split; [done|]. split; [vm_compute; reflexivity|].
  destruct (client_write_survives New e2e_rpc e2e_clock e2e_text OpPut "color" "blue" e2e_ps ps' e2e_reply
    c12 "b" b12) as (op & val & t & payload & [= <- <-] & Hp & H1 & _ & H3).
  - apply _.
  - exact E.
  - intros req a rep Hin _. rewrite Hs in Hin. apply list_elem_of_singleton in Hin as [= -> ->].
    exists 3%nat, 3%nat, 5%nat, c3, c7. split; [|split; [apply hsteps_7_12|vm_compute; discriminate]].
    exists KVCommand_PUT, "color", "blue", cmd1, sa3, a4, a7, (Ok (1, 1, 0%nat)).
    split_and!; [vm_compute; reflexivity..|apply hreach_c3|vm_compute; reflexivity| |vm_compute; reflexivity|apply up_4_7
      |vm_compute; reflexivity|vm_compute; reflexivity].
    intros _. split; [apply ll_storable_b; by vm_compute|by vm_compute].
  - vm_compute; reflexivity.
  - assert (payload = cmd1) as -> by (vm_compute in Hp; by injection Hp as <-).
    assert (Hlog : n_log b12.1 !! 0%nat = Some (MkLogEntry t 1 cmd1)) by (apply H1; vm_compute; discriminate).
    assert (t = 1) as -> by (vm_compute in Hlog; by injection Hlog as <-).
    split; [exact Hlog|]. apply H3. vm_compute. discriminate.
Defined.

(** a answers while it leads term 1, b after its election in term 2. *)
Definition e2e_results : list (string * option GetStatusReply) :=
  [("b", Some (GetStatus b12.1)); ("c", None); ("a", Some (GetStatus a7.1))].

Lemma proxy_finds_leader_witness :
  gs_Role (GetStatus a7.1) = Role_LEADER ∧
  cv_LeaderAddress (currentView (front e2e_rpc e2e_rpc_get e2e_clock e2e_text
    ([FRefresh false] ++ [FPoll e2e_results; FRefresh true]) (Discovery.NewRegistry ["a"; "b"; "c"], e2e_ps)).2) = "b".
Proof.
  split; [vm_compute; reflexivity|].
  refine (proj1 (proxy_finds_leader e2e_rpc e2e_rpc_get e2e_clock e2e_text [FRefresh false] e2e_results c12
    (Discovery.NewRegistry ["a"; "b"; "c"]) e2e_ps "b" (GetStatus b12.1) _ _ _ _)).
  - intros addr reply Hin. apply elem_of_cons in Hin as [[= -> ->]|Hin].
    + exists 12%nat, 0%nat, c12, b12. split_and!; [apply (hreach_reach New), hreach_c12|constructor|vm_compute; discriminate|vm_compute; reflexivity|reflexivity].
    + apply elem_of_cons in Hin as [[=]|Hin]. apply list_elem_of_singleton in Hin as [= -> ->].
      exists 7%nat, 5%nat, c7, a7.
      split_and!; [apply (hreach_reach New), hreach_c7|apply (hsteps_steps New), hsteps_7_12|vm_compute; discriminate|vm_compute; reflexivity|reflexivity].
  - apply elem_of_cons. by left.
  - vm_compute; reflexivity.
  - intros addr reply Hin _. apply elem_of_cons in Hin as [[= -> ->]|Hin]; [vm_compute; discriminate|].
    apply elem_of_cons in Hin as [[=]|Hin]. apply list_elem_of_singleton in Hin as [= -> ->]. vm_compute; discriminate.
Defined.
