(* ===== verification/Config.v ===== *)
(** * Configuration from the environment

    The loaders of internal/raft, internal/proxy, internal/discovery and
    internal/snapshot, and the PEERS parsing of cmd/consensus-node, over an
    environment given as a map.  strconv.Atoi, strings.Split,
    strings.TrimSpace (ASCII) and net.SplitHostPort are written out. *)

From Stdlib Require Import Strings.Byte Ascii.
From stdpp Require Import list strings.
From S2P Require Import Prelude Pb Fs Persistence SnapshotFile Codecs Storage RaftNode KV SnapshotService.
From S2P Require Import RaftElection RaftReplication RaftSnapshot RaftCluster RaftTickers RaftExamples.
Import SnapshotFile Concrete.

#[local] Open Scope Z_scope.

Definition Environ : Type := gmap string string.

Definition Getenv (env : Environ) (key : string) : string := default "" (env !! key).

(** ** The standard library *)

Definition int_min : Z := -9223372036854775808.
Definition int_max : Z := 9223372036854775807.

Definition strip_sign (s : string) : bool * string :=
  match s with
  | String c rest =>
      if decide (c = "+"%char) then (false, rest)
      else if decide (c = "-"%char) then (true, rest)
      else (false, s)
  | EmptyString => (false, s)
  end.

(** [None] is a syntax or range error. *)
Definition Atoi (s : string) : option Z :=
  let '(neg, digits) := strip_sign s in
  match scan_uint digits with
  | (Decimal.Nil, _) => None
  | (u, EmptyString) =>
      let v := Z.of_N (N.of_uint u) in
      let v := if neg : bool then - v else v in
      if (int_min <=? v) && (v <=? int_max) then Some v else None
  | _ => None
  end.

(** strings.Split(s, ",") *)
Fixpoint split_comma (s : string) : list string :=
  match s with
  | EmptyString => [EmptyString]
  | String c rest =>
      if decide (c = ","%char) then EmptyString :: split_comma rest
      else match split_comma rest with
           | w :: ws => String c w :: ws
           | [] => [String c EmptyString]
           end
  end.

Definition is_space (c : ascii) : bool :=
  let k := N_of_ascii c in (k =? 32)%N || ((9 <=? k)%N && (k <=? 13)%N).

Fixpoint trim_left (s : string) : string :=
  match s with
  | String c rest => if is_space c then trim_left rest else s
  | EmptyString => s
  end.

Fixpoint rev_string (s acc : string) : string :=
  match s with
  | EmptyString => acc
  | String c rest => rev_string rest (String c acc)
  end.

Definition TrimSpace (s : string) : string :=
  let r := trim_left s in
  rev_string (trim_left (rev_string r "")) "".

(** net.SplitHostPort, as far as its port result: [None] is an error. *)
Fixpoint index_of (c : ascii) (l : list ascii) : option nat :=
  match l with
  | [] => None
  | x :: r => if decide (x = c) then Some 0%nat else S <$> index_of c r
  end.

Definition last_index_of (c : ascii) (l : list ascii) : option nat :=
  (λ i, (length l - 1 - i)%nat) <$> index_of c (reverse l).

Definition SplitHostPort (hostport : string) : option string :=
  let l := String.list_ascii_of_string hostport in
  match last_index_of ":" l with
  | None => None
  | Some i =>
      let port := String.string_of_list_ascii (drop (S i) l) in
      match l with
      | c :: _ =>
          if decide (c = "["%char) then
            match index_of "]" l with
            | None => None
            | Some e =>
                if decide ((e + 1)%nat = i) then
                  if decide (index_of "[" (drop 1 l) = None ∧ index_of "]" (drop (e + 1) l) = None)
                  then Some port else None
                else None
            end
          else if decide (index_of ":" (take i l) = None ∧ index_of "[" l = None ∧ index_of "]" l = None)
          then Some port else None
      | [] => None
      end
  end.

(** Durations are int64 nanoseconds. *)
Definition Milliseconds (n : Z) : Z := wrap_int (n * millisecond).

(** ** internal/raft/node.go and snapshotconfig.go *)

Definition envIntDefault (env : Environ) (key : string) (def : Z) : option Z :=
  let v := Getenv env key in
  if decide (v = "") then Some def else Atoi v.

Definition LoadTimingConfigFromEnv (env : Environ) : option TimingConfig :=
  minMS ← envIntDefault env "ELECTION_TIMEOUT_MIN_MS" 150;
  maxMS ← envIntDefault env "ELECTION_TIMEOUT_MAX_MS" 300;
  heartbeatMS ← envIntDefault env "HEARTBEAT_INTERVAL_MS" 50;
  if maxMS <=? minMS then None else
  if minMS <=? heartbeatMS then None else
  Some (MkTimingConfig (Milliseconds minMS) (Milliseconds maxMS) (Milliseconds heartbeatMS)).

Definition LoadSnapshotConfigFromEnv (env : Environ) : option SnapshotConfig :=
  capacity ← envIntDefault env "LOG_CAPACITY_ENTRIES" defaultLogCapacityEntries;
  pollMS ← envIntDefault env "SNAPSHOT_POLL_INTERVAL_MS" (Z.quot defaultSnapshotPollInterval millisecond);
  Some (MkSnapshotConfig (wrap64 capacity) (Milliseconds pollMS)).

(** ** internal/proxy/config.go *)

Module ProxyConfig.
Definition defaultRefreshInterval : Z := 2 * second.
Definition defaultRPCTimeout : Z := 2 * second.

Record Config : Type := MkConfig { RefreshInterval : Z; RPCTimeout : Z }.

Definition envDurationMS (env : Environ) (key : string) (def : Z) : option Z :=
  let v := Getenv env key in
  if decide (v = "") then Some def else
  n ← Atoi v;
  if n <=? 0 then None else Some (Milliseconds n).

Definition LoadConfigFromEnv (env : Environ) : option Config :=
  refresh ← envDurationMS env "PROXY_REFRESH_INTERVAL_MS" defaultRefreshInterval;
  rpcTimeout ← envDurationMS env "PROXY_RPC_TIMEOUT_MS" defaultRPCTimeout;
  Some (MkConfig refresh rpcTimeout).
End ProxyConfig.

(** ** internal/discovery/config.go *)

Module DiscoveryConfig.
Definition defaultPollInterval : Z := 2 * second.
Definition defaultRPCTimeout : Z := 500 * millisecond.

Record Config : Type := MkConfig { Peers : list string; PollInterval : Z; RPCTimeout : Z }.

Definition split_peers (s : string) : list string :=
  filter (λ a, a ≠ "") (TrimSpace <$> split_comma s).

Definition LoadConfigFromEnv (env : Environ) : option Config :=
  let peers := split_peers (Getenv env "PEERS") in
  let v := Getenv env "DISCOVERY_POLL_INTERVAL_MS" in
  intervalMS ← (if decide (v = "") then Some (Z.quot defaultPollInterval millisecond)
                else n ← Atoi v; if n <=? 0 then None else Some n);
  Some (MkConfig peers (Milliseconds intervalMS) defaultRPCTimeout).
End DiscoveryConfig.

(** ** internal/snapshot/config.go *)

Module SnapshotServiceConfig.
Definition defaultPollInterval : Z := 5 * second.
Definition defaultCompactionThresholdPercent : Z := 30.
Definition defaultConcurrencyGuardPercent : Z := 90.
Definition defaultRPCTimeout : Z := 2 * second.

Definition LoadConfigFromEnv (env : Environ) : option SnapshotService.Config :=
  pollMS ← envIntDefault env "SNAPSHOT_BACKUP_POLL_INTERVAL_MS" (Z.quot defaultPollInterval millisecond);
  threshold ← envIntDefault env "COMPACTION_THRESHOLD_PERCENT" defaultCompactionThresholdPercent;
  guard ← envIntDefault env "COMPACTION_CONCURRENCY_GUARD_PERCENT" defaultConcurrencyGuardPercent;
  if guard <=? threshold then None else
  rpcTimeoutMS ← envIntDefault env "SNAPSHOT_BACKUP_RPC_TIMEOUT_MS" (Z.quot defaultRPCTimeout millisecond);
  Some (SnapshotService.MkConfig (Milliseconds pollMS) (wrap64 threshold) (wrap64 guard)
    (Milliseconds rpcTimeoutMS)).
End SnapshotServiceConfig.

(** ** cmd/consensus-node/main.go *)

Definition is_own (ownPort addr : string) : Prop := SplitHostPort addr = Some ownPort.

#[global] Instance is_own_dec ownPort addr : Decision (is_own ownPort addr).
Proof. unfold is_own. apply _. Defined.

(** The loop of peerAddresses over the split list. *)
Fixpoint peer_loop (raws : list string) (ownPort : string) : list string :=
  match raws with
  | [] => []
  | raw :: rest =>
      let addr := TrimSpace raw in
      if decide (addr = "") then peer_loop rest ownPort
      else if decide (is_own ownPort addr) then peer_loop rest ownPort
      else addr :: peer_loop rest ownPort
  end.

Definition peerAddresses (peersEnv ownPort : string) : list string :=
  peer_loop (split_comma peersEnv) ownPort.

Fixpoint own_loop (raws : list string) (ownPort : string) : string :=
  match raws with
  | [] => ""
  | raw :: rest =>
      let addr := TrimSpace raw in
      if decide (addr = "") then own_loop rest ownPort
      else if decide (is_own ownPort addr) then addr
      else own_loop rest ownPort
  end.

Definition ownAddress (peersEnv ownPort : string) : string :=
  own_loop (split_comma peersEnv) ownPort.

(** ** Facts *)

(** The entries of a PEERS list. *)
Definition entries (peersEnv : string) : list string := DiscoveryConfig.split_peers peersEnv.

Lemma peer_loop_spec raws ownPort :
  peer_loop raws ownPort = filter (λ a, ¬ is_own ownPort a) (filter (λ a, a ≠ "") (TrimSpace <$> raws)).
Proof.
  induction raws as [|raw rest IH]; [done|]. cbn [peer_loop]. cbv zeta. rewrite fmap_cons.
  destruct (decide (TrimSpace raw = "")) as [E|E].
  - rewrite (filter_cons_False (λ a, a ≠ "")) by naive_solver. exact IH.
  - rewrite (filter_cons_True (λ a, a ≠ "")) by done.
    destruct (decide (is_own ownPort (TrimSpace raw))).
    + rewrite filter_cons_False by naive_solver. exact IH.
    + rewrite filter_cons_True by done. by rewrite IH.
Qed.

Lemma own_loop_spec raws ownPort :
  own_loop raws ownPort =
  default "" (head (filter (is_own ownPort) (filter (λ a, a ≠ "") (TrimSpace <$> raws)))).
Proof.
  induction raws as [|raw rest IH]; [done|]. cbn [own_loop]. cbv zeta. rewrite fmap_cons.
  destruct (decide (TrimSpace raw = "")) as [E|E].
  - rewrite (filter_cons_False (λ a, a ≠ "")) by naive_solver. exact IH.
  - rewrite (filter_cons_True (λ a, a ≠ "")) by done.
    destruct (decide (is_own ownPort (TrimSpace raw))).
    + by rewrite filter_cons_True by done.
    + rewrite filter_cons_False by done. exact IH.
Qed.

(** Every node derives the same membership from the shared PEERS list: if
    exactly one entry carries the node's own port, that entry is its address
    and, together with the peers it will talk to, makes up the whole list. *)
Theorem peers_partition peersEnv ownPort a :
  filter (is_own ownPort) (entries peersEnv) = [a] →
  ownAddress peersEnv ownPort = a ∧
  ownAddress peersEnv ownPort :: peerAddresses peersEnv ownPort ≡ₚ entries peersEnv.
Proof.
  intros Ha. unfold ownAddress, peerAddresses. rewrite own_loop_spec, peer_loop_spec.
  fold (DiscoveryConfig.split_peers peersEnv). fold (entries peersEnv). rewrite Ha. simpl.
  split; [done|]. change (a :: ?l) with ([a] ++ l). rewrite <- Ha.
  clear Ha. induction (entries peersEnv) as [|x l IH]; [done|].
  destruct (decide (is_own ownPort x)).
  - rewrite filter_cons_True by done. rewrite filter_cons_False by naive_solver. simpl. by rewrite IH.
  - rewrite filter_cons_False by done. rewrite filter_cons_True by done.
    rewrite <- Permutation_middle. by rewrite IH.
Qed.

Lemma peers_partition_witness :
  ownAddress "n1:9001, n2:9002,n3:9003" "9002" = "n2:9002" ∧
  ownAddress "n1:9001, n2:9002,n3:9003" "9002" ::
    peerAddresses "n1:9001, n2:9002,n3:9003" "9002" ≡ₚ ["n1:9001"; "n2:9002"; "n3:9003"].
Proof. apply (peers_partition "n1:9001, n2:9002,n3:9003" "9002" "n2:9002"). by vm_compute. Defined.

(** The values [Milliseconds] keeps in order. *)
Definition ms_ok (n : Z) : Prop := -9223372036854 ≤ n ≤ 9223372036854.

(** The three timing settings, where set, are below 292 years. *)
Definition small_settings (env : Environ) : Prop :=
  ∀ k, k ∈ ["ELECTION_TIMEOUT_MIN_MS"; "ELECTION_TIMEOUT_MAX_MS"; "HEARTBEAT_INTERVAL_MS"] →
    ∀ v, Atoi (Getenv env k) = Some v → ms_ok v.

Lemma timing_loaded env t :
  LoadTimingConfigFromEnv env = Some t → small_settings env →
  HeartbeatInterval t < ElectionTimeoutMin t < ElectionTimeoutMax t.
Proof.
  intros Hl Hms. unfold LoadTimingConfigFromEnv in Hl.
  assert (Hok : ∀ k def v, k ∈ ["ELECTION_TIMEOUT_MIN_MS"; "ELECTION_TIMEOUT_MAX_MS"; "HEARTBEAT_INTERVAL_MS"] →
    ms_ok def → envIntDefault env k def = Some v → ms_ok v).
  { intros k def v Hk Hd. unfold envIntDefault. cbv zeta. destruct (decide _); [by intros [= <-]|].
    by apply Hms. }
  destruct (envIntDefault env "ELECTION_TIMEOUT_MIN_MS" 150) as [mn|] eqn:E1; [|done].
  destruct (envIntDefault env "ELECTION_TIMEOUT_MAX_MS" 300) as [mx|] eqn:E2; [|done].
  destruct (envIntDefault env "HEARTBEAT_INTERVAL_MS" 50) as [hb|] eqn:E3; [|done].
  simpl in Hl.
  apply Hok in E1; [|set_solver|unfold ms_ok; lia]. apply Hok in E2; [|set_solver|unfold ms_ok; lia].
  apply Hok in E3; [|set_solver|unfold ms_ok; lia].
  destruct (_ <=? _) eqn:L1 in Hl; [done|]. destruct (_ <=? _) eqn:L2 in Hl; [done|]. zbool.
  injection Hl as <-. simpl. unfold Milliseconds, ms_ok, millisecond in *.
  rewrite !wrap_int_small by lia. lia.
Qed.

(** C17.  An accepted timing configuration keeps a healthy cluster calm: its
    heartbeat interval is below the minimum and the minimum below the maximum
    election timeout, and a node that has been running for however long and
    from then on accepts an AppendEntries of its leader at least every [gap],
    for any [gap] below the minimum election timeout, starts no election:
    whatever else its loops, RPC handlers, clients and snapshot catalog do in
    between, and however the ticks fall, electionTicker never calls
    startElection. *)
Theorem heard_leader_not_challenged {SM} `{StateMachine SM} {D} `{Storage D} `{Codec File}
    environ t gap heard evs (p p' : Proc (SM := SM) (D := D)) :
  LoadTimingConfigFromEnv environ = Some t → small_settings environ → lives t p →
  gap < ElectionTimeoutMin t → heard ≤ n_lastHeartbeat (pr_s p).1 → pr_now p ≤ heard + gap →
  elect_pending p = false → Forall ev_draws evs → hearing gap heard evs p → run evs p = Some p' →
  HeartbeatInterval t < ElectionTimeoutMin t < ElectionTimeoutMax t ∧
  campaigns p' = campaigns p ∧ electionDue (pr_now p') (pr_s p').1 = false.
Proof.
  intros Hl Hs Hp Hg Hh Hn He Hd Hc Hr. split; [by eapply timing_loaded|].
  destruct (lives_timed _ _ Hp) as (<- & Ht & Hi). by eapply hearing_no_campaign.
Qed.

(** C18.  A silent leader is replaced: with an accepted timing configuration,
    when a running node that does not lead has heard nothing for the maximum
    election timeout, the next tick of electionTicker decides for an election,
    and when the goroutine gets the mutex back, whatever the node has done in
    the meantime, it campaigns for the next term, with a vote request for
    every peer; only becoming leader first or failing to store the new term
    prevents it. *)
Theorem silent_leader_challenged {SM} `{StateMachine SM} {D} `{Storage D} `{Codec File}
    environ t (p : Proc (SM := SM) (D := D)) :
  LoadTimingConfigFromEnv environ = Some t → small_settings environ → lives t p →
  pr_crashed p = false → l_elect (pr_loops p) = Waiting → n_role (pr_s p).1 ≠ Leader →
  n_lastHeartbeat (pr_s p).1 + ElectionTimeoutMax t ≤ pr_now p →
  ∃ p1, exec (EvTick LElect) p = Some p1 ∧
    ∀ mid p2 rnd, Forall (λ ev, is_elect ev = false) mid → run mid p1 = Some p2 → pr_crashed p2 = false →
      n_role (pr_s p2).1 ≠ Leader →
      ∃ p3, exec (EvElect rnd) p2 = Some p3 ∧
        ((∃ ca req, pr_sent p3 = pr_sent p2 ++ [OutCampaign ca req] ∧ ca_pending ca = n_peers (pr_s p2).1 ∧
            rv_CandidateId req = n_id (pr_s p2).1 ∧ rv_Term req = n_currentTerm (pr_s p2).1 +u 1) ∨
         (∃ e d', st_SaveState (n_dataDir (pr_s p2).1) (n_currentTerm (pr_s p2).1 +u 1)
            (n_id (pr_s p2).1) (pr_s p2).2 = (Err e, d'))).
Proof.
  intros Hl Hs Hp Hc Hw Hr Hn. pose proof (timing_loaded _ _ Hl Hs) as Ht.
  destruct (lives_timed _ _ Hp) as (<- & _ & Hi). apply silence_campaign; [done..|lia|done].
Qed.

(** A node started with the default timing, and a random source. *)
Definition calm_rnd (span : Z) : Z := span - 1.
Definition calm_env : Env := MkEnv 5 calm_rnd.
Definition calm_timing : TimingConfig :=
  MkTimingConfig (150 * millisecond) (300 * millisecond) (50 * millisecond).
Definition calm_cfg : RaftNode.Config KV :=
  RaftNode.MkConfig "id-a" "a" "data-a" ["b"; "c"] calm_timing 0 0 (MkSnapshotConfig 0 0) None New.
Definition calm_disk : World := Eval vm_compute in (NewNode calm_env calm_cfg Trio.empty_disk).2.
Definition calm_node : Node KV := Eval vm_compute in
  get_ok (A := Node KV) (NewNode calm_env calm_cfg Trio.empty_disk).1.

(** The process has just started its two loops. *)
Definition calm_launch : list (Event) := [EvLaunch LElect; EvLaunch LBeat].
Definition calm_proc : Proc (SM := KV) (D := World) := Eval vm_compute in
  default (NewProc 0 false (calm_node, calm_disk)) (run calm_launch (Start (NewProc 5 false (calm_node, calm_disk)))).

Lemma calm_draws : draws calm_rnd.
Proof. intros span ?. unfold calm_rnd. lia. Qed.

Lemma calm_lives evs p : Forall ev_draws evs → run evs calm_proc = Some p → lives calm_timing p.
Proof.
  intros Hev Hr. exists calm_env, calm_cfg, Trio.empty_disk, calm_node, calm_disk, false, (calm_launch ++ evs).
  split_and!; [apply calm_draws|done|by vm_compute| |].
  - apply Forall_app. split; [|done]. by repeat constructor.
  - rewrite run_app. by replace (run calm_launch _) with (Some calm_proc) by by vm_compute.
Qed.

Lemma calm_loaded : LoadTimingConfigFromEnv ∅ = Some calm_timing ∧ small_settings ∅.
Proof.
  split; [by vm_compute|]. intros k _ v. by change (Getenv ∅ k) with EmptyString.
Qed.

(** Heartbeats of leader b 100 ms apart, with ticks and a refused vote request
    in between. *)
Definition calm_beat : Event := EvOp calm_rnd (RoAppendEntries (MkAppendEntriesRequest 1 "b" 0 0 [] 0)).
Definition calm_tick : list Event := [EvTick LElect; EvElect calm_rnd].
Definition calm_round : list Event :=
  EvElapse (60 * millisecond) :: calm_tick ++
  EvOp calm_rnd (RoRequestVote (MkRequestVoteRequest 1 "id-c" 0 0)) ::
  EvElapse (40 * millisecond) :: calm_tick ++ [calm_beat].

Lemma calm_ev_draws : Forall ev_draws (calm_round ++ calm_round).
Proof. by repeat (constructor; [first [exact I|exact calm_draws]|]). Qed.

Lemma heard_leader_not_challenged_witness :
  ∃ p', run (calm_round ++ calm_round) calm_proc = Some p' ∧ pr_now p' = 5 + 200 * millisecond ∧
    campaigns p' = [] ∧ electionDue (pr_now p') (pr_s p').1 = false.
Proof.
  destruct (run (calm_round ++ calm_round) calm_proc) as [p'|] eqn:E; [|by vm_compute in E].
  exists p'. split; [done|].
  destruct calm_loaded as [HL HS].
  assert (Hp : lives calm_timing calm_proc) by (by apply (calm_lives []); [constructor|]).
  destruct (heard_leader_not_challenged ∅ calm_timing (100 * millisecond) 5 (calm_round ++ calm_round) calm_proc p'
    HL HS Hp) as (_ & Hc & Hd).
  - vm_compute; reflexivity.
  - vm_compute; discriminate.
  - vm_compute; discriminate.
  - vm_compute; reflexivity.
  - exact calm_ev_draws.
  - vm_compute. repeat split; discriminate.
  - exact E.
  - split; [vm_compute in E; by injection E as <-|]. split; [exact Hc|exact Hd].
Defined.

(** 300 ms of silence. *)
Lemma silent_leader_challenged_witness :
  ∃ p p1, run [EvElapse (300 * millisecond)] calm_proc = Some p ∧ exec (EvTick LElect) p = Some p1 ∧
    ∃ p3 ca req, exec (EvElect calm_rnd) p1 = Some p3 ∧ pr_sent p3 = [OutCampaign ca req] ∧ rv_Term req = 1.
Proof.
  destruct (run [EvElapse (300 * millisecond)] calm_proc) as [p|] eqn:E; [|by vm_compute in E].
  destruct calm_loaded as [HL HS].
  assert (Hp : lives calm_timing p) by (eapply calm_lives, E; by repeat constructor).
  vm_compute in E. injection E as <-. eexists.
  destruct (silent_leader_challenged ∅ calm_timing _ HL HS Hp) as (p1 & E1 & Hmid);
    [by vm_compute..|].
  exists p1. split; [done|]. split; [done|].
  destruct (Hmid [] p1 calm_rnd) as (p3 & E3 & [(ca & req & Hs & _ & _ & Ht)|(e & d' & He)]);
    [constructor|done|vm_compute in E1; by injection E1 as <-..| |];
    vm_compute in E1; injection E1 as <-; [|by vm_compute in He].
  exists p3, ca, req. split; [done|]. split; [done|]. by rewrite Ht.
Defined.

(** A zero heartbeat interval passes validation: with
    HEARTBEAT_INTERVAL_MS=0 the loader succeeds with interval 0, and
    time.NewTicker brings down every node started with it as soon as its
    heartbeatTicker runs. *)
Theorem zero_heartbeat_accepted {SM} `{StateMachine SM} {D} `{Storage D} `{Codec File} :
  ∃ t, LoadTimingConfigFromEnv {[ "HEARTBEAT_INTERVAL_MS" := "0" ]} = Some t ∧
    ∀ (p : Proc (SM := SM) (D := D)), lives t p → pr_crashed p = false → l_beat (pr_loops p) = Launched →
      exec (EvLaunch LBeat) p = Some (crash p).
Proof.
  eexists. split; [by vm_compute|]. intros p (Ht & _)%lives_timed Hc Hl.
  unfold exec, launch, launched, interval. cbv zeta. by rewrite Hc, Hl, Ht.
Qed.
