(* ===== verification/Loadgen.v ===== *)
(** * cmd/loadgen: the load generator

    The worker loop, the requests it makes and the summary.  float64 is the
    standard library's SpecFloat at precision 53, so that latencies and
    percentiles are computed as the hardware does.  The HTTP client, the
    random source and the clock are inputs of each job. *)

From Stdlib Require Import Strings.Byte Ascii SpecFloat.
From stdpp Require Import sorting.
From S2P Require Import Prelude SnapshotFile.
Import SnapshotFile.

Module Loadgen.

(** ** float64 *)

Definition float64 : Type := spec_float.
Definition of_int (z : Z) : float64 := binary_normalize 53 1024 z 0 false.
Definition fmul : float64 → float64 → float64 := SFmul 53 1024.
Definition fdiv : float64 → float64 → float64 := SFdiv 53 1024.

(** int(math.Ceil(x)) of a finite number; the others do not arise. *)
Definition ceil_int (x : float64) : Z :=
  match x with
  | S754_finite neg m e =>
      let v := if neg then Z.neg m else Z.pos m in
      if 0 <=? e then v * 2 ^ e else - (- v / 2 ^ (- e))
  | _ => 0
  end.

(** ** Results and flags *)

Definition maxKeysPerWorker : Z := 100.

Inductive Operation : Type := OpRead | OpWrite.

Record Result : Type := MkResult {
  r_timestamp : Z;
  r_operation : Operation;
  r_status : Z;
  r_latencyMs : float64
}.

(** The checks of main; [None] lets it run. *)
Definition check_flags (requests concurrency readPct : Z) : option string :=
  if (readPct <? 0) || (100 <? readPct) then Some "loadgen: -read-pct must be between 0 and 100"
  else if requests <=? 0 then Some "loadgen: -requests must be > 0"
  else if concurrency <=? 0 then Some "loadgen: -concurrency must be > 0"
  else None.

(** ** Requests *)

Inductive Method : Type := GET | POST.

Record Request : Type := MkRequest { q_method : Method; q_url : string }.

(** url.PathEscape *)
Definition hex_digit (k : N) : ascii := ascii_of_N (if (k <? 10)%N then 48 + k else 55 + k)%N.
Definition unreserved (c : ascii) : bool :=
  let k := N_of_ascii c in
  ((48 <=? k)%N && (k <=? 57)%N) || ((65 <=? k)%N && (k <=? 90)%N) || ((97 <=? k)%N && (k <=? 122)%N)
  || bool_decide (c ∈ ["-"; "_"; "."; "~"; "$"; "&"; "+"; "="; ":"; "@"]%char).
Fixpoint PathEscape (s : string) : string :=
  match s with
  | EmptyString => EmptyString
  | String c rest =>
      if unreserved c then String c (PathEscape rest)
      else String "%" (String (hex_digit (N_of_ascii c / 16)) (String (hex_digit (N_of_ascii c mod 16)%N)
        (PathEscape rest)))
  end.

Definition key_url (target key : string) : string := target +:+ "/v1/kv/" +:+ PathEscape key.

(** [resp]: the status code, or [None] for a transport error. *)
Definition drainAndStatus (resp : option Z) : Z := match resp with None => 0 | Some code => code end.

Definition msFloat (d : Z) : float64 := fdiv (of_int (d ÷ 1000)) (of_int 1000).

(** What the world does during one job: clock readings in nanoseconds, the
    two draws of the random source and the server's answers. *)
Record Job : Type := MkJob {
  j_key_time : Z;
  j_start : Z;
  j_elapsed : Z;
  j_Intn : Z → Z;
  j_serve : Request → option Z
}.

Definition doGet (target key : string) (j : Job) : Request * Result :=
  let q := MkRequest GET (key_url target key) in
  (q, MkResult (j_start j) OpRead (drainAndStatus (j_serve j q)) (msFloat (j_elapsed j))).

Definition doPost (target key : string) (j : Job) : Request * Result :=
  let q := MkRequest POST (key_url target key) in
  (q, MkResult (j_start j) OpWrite (drainAndStatus (j_serve j q)) (msFloat (j_elapsed j))).

Definition ok_status (status : Z) : bool := (200 <=? status) && (status <? 300).

(** One turn of the loop: the key used, the request and result, and the keys
    kept afterwards.  Intn(n) is below n, so that the lookup finds a key. *)
Definition worker_step (id : Z) (target : string) (readPct : Z) (ownKeys : list string) (j : Job) :
    string * (Request * Result) * list string :=
  let write :=
    let key := "key-" +:+ format_uint id +:+ "-" +:+ format_uint (j_key_time j) in
    let r := doPost target key j in
    let keys := if ok_status (r_status r.2) then
        let keys := ownKeys ++ [key] in
        if maxKeysPerWorker <? zlen keys then drop 1 keys else keys
      else ownKeys in
    (key, r, keys) in
  if (0 <? zlen ownKeys) && (j_Intn j 100 <? readPct) then
    match ownKeys !! Z.to_nat (j_Intn j (zlen ownKeys)) with
    | Some key => (key, doGet target key j, ownKeys)
    | None => write
    end
  else write.

(** runWorker: the jobs this worker takes from the channel. *)
Fixpoint runWorker (id : Z) (target : string) (readPct : Z) (ownKeys : list string) (jobs : list Job) :
    list (string * (Request * Result)) :=
  match jobs with
  | [] => []
  | j :: rest =>
      let '(key, r, keys) := worker_step id target readPct ownKeys j in
      (key, r) :: runWorker id target readPct keys rest
  end.

(** ** Summary *)

Definition f_le (a b : float64) : Prop := SFleb a b = true.
#[export] Instance f_le_dec : RelDecision f_le.
Proof. intros a b. unfold f_le. apply _. Defined.

Definition rank (n : Z) (p : float64) : Z :=
  let idx := ceil_int (fmul (fdiv p (of_int 100)) (of_int n)) - 1 in
  let idx := if idx <? 0 then 0 else idx in
  if n <=? idx then n - 1 else idx.

Definition percentile (sorted : list float64) (p : float64) : float64 :=
  match sorted with
  | [] => S754_zero false
  | x :: _ => default x (sorted !! Z.to_nat (rank (zlen sorted) p))
  end.

Record Stats : Type := MkStats { st_n : Z; st_p50 : float64; st_p95 : float64; st_p99 : float64 }.

(** [None]: "no requests". *)
Definition latencyStats (rs : list Result) : option Stats :=
  match rs with
  | [] => None
  | _ =>
      let lat := merge_sort f_le (r_latencyMs <$> rs) in
      Some (MkStats (zlen rs) (percentile lat (of_int 50)) (percentile lat (of_int 95))
        (percentile lat (of_int 99)))
  end.

Record Summary : Type := MkSummary {
  su_total : Z;
  su_success : Z;
  su_reads : option Stats;
  su_writes : option Stats
}.

Definition is_read (r : Result) : bool := match r_operation r with OpRead => true | OpWrite => false end.

Fixpoint split_results (all reads writes : list Result) (success : Z) : Z * list Result * list Result :=
  match all with
  | [] => (success, reads, writes)
  | r :: rest =>
      let success := if ok_status (r_status r) then success + 1 else success in
      if is_read r then split_results rest (reads ++ [r]) writes success
      else split_results rest reads (writes ++ [r]) success
  end.

Definition summarize (all : list Result) : Summary :=
  let '(success, reads, writes) := split_results all [] [] 0 in
  MkSummary (zlen all) success (latencyStats reads) (latencyStats writes).

(** ** Workers read what they wrote *)

Definition Intn_ok (j : Job) : Prop := ∀ n, 0 < n → 0 ≤ j_Intn j n < n.

(** Key [k] was written successfully in [past]. *)
Definition written (past : list (string * (Request * Result))) (k : string) : Prop :=
  ∃ q r, (k, (q, r)) ∈ past ∧ r_operation r = OpWrite ∧ ok_status (r_status r) = true.

Lemma worker_step_spec id target readPct keys j past :
  Intn_ok j → zlen keys ≤ maxKeysPerWorker → (∀ k, k ∈ keys → written past k) →
  let '(key, (q, r), keys') := worker_step id target readPct keys j in
  q_url q = key_url target key ∧ r_status r = drainAndStatus (j_serve j q) ∧
  (r_operation r = OpRead → q_method q = GET ∧ key ∈ keys ∧ keys' = keys) ∧
  (r_operation r = OpWrite → q_method q = POST) ∧
  zlen keys' ≤ maxKeysPerWorker ∧ ∀ k, k ∈ keys' → written (past ++ [(key, (q, r))]) k.
Proof.
  intros HI Hlen Hkeys. unfold worker_step. cbv zeta.
  set (key := "key-" +:+ _). set (w := doPost target key j).
  set (keys1 := if ok_status _ then _ else keys).
  assert (Hold : ∀ x k, k ∈ keys → written (past ++ [x]) k).
  { intros x k (q & r & Hin & ? & ?)%Hkeys. exists q, r. split; [|done]. apply elem_of_app. by left. }
  assert (Hwrite : let '(key, (q, r), keys') := (key, w, keys1) in
    q_url q = key_url target key ∧ r_status r = drainAndStatus (j_serve j q) ∧
    (r_operation r = OpRead → q_method q = GET ∧ key ∈ keys ∧ keys' = keys) ∧
    (r_operation r = OpWrite → q_method q = POST) ∧
    zlen keys' ≤ maxKeysPerWorker ∧ ∀ k, k ∈ keys' → written (past ++ [(key, (q, r))]) k).
  { unfold w, doPost in *. split_and!; try done; unfold keys1.
    - unfold maxKeysPerWorker in *. destruct (ok_status _); [|done]. destruct (100 <? _) eqn:E; zbool; [|lia].
      rewrite zlen_drop by (unfold zlen in *; rewrite length_app in *; simpl in *; lia). rewrite zlen_app.
      change (zlen [key]) with 1. lia.
    - intros k Hk. destruct (ok_status _) eqn:Eo; [|by apply Hold].
      assert (Hk' : k ∈ keys ++ [key]).
      { destruct (_ <? _); [|done]. apply list_elem_of_lookup in Hk as [i Hi]. rewrite lookup_drop in Hi.
        by apply list_elem_of_lookup_2 in Hi. }
      apply elem_of_app in Hk' as [?|Hk']; [by apply Hold|].
      apply list_elem_of_singleton in Hk' as ->. eexists _, _. split; [apply elem_of_app; right; by left|done]. }
  destruct (_ && _) eqn:E; [|exact Hwrite]. zbool.
  destruct (HI (zlen keys)) as [? ?]; [done|].
  destruct (keys !! Z.to_nat (j_Intn j (zlen keys))) as [k|] eqn:Ek; [|exact Hwrite].
  apply list_elem_of_lookup_2 in Ek. unfold doGet. split_and!; try done. intros k' Hk'. by apply Hold.
Qed.

(** A worker makes one request per job, keeps at most 100 keys, and only
    reads keys it has written before with a 2xx answer, so a read never asks
    for a key the store was not given. *)
Theorem worker_reads_own_writes id target readPct jobs :
  Forall Intn_ok jobs →
  let out := runWorker id target readPct [] jobs in
  length out = length jobs ∧
  ∀ i key q r, out !! i = Some (key, (q, r)) →
    q_url q = key_url target key ∧
    match r_operation r with
    | OpWrite => q_method q = POST
    | OpRead => q_method q = GET ∧ written (take i out) key
    end.
Proof.
  intros HI. cbv zeta.
  assert (Hgen : ∀ keys past, zlen keys ≤ maxKeysPerWorker → (∀ k, k ∈ keys → written past k) →
    length (runWorker id target readPct keys jobs) = length jobs ∧
    ∀ i key q r, runWorker id target readPct keys jobs !! i = Some (key, (q, r)) →
      q_url q = key_url target key ∧
      match r_operation r with
      | OpWrite => q_method q = POST
      | OpRead => q_method q = GET ∧ written (past ++ take i (runWorker id target readPct keys jobs)) key
      end).
  { induction HI as [|j jobs Hj _ IH]; intros keys past Hlen Hkeys; [done|]. cbn [runWorker].
    pose proof (worker_step_spec id target readPct keys j past Hj Hlen Hkeys) as Hs.
    destruct (worker_step id target readPct keys j) as [[key [q r]] keys'].
    destruct Hs as (S1 & _ & S2 & S3 & S4 & S5).
    destruct (IH keys' (past ++ [(key, (q, r))]) S4 S5) as [L1 L2]. split; [simpl; by rewrite L1|].
    intros [|i] key2 q2 r2; cbn [lookup list_lookup].
    - intros [= <- <- <-]. split; [done|]. destruct (r_operation r); [|by apply S3].
      destruct (S2 eq_refl) as (? & Hk & _). split; [done|]. rewrite take_0, app_nil_r. by apply Hkeys.
    - intros Hi. destruct (L2 i key2 q2 r2 Hi) as [U1 U2]. split; [done|].
      destruct (r_operation r2); [|done]. destruct U2 as [? Hw]. split; [done|].
      cbn [take]. by rewrite <- app_assoc in Hw. }
  destruct (Hgen [] []) as [G1 G2]; [done|intros k Hk; by apply elem_of_nil in Hk|]. split; [done|].
  intros i key q r Hi. destruct (G2 i key q r Hi) as [U1 U2]. split; [done|].
  by destruct (r_operation r).
Qed.

(** ** The summary *)

Lemma split_results_spec all reads writes success :
  split_results all reads writes success =
    (success + zlen (filter (λ r, ok_status (r_status r) = true) all),
     reads ++ filter (λ r, is_read r = true) all, writes ++ filter (λ r, is_read r = false) all).
Proof.
  revert reads writes success. induction all as [|r all IH]; intros; cbn [split_results].
  { rewrite !filter_nil, !app_nil_r. by rewrite Z.add_0_r. }
  rewrite !filter_cons. destruct (is_read r) eqn:Er, (ok_status (r_status r)) eqn:Eo;
    rewrite IH; repeat case_decide; try congruence; rewrite <- ?app_assoc, ?zlen_cons; do 2 f_equal; lia.
Qed.

(** The index percentile uses is always in range. *)
Lemma rank_in_range n p : 0 < n → 0 ≤ rank n p < n.
Proof. intros Hn. unfold rank. cbv zeta. repeat case_match; zbool; lia. Qed.

(** Exact arithmetic. *)
Definition nearest_rank (n p : Z) : Z := (p * n + 99) / 100 - 1.

Definition rank_exact (n : nat) : bool :=
  forallb (λ p, rank (Z.of_nat n) (of_int p) =? nearest_rank (Z.of_nat n) p) [50; 95; 99].

Lemma rank_exact_1000 : forallb rank_exact (seq 1 1000) = true.
Proof. vm_compute. reflexivity. Qed.

(** For up to 1000 measurements, loadgen's default number of requests, the
    percentiles it prints are the nearest-rank ones: rounding in float64 does
    not move the index, and the index is never out of range. *)
Theorem percentile_nearest_rank (sorted : list float64) p :
  (1 ≤ length sorted ≤ 1000)%nat → p ∈ [50; 95; 99] →
  sorted !! Z.to_nat (nearest_rank (zlen sorted) p) = Some (percentile sorted (of_int p)).
Proof.
  intros Hn Hp. pose proof rank_exact_1000 as Hall. rewrite forallb_forall in Hall.
  assert (Hin : In (length sorted) (seq 1 1000)) by (apply in_seq; lia).
  specialize (Hall _ Hin). unfold rank_exact in Hall. rewrite forallb_forall in Hall.
  apply list_elem_of_In in Hp. specialize (Hall p Hp). apply Z.eqb_eq in Hall.
  fold (zlen sorted) in Hall. rewrite <- Hall.
  pose proof (rank_in_range (zlen sorted) (of_int p)) as Hr.
  destruct (lookup_lt_is_Some_2 sorted (Z.to_nat (rank (zlen sorted) (of_int p)))) as [y Hy].
  { unfold zlen in *. lia. }
  unfold percentile. destruct sorted as [|x l]; [simpl in Hn; lia|]. by rewrite Hy.
Qed.

End Loadgen.
