(* ===== verification/LoadgenPool.v ===== *)
(** * cmd/loadgen: the worker pool, the CSV file and the printed summary

    main fills a channel with the jobs, starts the workers, waits for them and
    collects what they sent.  The pool is a transition system in which any
    worker may go next.  encoding/csv's writer and strconv.FormatFloat are
    written out; the text of a timestamp depends on the local time zone and
    is an argument. *)

From Stdlib Require Import Strings.Byte Ascii SpecFloat.
From S2P Require Import Prelude SnapshotFile Loadgen.
Import SnapshotFile Loadgen.

Module LoadgenPool.

(** ** The pool *)

Inductive WState : Type := WIdle | WTaken | WDone.

Record Worker : Type := MkWorker { wk_state : WState; wk_keys : list string }.

(** The jobs still in the channel, the workers, and what is in resultsCh with
    the worker that sent it. *)
Record WorkerPool : Type := MkPool {
  pl_jobs : nat;
  pl_workers : list Worker;
  pl_results : list (nat * (string * (Request * Result)))
}.

Definition start_pool (requests concurrency : nat) : WorkerPool :=
  MkPool requests (replicate concurrency (MkWorker WIdle [])) [].

(** main up to the workers: an error message and exit code 1, or the pool. *)
Definition main (requests concurrency readPct : Z) : string + WorkerPool :=
  match check_flags requests concurrency readPct with
  | Some msg => inl msg
  | None => inr (start_pool (Z.to_nat requests) (Z.to_nat concurrency))
  end.

Section pool.
Variables (target : string) (readPct : Z).

(** [for range jobs]: take a job; handle it and send the result; leave when
    the channel is closed and empty. *)
Inductive pool_step : WorkerPool → WorkerPool → Prop :=
| pool_take w ks jobs ws rs :
    ws !! w = Some (MkWorker WIdle ks) →
    pool_step (MkPool (S jobs) ws rs) (MkPool jobs (<[w := MkWorker WTaken ks]> ws) rs)
| pool_finish w ks jobs ws rs j key r ks' :
    ws !! w = Some (MkWorker WTaken ks) → worker_step (Z.of_nat w) target readPct ks j = (key, r, ks') →
    pool_step (MkPool jobs ws rs) (MkPool jobs (<[w := MkWorker WIdle ks']> ws) (rs ++ [(w, (key, r))]))
| pool_exit w ks ws rs :
    ws !! w = Some (MkWorker WIdle ks) →
    pool_step (MkPool 0 ws rs) (MkPool 0 (<[w := MkWorker WDone ks]> ws) rs).

Inductive pool_steps : nat → WorkerPool → WorkerPool → Prop :=
| pool_refl p : pool_steps 0 p p
| pool_more k p p' p'' : pool_steps k p p' → pool_step p' p'' → pool_steps (S k) p p''.

(** wg.Wait() returns. *)
Definition all_done (p : WorkerPool) : Prop := Forall (λ w, wk_state w = WDone) (pl_workers p).

Definition weight (w : Worker) : nat :=
  match wk_state w with WIdle => 1 | WTaken => 2 | WDone => 0 end.
Definition busy (w : Worker) : nat := match wk_state w with WTaken => 1 | _ => 0 end.

Definition total (f : Worker → nat) (ws : list Worker) : nat := sum_list_with f ws.

Lemma total_insert f ws w x y :
  ws !! w = Some x → (total f (<[w := y]> ws) + f x = total f ws + f y)%nat.
Proof.
  unfold total. revert w. induction ws as [|z ws IH]; intros [|w] Hw; try done; simpl in *.
  - simplify_eq. lia.
  - specialize (IH w Hw). lia.
Qed.

(** What is left to do. *)
Definition left (p : WorkerPool) : nat := (2 * pl_jobs p + total weight (pl_workers p))%nat.

Lemma pool_step_left p p' : pool_step p p' → left p = S (left p').
Proof.
  intros Hs. unfold left. destruct Hs as [w ks jobs ws rs Hw|w ks jobs ws rs j key r ks' Hw _|w ks ws rs Hw]; simpl;
    pose proof (total_insert weight ws w _ (MkWorker WTaken ks) Hw) as H1;
    pose proof (total_insert weight ws w _ (MkWorker WDone ks) Hw) as H2.
  - cbn [weight busy wk_state] in *. lia.
  - pose proof (total_insert weight ws w _ (MkWorker WIdle ks') Hw) as H3. cbn [weight busy wk_state] in *. lia.
  - cbn [weight busy wk_state] in *. lia.
Qed.

(** Every job is in the channel, with a worker, or has a result. *)
Lemma pool_step_jobs p p' :
  pool_step p p' →
  (pl_jobs p' + total busy (pl_workers p') + length (pl_results p') =
   pl_jobs p + total busy (pl_workers p) + length (pl_results p))%nat.
Proof.
  intros Hs. destruct Hs as [w ks jobs ws rs Hw|w ks jobs ws rs j key r ks' Hw _|w ks ws rs Hw]; simpl.
  - pose proof (total_insert busy ws w _ (MkWorker WTaken ks) Hw). cbn [weight busy wk_state] in *. lia.
  - pose proof (total_insert busy ws w _ (MkWorker WIdle ks') Hw). rewrite length_app. cbn [length weight busy wk_state] in *. lia.
  - pose proof (total_insert busy ws w _ (MkWorker WDone ks) Hw). cbn [weight busy wk_state] in *. lia.
Qed.

Lemma total_replicate f n x : total f (replicate n x) = (n * f x)%nat.
Proof. unfold total. induction n as [|n IH]; [done|]. simpl. rewrite IH. lia. Qed.

Lemma pool_steps_count k p p' : pool_steps k p p' → (left p = k + left p')%nat.
Proof.
  induction 1 as [|k p p' p'' _ IH Hs]; [done|]. pose proof (pool_step_left _ _ Hs). lia.
Qed.

Lemma pool_steps_jobs k p p' :
  pool_steps k p p' →
  (pl_jobs p' + total busy (pl_workers p') + length (pl_results p') =
   pl_jobs p + total busy (pl_workers p) + length (pl_results p))%nat.
Proof.
  induction 1 as [|k p p' p'' _ IH Hs]; [done|]. pose proof (pool_step_jobs _ _ Hs). lia.
Qed.

Lemma total_done f ws : Forall (λ w, wk_state w = WDone) ws → (∀ ks, f (MkWorker WDone ks) = 0%nat) → total f ws = 0%nat.
Proof.
  intros Hd Hf. unfold total. induction Hd as [|[st ks] ws Hst _ IH]; [done|]. simpl in *. subst st. by rewrite Hf, IH.
Qed.

(** Nothing gets stuck: as long as a worker has not returned, some step is
    possible, whatever the world does. *)
Lemma pool_progress (j : Job) p : ¬ all_done p → ∃ p', pool_step p p'.
Proof.
  intros Hn. destruct p as [jobs ws rs]. unfold all_done in Hn. simpl in Hn.
  apply not_Forall_Exists in Hn; [|intros w; solve_decision].
  apply Exists_exists in Hn as ([st ks] & [w Hw]%list_elem_of_lookup & Hst). destruct st; [| |exfalso; by apply Hst].
  - destruct jobs; eexists; by econstructor.
  - destruct (worker_step (Z.of_nat w) target readPct ks j) as [[key r] ks'] eqn:E. eexists. by eapply pool_finish.
Qed.

Lemma pool_steps_workers k p p' : pool_steps k p p' → length (pl_workers p') = length (pl_workers p).
Proof.
  induction 1 as [|k p p' p'' _ IH Hs]; [done|]. rewrite <- IH. destruct Hs; simpl; by rewrite length_insert.
Qed.

(** A worker leaves only when no job is left. *)
Definition left_late (p : WorkerPool) : Prop := Exists (λ w, wk_state w = WDone) (pl_workers p) → pl_jobs p = 0%nat.

Lemma pool_steps_late k p p' : pool_steps k p p' → left_late p → left_late p'.
Proof.
  unfold left_late. induction 1 as [|k p p' p'' _ IH Hs]; [done|]. intros Hp. specialize (IH Hp).
  rewrite !Exists_exists in *.
  destruct Hs as [w ks jobs ws rs Hw|w ks jobs ws rs j key r ks' Hw _|w ks ws rs Hw]; simpl in *; try done;
    intros (x & [y Hy]%list_elem_of_lookup & Hx); apply list_lookup_insert_Some in Hy as [(-> & <- & _)|[_ Hy]]; try done.
  - exfalso. assert (S jobs = 0%nat); [|done]. apply IH. exists x. split; [|done]. by eapply list_elem_of_lookup_2.
  - apply IH. exists x. split; [|done]. by eapply list_elem_of_lookup_2.
Qed.

(** In every interleaving the pool is finished after exactly
    2 * requests + concurrency steps; until then the result channel, of
    capacity [requests], never overflows, and at the end it holds exactly one
    result per request. *)
Theorem pool_serves_every_job requests concurrency k p :
  pool_steps k (start_pool requests concurrency) p →
  (length (pl_results p) ≤ requests)%nat ∧ (k ≤ 2 * requests + concurrency)%nat ∧
  (all_done p → (0 < concurrency)%nat → k = (2 * requests + concurrency)%nat ∧ length (pl_results p) = requests).
Proof.
  intros Hs. pose proof (pool_steps_count _ _ _ Hs) as Hc. pose proof (pool_steps_jobs _ _ _ Hs) as Hj.
  unfold left, start_pool in *. simpl in *. rewrite total_replicate in Hc, Hj.
  cbn [weight busy wk_state] in *.
  split; [lia|]. split; [lia|]. intros Hd Hpos.
  assert (Hlate : left_late p).
  { eapply pool_steps_late; [exact Hs|]. unfold left_late. simpl. intros (x & Hx & Ht)%Exists_exists.
    apply elem_of_replicate in Hx as [-> _]. done. }
  unfold all_done in Hd. rewrite !(total_done _ _ Hd) in * by done.
  assert (Hj0 : pl_jobs p = 0%nat).
  { apply Hlate. pose proof (pool_steps_workers _ _ _ Hs) as Hl. simpl in Hl. rewrite length_replicate in Hl.
    destruct (pl_workers p) as [|w ws]; [simpl in Hl; lia|]. apply Forall_cons in Hd as [Hd _]. by constructor. }
  lia.
Qed.

End pool.

(** ** encoding/csv *)

Definition comma : ascii := ","%char.
Definition quote : ascii := ascii_of_nat 34.
Definition newline : ascii := ascii_of_nat 10.

Definition is_space (c : ascii) : bool :=
  let k := N_of_ascii c in ((9 <=? k)%N && (k <=? 13)%N) || (k =? 32)%N.

(** The bytes that force quotes. *)
Definition special (c : ascii) : bool :=
  bool_decide (c ∈ [comma; quote; newline; ascii_of_nat 13]).

Definition fieldNeedsQuotes (field : list ascii) : bool :=
  match field with
  | [] => false
  | c :: _ =>
      bool_decide (field = ["\"%char; "."%char]) || existsb special field || is_space c
  end.

Fixpoint quoted (field : list ascii) : list ascii :=
  match field with
  | [] => [quote]
  | c :: rest => if decide (c = quote) then quote :: quote :: quoted rest else c :: quoted rest
  end.

Definition csv_field (field : list ascii) : list ascii :=
  if fieldNeedsQuotes field then quote :: quoted field else field.

Fixpoint csv_rest (fields : list (list ascii)) : list ascii :=
  match fields with
  | [] => [newline]
  | f :: fs => comma :: csv_field f ++ csv_rest fs
  end.

(** Writer.Write *)
Definition csv_record (fields : list (list ascii)) : list ascii :=
  match fields with
  | [] => [newline]
  | f :: fs => csv_field f ++ csv_rest fs
  end.

(** A reader for what the writer produces, as the comparison scripts need it:
    the rest of an unquoted field, the rest of a quoted one, and the fields
    of one record. *)
Fixpoint read_plain (s acc : list ascii) : option (list ascii * bool * list ascii) :=
  match s with
  | [] => None
  | c :: rest =>
      if decide (c = comma) then Some (acc, true, rest)
      else if decide (c = newline) then Some (acc, false, rest)
      else read_plain rest (acc ++ [c])
  end.

Fixpoint read_quoted (s acc : list ascii) : option (list ascii * bool * list ascii) :=
  match s with
  | [] => None
  | c :: rest =>
      if decide (c = quote) then
        match rest with
        | [] => None
        | c' :: rest' =>
            if decide (c' = quote) then read_quoted rest' (acc ++ [quote])
            else if decide (c' = comma) then Some (acc, true, rest')
            else if decide (c' = newline) then Some (acc, false, rest') else None
        end
      else read_quoted rest (acc ++ [c])
  end.

Definition read_field (s : list ascii) : option (list ascii * bool * list ascii) :=
  match s with
  | c :: rest => if decide (c = quote) then read_quoted rest [] else read_plain s []
  | [] => None
  end.

Fixpoint read_record (fuel : nat) (s : list ascii) : option (list (list ascii) * list ascii) :=
  match fuel with
  | O => None
  | S fuel =>
      match read_field s with
      | None => None
      | Some (f, false, rest) => Some ([f], rest)
      | Some (f, true, rest) => '(fs, rest) ← read_record fuel rest; Some (f :: fs, rest)
      end
  end.

Lemma read_plain_spec f acc more sep rest :
  Forall (λ c, special c = false) f →
  sep = (if more : bool then comma else newline) →
  read_plain (f ++ sep :: rest) acc = Some (acc ++ f, more, rest).
Proof.
  intros Hf ->. revert acc. induction Hf as [|c f Hc _ IH]; intros acc; simpl.
  - rewrite app_nil_r. by destruct more.
  - unfold special in Hc. apply bool_decide_eq_false in Hc. rewrite !decide_False by set_solver.
    rewrite IH, <- app_assoc. done.
Qed.

Lemma read_quoted_spec f acc more sep rest :
  sep = (if more : bool then comma else newline) →
  read_quoted (quoted f ++ sep :: rest) acc = Some (acc ++ f, more, rest).
Proof.
  intros ->. revert acc. induction f as [|c f IH]; intros acc; cbn [quoted].
  - rewrite app_nil_r. by destruct more.
  - destruct (decide (c = quote)) as [->|Hc].
    + cbn [app read_quoted]. rewrite decide_True by done. rewrite decide_True by done.
      rewrite IH, <- app_assoc. done.
    + cbn [app read_quoted]. rewrite decide_False by done. rewrite IH, <- app_assoc. done.
Qed.

Lemma read_field_spec f more sep rest :
  sep = (if more : bool then comma else newline) →
  read_field (csv_field f ++ sep :: rest) = Some (f, more, rest).
Proof.
  intros Hs. unfold csv_field. destruct (fieldNeedsQuotes f) eqn:E.
  - cbn [app read_field]. rewrite decide_True by done. by apply (read_quoted_spec f []).
  - assert (Hf : Forall (λ c, special c = false) f).
    { destruct f as [|c f]; [done|]. cbn [fieldNeedsQuotes] in E. apply orb_false_iff in E as [[_ E]%orb_false_iff _].
      apply Forall_forall. intros x Hx. apply not_true_iff_false. intros Hx'. apply not_true_iff_false in E. apply E.
      apply existsb_exists. exists x. split; [by apply list_elem_of_In|done]. }
    replace (read_field (f ++ sep :: rest)) with (read_plain (f ++ sep :: rest) []).
    { by apply (read_plain_spec f []). }
    destruct f as [|c f]; simpl.
    + subst sep. by destruct more.
    + apply Forall_cons in Hf as [Hc _]. unfold special in Hc. apply bool_decide_eq_false in Hc.
      rewrite (decide_False (P := c = quote)) by set_solver. done.
Qed.

Lemma read_record_S fuel s :
  read_record (S fuel) s =
  match read_field s with
  | None => None
  | Some (f, false, rest) => Some ([f], rest)
  | Some (f, true, rest) => '(fs, rest) ← read_record fuel rest; Some (f :: fs, rest)
  end.
Proof. done. Qed.

(** A record reads back as the fields that were written, whatever they
    contain, and leaves the rest of the file. *)
Theorem csv_roundtrip f fs rest :
  read_record (S (length fs)) (csv_record (f :: fs) ++ rest) = Some (f :: fs, rest).
Proof.
  revert f. induction fs as [|g fs IH]; intros f; unfold csv_record; cbn [csv_rest]; rewrite <- app_assoc; cbn [app length].
  - cbn [read_record]. by rewrite (read_field_spec f false).
  - specialize (IH g). unfold csv_record in IH. rewrite read_record_S, (read_field_spec f true) by done.
    by rewrite IH.
Qed.

(** ** Numbers as text *)

Definition Itoa (z : Z) : string := if z <? 0 then "-" +:+ format_uint (- z) else format_uint z.

(** n * 2^e as an integer, halves to the even neighbour. *)
Definition round_even (n e : Z) : Z :=
  if 0 <=? e then n * 2 ^ e else
  let d := 2 ^ (- e) in
  let q := n / d in
  let r := n mod d in
  if (d <? 2 * r) || ((d =? 2 * r) && Z.odd q) then q + 1 else q.

Definition zeros (k : nat) : string := String.concat "" (replicate k "0").

(** q units of 10^-prec, with all [prec] decimals. *)
Definition fixed (prec : nat) (q : Z) : string :=
  let frac := format_uint (q mod 10 ^ Z.of_nat prec) in
  format_uint (q / 10 ^ Z.of_nat prec) +:+ "." +:+ zeros (prec - String.length frac) +:+ frac.

(** strconv.FormatFloat(x, 'f', prec, 64), prec > 0 *)
Definition FormatFloat (x : float64) (prec : nat) : string :=
  let sign (neg : bool) := if neg then "-" else "" in
  match x with
  | S754_zero neg => sign neg +:+ fixed prec 0
  | S754_finite neg m e => sign neg +:+ fixed prec (round_even (Z.pos m * 10 ^ Z.of_nat prec) e)
  | S754_infinity neg => if neg then "-Inf" else "+Inf"
  | S754_nan => "NaN"
  end.

(** The digits are those of the nearest number with [prec] decimals. *)
Lemma round_even_nearest n e : 0 ≤ n → e < 0 → 2 * Z.abs (round_even n e * 2 ^ (- e) - n) ≤ 2 ^ (- e).
Proof.
  intros Hn He. unfold round_even. rewrite (proj2 (Z.leb_gt 0 e)) by done. cbv zeta.
  set (d := 2 ^ (- e)). assert (Hd : 0 < d) by (apply Z.pow_pos_nonneg; lia).
  pose proof (Z.div_mod n d ltac:(lia)) as HE. pose proof (Z.mod_pos_bound n d Hd) as Hm.
  set (q := n / d) in *. set (r := n mod d) in *.
  destruct (d <? 2 * r) eqn:E1; cbn [orb]; zbool; [nia|].
  destruct (_ && _) eqn:E2; [apply andb_true_iff in E2 as [E2 _]; zbool; nia|nia].
Qed.

Example FormatFloat_examples :
  FormatFloat (msFloat 1234567) 3 = "1.234" ∧ FormatFloat (msFloat 250000000) 3 = "250.000" ∧
  FormatFloat (fdiv (of_int 1) (of_int 8)) 2 = "0.12" ∧ FormatFloat (fdiv (of_int 3) (of_int 8)) 2 = "0.38" ∧
  FormatFloat (of_int 100) 2 = "100.00" ∧ FormatFloat (msFloat 50000) 3 = "0.050".
Proof. by vm_compute. Qed.

(** ** The results file and the printed summary *)

Definition operation_text (op : Operation) : string := match op with OpRead => "read" | OpWrite => "write" end.

Section output.
Variable (rfc3339 : Z → string).

Definition csv_header : list string := ["timestamp"; "operation"; "status_code"; "latency_ms"].

Definition csv_row (r : Result) : list string :=
  [rfc3339 (r_timestamp r); operation_text (r_operation r); Itoa (r_status r); FormatFloat (r_latencyMs r) 3].

Definition csv_contents (all : list Result) : list ascii :=
  concat (map (λ row, csv_record (map String.list_ascii_of_string row)) (csv_header :: map csv_row all)).

(** The calls of writeCSV that can fail: MkdirAll, Create and the buffered
    writes, whose error is reported by the last Flush at the latest. *)
Record CsvIO : Type := MkCsvIO { io_mkdir : bool; io_create : bool; io_write : bool }.

(** The path and, when it was created, the file; [stamp] is the formatted time
    in the name. *)
Definition writeCSV (stamp : string) (io : CsvIO) (all : list Result) : result (string * list ascii) :=
  if negb (io_mkdir io) then Err (ErrMsg "create experiments/scalability") else
  let path := "experiments/scalability/results-" +:+ stamp +:+ ".csv" in
  if negb (io_create io) then Err (ErrMsg "create file") else
  if negb (io_write io) then Err (ErrMsg "write") else Ok (path, csv_contents all).

Definition nl : string := String newline EmptyString.

Definition printLatencyStats (label : string) (st : option Stats) : string :=
  match st with
  | None => label +:+ ": no requests" +:+ nl
  | Some s =>
      label +:+ " (n=" +:+ Itoa (st_n s) +:+ "): p50=" +:+ FormatFloat (st_p50 s) 2 +:+ "ms  p95=" +:+
        FormatFloat (st_p95 s) 2 +:+ "ms  p99=" +:+ FormatFloat (st_p99 s) 2 +:+ "ms" +:+ nl
  end.

Definition success_rate (su : Summary) : float64 :=
  fdiv (fmul (of_int 100) (of_int (su_success su))) (of_int (su_total su)).

Definition printSummary (all : list Result) : string :=
  let su := summarize all in
  "Total requests: " +:+ Itoa (su_total su) +:+ nl +:+
  (if 0 <? su_total su then "Success rate (2xx): " +:+ FormatFloat (success_rate su) 2 +:+ "%" +:+ nl else "") +:+
  nl +:+ printLatencyStats "Read " (su_reads su) +:+ printLatencyStats "Write" (su_writes su).

(** main once the workers are done: exit code, file written and output. *)
Definition finish (stamp : string) (io : CsvIO) (p : WorkerPool) : Z * option (string * list ascii) * string :=
  let all := map (λ x, x.2.2.2) (pl_results p) in
  match writeCSV stamp io all with
  | Err _ => (1, None, "")
  | Ok (path, contents) =>
      (0, Some (path, contents), printSummary all +:+ nl +:+ "Raw results written to " +:+ path +:+ nl)
  end.

Fixpoint read_file (n : nat) (s : list ascii) : option (list (list (list ascii))) :=
  match n with
  | O => match s with [] => Some [] | _ => None end
  | S n => '(row, rest) ← read_record 4 s; rows ← read_file n rest; Some (row :: rows)
  end.

(** The file of a finished run: a header and one line of four columns per
    request, which read back as written. *)
Theorem results_file_complete target readPct requests concurrency k p stamp io code path contents out :
  (0 < concurrency)%nat → pool_steps target readPct k (start_pool requests concurrency) p → all_done p →
  finish stamp io p = (code, Some (path, contents), out) →
  code = 0 ∧ ∃ rows, read_file (S requests) contents = Some (map String.list_ascii_of_string csv_header :: rows) ∧
    length rows = requests ∧
    rows = map (λ x, map String.list_ascii_of_string (csv_row x.2.2.2)) (pl_results p).
Proof.
  intros Hc Hs Hd. destruct (pool_serves_every_job _ _ _ _ _ _ Hs) as (_ & _ & Hend).
  destruct (Hend Hd Hc) as [_ Hlen]. unfold finish, writeCSV.
  destruct (negb _); [done|]. destruct (negb _); [done|]. destruct (negb _); [done|]. intros [= <- <- <- <-].
  split; [done|]. eexists. split; [|split; [|reflexivity]]; [|by rewrite length_map].
  rewrite <- Hlen. unfold csv_contents.
  assert (Hgen : ∀ rs rest, rest = [] → read_file (length rs)
    (concat (map (λ row, csv_record (map String.list_ascii_of_string row)) (map csv_row rs)) ++ rest) =
    Some (map (λ r, map String.list_ascii_of_string (csv_row r)) rs)).
  { induction rs as [|r rs IH]; intros rest Hr; [by subst rest|]. cbn [map concat length read_file].
    rewrite <- app_assoc. unfold csv_row at 1. cbn [map]. rewrite (csv_roundtrip _ [_; _; _]). cbn [mbind option_bind].
    rewrite IH by done. done. }
  specialize (Hgen (map (λ x, x.2.2.2) (pl_results p)) [] eq_refl). rewrite length_map, app_nil_r in Hgen.
  cbn [map concat read_file]. unfold csv_header at 1. cbn [map]. rewrite (csv_roundtrip _ [_; _; _]).
  cbn [mbind option_bind]. rewrite Hgen. cbn [mbind option_bind]. by rewrite map_map.
Qed.

End output.

End LoadgenPool.
