(* ===== verification/Commands.v ===== *)
(** * The commands: what each process does until it serves

    The main functions of cmd/consensus-node, cmd/snapshot-backup,
    cmd/discovery and cmd/client-proxy up to the point where the server runs.
    log.Fatal is an error; what was done to disk and
    connections before it stays done.  [listen] is what net.Listen answers. *)

From Stdlib Require Import Strings.Byte Ascii.
From S2P Require Import Prelude Pb Fs Persistence SnapshotFile Codecs Storage RaftNode RaftLog.
From S2P Require Import RaftCommit RaftVotes RaftCompaction RaftCluster RaftSafety KV SnapshotService.
From S2P Require Import GrpcClients CircuitBreaker Proxy Discovery Config RaftExamples Examples.
Import SnapshotFile GrpcClients.

Module Commands.

(** ** path/filepath *)

Fixpoint split_slash (s : string) : list string :=
  match s with
  | EmptyString => [EmptyString]
  | String c rest =>
      if decide (c = "/"%char) then EmptyString :: split_slash rest
      else match split_slash rest with
           | w :: ws => String c w :: ws
           | [] => [String c EmptyString]
           end
  end.

Definition rooted (s : string) : bool :=
  match s with String c _ => bool_decide (c = "/"%char) | EmptyString => false end.

(** One path element onto the (reversed) result. *)
Definition clean_step (root : bool) (out : list string) (w : string) : list string :=
  if bool_decide (w = "") || bool_decide (w = ".") then out
  else if bool_decide (w = "..") then
    match out with
    | x :: rest => if bool_decide (x = "..") then ".." :: out else rest
    | [] => if root then [] else [".."]
    end
  else w :: out.

Definition Clean (path : string) : string :=
  let root := rooted path in
  let out := reverse (foldl (clean_step root) [] (split_slash path)) in
  let body := String.concat "/" out in
  if root then "/" +:+ body else if bool_decide (body = "") then "." else body.

Definition Join (elems : list string) : string :=
  match filter (λ e, e ≠ "") elems with
  | [] => ""
  | es => Clean (String.concat "/" es)
  end.

Definition or_default (v def : string) : string := if decide (v = "") then def else v.

Section commands.
Context `{CC : Codec KVCommand} `{GF : Codec File} {D : Type} `{Storage D}.
Context {G : Type} `{GR : GRPC G} `{SB : !Stubs G}.

#[local] Notation Boot := (GoM (D * G)).

Definition onDisk {A} (m : GoM D A) : Boot A := λ '(d, g), let '(r, d') := m d in (r, (d', g)).
Definition onNet {A} (m : GoM G A) : Boot A := λ '(d, g), let '(r, g') := m g in (r, (d, g')).

(** [net.Listen("tcp", ":"+port)] *)
Definition Listen (listen : string → option goerr) (port : string) : Boot unit :=
  match listen (":" +:+ port) with Some e => gfail e | None => mret tt end.

Definition require_some {A} (msg : string) (x : option A) : Boot A :=
  match x with Some a => mret a | None => gfail (ErrMsg msg) end.

Definition require_set (msg v : string) : Boot unit :=
  if decide (v = "") then gfail (ErrMsg msg) else mret tt.

(** ** cmd/consensus-node *)

Record ConsensusProcess : Type := MkConsensusProcess {
  cp_node : Node KV;
  cp_transport : Pool;
  cp_catalog : CatalogClient;
  cp_port : string
}.

(** The map before the node is built. *)
Definition restored (found : option (File * Path)) : KV :=
  match found with Some (file, _) => Restore (f_State file) New | None => New end.

Definition consensus_cfg (vars : Environ) (timing : TimingConfig) (snapshotCfg : SnapshotConfig)
    (found : option (File * Path)) : RaftNode.Config KV :=
  let nodeID := Getenv vars "NODE_ID" in
  let port := or_default (Getenv vars "CONSENSUS_PORT") "9000" in
  let dataDir := Join [or_default (Getenv vars "DATA_DIR") "/data"; nodeID] in
  let peersEnv := Getenv vars "PEERS" in
  let address := or_default (ownAddress peersEnv port) (":" +:+ port) in
  RaftNode.MkConfig nodeID address dataDir (peerAddresses peersEnv port) timing 0 0 snapshotCfg
    (fst <$> found) (restored found).

Definition consensus_main (vars : Environ) (env : Env) (listen : string → option goerr) :
    Boot ConsensusProcess :=
  let nodeID := Getenv vars "NODE_ID" in
  require_set "consensus-node: NODE_ID is required" nodeID;;
  let port := or_default (Getenv vars "CONSENSUS_PORT") "9000" in
  let dataDir := Join [or_default (Getenv vars "DATA_DIR") "/data"; nodeID] in
  timing ← require_some "invalid timing" (LoadTimingConfigFromEnv vars);
  snapshotCfg ← require_some "invalid snapshot settings" (LoadSnapshotConfigFromEnv vars);
  let transport := Transport_New [] in
  found ← onDisk (st_Latest dataDir);
  let snapshotAddr := Getenv vars "SNAPSHOT_ADDR" in
  require_set "consensus-node: SNAPSHOT_ADDR is required" snapshotAddr;;
  catalog ← onNet (CatalogClient_New snapshotAddr []);
  node ← onDisk (NewNode env (consensus_cfg vars timing snapshotCfg found));
  Listen listen port;;
  mret (MkConsensusProcess node transport catalog port).

(** ** cmd/snapshot-backup *)

Record BackupProcess : Type := MkBackupProcess {
  bp_store : SnapshotService.Store;
  bp_discovery : GRPCDiscoveryClient;
  bp_transfer : Pool;
  bp_cfg : SnapshotService.Config;
  bp_port : string
}.

Definition backup_main (vars : Environ) (listen : string → option goerr) : Boot BackupProcess :=
  let port := or_default (Getenv vars "SNAPSHOT_PORT") "8600" in
  let dataDir := or_default (Getenv vars "DATA_DIR") "/data" in
  let discoveryAddr := Getenv vars "DISCOVERY_ADDR" in
  require_set "snapshot-backup: DISCOVERY_ADDR is required" discoveryAddr;;
  cfg ← require_some "snapshot-backup: invalid settings" (SnapshotServiceConfig.LoadConfigFromEnv vars);
  store ← onDisk (SnapshotService.NewStore dataDir);
  disc ← onNet (Backup_NewGRPCDiscoveryClient discoveryAddr []);
  let transfer := NewGRPCTransferClient [] in
  Listen listen port;;
  mret (MkBackupProcess store disc transfer cfg port).

(** ** cmd/discovery *)

Record DiscoveryProcess : Type := MkDiscoveryProcess {
  dp_registry : Discovery.Registry;
  dp_prober : Pool;
  dp_port : string
}.

Definition discovery_main (vars : Environ) (listen : string → option goerr) : Boot DiscoveryProcess :=
  let port := or_default (Getenv vars "DISCOVERY_PORT") "8500" in
  cfg ← require_some "discovery: invalid settings" (DiscoveryConfig.LoadConfigFromEnv vars);
  let prober := NewGRPCProber [] in
  let reg := Discovery.NewRegistry (DiscoveryConfig.Peers cfg) in
  Listen listen port;;
  mret (MkDiscoveryProcess reg prober port).

(** ** cmd/client-proxy; its server listens in a goroutine of its own *)

Record ProxyProcess : Type := MkProxyProcess {
  pp_cfg : ProxyConfig.Config;
  pp_discovery : GRPCDiscoveryClient;
  pp_factory : Pool;
  pp_addr : string
}.

Definition proxy_main (vars : Environ) : Boot ProxyProcess :=
  let port := or_default (Getenv vars "HTTP_PORT") "8080" in
  let discoveryAddr := Getenv vars "DISCOVERY_ADDR" in
  require_set "client-proxy: DISCOVERY_ADDR is required" discoveryAddr;;
  cfg ← require_some "client-proxy: invalid settings" (ProxyConfig.LoadConfigFromEnv vars);
  disc ← onNet (NewGRPCDiscoveryClient discoveryAddr []);
  mret (MkProxyProcess cfg disc (NewGRPCClientFactory []) (":" +:+ port)).

(** ** A node that is started comes back *)

Lemma NewNode_machine env (cfg : RaftNode.Config KV) d n d' :
  NewNode env cfg d = (Ok n, d') → n_stateMachine n = cfg_StateMachine cfg.
Proof.
  unfold NewNode. cbv zeta. intros [([t v] & d1 & _ & E)|(e & _ & ?)]%bind_inv; [|done].
  apply bind_inv in E as [(log & d2 & _ & E)|(e & _ & ?)]; [|done].
  destruct (initial_log cfg log) as [[[lg lo] ap] sp]. by injection E as <- _.
Qed.

Context `{!VoteLaws D} `{!LogLaws D}.

Definition consensus_dir (vars : Environ) : string :=
  Join [or_default (Getenv vars "DATA_DIR") "/data"; Getenv vars "NODE_ID"].
Definition consensus_port (vars : Environ) : string := or_default (Getenv vars "CONSENSUS_PORT") "9000".

(** What a crash may have left for the node that starts again: its reading of
    log.dat gives the log [es] (an append that was torn is cut off, [rereads]),
    or, with a snapshot file, either that or its compacted form. *)
Definition crash_image (dir : string) (off : Z) (es : list LogEntry) (found : option (File * Path)) (d : D) : Prop :=
  match found with
  | None => rereads dir d es ∧ (es = [] → off = 0)
  | Some (file, _) => off < f_LastIncludedIndex file ≤ off + zlen es ∧
      (rereads dir d es ∨ rereads dir d (compacted off es file))
  end.

(** Settings and surroundings with which nothing stops the process. *)
Record startable (vars : Environ) (listen : string → option goerr) (g g' : G) catalog : Prop := {
  sb_id : Getenv vars "NODE_ID" ≠ "";
  sb_timing : is_Some (LoadTimingConfigFromEnv vars);
  sb_snapshot : is_Some (LoadSnapshotConfigFromEnv vars);
  sb_addr : Getenv vars "SNAPSHOT_ADDR" ≠ "";
  sb_dial : CatalogClient_New (Getenv vars "SNAPSHOT_ADDR") [] g = (Ok catalog, g');
  sb_listen : listen (":" +:+ consensus_port vars) = None
}.

Lemma consensus_main_run vars env listen d d1 g g' catalog timing snapCfg found n d' :
  startable vars listen g g' catalog →
  LoadTimingConfigFromEnv vars = Some timing → LoadSnapshotConfigFromEnv vars = Some snapCfg →
  st_Latest (consensus_dir vars) d = (Ok found, d1) →
  NewNode env (consensus_cfg vars timing snapCfg found) d1 = (Ok n, d') →
  consensus_main vars env listen (d, g) =
    (Ok (MkConsensusProcess n (Transport_New []) catalog (consensus_port vars)), (d', g')).
Proof.
  intros [S1 S2 S3 S4 S5 S6] ET ES EL EN. unfold consensus_main. cbv zeta.
  erewrite bind_Ok; [|unfold require_set; by rewrite decide_False]. rewrite ET, ES.
  do 2 (erewrite bind_Ok; [|reflexivity]).
  erewrite bind_Ok; [|unfold onDisk; fold (consensus_dir vars); rewrite EL; reflexivity].
  erewrite bind_Ok; [|unfold require_set; by rewrite decide_False].
  erewrite bind_Ok; [|unfold onNet; rewrite S5; reflexivity].
  erewrite bind_Ok; [|unfold onDisk; rewrite EN; reflexivity].
  fold (consensus_port vars). by erewrite bind_Ok; [|unfold Listen; rewrite S6].
Qed.

(** Where starting stops. *)
Lemma consensus_main_fails vars env listen d d' g g' catalog timing snapCfg e :
  startable vars listen g g' catalog →
  LoadTimingConfigFromEnv vars = Some timing → LoadSnapshotConfigFromEnv vars = Some snapCfg →
  (st_Latest (consensus_dir vars) d = (Err e, d') →
   consensus_main vars env listen (d, g) = (Err e, (d', g))) ∧
  (∀ found d1, st_Latest (consensus_dir vars) d = (Ok found, d1) →
   NewNode env (consensus_cfg vars timing snapCfg found) d1 = (Err e, d') →
   consensus_main vars env listen (d, g) = (Err e, (d', g'))).
Proof.
  intros [S1 S2 S3 S4 S5 S6] ET ES. unfold consensus_main. cbv zeta.
  erewrite bind_Ok; [|unfold require_set; by rewrite decide_False]. rewrite ET, ES.
  do 2 (erewrite bind_Ok; [|reflexivity]). split.
  - intros EL. by erewrite bind_Err; [|unfold onDisk; fold (consensus_dir vars); rewrite EL; reflexivity].
  - intros found d1 EL EN.
    erewrite bind_Ok; [|unfold onDisk; fold (consensus_dir vars); rewrite EL; reflexivity].
    erewrite bind_Ok; [|unfold require_set; by rewrite decide_False].
    erewrite bind_Ok; [|unfold onNet; rewrite S5; reflexivity].
    by erewrite bind_Err; [|unfold onDisk; rewrite EN; reflexivity].
Qed.

(** The node a process has come up with: the term and vote of state.json, the
    whole log, the map of the snapshot with everything up to it counted as
    applied, and, if its port occurs once in PEERS, that list as its address and
    peers. *)
Definition recovered (vars : Environ) (off : Z) (es : list LogEntry) (t : Z) (v : string)
    (found : option (File * Path)) (n : Node KV) : Prop :=
  log_wf n ∧ n_currentTerm n = t ∧ n_votedFor n = v ∧ n_role n = Follower ∧
  lastLogIndexLocked n = off + zlen es ∧
  match found with
  | None => n_log n = es ∧ n_stateMachine n = New
  | Some (file, _) => n_log n = compacted off es file ∧
      n_lastApplied n = f_LastIncludedIndex file ∧ kv_data (n_stateMachine n) = f_State file
  end ∧
  ∀ a, filter (is_own (consensus_port vars)) (entries (Getenv vars "PEERS")) = [a] → a ≠ "" →
    n_address n = a ∧ n_address n :: n_peers n ≡ₚ entries (Getenv vars "PEERS").

Lemma NewNode_recovers vars env timing snapCfg d d1 off es t v found :
  let cfg := consensus_cfg vars timing snapCfg found in
  wf_log off es → crash_image (consensus_dir vars) off es found d1 →
  st_LoadState (consensus_dir vars) d = (Ok (t, v), d1) →
  ∃ n d', NewNode env cfg d = (Ok n, d') ∧ recovered vars off es t v found n.
Proof.
  intros cfg Hw Hci HLs.
  destruct (restart_recovers env cfg d off es t v d1) as (n & d' & EN & Hlw & _ & _ & Ht & Hv & Hr & Hli & Hm); try done.
  { destruct found as [[file path]|]; exact Hci. }
  exists n, d'. split; [done|]. pose proof (NewNode_machine _ _ _ _ _ EN) as HM.
  destruct (boots_vote cfg d (n, d') (boots_up cfg env d n d' EN)) as (_ & _ & _ & Ea & _ & Ep & _ & _).
  cbn [fst] in *. unfold recovered. split_and!; try done.
  - unfold cfg, consensus_cfg in Hm, HM. cbn [cfg_LocalSnapshot cfg_StateMachine] in Hm, HM.
    destruct found as [[file path]|]; simpl in Hm; [|split; [apply Hm|exact HM]].
    split; [apply Hm|]. split; [apply Hm|]. rewrite HM. simpl. apply copy_map_id.
  - intros a Ha Hne. destruct (peers_partition _ _ _ Ha) as [E1 E2]. rewrite Ea, Ep.
    unfold cfg, consensus_cfg. cbn [cfg_Address cfg_Peers]. cbv zeta. fold (consensus_port vars).
    unfold or_default at 1 2. rewrite decide_False by (by rewrite E1). done.
Qed.

(** C24.  cmd/consensus-node restarted with valid settings.  If the newest
    snapshot file, state.json or log.dat cannot be read, the process ends with
    that error and does not come up (a temporary file left by a crash is such a
    case, leftover_tmp_blocks_start).  Otherwise it comes up, and if reading
    log.dat gives the log it had, cut where an append was torn, or the compacted
    form of it (the crash may have fallen between writing the snapshot and
    rewriting log.dat), then the node has the term and vote of state.json, that
    whole log, the map of the latest snapshot and everything up to it counted as
    applied; and if its port occurs once in PEERS, its address and peers are
    that list. *)
Theorem consensus_main_recovers vars env listen d g g' catalog :
  startable vars listen g g' catalog →
  let dir := consensus_dir vars in
  let started := consensus_main vars env listen (d, g) in
  match st_Latest dir d with
  | (Err e, d0) => started = (Err e, (d0, g))
  | (Ok found, d0) =>
      match st_LoadState dir d0 with
      | (Err e, d1) => started = (Err e, (d1, g'))
      | (Ok (t, v), d1) =>
          (∀ e d2, st_ReadAllLogEntries dir d1 = (Err e, d2) → started = (Err e, (d2, g'))) ∧
          (∀ es d2, st_ReadAllLogEntries dir d1 = (Ok es, d2) → ∃ p, started = (Ok p, (d2, g'))) ∧
          ∀ off es, wf_log off es → crash_image dir off es found d1 →
            ∃ p d', started = (Ok p, (d', g')) ∧ recovered vars off es t v found (cp_node p)
      end
  end.
Proof.
  intros HS dir started. pose proof HS as [_ [timing ET] [snapCfg ES] _ _ _].
  pose proof (λ d' e, consensus_main_fails vars env listen d d' g g' catalog timing snapCfg e HS ET ES) as HF.
  destruct (st_Latest dir d) as [[found|e] d0] eqn:EL; [|by apply HF].
  set (cfg := consensus_cfg vars timing snapCfg found).
  assert (HN : ∀ e d', NewNode env cfg d0 = (Err e, d') → started = (Err e, (d', g'))).
  { intros e d' EN. by eapply (proj2 (HF d' e)). }
  assert (HU : ∀ n d', NewNode env cfg d0 = (Ok n, d') →
    started = (Ok (MkConsensusProcess n (Transport_New []) catalog (consensus_port vars)), (d', g'))).
  { intros n d' EN. by eapply consensus_main_run. }
  destruct (st_LoadState dir d0) as [[[t v]|e] d1] eqn:Els.
  2:{ apply HN. unfold NewNode. cbv zeta. by erewrite bind_Err by exact Els. }
  split; [|split].
  - intros e d2 Er. apply HN. unfold NewNode. cbv zeta. go_step Els. by erewrite bind_Err by exact Er.
  - intros es d2 Er. destruct (NewNode_reads env cfg d0 t v d1 es d2 Els Er) as (n & EN & _).
    eexists. by apply HU.
  - intros off es Hw Hci. destruct (NewNode_recovers vars env timing snapCfg d0 d1 off es t v found Hw Hci Els)
      as (n & d' & EN & Hn). eexists _, d'. split; [by apply HU|done].
Qed.

End commands.

End Commands.

(** ** The node of Examples, crashed in an append after writing its snapshot *)

Import Persistence Commands Sim Concrete Trio.

#[local] Instance command_laws : LogLaws World := FileLogLaws state_codec_total.

Definition vars_a : Environ :=
  {["NODE_ID" := "data-a"; "DATA_DIR" := "."; "SNAPSHOT_ADDR" := "snap:8600";
    "PEERS" := "a:9000, b:9001, c:9002"]}.

(** The third entry's record breaks off after five bytes. *)
Definition torn_append : result unit * World := Eval vm_compute in
  AppendLogEntries "data-a" [MkLogEntry 1 3 cmd1]
    (arm [NoFault; NoFault; FailPartial 5] (st_WriteFile "data-a" snap2 La5.2).2).
Definition disk_a : World := Eval vm_compute in arm [] torn_append.2.
Definition found_a : option (File * Path) := Eval vm_compute in
  match (st_Latest "data-a" disk_a).1 with Ok f => f | Err _ => None end.

(** What reading log.dat gives: the two whole records. *)
Definition reread_a : result (list LogEntry) * World := Eval vm_compute in ReadAllLogEntries "data-a" disk_a.

Lemma rereads_a : rereads (consensus_dir vars_a) disk_a (n_log La5.1).
Proof.
  assert (Ed : consensus_dir vars_a = "data-a") by (vm_compute; reflexivity). rewrite Ed.
  exists reread_a.2. split; [vm_compute; reflexivity|]. split; [done|].
  split; [apply all_storable; by vm_compute|by vm_compute].
Qed.

Lemma consensus_main_recovers_witness :
  torn_append.1 = Err ErrIO ∧
  ∃ p d' g', consensus_main vars_a env (λ _, None) (disk_a, net0) = (Ok p, (d', g')) ∧
    n_currentTerm (cp_node p) = 1 ∧ n_lastApplied (cp_node p) = 2 ∧ lastLogIndexLocked (cp_node p) = 2 ∧
    n_address (cp_node p) = "a:9000".
Proof.
  assert (Hs : synced La5) by (apply synced_b_ok; by vm_compute). destruct Hs as (Hw & Hq & Hlg).
  assert (Hst : startable vars_a (λ _, None) net0 (MkNet [8; 7]%nat ["passthrough:///snap:8600"] (net_range net0))
    (MkCatalogClient (G := Net) 8%nat)).
  { split; [by vm_compute|eexists; vm_compute; reflexivity|eexists; vm_compute; reflexivity|by vm_compute
      |vm_compute; reflexivity|reflexivity]. }
  pose proof (consensus_main_recovers vars_a env (λ _, None) disk_a net0 _ _ Hst) as HR. cbv zeta in HR.
  assert (EL : st_Latest (consensus_dir vars_a) disk_a = (Ok found_a, disk_a)) by (vm_compute; reflexivity).
  assert (ES : st_LoadState (consensus_dir vars_a) disk_a = (Ok (1, "id-a"), disk_a)) by (vm_compute; reflexivity).
  rewrite EL, ES in HR. destruct HR as (_ & _ & HR).
  destruct (HR 0 (n_log La5.1) Hw) as (p & d' & E & _ & Ht & _ & _ & Hli & Hm & Ha).
  - unfold crash_image, found_a. split; [vm_compute; split; [reflexivity|discriminate]|]. left. exact rereads_a.
  - split; [vm_compute; reflexivity|]. exists p, d'. eexists. split; [exact E|]. split; [exact Ht|].
    split; [apply Hm|]. split; [rewrite Hli; vm_compute; reflexivity|].
    apply (Ha "a:9000"); [vm_compute; reflexivity|discriminate].
Defined.
