(* ===== verification/Shutdown.v ===== *)
(** * The commands while they serve, and how they end; snapshotdump

    The rest of the four main functions: which services each server offers,
    what runs beside it, and the deferred calls, last one first, after the
    signal.  What a process does with its clients while it serves is a list of
    calls; [order] is the order in which the runtime visits a connection map.
    The gRPC and HTTP servers themselves are libraries. *)

From Stdlib Require Import Strings.Byte Ascii.
From S2P Require Import Prelude Pb Fs Persistence SnapshotFile Codecs Storage RaftNode RaftElection.
From S2P Require Import RaftReplication RaftSnapshot RaftCluster RaftTickers KV SnapshotService.
From S2P Require Import GrpcClients CircuitBreaker Proxy Discovery EndToEnd Config RaftExamples Examples Commands.
Import SnapshotFile GrpcClients Commands.

Module Shutdown.

(** ** snapshotdump *)

Section dump.
Context `{GF : Codec File} (MarshalIndent : File → option string).

(** Exit code, standard output and standard error; [args] is os.Args[1:]. *)
Definition snapshotdump (args : list Path) : GoM World (Z * string * string) :=
  match args with
  | [path] =>
      r ← gtry (ReadFile path);
      match r with
      | Err _ => mret (1, "", "read error")
      | Ok snap =>
          match MarshalIndent snap with
          | None => mret (1, "", "JSON error")
          | Some out => mret (0, out, "")
          end
      end
  | _ => mret (1, "", "usage: snapshotdump <path-to-file.dat>")
  end.

(** A file the services have written is shown as it was written. *)
Lemma snapshotdump_shows wf dir file buf out (w : World) :
  CodecLaws File wf → wf file → no_faults w → Encode file = Some buf → MarshalIndent file = Some out →
  ∃ path w', WriteFile dir file w = (Ok path, w') ∧ snapshotdump [path] w' = (Ok (0, out, ""), w').
Proof.
  intros HL Hf Hw He Hm. destruct (WriteFile_quiet dir file buf w Hw He) as (w' & HW & Hw' & Hp & _).
  eexists _, w'. split; [exact HW|]. unfold snapshotdump, ReadFile.
  assert (HR : gtry (data ← os_ReadFile (dir, FileName (f_LastIncludedIndex file));
    match Decode data with None => gfail ErrDecode | Some f => mret f end) w' = (Ok (Ok file), w')).
  { unfold gtry. go_step (os_ReadFile_quiet _ _ _ Hw' Hp). unfold Decode. by rewrite (codec_roundtrip (T := File) _ _ Hf He). }
  go_step HR. by rewrite Hm.
Qed.
End dump.

(** The services registered with each server; grpc's health service reports
    SERVING for the empty service name in the first three. *)
Definition health_service : string := "grpc.health.v1.Health".
Definition consensus_services : list string := ["Consensus"; "KVService"; "SnapshotTransfer"; health_service].
Definition backup_services : list string := ["SnapshotCatalog"; health_service].
Definition discovery_services : list string := ["Discovery"; health_service].

Section lifecycle.
Context `{CC : Codec KVCommand} `{GF : Codec File} {D : Type} `{Storage D}.
Context {G : Type} `{GR : GRPC G} `{SB : !Stubs G}.

(** ** cmd/consensus-node *)

Record NodeServer : Type := MkNodeServer {
  ns_proc : Proc (SM := KV) (D := D);
  ns_transport : Pool;
  ns_catalog : CatalogClient;
  ns_net : G
}.

(** node.Start() and the serving goroutine. *)
Definition consensus_serve (now : Z) (cp : ConsensusProcess) (d : D) (g : G) : NodeServer :=
  MkNodeServer (Start (NewProc now true (cp_node cp, d))) (cp_transport cp) (cp_catalog cp) g.

(** GracefulStop has returned: stop(), node.Stop(), snapshotCatalog.Close(),
    transport.Close().  [None]: Stop panics. *)
Definition consensus_exit (order : list string) (ns : NodeServer) : option NodeServer :=
  p ← Stop (ns_proc ns);
  let g := (CatalogClient_Close (ns_catalog ns) (ns_net ns)).2 in
  let '(tr, g) := (Transport_Close order (ns_transport ns, g)).2 in
  Some (MkNodeServer p tr (ns_catalog ns) g).

(** ** cmd/snapshot-backup, cmd/client-proxy, cmd/discovery *)

(** transferClient.Close(), discoveryClient.Close() *)
Definition backup_exit (order : list string) (bp : BackupProcess) (s : Pool * G) : Pool * G :=
  let '(tr, g) := (Transfer_Close order s).2 in
  (tr, (Backup_DiscoveryClient_Close (bp_discovery bp) g).2).

(** factory.Close(), discClient.Close() *)
Definition proxy_exit (order : list string) (pp : ProxyProcess) (s : Pool * G) : Pool * G :=
  let '(f, g) := (Factory_Close order s).2 in
  (f, (DiscoveryClient_Close (pp_discovery pp) g).2).

(** prober.Close() *)
Definition discovery_exit (order : list string) (s : Pool * G) : Pool * G := (Prober_Close order s).2.

(** ** Nothing stays open *)

Context `{GL : !GRPCLaws G} `{SL : !StubsLaws (G := G)}.

(** The calls a process makes through its pool of connections. *)
Definition serve_calls (ops : list ClientOp) (s : Pool * G) : Pool * G := foldl (flip run_client) s ops.

(** Every address in the pool is visited. *)
Definition visits (order : list string) (p : Pool) : Prop := ∀ addr, is_Some (conns p !! addr) → addr ∈ order.

Lemma pool_empty_ok opts g : pool_ok (g_open g) (MkPool opts ∅, g).
Proof.
  split_and!; cbn [conns fst snd].
  - intros a b c. by rewrite lookup_empty.
  - intros a c. by rewrite lookup_empty.
  - intros x. split; [by left|]. intros [?|(a & Ha)]; [done|]. by rewrite lookup_empty in Ha.
Qed.

Lemma closeAll_open base order s :
  pool_ok base s → visits order s.1 →
  conns (closeAll order s).2.1 = ∅ ∧ ∀ x, g_open (closeAll order s).2.2 x ↔ base x.
Proof.
  intros Hs Hv. rewrite closeAll_state. destruct (close_loop_ok base order None s Hs) as [(_ & _ & J) Hc].
  assert (Hnone : ∀ a, conns (close_loop order None s).2.1 !! a = None).
  { intros a. destruct (conns (close_loop order None s).2.1 !! a) as [c|] eqn:E; [|done].
    apply Hc in E as [E Hn]. destruct Hn. apply Hv. by eexists. }
  split; [apply map_eq; intros a; by rewrite Hnone, lookup_empty|].
  intros x. rewrite J. split; [|by left]. intros [?|(a & Ha)]; [done|]. congruence.
Qed.

(** Closing a connection that is not the pool's. *)
Lemma close_other base c p g :
  pool_ok base (p, g) → base c → pool_ok (λ x, x ≠ c ∧ base x) (p, (conn_Close c g).2).
Proof.
  intros (I1 & I2 & I3) Hb. cbn [fst snd] in *. split_and!; cbn [fst snd]; [done| |].
  - intros a x Ha [_ ?]. by eapply I2.
  - intros x. rewrite (g_close c g x), I3. split.
    + intros [Hne [?|?]]; [by left|by right].
    + intros [[? ?]|(a & Ha)]; [by split; [|left]|]. split; [|right; by exists a]. intros ->. by eapply I2.
Qed.

(** A process with one fixed connection and a pool, closed in either order. *)
Lemma fixed_then_pool c opts ops order g0 g1 :
  ¬ g_open g0 c → (∀ x, g_open g1 x ↔ x = c ∨ g_open g0 x) →
  let s := serve_calls ops (MkPool opts ∅, g1) in
  visits order s.1 →
  let s' := (closeAll order (s.1, (conn_Close c s.2).2)).2 in conns s'.1 = ∅ ∧ ∀ x, g_open s'.2 x ↔ g_open g0 x.
Proof.
  intros Hno Hg s Hv. assert (Hs : pool_ok (g_open g1) s) by apply run_clients_ok, pool_empty_ok.
  destruct s as [p g]. cbv zeta. cbn [fst snd] in *.
  destruct (closeAll_open _ order _ (close_other _ c p g Hs ltac:(apply Hg; by left)) Hv) as [E HO].
  split; [done|]. intros x. rewrite HO, Hg. split; [naive_solver|]. intros Hx. split; [congruence|by right].
Qed.

Lemma pool_then_fixed c opts ops order g0 g1 :
  ¬ g_open g0 c → (∀ x, g_open g1 x ↔ x = c ∨ g_open g0 x) →
  let s := serve_calls ops (MkPool opts ∅, g1) in
  visits order s.1 →
  let s' := (closeAll order s).2 in conns s'.1 = ∅ ∧ ∀ x, g_open (conn_Close c s'.2).2 x ↔ g_open g0 x.
Proof.
  intros Hno Hg s Hv. assert (Hs : pool_ok (g_open g1) s) by apply run_clients_ok, pool_empty_ok. cbv zeta.
  destruct (closeAll_open _ order s Hs Hv) as [E HO]. split; [done|].
  intros x. rewrite g_close, HO, Hg. split; [naive_solver|]. intros Hx. split; [congruence|by right].
Qed.

(** What booting opens. *)
Lemma consensus_main_conn vars env listen d g cp d' g' :
  consensus_main vars env listen (d, g) = (Ok cp, (d', g')) →
  cp_transport cp = Transport_New [] ∧ ¬ g_open g (cc_conn (cp_catalog cp)) ∧
  ∀ x, g_open g' x ↔ x = cc_conn (cp_catalog cp) ∨ g_open g x.
Proof.
  unfold consensus_main, require_set, require_some, Listen, CatalogClient_New, DialPassthrough, onDisk, onNet, gfail.
  unfold mbind, mret, GoM_bind, GoM_ret. cbv zeta.
  destruct (decide _) as [?|_]; [done|]. destruct (LoadTimingConfigFromEnv vars) as [t|]; [|done].
  destruct (LoadSnapshotConfigFromEnv vars) as [sc|]; [|done].
  destruct (st_Latest _ d) as [[found|e] d1]; [|done]. destruct (decide _) as [?|_]; [done|].
  destruct (grpc_NewClient _ _ g) as [[c|e] g1] eqn:En; [|done].
  destruct (NewNode _ _ _) as [[n|e] d2]; [|done]. destruct (listen _); [done|].
  intros [= <- <- <-]. split; [done|]. exact (g_new _ _ _ _ _ En).
Qed.

Lemma backup_main_conn vars listen d g bp d' g' :
  backup_main vars listen (d, g) = (Ok bp, (d', g')) →
  bp_transfer bp = NewGRPCTransferClient [] ∧ ¬ g_open g (dc_conn (bp_discovery bp)) ∧
  ∀ x, g_open g' x ↔ x = dc_conn (bp_discovery bp) ∨ g_open g x.
Proof.
  unfold backup_main, require_set, require_some, Listen, Backup_NewGRPCDiscoveryClient, onDisk, onNet, gfail.
  unfold mbind, mret, GoM_bind, GoM_ret. cbv zeta.
  destruct (decide _) as [?|_]; [done|]. destruct (SnapshotServiceConfig.LoadConfigFromEnv vars) as [cfg|]; [|done].
  destruct (SnapshotService.NewStore _ d) as [[st|e] d1]; [|done].
  destruct (grpc_NewClient _ _ g) as [[c|e] g1] eqn:En; [|done]. destruct (listen _); [done|].
  intros [= <- <- <-]. split; [done|]. exact (g_new _ _ _ _ _ En).
Qed.

Lemma proxy_main_conn vars (d : D) g pp d' g' :
  proxy_main vars (d, g) = (Ok pp, (d', g')) →
  pp_factory pp = NewGRPCClientFactory [] ∧ ¬ g_open g (dc_conn (pp_discovery pp)) ∧
  ∀ x, g_open g' x ↔ x = dc_conn (pp_discovery pp) ∨ g_open g x.
Proof.
  unfold proxy_main, require_set, require_some, NewGRPCDiscoveryClient, onNet, gfail.
  unfold mbind, mret, GoM_bind, GoM_ret. cbv zeta.
  destruct (decide _) as [?|_]; [done|]. destruct (ProxyConfig.LoadConfigFromEnv vars) as [cfg|]; [|done].
  destruct (grpc_NewClient _ _ g) as [[c|e] g1] eqn:En; [|done].
  intros [= <- <- <-]. split; [done|]. exact (g_new _ _ _ _ _ En).
Qed.

Lemma discovery_main_conn vars listen (d : D) g dp d' g' :
  discovery_main vars listen (d, g) = (Ok dp, (d', g')) → dp_prober dp = NewGRPCProber [] ∧ g' = g.
Proof.
  unfold discovery_main, require_some, Listen, gfail. unfold mbind, mret, GoM_bind, GoM_ret. cbv zeta.
  destruct (DiscoveryConfig.LoadConfigFromEnv vars) as [cfg|]; [|done]. destruct (listen _); [done|].
  by intros [= <- <- <-].
Qed.

(** C31.  Every process gives its connections back: each of the four commands,
    once it has come up, whatever calls it makes to whatever addresses and
    however they fail, closes on its way out everything it has opened, in
    whatever order the connection maps are visited; and a consensus node's
    Stop does not panic and closes the stop channel of its loops, whatever the
    loops and handlers have done meanwhile. *)
Theorem processes_close_what_they_open vars env listen calls order d g :
  (∀ cp d' g' now evs p, consensus_main vars env listen (d, g) = (Ok cp, (d', g')) →
     let ns := consensus_serve now cp d' g' in
     let s := serve_calls calls (ns_transport ns, ns_net ns) in
     visits order s.1 → Forall ev_draws evs → run evs (ns_proc ns) = Some p →
     ∃ ns', consensus_exit order (MkNodeServer p s.1 (ns_catalog ns) s.2) = Some ns' ∧
       l_stopCh (pr_loops (ns_proc ns')) = true ∧ conns (ns_transport ns') = ∅ ∧
       ∀ x, g_open (ns_net ns') x ↔ g_open g x) ∧
  (∀ bp d' g', backup_main vars listen (d, g) = (Ok bp, (d', g')) →
     let s := serve_calls calls (bp_transfer bp, g') in
     visits order s.1 → ∀ x, g_open (backup_exit order bp s).2 x ↔ g_open g x) ∧
  (∀ pp d' g', proxy_main vars (d, g) = (Ok pp, (d', g')) →
     let s := serve_calls calls (pp_factory pp, g') in
     visits order s.1 → ∀ x, g_open (proxy_exit order pp s).2 x ↔ g_open g x) ∧
  (∀ dp d' g', discovery_main vars listen (d, g) = (Ok dp, (d', g')) →
     let s := serve_calls calls (dp_prober dp, g') in
     visits order s.1 → ∀ x, g_open (discovery_exit order s).2 x ↔ g_open g x).
Proof.
  split_and!.
  - intros cp d' g' now evs p Hm. destruct (consensus_main_conn _ _ _ _ _ _ _ _ Hm) as (Et & Hno & Hg).
    cbv zeta. cbn [consensus_serve ns_transport ns_net ns_catalog ns_proc]. rewrite Et. intros Hv Hev Hr.
    destruct (fixed_then_pool _ _ calls order g g' Hno Hg Hv) as [E HO].
    assert (Hst : ∃ p', Stop p = Some p' ∧ l_stopCh (pr_loops p') = true).
    { assert (Hs : l_stopCh (pr_loops p) = l_stopOnce (pr_loops p)).
      { refine (run_ind ev_draws (λ q, l_stopCh (pr_loops q) = l_stopOnce (pr_loops q)) evs _ p _ Hev Hr _); [|done].
        intros ev q q' _ Hq He. by apply (exec_stop _ _ _ He Hq). }
      destruct p as [? ? ? [[] [] ? ? ?] ? ?]; try done; by eexists. }
    destruct Hst as (p' & HS & Hch). unfold consensus_exit. cbn [ns_proc ns_transport ns_catalog ns_net]. rewrite HS.
    unfold CatalogClient_Close, Transport_Close. cbn [mbind option_bind]. unfold Transport_New in *.
    destruct (closeAll order _) as [r [tr g2]]. cbn [snd fst] in *. by eexists.
  - intros bp d' g' Hm. destruct (backup_main_conn _ _ _ _ _ _ _ Hm) as (Et & Hno & Hg). cbv zeta. rewrite Et. intros Hv.
    destruct (pool_then_fixed _ _ calls order g g' Hno Hg Hv) as [_ HO].
    unfold backup_exit, Transfer_Close, Backup_DiscoveryClient_Close, NewGRPCTransferClient in *.
    by destruct (closeAll order _) as [r [tr g2]].
  - intros pp d' g' Hm. destruct (proxy_main_conn _ _ _ _ _ _ Hm) as (Et & Hno & Hg). cbv zeta. rewrite Et. intros Hv.
    destruct (pool_then_fixed _ _ calls order g g' Hno Hg Hv) as [_ HO].
    unfold proxy_exit, Factory_Close, DiscoveryClient_Close, NewGRPCClientFactory in *.
    by destruct (closeAll order _) as [r [tr g2]].
  - intros dp d' g' Hm. destruct (discovery_main_conn _ _ _ _ _ _ _ Hm) as [Et ->]. cbv zeta. rewrite Et. intros Hv x.
    assert (Hs : pool_ok (g_open g) (serve_calls calls (NewGRPCProber [], g))) by apply run_clients_ok, pool_empty_ok.
    by destruct (closeAll_open _ order _ Hs Hv) as [_ HO].
Qed.

End lifecycle.
End Shutdown.

(** ** The node of Commands serves, calls its peers and ends *)

Import Shutdown Sim Concrete.
Import Trio.

Definition boot_a : result ConsensusProcess * (World * Net) := Eval vm_compute in
  consensus_main vars_a env (λ _, None) (disk_a, net0).
Definition node_a : NodeServer (D := World) (G := Net) :=
  match boot_a.1 with
  | Ok cp => consensus_serve 0 cp boot_a.2.1 boot_a.2.2
  | Err _ => MkNodeServer (NewProc 0 false (La5.1, disk_a)) (Transport_New []) (MkCatalogClient 0%nat) net0
  end.
Definition pool_a : Pool * Net := Eval vm_compute in serve_calls calls (ns_transport node_a, ns_net node_a).

Lemma processes_close_what_they_open_witness :
  net_open pool_a.2 = [10; 9; 8; 7]%nat ∧
  ∃ ns', consensus_exit ["c"; "b"] (MkNodeServer (ns_proc node_a) pool_a.1 (ns_catalog node_a) pool_a.2) = Some ns' ∧
    l_stopCh (pr_loops (ns_proc ns')) = true ∧ ∀ x, g_open (ns_net ns') x ↔ g_open net0 x.
Proof.
  split; [vm_compute; reflexivity|].
  assert (E : consensus_main vars_a env (λ _, None) (disk_a, net0) = boot_a) by (vm_compute; reflexivity).
  assert (Es : serve_calls calls (ns_transport node_a, ns_net node_a) = pool_a) by (vm_compute; reflexivity).
  destruct (processes_close_what_they_open vars_a env (λ _, None) calls ["c"; "b"] disk_a net0) as (Hc & _).
  revert Es. unfold node_a. destruct boot_a as [[cp|e] [d' g']] eqn:Eb; [|by vm_compute in Eb]. cbn [fst snd]. intros Es.
  specialize (Hc cp d' g' 0 [] (ns_proc (consensus_serve 0 cp d' g')) E). cbv zeta in Hc. rewrite Es in Hc.
  destruct Hc as (ns' & HX & HS & _ & HO); [|constructor|reflexivity|exists ns'; split; [exact HX|]; split; [exact HS|exact HO]].
  intros addr [c Hc']. assert (Ec : conns pool_a.1 = {["b" := 9%nat; "c" := 10%nat]}) by (vm_compute; reflexivity).
  rewrite Ec in Hc'. apply lookup_insert_Some in Hc' as [[<- _]|[_ Hc']]; [by right; left|].
  apply lookup_singleton_Some in Hc' as [<- _]. by left.
Defined.
